(* ===== verification/_CoqProject ===== *)
-Q . S2P
Prelude.v
Crc32.v
Abi.v
Ring.v
DeviceProfiles.v
Profile.v
ProfileSpec.v
Task.v
Seqlock.v
SeqlockSpec.v
SeqlockCalls.v
SeqlockWeak.v
SeqlockWeakSpec.v
Debug.v
DebugEncode.v
DebugSpec.v
DebugSession.v
Arm64.v
Command.v
CommandNumbers.v
CommandSpec.v
CommandGrammar.v
CommandLine.v
Maps.v
MapsSpec.v
MapsLock.v
MapsLockWeak.v
Text.v
Async.v
Interleave.v
AsyncThreads.v
AsyncThreadsSpec.v
RingThreads.v
RingLane.v
RingPush.v
RingThreadsSpec.v
Runtime.v
RuntimeSpec.v
GateThreads.v
GateThreadsSpec.v
Control.v
ControlSpec.v
Hooks.v
Render.v
KpatchMaps.v
Platform.v
PlatformSpec.v
Transport.v
TransportSpec.v
DebugPlatform.v
Main.v
MainSpec.v
HookCalls.v
MainEntry.v
Trace.v
TraceBuffer.v
TraceArrays.v
TraceOps.v
TraceSpec.v
TraceLoop.v
TraceFilter.v
TraceProbes.v
TraceProbesSpec.v
LoadSo.v
