(* ===== verification/Prelude.v ===== *)
(** * stackplz: a verification library

    ** The program

    stackplz observes processes of an Android device. Its C code has two halves.

    - The kernel module (src/kpm/) watches one task that the caller names. Five
      wrapped kernel functions (context switch, task exit, breakpoint, watchpoint
      and single-step exceptions) run its hooks. It borrows one hardware debug slot
      on every CPU, records hits in a ring of events, and can render the memory
      map of the task. A control call hands it one line of text and gets one line
      back. Work that must run in process context goes through a slot of one
      request to a worker.
    - The tracing programs (src/src/) are attached to the entry and exit of system
      calls, to user functions and to the creation of processes. User space
      configures, as a list of operations, what they read from memory and registers
      and which calls they report.

    The Go client that loads both and prints their events is not C and not modelled,
    except for the C file in it that loads a library to unwind stacks.

    ** The files

    Shared: Prelude.v (machine integers, errno, record updates, bit and byte lemmas,
    bounded loops, the tactics [zlia], [zbool] and [break_if] and the hint databases
    [spz] and [spz_bits]). Interleave.v: programs of single memory accesses, pools of
    threads that run them in any order, and a rely-guarantee logic for them.

    Kernel module, core (src/kpm/core/, headers in src/kpm/include/stackplz/):
    - Crc32.v: crc32.c. Abi.v: abi.h, the event and its wire image.
    - Ring.v: ring.c, per-CPU slot arrays, and the abstract log they implement.
      RingThreads.v: its operations as programs of single memory accesses. RingLane.v,
      RingPush.v and RingThreadsSpec.v: what they promise in every interleaving.
    - DeviceProfiles.v: generated/device_profiles.h. Profile.v: profile.c; ProfileSpec.v:
      which kernels it accepts.
    - Task.v: task.c, the binding to one task. Seqlock.v: its operations as programs
      of single memory accesses. SeqlockSpec.v: a program logic for threads running
      them. SeqlockCalls.v: in every interleaving they are atomic. SeqlockWeak.v and
      SeqlockWeakSpec.v: the same programs with the memory orders of the source.
    - Debug.v: debug.c. DebugEncode.v, DebugSpec.v and DebugSession.v: what it
      guarantees, over any table of register operations of class [DebugHw].
    - Command.v: command.c. CommandNumbers.v, CommandSpec.v, CommandGrammar.v and
      CommandLine.v: the language it accepts.
    - Maps.v: maps.c. MapsSpec.v: ownership and reading, over any backend of class
      [MapsBackend]. MapsLock.v: readers and writers, interleaved; MapsLockWeak.v: with
      the memory orders of the source.

    Kernel module, platform (src/kpm/platform/):
    - Arm64.v: arm64/debug_regs.c, an instance of [DebugHw]; its module [Host] is
      the build for other architectures.
    - Text.v, Control.v, ControlSpec.v: kpatch/control.c.
    - Async.v: the request slot of kpatch/async.c. AsyncThreads.v, AsyncThreadsSpec.v:
      the slot in every interleaving of control calls and workers. Transport.v,
      TransportSpec.v: its work queues, and the preparation of the module in
      kpatch/runtime.c.
    - Runtime.v, RuntimeSpec.v: the hooks, the requests and the unload protocol of
      kpatch/runtime.c. GateThreads.v, GateThreadsSpec.v: the gates of the handlers and
      of the commands in every interleaving of hooks, control calls, clears and unloads.
      Platform.v, PlatformSpec.v: its kernel callbacks and kpatch/compat.h.
      DebugPlatform.v: a prepared module works on the kernel's own debug slots.
    - Hooks.v: kpatch/hooks.c. Main.v, MainSpec.v, HookCalls.v, MainEntry.v:
      kpatch/main.c.
    - Render.v, KpatchMaps.v: kpatch/maps.c, an instance of [MapsBackend] over any
      kernel of class [KernelOps].

    Tracing programs (src/src/):
    - Trace.v: types.h, maps.h and common/consts.h. TraceBuffer.v, TraceArrays.v:
      common/buffer.h.
    - TraceOps.v: utils.h, the interpreter of the operations. TraceSpec.v,
      TraceLoop.v: what it guarantees.
    - TraceFilter.v: common/task.h, context.h and filtering.h.
    - TraceProbes.v, TraceProbesSpec.v: syscall.c, stack.c and common/arguments.h.

    Client: LoadSo.v: user/event/load_so.c.

    ** How the model corresponds to the code

    A C structure is a [Record] whose fields carry a short prefix, an enumeration an
    [Inductive] type with the constructors of the source, and an integer of width
    [w] a [Z] with its wrap-around written out. A function keeps its name. Pointers
    to structures become arguments and results; a status is a negated errno as in
    the code. Where C may be handed NULL the argument is an [option]. An access of
    the tracing programs outside an array is [None], and the theorems show that
    there is none.

    Code outside the repository is a parameter. The functions of the kernel and of
    the hook framework answer from the list of the calls made so far, so that no
    two answers need agree; the calls are recorded, and theorems about resources
    speak of the record. What the code relies on is a class with an instance that
    shows it can hold: [DebugHw] (a write is read back or reported, other registers
    stay), [OwnersOk], [MapsBackend], [KernelOps] and [Memory] (what the helpers
    that read memory return).

    ** What is proved

    - Life cycle: every order of loads, control calls, unloads and activity leaves
      the image in one of three clean states; hooks and preparation are all or
      nothing; an unload finds both gate counters at 0 and nothing can happen after it,
      it succeeds once the module is idle, which a successful clear makes it, and the
      hooks balance the gates; every hook call reaches the framework (MainSpec, Hooks,
      TransportSpec, RuntimeSpec, HookCalls). In every interleaving at most one command
      is at work behind the gate, a successful unload finds nobody at work and lets
      nobody in as long as no unload was refused for a handler inside, and a clear
      waits for the handlers it found (GateThreadsSpec).
    - Debug registers: only the borrowed slot changes, whatever fails; a failed
      arming undoes itself or quarantines the CPU; somebody else's changes are not
      overwritten; on a CPU nobody else reprograms a session gives the registers back
      or reports that it could not; the encoding selects exactly the requested bytes.
      The arm64 accessors of a module that was prepared are such hardware, with the
      owners in the kernel's own arrays (DebugEncode, DebugSpec, DebugSession, Arm64,
      DebugPlatform).
    - Events: the slot arrays implement one totally ordered bounded log, polling
      delivers every event, the wire image is read back, and the checksum is CRC-32
      and detects bursts (Ring, Abi, Crc32). In every interleaving of eight producers
      and a poll no event is torn, lost without being counted, or delivered twice or
      out of order (RingThreadsSpec).
    - Bindings: well-formed over any sequence of operations, and after a capture
      every identity handed out is that task; in every interleaving of memory
      accesses the calls that neither give up nor are overtaken are such a sequence
      (Task, SeqlockCalls). With acquire and release instead, the writers still exclude
      each other and lose nothing, but a snapshot may mix two versions
      (SeqlockWeakSpec).
    - Commands: the parser accepts exactly a declarative grammar, every admitted
      call is answered by one bounded line, which reaches the caller whole or not at
      all, and accepted lines take effect (CommandLine, ControlSpec, MainEntry). The
      fields of the line are those of the command if no other command came between
      the release of the gate and the answer.
    - Requests: executed exactly once and in order, run alone (Async) and in every
      interleaving of the control calls with any number of workers, where a busy test
      and a snapshot tell the truth (AsyncThreadsSpec).
    - Snapshots: every task and buffer is given back once, reading yields exactly
      the rendered bytes, readers and writers exclude each other, and the walk over
      the memory areas ends, each area printed once and the length that of what was
      printed (MapsSpec, MapsLock, Render, KpatchMaps).
    - Profiles: hooks are allowed exactly when the running kernel shows all that the
      profile says of it (ProfileSpec); a load names a profile in exactly one way
      (MainEntry). A task's identity is read inside the structure (Task).
    - Tracing: for every configuration and every content of memory a program ends
      inside its arrays and submits well-formed records; a loop runs as often as
      counted unless its body ends it; a comparison decides a prefix; the filter follows the user's lists;
      exit events follow entry events (TraceSpec, TraceLoop, TraceFilter,
      TraceProbesSpec). Arrays of texts are appended whole and read back (TraceArrays).
    - Unwinding: no function of the library is called after it was closed (LoadSo).

    ** Loops and bounds

    Loops bounded in the source keep their bound: 32 attempts to read a binding and
    128 to lock it, 100000 rounds of a writer waiting for readers and of a clear waiting
    for handlers, and [MAX_OP_COUNT]
    (64 or 256) rounds of the interpreter. The discarding loop of the ring gets as
    many rounds as there are events between tail and head. The walk over memory areas has no
    bound in the source: [run_bounded] with 64 allows 2^64 rounds, and
    [render_loop_terminates] shows that they are never used up. Draining a ring and
    reading a snapshot are iterations of the caller, with one unit of fuel for each
    event or byte.

    ** Concurrency

    A call of the module, a hook or a probe is one step and steps are interleaved in
    any order; inside a call nothing else runs, except where a file says otherwise:
    MapsLock.v, Seqlock.v, RingThreads.v, AsyncThreads.v and GateThreads.v interleave
    single memory accesses, taken to be sequentially consistent, and TraceLoop.v puts
    another CPU's comparison between two accesses of a shared map. SeqlockWeak.v and
    MapsLockWeak.v give the accesses the orders of the source: memory keeps every write,
    a load may return an older one than the newest as long as the thread knows of no
    newer one, and acquiring a released write shows what its writer knew. Load buffering
    is left out there, and the writes to a cell are ordered as they are made, so that
    an execution found is one C11 allows, while a theorem about all executions speaks of
    those without load buffering. Runs of RingThreads.v and AsyncThreads.v have fewer
    than 2^62 accesses, so that no counter of 64 bits wraps around. The hooks of one CPU
    do not interrupt each other, the loader unloads from one thread, and control calls
    pass the control gate one at a time, which GateThreadsSpec.v shows. A control call
    copies its answer behind that gate: what others do in between is the argument
    [others] of [spz_control_execute], and the life cycle allows anything there. An unload that zeroes the module while a call still copies is not
    modelled.

    ** What modelling showed

    - A snapshot of the binding lacks the fence in front of its second look at the
      sequence: with the orders of the source it can mix two requests, and a hook can
      bind the task of the one before ([weak_snapshot_binds_wrong_task]).
    - The readers and writers of a snapshot need sequentially consistent order to see
      each other, which the source does not ask for ([weak_lock_misses]).
    - A refused unload stores 0 over the count of running handlers
      ([refused_unload_forgets_handler]), and the next one succeeds with a handler at
      work ([refused_unload_loses_handler]).
    - The audit is a second producer in the ring of its CPU: an accepted event can be
      overwritten, and a poll then waits for it for ever ([audit_overwrites_event]).
    - A control call copies its answer from a shared buffer after it released the
      gate, so that another call can overwrite it ([overlapping_call_garbles]).
    - A clear does not close the gate of the handlers and may reset the ring while one
      is at work ([clear_resets_under_handler]).
    - The operation context of the tracing programs is cleared with the size of a
      pointer, so that a pending operation of one call runs in the next
      ([stale_context_changes_event]).
    - The lists that share one map overlap for user and process ids as they occur
      ([lists_overlap]).
    - Comparisons on two CPUs disturb each other through the shared map
      ([strcmp_races]).
    - The filters gt and lt keep the calls the documentation says they skip
      ([numeric_filters]).
    - A loop of count 0 runs its body once ([loop_body_runs]).
    - [spz_maps_read_begin] chooses its error code after it gave up its claim on the
      snapshot.
    - [save_str_arr_to_buf] can leave the offset behind the end of the buffer
      ([array_at_end]).

    ** Not modelled

    perf_mmap.c (maps only), the vendored headers vmlinux_510.h and bpf/, memory.h,
    arch.h and common.h (accessors without users, and read macros whose results are
    parameters), builtins.c and freestanding.h (forwarding and macros), the Go client,
    and tests, tools and build scripts.

    ** Plan

    The memory orders of the ring and of the request slot. *)

From Stdlib Require Export ZArith Lia.
From Stdlib Require String Ascii.
Export Stdlib.Strings.String.StringSyntax.
From stdpp Require Export base numbers option list.

#[global] Open Scope Z_scope.
#[global] Set Warnings "-notation-overridden,-clear-no-such-hyp".

(** ** Machine integers

    A C unsigned integer of width [w] is a [Z] in [[0, 2^w)]; the wrap-around
    of the C arithmetic is written with [u8], [u16], [u32] and [u64]. *)

Definition u8 (z : Z) : Z := z mod 256.
Definition u16 (z : Z) : Z := z mod 65536.
Definition u32 (z : Z) : Z := z mod 4294967296.
Definition u64 (z : Z) : Z := z mod 18446744073709551616.

Definition UINT8_MAX : Z := 255.
Definition UINT16_MAX : Z := 65535.
Definition UINT32_MAX : Z := 4294967295.
Definition UINT64_MAX : Z := 18446744073709551615.

Abbreviation is_u8 z := (0 <= z <= 255).
Abbreviation is_u16 z := (0 <= z <= 65535).
Abbreviation is_u32 z := (0 <= z <= 4294967295).
Abbreviation is_u64 z := (0 <= z <= 18446744073709551615).

(** ** errno values (asm-generic), as the positive numbers the code negates *)

Definition ESRCH : Z := 3.
Definition EINTR : Z := 4.
Definition ENOENT : Z := 2.
Definition EIO : Z := 5.
Definition E2BIG : Z := 7.
Definition EAGAIN : Z := 11.
Definition ENOMEM : Z := 12.
Definition EFAULT : Z := 14.
Definition EBUSY : Z := 16.
Definition EXDEV : Z := 18.
Definition EINVAL : Z := 22.
Definition ENOSPC : Z := 28.
Definition ERANGE : Z := 34.
Definition EPROTO : Z := 71.
Definition EOVERFLOW : Z := 75.
Definition EOPNOTSUPP : Z := 95.
Definition EINPROGRESS : Z := 115.
Definition ESTALE : Z := 116.
Definition EUCLEAN : Z := 117.

(** ** Record update: [r <| field := v |>]

    Each record declares its shape once; the update of a field is then derived
    by abstracting that projection in the shape. *)

Definition rapp {R A B : Type} (k : R -> A -> B) (f : R -> A) : R -> B :=
  fun r => k r (f r).

Class Shape (R : Type) := shape : R -> R.

Class FieldUpdate {R T : Type} (f : R -> T) := field_update : (T -> T) -> R -> R.

Notation "'shape!' mk '<' f ; .. ; g '>'" :=
  ((rapp .. (rapp (fun _ => mk) f) .. g) : Shape _)
  (at level 0, mk at level 10, f at level 9, g at level 9, only parsing).

Ltac derive_update R f :=
  let s := constr:(@shape R _) in
  let body := eval hnf in s in
  let body := eval cbv beta delta [rapp] in body in
  lazymatch eval pattern f in body with
  | ?upd _ => exact (fun (g : _ -> _) => upd (fun r => g (f r)))
  end.

#[export] Hint Extern 0 (@FieldUpdate ?R _ ?f) => derive_update R f : typeclass_instances.

Declare Scope record_scope.
Open Scope record_scope.
Notation "r <| f := v |>" := (field_update (f := f) (fun _ => v) r)
  (at level 1, f at level 0, left associativity, format "r  <| f  :=  v |>") : record_scope.
Notation "r <| f ::= g |>" := (field_update (f := f) g r)
  (at level 1, f at level 0, left associativity, format "r  <| f  ::=  g |>") : record_scope.

(** ** Tactics and hint databases *)

(** [spz_ints]: unfold the width functions and constants, for [lia]. *)
Ltac spz_ints := unfold u8, u16, u32, u64, UINT8_MAX, UINT16_MAX, UINT32_MAX, UINT64_MAX in *.

(** [zlia]: linear arithmetic after unfolding the machine-integer vocabulary;
    [mod] by the width is eliminated through its quotient and remainder. *)
Ltac zlia := spz_ints; Z.div_mod_to_equations; lia.

(** [break_if]: case analysis on the scrutinee of an [if] of the goal, keeping
    the equation, with contradictory arithmetic branches closed. *)
Ltac break_if :=
  match goal with
  | |- context [if ?b then _ else _] =>
      lazymatch b with
      | context [if _ then _ else _] => fail
      | _ => let E := fresh "E" in destruct b eqn:E; try lia
      end
  end.

Ltac break_if_in H :=
  match type of H with
  | context [if ?b then _ else _] =>
      lazymatch b with
      | context [if _ then _ else _] => fail
      | _ => let E := fresh "E" in destruct b eqn:E; try lia
      end
  end.

Lemma eqb_ne (a b : Z) : a <> b -> (a =? b) = false.
Proof. apply Z.eqb_neq. Qed.

(** [zbool]: evaluate the comparisons of the goal that arithmetic settles. *)
Ltac zbool :=
  repeat match goal with
  | |- context [?a =? ?b] =>
      first [rewrite (proj2 (Z.eqb_eq a b)) by lia | rewrite (eqb_ne a b) by lia]
  | |- context [?a <? ?b] =>
      first [rewrite (proj2 (Z.ltb_lt a b)) by lia | rewrite (proj2 (Z.ltb_ge a b)) by lia]
  | |- context [?a <=? ?b] =>
      first [rewrite (proj2 (Z.leb_le a b)) by lia | rewrite (proj2 (Z.leb_gt a b)) by lia]
  end; cbn [negb andb orb].

(** The bits of a [w]-bit number: decided position by position. *)
Create HintDb spz_bits.
Create Rewrite HintDb spz_bits.
#[export] Hint Rewrite Z.lxor_spec Z.land_spec Z.lor_spec : spz_bits.

Create HintDb spz.

(** ** Bounded integers and bits *)

Lemma testbit_high (w c i : Z) : 0 <= c < 2 ^ w -> w <= i -> Z.testbit c i = false.
Proof.
  intros Hc Hi. destruct (Z.eq_dec c 0) as [->|Hn]; [apply Z.bits_0|].
  apply Z.bits_above_log2; [lia|].
  assert (Z.log2 c < w) by (apply Z.log2_lt_pow2; lia). lia.
Qed.

Lemma bits_bounded (w c : Z) :
  0 <= w -> 0 <= c -> (forall i, w <= i -> Z.testbit c i = false) -> 0 <= c < 2 ^ w.
Proof.
  intros Hw Hc Hb. split; [done|].
  destruct (Z.eq_dec c 0) as [->|Hn]; [apply Z.pow_pos_nonneg; lia|].
  apply Z.log2_lt_pow2; [lia|].
  destruct (Z.lt_ge_cases (Z.log2 c) w) as [|Hge]; [done|].
  specialize (Hb _ Hge). rewrite Z.bit_log2 in Hb by lia. done.
Qed.

(** Two [w]-bit numbers with the same low [w] bits are equal. *)
Lemma bits_eq (w a b : Z) :
  0 <= a < 2 ^ w -> 0 <= b < 2 ^ w ->
  (forall i, 0 <= i < w -> Z.testbit a i = Z.testbit b i) -> a = b.
Proof.
  intros Ha Hb Hbits. apply Z.bits_inj'. intros i Hi.
  destruct (Z.lt_ge_cases i w); [by apply Hbits|].
  by rewrite !(testbit_high w) by lia.
Qed.

Lemma lxor_bounded (w a b : Z) :
  0 <= w -> 0 <= a < 2 ^ w -> 0 <= b < 2 ^ w -> 0 <= Z.lxor a b < 2 ^ w.
Proof.
  intros Hw Ha Hb. apply bits_bounded; [done|by apply Z.lxor_nonneg; split; lia|].
  intros i Hi. by rewrite Z.lxor_spec, !(testbit_high w) by lia.
Qed.

Lemma land_bounded (w a b : Z) :
  0 <= w -> 0 <= a < 2 ^ w -> 0 <= Z.land a b < 2 ^ w.
Proof.
  intros Hw Ha. apply bits_bounded; [done|apply Z.land_nonneg; lia|].
  intros i Hi. by rewrite Z.land_spec, (testbit_high w a) by lia.
Qed.

Lemma shiftr_bounded (w a k : Z) :
  0 <= w -> 0 <= k -> 0 <= a < 2 ^ w -> 0 <= Z.shiftr a k < 2 ^ w.
Proof.
  intros Hw Hk Ha. rewrite Z.shiftr_div_pow2 by done. split; [apply Z.div_pos; nia|].
  apply Z.le_lt_trans with a; [|lia]. apply Z.div_le_upper_bound; nia.
Qed.

Lemma lxor_inj_r (a b c : Z) : Z.lxor a c = Z.lxor b c -> a = b.
Proof.
  intros Heq. rewrite <- (Z.lxor_0_r a), <- (Z.lxor_0_r b), <- (Z.lxor_nilpotent c).
  by rewrite <- !Z.lxor_assoc, Heq.
Qed.

#[export] Hint Resolve lxor_bounded land_bounded shiftr_bounded : spz_bits.

(** ** Bytes and little-endian words

    A byte is a [Z] in [[0, 256)]; a C object is the list of its bytes. *)

Definition is_bytes (bs : list Z) : Prop := Forall (fun b => is_u8 b) bs.

(** The [n] little-endian bytes of a word, and the word of a byte list. *)
Fixpoint le_bytes (n : nat) (z : Z) : list Z :=
  match n with
  | O => []
  | S n => z mod 256 :: le_bytes n (z / 256)
  end.

Fixpoint le_value (bs : list Z) : Z :=
  match bs with
  | [] => 0
  | b :: bs => b + 256 * le_value bs
  end.

Lemma length_le_bytes n z : length (le_bytes n z) = n.
Proof. revert z. induction n as [|n IH]; intros z; simpl; [done|by rewrite IH]. Qed.

Lemma le_bytes_bytes n z : is_bytes (le_bytes n z).
Proof. revert z. induction n as [|n IH]; intros z; simpl; constructor; [zlia|apply IH]. Qed.

Lemma le_value_bounded bs :
  is_bytes bs -> 0 <= le_value bs < 2 ^ (8 * Z.of_nat (length bs)).
Proof.
  induction 1 as [|b bs Hb _ IH]; simpl; [lia|].
  rewrite Nat2Z.inj_succ.
  replace (8 * Z.succ (Z.of_nat (length bs))) with (8 + 8 * Z.of_nat (length bs)) by lia.
  rewrite Z.pow_add_r by lia. change (2 ^ 8) with 256. nia.
Qed.

(** Reading back what was written: the value, reduced to the width. *)
Lemma le_value_le_bytes n z : le_value (le_bytes n z) = z mod 2 ^ (8 * Z.of_nat n).
Proof.
  revert z. induction n as [|n IH]; intros z; simpl.
  - by rewrite Z.mod_1_r.
  - rewrite IH, Nat2Z.inj_succ.
    replace (8 * Z.succ (Z.of_nat n)) with (8 + 8 * Z.of_nat n) by lia.
    rewrite Z.pow_add_r by lia. change (2 ^ 8) with 256.
    rewrite Z.rem_mul_r by lia. done.
Qed.

Lemma le_bytes_le_value bs : is_bytes bs -> le_bytes (length bs) (le_value bs) = bs.
Proof.
  induction 1 as [|b bs Hb _ IH]; simpl; [done|].
  replace ((b + 256 * le_value bs) / 256) with (le_value bs) by zlia.
  rewrite IH. f_equal. zlia.
Qed.

Lemma le_value_inj bs1 bs2 :
  is_bytes bs1 -> is_bytes bs2 -> length bs1 = length bs2 ->
  le_value bs1 = le_value bs2 -> bs1 = bs2.
Proof.
  intros H1 H2 Hl Hv.
  by rewrite <- (le_bytes_le_value bs1), <- (le_bytes_le_value bs2), Hl, Hv by done.
Qed.

Lemma is_bytes_app bs1 bs2 : is_bytes (bs1 ++ bs2) <-> is_bytes bs1 /\ is_bytes bs2.
Proof. apply Forall_app. Qed.

#[global] Arguments le_bytes : simpl never.
#[export] Hint Resolve le_bytes_bytes : spz.

(** A 64-bit word of an object at an offset, and bytes copied over an object. *)
Definition read_u64 (bytes : list Z) (offset : Z) : Z := le_value (take 8 (drop (Z.to_nat offset) bytes)).

Definition write_at (bytes : list Z) (offset : Z) (value : list Z) : list Z :=
  take (Z.to_nat offset) bytes ++ value ++ drop (Z.to_nat offset + length value) bytes.

Lemma length_write_at bytes offset value :
  (Z.to_nat offset + length value <= length bytes)%nat -> length (write_at bytes offset value) = length bytes.
Proof. intros H. unfold write_at. rewrite !length_app, length_take, length_drop. lia. Qed.

Lemma is_bytes_take n bs : is_bytes bs -> is_bytes (take n bs).
Proof. apply Forall_take. Qed.
Lemma is_bytes_drop n bs : is_bytes bs -> is_bytes (drop n bs).
Proof. apply Forall_drop. Qed.

Lemma is_bytes_write_at bytes offset value : is_bytes bytes -> is_bytes value -> is_bytes (write_at bytes offset value).
Proof.
  intros Hb Hv. apply is_bytes_app; split; [by apply is_bytes_take|].
  apply is_bytes_app; split; [done|by apply is_bytes_drop].
Qed.

Lemma read_u64_range bytes offset : is_bytes bytes -> is_u64 (read_u64 bytes offset).
Proof.
  intros Hb. pose proof (le_value_bounded (take 8 (drop (Z.to_nat offset) bytes))) as H.
  assert (8 * Z.of_nat (length (take 8 (drop (Z.to_nat offset) bytes))) <= 64) as Hl
    by (rewrite length_take; lia).
  assert (2 ^ (8 * Z.of_nat (length (take 8 (drop (Z.to_nat offset) bytes)))) <= 2 ^ 64)
    by (apply Z.pow_le_mono_r; lia).
  unfold read_u64. specialize (H ltac:(apply is_bytes_take; by apply is_bytes_drop)). lia.
Qed.

#[export] Hint Resolve is_bytes_take is_bytes_drop is_bytes_write_at read_u64_range : spz.

(** ** Loops without a counter

    [run_bounded n step] runs a loop body until it leaves with [inr], for at most
    [2^n] rounds; it stays executable however large [n] is, since it stops with
    the loop. A loop whose measure decreases never meets the bound. *)

Section run_bounded.
Context {S R : Type} (step : S -> S + R).

Fixpoint run_bounded (n : nat) (s : S) : S + R :=
  match n with
  | O => step s
  | Datatypes.S n =>
      match run_bounded n s with
      | inl s => run_bounded n s
      | inr r => inr r
      end
  end.

Section measure.
Context (P : S -> Prop) (m : S -> Z).
Hypothesis step_decreases : forall s s', P s -> step s = inl s' -> P s' /\ 0 <= m s' < m s.

Lemma run_bounded_inl n s s' :
  P s -> run_bounded n s = inl s' -> P s' /\ 0 <= m s' /\ m s' <= m s - 2 ^ Z.of_nat n.
Proof.
  revert s s'. induction n as [|n IH]; intros s s' Hs; simpl run_bounded.
  - intros [? ?]%(step_decreases s s' Hs). change (2 ^ Z.of_nat 0) with 1. split; [done|lia].
  - destruct (run_bounded n s) as [s1|] eqn:E; [|done]. intros E'.
    apply IH in E as (H1 & ? & ?); [|done]. apply IH in E' as (? & ? & ?); [|done].
    rewrite Nat2Z.inj_succ, Z.pow_succ_r by lia. split_and!; [done|lia|lia].
Qed.

Lemma run_bounded_ends n s : P s -> m s < 2 ^ Z.of_nat n -> exists r, run_bounded n s = inr r.
Proof.
  intros Hs Hm. destruct (run_bounded n s) as [s'|r] eqn:E; [|eauto].
  apply run_bounded_inl in E; [|done]. lia.
Qed.
End measure.

(** An invariant of the rounds holds when the loop leaves. *)
Section invariant.
Context (P : S -> Prop) (Q : R -> Prop).
Hypothesis step_keeps : forall s, P s -> match step s with inl s' => P s' | inr r => Q r end.

Lemma run_bounded_inv n s : P s -> match run_bounded n s with inl s' => P s' | inr r => Q r end.
Proof.
  revert s. induction n as [|n IH]; intros s Hs; simpl run_bounded; [by apply step_keeps|].
  specialize (IH s Hs) as IH1. destruct (run_bounded n s) as [s1|]; [by apply IH|done].
Qed.
End invariant.
End run_bounded.

(** ** C strings

    A C string is the list of its bytes in front of the terminating NUL; a
    [const char *] that may be NULL is an [option]. *)

Fixpoint str (s : String.string) : list Z :=
  match s with
  | String.EmptyString => []
  | String.String c s => Z.of_nat (Ascii.nat_of_ascii c) :: str s
  end.

#[global] Arguments str s%_string_scope.
