(* ===== verification/Crc32.v ===== *)
(** * CRC-32 (kpm/core/crc32.c)

    The bit-serial, least-significant-bit-first CRC-32 of [spz_crc32_ieee],
    which protects every event of the ring and every maps snapshot. *)

From S2P Require Import Prelude.

(** [crc = (crc >> 1) ^ (0xedb88320 & -(crc & 1))], one iteration of the inner
    loop; [mask] is the two's complement of the low bit, so all ones or zero. *)
Definition crc_bit (crc : Z) : Z :=
  let mask := u32 (- Z.land crc 1) in
  Z.lxor (Z.shiftr crc 1) (Z.land 0xedb88320 mask).

(** One iteration of the outer loop: xor the byte in, then eight bit steps. *)
Definition crc_byte (crc byte : Z) : Z :=
  Nat.iter 8 crc_bit (Z.lxor crc byte).

Strategy expand [crc_byte].

(** The loop over the buffer. *)
Definition crc_bytes (crc : Z) (bytes : list Z) : Z := foldl crc_byte crc bytes.

(** [spz_crc32_ieee data length]: the buffer is [None] when the pointer is NULL
    and otherwise holds at least [length] bytes. *)
Definition spz_crc32_ieee (data : option (list Z)) (length : nat) : Z :=
  match data with
  | None => if Nat.eqb length 0 then u32 (Z.lnot (crc_bytes UINT32_MAX [])) else 0
  | Some bytes => u32 (Z.lnot (crc_bytes UINT32_MAX (take length bytes)))
  end.

(** The CRC of a whole buffer. *)
Definition crc_of (bytes : list Z) : Z := spz_crc32_ieee (Some bytes) (length bytes).

(** The published check value of CRC-32/ISO-HDLC. *)
Example crc_check_value :
  crc_of [49;50;51;52;53;54;55;56;57] = 0xcbf43926.
Proof. vm_compute. reflexivity. Qed.

(** ** The bit step *)

Abbreviation u32_range c := (0 <= c < 2 ^ 32) (only parsing).

Lemma crc_bit_alt c :
  crc_bit c = Z.lxor (Z.shiftr c 1) (if Z.odd c then 0xedb88320 else 0).
Proof.
  unfold crc_bit. f_equal. change 1 with (Z.ones 1). rewrite Z.land_ones by lia.
  change (2 ^ 1) with 2. rewrite Zmod_odd. by destruct (Z.odd c).
Qed.

Lemma crc_bit_bounded c : u32_range c -> u32_range (crc_bit c).
Proof.
  intros Hc. rewrite crc_bit_alt. apply lxor_bounded; [lia|by apply shiftr_bounded|].
  destruct (Z.odd c); lia.
Qed.

Lemma crc_bit_testbit c i :
  u32_range c -> 0 <= i ->
  Z.testbit (crc_bit c) i =
  xorb (Z.testbit c (i + 1)) (Z.testbit 0xedb88320 i && Z.testbit c 0).
Proof.
  intros Hc Hi. rewrite crc_bit_alt, Z.lxor_spec, Z.shiftr_spec, Z.bit0_odd by lia.
  destruct (Z.odd c); by rewrite ?andb_true_r, ?andb_false_r, ?Z.bits_0.
Qed.

(** The step loses nothing: bit 31 of the polynomial is set, so the low bit of
    the register survives as bit 31 of the result. *)
Lemma crc_bit_inj c1 c2 :
  u32_range c1 -> u32_range c2 -> crc_bit c1 = crc_bit c2 -> c1 = c2.
Proof.
  intros H1 H2 Heq.
  assert (Hlow : Z.testbit c1 0 = Z.testbit c2 0).
  { pose proof (crc_bit_testbit c1 31 H1 ltac:(lia)) as T1.
    pose proof (crc_bit_testbit c2 31 H2 ltac:(lia)) as T2.
    rewrite Heq, T2 in T1. rewrite (testbit_high 32 c1), (testbit_high 32 c2) in T1 by lia.
    change (Z.testbit 0xedb88320 31) with true in T1. by destruct (Z.testbit c1 0), (Z.testbit c2 0). }
  apply (bits_eq 32); [done..|]. intros i Hi.
  destruct (Z.eq_dec i 0) as [->|Hn]; [done|].
  pose proof (crc_bit_testbit c1 (i - 1) H1 ltac:(lia)) as T1.
  pose proof (crc_bit_testbit c2 (i - 1) H2 ltac:(lia)) as T2.
  rewrite Heq, T2, Hlow in T1. replace (i - 1 + 1) with i in T1 by lia.
  by destruct (Z.testbit c1 i), (Z.testbit c2 i), (Z.testbit _ (i - 1)), (Z.testbit c2 0).
Qed.

Lemma crc_bit_lxor a b : crc_bit (Z.lxor a b) = Z.lxor (crc_bit a) (crc_bit b).
Proof.
  rewrite !crc_bit_alt, Z.shiftr_lxor, <- !Z.bit0_odd, Z.lxor_spec.
  destruct (Z.testbit a 0), (Z.testbit b 0); simpl; apply Z.bits_inj'; intros i Hi;
    rewrite ?Z.lxor_spec, ?Z.bits_0;
    by destruct (Z.testbit (Z.shiftr a 1) i), (Z.testbit (Z.shiftr b 1) i),
      (Z.testbit 0xedb88320 i).
Qed.

Lemma crc_bit_double z : crc_bit (2 * z) = z.
Proof.
  rewrite crc_bit_alt, Z.odd_mul. simpl. rewrite Z.lxor_0_r, Z.shiftr_div_pow2 by lia.
  change (2 ^ 1) with 2. zlia.
Qed.

(** ** Iterated steps *)

Lemma iter_bit_bounded n c : u32_range c -> u32_range (Nat.iter n crc_bit c).
Proof. induction n as [|n IH]; intros Hc; simpl; [done|by apply crc_bit_bounded, IH]. Qed.

Lemma iter_bit_inj n c1 c2 :
  u32_range c1 -> u32_range c2 ->
  Nat.iter n crc_bit c1 = Nat.iter n crc_bit c2 -> c1 = c2.
Proof.
  intros H1 H2. induction n as [|n IH]; simpl; [done|]. intros Heq.
  apply IH, crc_bit_inj; [by apply iter_bit_bounded..|done].
Qed.

Lemma iter_bit_lxor n a b :
  Nat.iter n crc_bit (Z.lxor a b) = Z.lxor (Nat.iter n crc_bit a) (Nat.iter n crc_bit b).
Proof. induction n as [|n IH]; simpl; [done|]. by rewrite IH, crc_bit_lxor. Qed.

Lemma iter_bit_shift n z : Nat.iter n crc_bit (z * 2 ^ Z.of_nat n) = z.
Proof.
  induction n as [|n IH]; [simpl; lia|]. rewrite Nat.iter_succ_r, Nat2Z.inj_succ, Z.pow_succ_r by lia.
  replace (z * (2 * 2 ^ Z.of_nat n)) with (2 * (z * 2 ^ Z.of_nat n)) by lia.
  by rewrite crc_bit_double.
Qed.

Lemma byte_lxor_range c b : u32_range c -> is_u8 b -> u32_range (Z.lxor c b).
Proof. intros. apply lxor_bounded; lia. Qed.

Lemma crc_byte_bounded c b : u32_range c -> is_u8 b -> u32_range (crc_byte c b).
Proof. intros. by apply iter_bit_bounded, byte_lxor_range. Qed.

Lemma crc_bytes_bounded c bs : u32_range c -> is_bytes bs -> u32_range (crc_bytes c bs).
Proof.
  intros Hc Hbs. revert c Hc. induction Hbs as [|b bs Hb _ IH]; intros c Hc; [done|].
  apply IH. by apply crc_byte_bounded.
Qed.

Lemma crc_byte_inj c1 c2 b :
  u32_range c1 -> u32_range c2 -> is_u8 b -> crc_byte c1 b = crc_byte c2 b -> c1 = c2.
Proof.
  intros H1 H2 Hb Heq. apply (iter_bit_inj 8) in Heq; [|by apply byte_lxor_range..].
  by apply lxor_inj_r in Heq.
Qed.

Lemma crc_bytes_inj c1 c2 bs :
  u32_range c1 -> u32_range c2 -> is_bytes bs ->
  crc_bytes c1 bs = crc_bytes c2 bs -> c1 = c2.
Proof.
  intros H1 H2 Hbs. revert c1 c2 H1 H2.
  induction Hbs as [|b bs Hb _ IH]; intros c1 c2 H1 H2 Heq; [done|].
  apply (crc_byte_inj _ _ b); [done..|]. apply IH; [by apply crc_byte_bounded..|done].
Qed.

Lemma crc_bytes_app c bs1 bs2 : crc_bytes c (bs1 ++ bs2) = crc_bytes (crc_bytes c bs1) bs2.
Proof. apply foldl_app. Qed.

(** The final complement. *)
Lemma u32_lnot c : u32_range c -> u32 (Z.lnot c) = UINT32_MAX - c.
Proof. intros Hc. unfold Z.lnot, Z.pred. zlia. Qed.

Lemma crc_of_eq bs : crc_of bs = u32 (Z.lnot (crc_bytes UINT32_MAX bs)).
Proof. unfold crc_of; simpl. by rewrite firstn_all. Qed.

Lemma crc_of_bounded bs : is_u32 (crc_of bs).
Proof. rewrite crc_of_eq. zlia. Qed.


(** ** Bursts: up to four consecutive bytes enter the register injectively *)

Lemma lxor_low_byte (b v : Z) : is_u8 b -> 0 <= v -> Z.lxor b (v * 2 ^ 8) = b + 256 * v.
Proof.
  intros Hb Hv. rewrite <- Z.add_nocarry_lxor; [change (2 ^ 8) with 256; lia|].
  apply Z.bits_inj'. intros i Hi. rewrite Z.land_spec, Z.bits_0.
  destruct (Z.lt_ge_cases i 8); [|by rewrite (testbit_high 8 b) by lia].
  rewrite Z.mul_pow2_bits_low by lia. by rewrite andb_false_r.
Qed.

(** Feeding at most four bytes is one xor with their little-endian word followed
    by all the bit steps. *)
Lemma crc_bytes_word c bs :
  is_bytes bs -> (length bs <= 4)%nat ->
  crc_bytes c bs = Nat.iter (8 * length bs) crc_bit (Z.lxor c (le_value bs)).
Proof.
  intros Hbs. revert c. induction Hbs as [|b bs Hb Hbs IH]; intros c Hlen.
  { simpl. by rewrite Z.lxor_0_r. }
  cbn [length] in *. replace (8 * S (length bs))%nat with (8 * length bs + 8)%nat by lia.
  rewrite Nat.iter_add. change (crc_bytes c (b :: bs)) with (crc_bytes (crc_byte c b) bs).
  rewrite IH by lia. f_equal. unfold crc_byte. cbn [le_value].
  pose proof (le_value_bounded bs Hbs) as Hv.
  rewrite <- lxor_low_byte by lia.
  rewrite <- Z.lxor_assoc, (iter_bit_lxor 8 (Z.lxor c b)).
  by rewrite (iter_bit_shift 8).
Qed.

Lemma crc_bytes_window_inj c w1 w2 :
  u32_range c -> is_bytes w1 -> is_bytes w2 -> length w1 = length w2 -> (length w1 <= 4)%nat ->
  crc_bytes c w1 = crc_bytes c w2 -> w1 = w2.
Proof.
  intros Hc H1 H2 Hl Hlen Heq.
  rewrite !crc_bytes_word, Hl in Heq by (done || lia).
  assert (Hrange : forall w, is_bytes w -> length w = length w2 -> u32_range (Z.lxor c (le_value w))).
  { intros w Hw Hlw. apply lxor_bounded; [lia|done|]. pose proof (le_value_bounded w Hw) as Hb.
    assert (2 ^ (8 * Z.of_nat (length w)) <= 2 ^ 32) by (apply Z.pow_le_mono_r; lia). lia. }
  apply iter_bit_inj in Heq; [|by apply Hrange..].
  rewrite !(Z.lxor_comm c) in Heq. apply lxor_inj_r in Heq. by apply le_value_inj.
Qed.

(** Every corruption confined to at most four consecutive bytes
    changes the CRC: two buffers that differ only inside one such window never
    have the same [spz_crc32_ieee]. *)
Theorem spz_crc32_detects_burst pre w1 w2 post :
  is_bytes pre -> is_bytes w1 -> is_bytes w2 -> is_bytes post ->
  length w1 = length w2 -> (length w1 <= 4)%nat -> w1 <> w2 ->
  crc_of (pre ++ w1 ++ post) <> crc_of (pre ++ w2 ++ post).
Proof.
  intros Hpre H1 H2 Hpost Hl Hlen Hne Heq. apply Hne.
  assert (Hc : u32_range (crc_bytes UINT32_MAX pre)) by (apply crc_bytes_bounded; [zlia|done]).
  assert (Hw : forall w, is_bytes w -> u32_range (crc_bytes (crc_bytes UINT32_MAX pre) w))
    by (intros; by apply crc_bytes_bounded).
  apply (crc_bytes_window_inj (crc_bytes UINT32_MAX pre)); [done..|].
  apply (crc_bytes_inj _ _ post); [by apply Hw..|done|].
  rewrite !crc_of_eq, !crc_bytes_app in Heq.
  rewrite !u32_lnot in Heq by (apply crc_bytes_bounded; [by apply Hw|done]). lia.
Qed.

Lemma spz_crc32_detects_burst_witness :
  crc_of ([1; 2] ++ [3; 4; 5] ++ [6]) <> crc_of ([1; 2] ++ [3; 0; 5] ++ [6]).
Proof.
  apply spz_crc32_detects_burst; [repeat constructor; lia..|reflexivity|simpl; lia|done].
Defined.

(** ** The textbook definition

    CRC-32 as it is specified: the polynomial 0x04C11DB7 divided most significant
    bit first into the bit-reflected message, register preset to ones, the
    remainder reflected and complemented. *)

Fixpoint rev_bits (n : nat) (c : Z) : Z :=
  match n with
  | O => 0
  | S n => Z.lor (Z.shiftl (Z.b2z (Z.testbit c 0)) (Z.of_nat n)) (rev_bits n (Z.shiftr c 1))
  end.

Definition division_step (r : Z) : Z :=
  Z.lxor (u32 (Z.shiftl r 1)) (if Z.testbit r 31 then 0x04c11db7 else 0).

Definition division_byte (r byte : Z) : Z :=
  Nat.iter 8 division_step (Z.lxor r (Z.shiftl (rev_bits 8 byte) 24)).

Definition crc32_reference (bytes : list Z) : Z :=
  Z.lxor (rev_bits 32 (foldl division_byte 0xffffffff bytes)) 0xffffffff.

Lemma b2z_testbit b i : 0 <= i -> Z.testbit (Z.b2z b) i = (i =? 0) && b.
Proof.
  intros Hi. destruct (Z.eqb_spec i 0) as [->|Hn].
  - by rewrite Z.b2z_bit0.
  - destruct b; simpl; [|by rewrite Z.bits_0]. apply (testbit_high 1); lia.
Qed.

Lemma rev_bits_testbit n c i :
  0 <= i -> Z.testbit (rev_bits n c) i = (i <? Z.of_nat n) && Z.testbit c (Z.of_nat n - 1 - i).
Proof.
  revert c. induction n as [|n IH]; intros c Hi; cbn [rev_bits].
  { rewrite Z.bits_0. by destruct (Z.ltb_spec i (Z.of_nat 0)); [lia|]. }
  rewrite Z.lor_spec, Z.shiftl_spec, IH by lia.
  destruct (Z.ltb_spec i (Z.of_nat n)) as [Hlt|Hge]; cbn [andb].
  - rewrite Z.testbit_neg_r, Z.shiftr_spec by lia. simpl.
    destruct (Z.ltb_spec i (Z.of_nat (S n))); [|lia]. simpl. f_equal. lia.
  - rewrite orb_false_r, b2z_testbit by lia.
    destruct (Z.eqb_spec (i - Z.of_nat n) 0), (Z.ltb_spec i (Z.of_nat (S n))); cbn [andb]; [|lia..|done].
    f_equal. lia.
Qed.

Lemma rev_bits_bounded n c : 0 <= rev_bits n c < 2 ^ Z.of_nat n.
Proof.
  assert (0 <= rev_bits n c).
  { revert c. induction n as [|n IH]; intros c; cbn [rev_bits]; [lia|].
    apply Z.lor_nonneg. split; [|apply IH]. apply Z.shiftl_nonneg. destruct (Z.testbit c 0); simpl; lia. }
  apply bits_bounded; [lia|done|]. intros i Hi. rewrite rev_bits_testbit by lia.
  by destruct (Z.ltb_spec i (Z.of_nat n)); [lia|].
Qed.

Lemma rev_bits_involutive n c : 0 <= c < 2 ^ Z.of_nat n -> rev_bits n (rev_bits n c) = c.
Proof.
  intros Hc. apply (bits_eq (Z.of_nat n)); [apply rev_bits_bounded|done|]. intros i Hi.
  rewrite rev_bits_testbit, rev_bits_testbit by lia.
  destruct (Z.ltb_spec i (Z.of_nat n)), (Z.ltb_spec (Z.of_nat n - 1 - i) (Z.of_nat n)); [|lia..].
  simpl. f_equal. lia.
Qed.

Lemma polynomials_reflected i :
  0 <= i < 32 -> Z.testbit 0x04c11db7 i = Z.testbit 0xedb88320 (31 - i).
Proof.
  intros Hi. assert (Hall : forallb (fun k => Bool.eqb (Z.testbit 0x04c11db7 (Z.of_nat k))
    (Z.testbit 0xedb88320 (31 - Z.of_nat k))) (seq 0 32) = true) by (vm_compute; reflexivity).
  rewrite forallb_forall in Hall. specialize (Hall (Z.to_nat i)). rewrite in_seq, Z2Nat.id in Hall by lia.
  apply eqb_prop, Hall. lia.
Qed.

Lemma u32_testbit z i : 0 <= i < 32 -> Z.testbit (u32 z) i = Z.testbit z i.
Proof. intros Hi. unfold u32. change 4294967296 with (2 ^ 32). apply Z.mod_pow2_bits_low. lia. Qed.

Lemma rev_crc_bit c : u32_range c -> rev_bits 32 (crc_bit c) = division_step (rev_bits 32 c).
Proof.
  intros Hc. apply (bits_eq 32).
  { apply rev_bits_bounded. }
  { apply lxor_bounded; [lia|zlia|]. destruct (Z.testbit _ 31); lia. }
  intros i Hi. unfold division_step.
  rewrite Z.lxor_spec, u32_testbit, Z.shiftl_spec, rev_bits_testbit, crc_bit_testbit by lia.
  rewrite (rev_bits_testbit 32 c 31) by lia. change (31 <? Z.of_nat 32) with true.
  change (Z.of_nat 32) with 32. cbn [andb]. rewrite (proj2 (Z.ltb_lt i 32)) by lia. cbn [andb].
  replace (32 - 1 - i + 1) with (32 - i) by lia. change (32 - 1 - 31) with 0.
  f_equal.
  - destruct (Z.eq_dec i 0) as [->|Hn].
    + by rewrite (testbit_high 32 c), Z.testbit_neg_r by lia.
    + rewrite rev_bits_testbit, (proj2 (Z.ltb_lt _ _)) by lia. simpl. f_equal. lia.
  - replace (32 - 1 - i) with (31 - i) by lia. rewrite <- polynomials_reflected by lia.
    destruct (Z.testbit c 0); by rewrite ?andb_true_r, ?andb_false_r, ?Z.bits_0.
Qed.

Lemma rev_lxor n a b : rev_bits n (Z.lxor a b) = Z.lxor (rev_bits n a) (rev_bits n b).
Proof.
  apply Z.bits_inj'. intros i Hi. rewrite Z.lxor_spec, !rev_bits_testbit, Z.lxor_spec by lia.
  by destruct (i <? _).
Qed.

Lemma rev_byte b : is_u8 b -> rev_bits 32 b = Z.shiftl (rev_bits 8 b) 24.
Proof.
  intros Hb. apply Z.bits_inj'. intros i Hi. rewrite Z.shiftl_spec, rev_bits_testbit by lia.
  destruct (Z.lt_ge_cases i 24).
  - rewrite (Z.testbit_neg_r _ (i - 24)), (testbit_high 8 b) by lia. by rewrite andb_false_r.
  - rewrite rev_bits_testbit by lia.
    destruct (Z.ltb_spec i (Z.of_nat 32)), (Z.ltb_spec (i - 24) (Z.of_nat 8)); [|lia..|done].
    simpl. f_equal. lia.
Qed.

Lemma rev_iter n x :
  u32_range x -> rev_bits 32 (Nat.iter n crc_bit x) = Nat.iter n division_step (rev_bits 32 x).
Proof.
  intros Hx. induction n as [|n IH]; [done|]. rewrite !Nat.iter_succ, <- IH.
  by apply rev_crc_bit, iter_bit_bounded.
Qed.

Lemma rev_crc_byte c b :
  u32_range c -> is_u8 b -> rev_bits 32 (crc_byte c b) = division_byte (rev_bits 32 c) b.
Proof.
  intros Hc Hb. unfold crc_byte, division_byte. rewrite <- rev_byte, <- rev_lxor by done.
  by apply rev_iter, byte_lxor_range.
Qed.

Lemma rev_crc_bytes c bs :
  u32_range c -> is_bytes bs ->
  rev_bits 32 (crc_bytes c bs) = foldl division_byte (rev_bits 32 c) bs.
Proof.
  intros Hc Hbs. revert c Hc. induction Hbs as [|b bs Hb _ IH]; intros c Hc; [done|].
  cbn [crc_bytes foldl]. rewrite <- rev_crc_byte by done.
  by apply IH, crc_byte_bounded.
Qed.

(** C40: the bit-serial reflected loop of crc32.c computes the
    textbook CRC-32 (polynomial 0x04C11DB7, reflected, preset and complemented)
    of every byte string. *)
Theorem spz_crc32_is_crc32 bs : is_bytes bs -> crc_of bs = crc32_reference bs.
Proof.
  intros Hbs. rewrite crc_of_eq. unfold crc32_reference.
  assert (Hi : u32_range UINT32_MAX) by zlia.
  assert (Hr : u32_range (crc_bytes UINT32_MAX bs)) by by apply crc_bytes_bounded.
  replace 0xffffffff with (rev_bits 32 UINT32_MAX) at 1 by (vm_compute; reflexivity).
  rewrite <- rev_crc_bytes by assumption. rewrite rev_bits_involutive by exact Hr. clear Hi.
  apply (bits_eq 32); [zlia|apply lxor_bounded; lia|]. intros i Hi.
  rewrite u32_testbit, Z.lnot_spec, Z.lxor_spec by lia.
  change 0xffffffff with (Z.ones 32). rewrite Z.ones_spec_low by lia. by rewrite xorb_true_r.
Qed.

Lemma spz_crc32_is_crc32_witness :
  is_bytes [83; 80; 90; 69] /\ crc_of [83; 80; 90; 69] = crc32_reference [83; 80; 90; 69].
Proof.
  assert (H : is_bytes [83; 80; 90; 69]) by (repeat constructor; lia).
  split; [exact H|exact (spz_crc32_is_crc32 _ H)].
Defined.
