(* ===== verification/Abi.v ===== *)
(** * The wire ABI (kpm/include/stackplz/abi.h and the enums of core.h)

    The event record, its packed little-endian memory image, and the decoding of
    that image at the offsets the header asserts. *)

From S2P Require Import Prelude.

Definition SPZ_ABI_VERSION : Z := 1.
Definition SPZ_EVENT_MAGIC : Z := 0x455a5053.
Definition SPZ_EVENT_WIRE_SIZE : Z := 432.
Definition SPZ_COMM_LEN : nat := 16.
Definition SPZ_MAX_CPUS : Z := 8.
Definition SPZ_RING_CAPACITY : Z := 64.
Definition SPZ_MAX_COMMAND : nat := 512.

(** [enum spz_event_type], as the uint16 it is stored in. *)
Definition SPZ_EVENT_NONE : Z := 0.
Definition SPZ_EVENT_BREAKPOINT : Z := 1.
Definition SPZ_EVENT_WATCHPOINT : Z := 2.
Definition SPZ_EVENT_INTEGRITY : Z := 3.
Definition SPZ_EVENT_LOSS : Z := 4.
Definition SPZ_EVENT_TASK : Z := 5.

Inductive spz_bind_mode :=
  SPZ_BIND_INVALID | SPZ_BIND_PID | SPZ_BIND_TGID | SPZ_BIND_EITHER.

Inductive spz_break_kind :=
  SPZ_BREAK_INVALID | SPZ_BREAK_EXECUTE | SPZ_BREAK_READ | SPZ_BREAK_WRITE | SPZ_BREAK_READ_WRITE.

Inductive spz_break_mode :=
  SPZ_BREAK_MODE_INVALID | SPZ_BREAK_ONCE | SPZ_BREAK_REPEAT.

#[export] Instance spz_bind_mode_eq : EqDecision spz_bind_mode.
Proof. solve_decision. Defined.
#[export] Instance spz_break_kind_eq : EqDecision spz_break_kind.
Proof. solve_decision. Defined.
#[export] Instance spz_break_mode_eq : EqDecision spz_break_mode.
Proof. solve_decision. Defined.

Record spz_registers := {
  reg_x : list Z;
  reg_sp : Z;
  reg_pc : Z;
  reg_pstate : Z;
}.

Record spz_event := {
  ev_magic : Z;
  ev_version : Z;
  ev_size : Z;
  ev_type : Z;
  ev_flags : Z;
  ev_cpu : Z;
  ev_sequence : Z;
  ev_timestamp : Z;
  ev_binding_id : Z;
  ev_breakpoint_id : Z;
  ev_generation : Z;
  ev_task_cookie : Z;
  ev_pid : Z;
  ev_tgid : Z;
  ev_uid : Z;
  ev_reserved0 : Z;
  ev_start_time : Z;
  ev_start_boot_time : Z;
  ev_comm : list Z;
  ev_exception_class : Z;
  ev_slot_kind : Z;
  ev_slot_index : Z;
  ev_requested_address : Z;
  ev_observed_address : Z;
  ev_value : Z;
  ev_control : Z;
  ev_observed_control : Z;
  ev_mdscr : Z;
  ev_registers : spz_registers;
  ev_reserved1 : Z;
  ev_crc32 : Z;
}.

#[export] Instance spz_registers_shape : Shape spz_registers :=
  shape! Build_spz_registers < reg_x ; reg_sp ; reg_pc ; reg_pstate >.
#[export] Instance spz_event_shape : Shape spz_event :=
  shape! Build_spz_event <
    ev_magic ; ev_version ; ev_size ; ev_type ; ev_flags ; ev_cpu ; ev_sequence ;
    ev_timestamp ; ev_binding_id ; ev_breakpoint_id ; ev_generation ; ev_task_cookie ;
    ev_pid ; ev_tgid ; ev_uid ; ev_reserved0 ; ev_start_time ; ev_start_boot_time ;
    ev_comm ; ev_exception_class ; ev_slot_kind ; ev_slot_index ; ev_requested_address ;
    ev_observed_address ; ev_value ; ev_control ; ev_observed_control ; ev_mdscr ;
    ev_registers ; ev_reserved1 ; ev_crc32 >.

(** [memset(&event, 0, sizeof(event))] *)
Definition zero_registers : spz_registers :=
  {| reg_x := replicate 31 0; reg_sp := 0; reg_pc := 0; reg_pstate := 0 |}.

Definition zero_event : spz_event :=
  {| ev_magic := 0; ev_version := 0; ev_size := 0; ev_type := 0; ev_flags := 0; ev_cpu := 0;
     ev_sequence := 0; ev_timestamp := 0; ev_binding_id := 0; ev_breakpoint_id := 0;
     ev_generation := 0; ev_task_cookie := 0; ev_pid := 0; ev_tgid := 0; ev_uid := 0;
     ev_reserved0 := 0; ev_start_time := 0; ev_start_boot_time := 0; ev_comm := replicate
     SPZ_COMM_LEN 0; ev_exception_class := 0; ev_slot_kind := 0; ev_slot_index := 0;
     ev_requested_address := 0; ev_observed_address := 0; ev_value := 0; ev_control := 0;
     ev_observed_control := 0; ev_mdscr := 0; ev_registers := zero_registers; ev_reserved1 :=
     0; ev_crc32 := 0 |}.

#[export] Instance spz_event_inhabited : Inhabited spz_event := populate zero_event.

(** ** The memory image of the packed struct *)

Definition registers_bytes (r : spz_registers) : list Z :=
  concat (le_bytes 8 <$> reg_x r) ++ le_bytes 8 (reg_sp r) ++ le_bytes 8 (reg_pc r) ++
  le_bytes 8 (reg_pstate r).

(** Everything before the [crc32] member: the bytes the CRC covers. *)
Definition event_body_bytes (e : spz_event) : list Z :=
  le_bytes 4 (ev_magic e) ++ le_bytes 2 (ev_version e) ++ le_bytes 2 (ev_size e) ++
  le_bytes 2 (ev_type e) ++ le_bytes 2 (ev_flags e) ++ le_bytes 4 (ev_cpu e) ++
  le_bytes 8 (ev_sequence e) ++ le_bytes 8 (ev_timestamp e) ++ le_bytes 4 (ev_binding_id e) ++
  le_bytes 4 (ev_breakpoint_id e) ++ le_bytes 8 (ev_generation e) ++ le_bytes 8 (ev_task_cookie e) ++
  le_bytes 4 (ev_pid e) ++ le_bytes 4 (ev_tgid e) ++ le_bytes 4 (ev_uid e) ++
  le_bytes 4 (ev_reserved0 e) ++ le_bytes 8 (ev_start_time e) ++ le_bytes 8 (ev_start_boot_time e) ++
  ev_comm e ++ le_bytes 4 (ev_exception_class e) ++ le_bytes 2 (ev_slot_kind e) ++
  le_bytes 2 (ev_slot_index e) ++ le_bytes 8 (ev_requested_address e) ++
  le_bytes 8 (ev_observed_address e) ++ le_bytes 8 (ev_value e) ++ le_bytes 4 (ev_control e) ++
  le_bytes 4 (ev_observed_control e) ++ le_bytes 8 (ev_mdscr e) ++ registers_bytes (ev_registers e) ++
  le_bytes 4 (ev_reserved1 e).

Definition event_bytes (e : spz_event) : list Z :=
  event_body_bytes e ++ le_bytes 4 (ev_crc32 e).

(** ** Decoding at the asserted offsets *)

Definition field (offset width : nat) (bs : list Z) : Z := le_value (take width (drop offset bs)).

(** The 8-byte words at [offset], [offset + 8], ... *)
Definition words (offset count : nat) (bs : list Z) : list Z :=
  (fun k => field (offset + 8 * k) 8 bs) <$> seq 0 count.

Definition event_of_bytes (bs : list Z) : spz_event :=
  {| ev_magic := field 0 4 bs;
     ev_version := field 4 2 bs;
     ev_size := field 6 2 bs;
     ev_type := field 8 2 bs;
     ev_flags := field 10 2 bs;
     ev_cpu := field 12 4 bs;
     ev_sequence := field 16 8 bs;
     ev_timestamp := field 24 8 bs;
     ev_binding_id := field 32 4 bs;
     ev_breakpoint_id := field 36 4 bs;
     ev_generation := field 40 8 bs;
     ev_task_cookie := field 48 8 bs;
     ev_pid := field 56 4 bs;
     ev_tgid := field 60 4 bs;
     ev_uid := field 64 4 bs;
     ev_reserved0 := field 68 4 bs;
     ev_start_time := field 72 8 bs;
     ev_start_boot_time := field 80 8 bs;
     ev_comm := take SPZ_COMM_LEN (drop 88 bs);
     ev_exception_class := field 104 4 bs;
     ev_slot_kind := field 108 2 bs;
     ev_slot_index := field 110 2 bs;
     ev_requested_address := field 112 8 bs;
     ev_observed_address := field 120 8 bs;
     ev_value := field 128 8 bs;
     ev_control := field 136 4 bs;
     ev_observed_control := field 140 4 bs;
     ev_mdscr := field 144 8 bs;
     ev_registers := {| reg_x := words 152 31 bs; reg_sp := field 400 8 bs; reg_pc := field 408 8 bs; reg_pstate := field 416 8 bs |};
     ev_reserved1 := field 424 4 bs;
     ev_crc32 := field 428 4 bs |}.

(** ** Well-formed events: every member in the range of its C type *)

Record registers_wf (r : spz_registers) : Prop := {
  rwf_len : length (reg_x r) = 31%nat;
  rwf_x : Forall (fun v => is_u64 v) (reg_x r);
  rwf_sp : is_u64 (reg_sp r);
  rwf_pc : is_u64 (reg_pc r);
  rwf_pstate : is_u64 (reg_pstate r);
}.

Record event_wf (e : spz_event) : Prop := {
  wf_magic : is_u32 (ev_magic e);
  wf_version : is_u16 (ev_version e);
  wf_size : is_u16 (ev_size e);
  wf_type : is_u16 (ev_type e);
  wf_flags : is_u16 (ev_flags e);
  wf_cpu : is_u32 (ev_cpu e);
  wf_sequence : is_u64 (ev_sequence e);
  wf_timestamp : is_u64 (ev_timestamp e);
  wf_binding_id : is_u32 (ev_binding_id e);
  wf_breakpoint_id : is_u32 (ev_breakpoint_id e);
  wf_generation : is_u64 (ev_generation e);
  wf_task_cookie : is_u64 (ev_task_cookie e);
  wf_pid : is_u32 (ev_pid e);
  wf_tgid : is_u32 (ev_tgid e);
  wf_uid : is_u32 (ev_uid e);
  wf_reserved0 : is_u32 (ev_reserved0 e);
  wf_start_time : is_u64 (ev_start_time e);
  wf_start_boot_time : is_u64 (ev_start_boot_time e);
  wf_comm_len : length (ev_comm e) = SPZ_COMM_LEN;
  wf_comm : is_bytes (ev_comm e);
  wf_exception_class : is_u32 (ev_exception_class e);
  wf_slot_kind : is_u16 (ev_slot_kind e);
  wf_slot_index : is_u16 (ev_slot_index e);
  wf_requested_address : is_u64 (ev_requested_address e);
  wf_observed_address : is_u64 (ev_observed_address e);
  wf_value : is_u64 (ev_value e);
  wf_control : is_u32 (ev_control e);
  wf_observed_control : is_u32 (ev_observed_control e);
  wf_mdscr : is_u64 (ev_mdscr e);
  wf_registers : registers_wf (ev_registers e);
  wf_reserved1 : is_u32 (ev_reserved1 e);
  wf_crc32 : is_u32 (ev_crc32 e);
}.

(** ** Layout lemmas *)

Lemma length_concat_words l : length (concat (le_bytes 8 <$> l)) = (8 * length l)%nat.
Proof.
  induction l as [|v l IH]; [done|].
  rewrite fmap_cons, concat_cons, length_app, length_le_bytes, IH. cbn [length]. lia.
Qed.

Lemma length_registers_bytes r : length (reg_x r) = 31%nat -> length (registers_bytes r) = 272%nat.
Proof.
  intros H. unfold registers_bytes. by rewrite !length_app, !length_le_bytes, length_concat_words, H.
Qed.

Lemma field_skip o w a r :
  (length a <= o)%nat -> field o w (a ++ r) = field (o - length a) w r.
Proof. intros H. unfold field. by rewrite drop_app_ge. Qed.

Lemma field_skip_le o w n v r :
  (n <= o)%nat -> field o w (le_bytes n v ++ r) = field (o - n) w r.
Proof. intros H. rewrite field_skip; by rewrite length_le_bytes. Qed.

Lemma field_here w v r :
  0 <= v < 2 ^ (8 * Z.of_nat w) -> field 0 w (le_bytes w v ++ r) = v.
Proof.
  intros Hv. unfold field. rewrite drop_0, take_app_length' by (by rewrite length_le_bytes).
  rewrite le_value_le_bytes. by apply Z.mod_small.
Qed.

Lemma field_last w v :
  0 <= v < 2 ^ (8 * Z.of_nat w) -> field 0 w (le_bytes w v) = v.
Proof. intros Hv. rewrite <- (app_nil_r (le_bytes w v)). by apply field_here. Qed.

Lemma words_skip o n a r :
  (length a <= o)%nat -> words o n (a ++ r) = words (o - length a) n r.
Proof.
  intros H. unfold words. apply list_fmap_ext. intros i k Hk.
  rewrite field_skip by lia. f_equal. lia.
Qed.

Lemma words_here l r :
  Forall (fun v => is_u64 v) l -> words 0 (length l) (concat (le_bytes 8 <$> l) ++ r) = l.
Proof.
  intros Hl. revert r. induction Hl as [|v l Hv _ IH]; intros r; [done|].
  unfold words. cbn [length seq]. rewrite !fmap_cons, concat_cons, <- app_assoc.
  f_equal; [apply field_here; lia|].
  etransitivity; [|apply (IH r)]. unfold words. rewrite <- fmap_S_seq, <- list_fmap_compose.
  apply list_fmap_ext. intros i k Hk. unfold compose. rewrite field_skip_le by lia. f_equal; lia.
Qed.

Lemma length_event_body e :
  event_wf e -> length (event_body_bytes e) = 428%nat.
Proof.
  intros Hw. unfold event_body_bytes.
  by rewrite !length_app, !length_le_bytes, length_registers_bytes, (wf_comm_len e Hw)
    by apply (rwf_len _ (wf_registers e Hw)).
Qed.

Lemma is_bytes_words l : is_bytes (concat (le_bytes 8 <$> l)).
Proof.
  induction l as [|v l IH]; [constructor|]. rewrite fmap_cons, concat_cons.
  apply is_bytes_app. auto with spz.
Qed.

Lemma event_body_bytes_bytes e : event_wf e -> is_bytes (event_body_bytes e).
Proof.
  intros Hw. unfold event_body_bytes, registers_bytes.
  repeat (apply is_bytes_app; split); auto using is_bytes_words with spz. apply Hw.
Qed.

Lemma field_u16 v r : is_u16 v -> field 0 2 (le_bytes 2 v ++ r) = v.
Proof. intros Hv. apply field_here. change (2 ^ (8 * Z.of_nat 2)) with 65536. lia. Qed.

Lemma field_u32 v r : is_u32 v -> field 0 4 (le_bytes 4 v ++ r) = v.
Proof. intros Hv. apply field_here. change (2 ^ (8 * Z.of_nat 4)) with 4294967296. lia. Qed.

Lemma field_u64 v r : is_u64 v -> field 0 8 (le_bytes 8 v ++ r) = v.
Proof. intros Hv. apply field_here. change (2 ^ (8 * Z.of_nat 8)) with 18446744073709551616. lia. Qed.

Lemma take_skip (n o : nat) (a r : list Z) :
  (length a <= o)%nat -> take n (drop o (a ++ r)) = take n (drop (o - length a) r).
Proof. intros H. by rewrite drop_app_ge. Qed.

(** [read_member]: walk over the members in front of the offset, then read the
    member there; the lengths of the two array members come from hypotheses. *)
Ltac layout_skip :=
  match goal with
  | |- context [field ?o ?w (?a ++ ?r)] => rewrite (field_skip o w a r)
  | |- context [take ?n (drop ?o (?a ++ ?r))] => rewrite (take_skip n o a r)
  | |- context [words ?o ?n (?a ++ ?r)] => rewrite (words_skip o n a r)
  end.

Ltac read_member Hcomm Hx :=
  repeat (layout_skip; rewrite ?length_le_bytes, ?Hcomm, ?length_concat_words, ?Hx;
          unfold SPZ_COMM_LEN; [|lia]; cbn [Nat.sub Nat.mul Nat.add]);
  first [ apply field_u16; assumption | apply field_u32; assumption | apply field_u64; assumption
        | rewrite drop_0; by apply take_app_length' | rewrite <- Hx at 1; by apply words_here ].

(** C39: decoding the memory image of an event at the offsets the header
    asserts gives the event back: no two distinct well-formed events share an
    image, and every member sits where the ABI says. *)
Theorem event_of_bytes_event_bytes e :
  event_wf e -> event_of_bytes (event_bytes e) = e.
Proof.
  intros Hw. pose proof (wf_registers e Hw) as Hr. pose proof (wf_comm_len e Hw) as Hcomm.
  pose proof (rwf_len _ Hr) as Hx. pose proof (rwf_x _ Hr) as Hxs.
  pose proof (wf_comm e Hw) as Hcb.
  destruct Hw, Hr. destruct e as [magic version size type flags cpu seqno ts bid bpid gen cookie pid tgid uid
    res0 st sbt comm ec sk si ra oa value ctl octl mdscr [xs sp pc pstate] res1 crc].
  cbn -[le_bytes] in *.
  unfold event_of_bytes, event_bytes, event_body_bytes, registers_bytes.
  cbn -[le_bytes app field words take drop].
  rewrite <- (app_nil_r (le_bytes 4 crc)), <- !app_assoc.
  f_equal; [read_member Hcomm Hx..|f_equal; read_member Hcomm Hx|read_member Hcomm Hx|read_member Hcomm Hx].
Qed.

(** A wire-format event, with distinct members. *)
Definition sample_event : spz_event :=
  zero_event <| ev_magic := SPZ_EVENT_MAGIC |> <| ev_version := SPZ_ABI_VERSION |>
    <| ev_size := SPZ_EVENT_WIRE_SIZE |> <| ev_type := SPZ_EVENT_BREAKPOINT |>
    <| ev_sequence := 7 |> <| ev_pid := 31337 |> <| ev_comm := 99 :: replicate 15 0 |>
    <| ev_crc32 := 0xcafe |>.

Ltac solve_wf :=
  repeat match goal with
  | |- event_wf _ => constructor
  | |- registers_wf _ => constructor
  | |- is_bytes _ => unfold is_bytes
  | |- Forall _ [] => apply Forall_nil_2
  | |- Forall _ (_ :: _) => apply Forall_cons_2
  | |- Forall _ ?l => let l' := eval vm_compute in l in change l with l'
  | |- length _ = _ => reflexivity
  | |- _ <= _ <= _ => first [cbn; lia | vm_compute; split; congruence]
  end.

Lemma sample_event_wf : event_wf sample_event.
Proof. solve_wf. Qed.

Lemma event_of_bytes_event_bytes_witness :
  event_of_bytes (event_bytes sample_event) = sample_event.
Proof. exact (event_of_bytes_event_bytes _ sample_event_wf). Defined.

Lemma length_event_bytes e : event_wf e -> Z.of_nat (length (event_bytes e)) = SPZ_EVENT_WIRE_SIZE.
Proof. intros Hw. unfold event_bytes. by rewrite length_app, length_event_body, length_le_bytes by done. Qed.

Lemma zero_event_wf : event_wf zero_event.
Proof. solve_wf. Qed.

#[export] Hint Resolve zero_event_wf : spz.
