(* ===== verification/Ring.v ===== *)
(** * The event ring (kpm/core/ring.c)

    Eight per-CPU rings of 64 slots filled by the exception and scheduler hooks
    and drained by the poll command. One global counter numbers the events. This
    file translates the operations, states what the ring promises as one totally
    ordered log, and proves that the slot arrays implement that log, one operation
    at a time; RingThreads.v interleaves them. *)

From S2P Require Import Prelude Crc32 Abi.

(** ** State (struct spz_ring_slot, spz_cpu_ring, spz_ring of core.h) *)

Record spz_ring_slot := {
  slot_commit : Z;
  slot_event : spz_event;
}.

Record spz_cpu_ring := {
  cr_head : Z;
  cr_tail : Z;
  cr_lost : Z;
  cr_loss_pending : Z;
  cr_slots : list spz_ring_slot;
}.

Record spz_ring := {
  ring_next_sequence : Z;
  ring_consumer_after : Z;
  ring_cpu : list spz_cpu_ring;
}.

#[export] Instance spz_ring_slot_shape : Shape spz_ring_slot :=
  shape! Build_spz_ring_slot < slot_commit ; slot_event >.
#[export] Instance spz_cpu_ring_shape : Shape spz_cpu_ring :=
  shape! Build_spz_cpu_ring < cr_head ; cr_tail ; cr_lost ; cr_loss_pending ; cr_slots >.
#[export] Instance spz_ring_shape : Shape spz_ring :=
  shape! Build_spz_ring < ring_next_sequence ; ring_consumer_after ; ring_cpu >.

Definition zero_slot : spz_ring_slot := {| slot_commit := 0; slot_event := zero_event |}.
Definition zero_cpu_ring : spz_cpu_ring :=
  {| cr_head := 0; cr_tail := 0; cr_lost := 0; cr_loss_pending := 0;
     cr_slots := replicate (Z.to_nat SPZ_RING_CAPACITY) zero_slot |}.

#[export] Instance spz_ring_slot_inhabited : Inhabited spz_ring_slot := populate zero_slot.
#[export] Instance spz_cpu_ring_inhabited : Inhabited spz_cpu_ring := populate zero_cpu_ring.

(** [cpu_ring->slots[i % SPZ_RING_CAPACITY]] and [ring->cpu[cpu]]. *)
Definition slot_index (i : Z) : nat := Z.to_nat (i mod SPZ_RING_CAPACITY).
Definition get_slot (cr : spz_cpu_ring) (i : Z) : spz_ring_slot := cr_slots cr !!! slot_index i.
Definition set_slot (i : Z) (s : spz_ring_slot) (cr : spz_cpu_ring) : spz_cpu_ring :=
  cr <| cr_slots ::= <[slot_index i := s]> |>.
Definition get_cpu (ring : spz_ring) (cpu : Z) : spz_cpu_ring := ring_cpu ring !!! Z.to_nat cpu.
Definition set_cpu (cpu : Z) (cr : spz_cpu_ring) (ring : spz_ring) : spz_ring :=
  ring <| ring_cpu ::= <[Z.to_nat cpu := cr]> |>.

(** ** Operations *)

(** The compare-and-exchange loop of [spz_next_sequence]; run alone, its first
    exchange succeeds. Result code, sequence, ring. *)
Definition spz_next_sequence (ring : spz_ring) : Z * Z * spz_ring :=
  let previous := ring_next_sequence ring in
  if previous =? UINT64_MAX then (- EOVERFLOW, 0, ring)
  else (0, previous + 1, ring <| ring_next_sequence := previous + 1 |>).

Definition spz_cpu_used (cr : spz_cpu_ring) : Z := u64 (cr_head cr - cr_tail cr).

(** The event as published: header fields, the reserved words cleared, and the
    CRC of the 428 bytes before the [crc32] member. *)
Definition stamp_event (cpu sequence : Z) (source : spz_event) : spz_event :=
  let event := source <| ev_magic := SPZ_EVENT_MAGIC |> <| ev_version := SPZ_ABI_VERSION |>
    <| ev_size := SPZ_EVENT_WIRE_SIZE |> <| ev_cpu := cpu |> <| ev_sequence := sequence |>
    <| ev_reserved0 := 0 |> <| ev_reserved1 := 0 |> <| ev_crc32 := 0 |> in
  event <| ev_crc32 := spz_crc32_ieee (Some (event_bytes event)) 428 |>.

Definition spz_publish (ring : spz_ring) (cpu : Z) (source : spz_event) : Z * spz_ring :=
  let cpu_ring := get_cpu ring cpu in
  if SPZ_RING_CAPACITY <=? spz_cpu_used cpu_ring then (- ENOSPC, ring)
  else
    let head := cr_head cpu_ring in
    if negb (slot_commit (get_slot cpu_ring head) =? 0) then (- EBUSY, ring)
    else
      match spz_next_sequence ring with
      | (result, sequence, ring) =>
          if negb (result =? 0) then (result, ring)
          else
            let event := stamp_event cpu sequence source in
            let cpu_ring := set_slot head {| slot_commit := sequence; slot_event := event |} cpu_ring in
            (0, set_cpu cpu (cpu_ring <| cr_head := u64 (head + 1) |>) ring)
      end.

Definition spz_ring_init : spz_ring :=
  {| ring_next_sequence := 0; ring_consumer_after := 0;
     ring_cpu := replicate (Z.to_nat SPZ_MAX_CPUS) zero_cpu_ring |}.

(** [lost += 1; loss_pending += 1] *)
Definition count_loss (cpu : Z) (ring : spz_ring) : spz_ring :=
  let cpu_ring := get_cpu ring cpu in
  set_cpu cpu (cpu_ring <| cr_lost ::= (fun n => u64 (n + 1)) |>
                        <| cr_loss_pending ::= (fun n => u64 (n + 1)) |>) ring.

(** The marker published in front of the next accepted event after a loss. *)
Definition loss_event (pending lost : Z) : spz_event :=
  zero_event <| ev_type := SPZ_EVENT_LOSS |> <| ev_value := pending |>
    <| ev_observed_address := lost |>.

(** [event] is [None] for a NULL pointer; [ring] is a reference. *)
Definition spz_ring_push (ring : spz_ring) (cpu : Z) (event : option spz_event) : Z * spz_ring :=
  match event with
  | None => (- EINVAL, ring)
  | Some event =>
      if SPZ_MAX_CPUS <=? cpu then (- EINVAL, ring)
      else
        let cpu_ring := get_cpu ring cpu in
        let free_slots := u64 (SPZ_RING_CAPACITY - spz_cpu_used cpu_ring) in
        if free_slots =? 0 then (- ENOSPC, count_loss cpu ring)
        else
          let pending := cr_loss_pending cpu_ring in
          let '(result, ring) :=
            if negb (pending =? 0) && (2 <=? free_slots) then
              let '(result, ring) := spz_publish ring cpu (loss_event pending (cr_lost cpu_ring)) in
              if negb (result =? 0) then (result, ring)
              else
                let cpu_ring := get_cpu ring cpu in
                (0, set_cpu cpu (cpu_ring <| cr_loss_pending ::= (fun n => u64 (n - pending)) |>) ring)
            else (0, ring) in
          if negb (result =? 0) then (result, ring)
          else
            let '(result, ring) := spz_publish ring cpu event in
            if result =? - ENOSPC then (result, count_loss cpu ring) else (result, ring)
  end.

(** The loop of [spz_discard_through]; [fuel] bounds its iterations. *)
Fixpoint discard_loop (fuel : nat) (cr : spz_cpu_ring) (tail head after : Z) : spz_cpu_ring :=
  match fuel with
  | O => cr
  | S fuel =>
      if tail <? head then
        let slot := get_slot cr tail in
        let commit := slot_commit slot in
        if (commit =? 0) || (after <? commit) then cr
        else
          let cr := set_slot tail (slot <| slot_commit := 0 |>) cr in
          discard_loop fuel (cr <| cr_tail := u64 (tail + 1) |>) (u64 (tail + 1)) head after
      else cr
  end.

Definition spz_discard_through (cr : spz_cpu_ring) (after : Z) : spz_cpu_ring :=
  let tail := cr_tail cr in
  let head := cr_head cr in
  discard_loop (Z.to_nat (head - tail)) cr tail head after.

(** The scan for the CPU whose oldest event is the expected one. *)
Fixpoint select_expected (cpus : list Z) (ring : spz_ring) (expected : Z) : option Z :=
  match cpus with
  | [] => None
  | cpu :: cpus =>
      let cpu_ring := get_cpu ring cpu in
      let tail := cr_tail cpu_ring in
      if cr_head cpu_ring <=? tail then select_expected cpus ring expected
      else if negb (slot_commit (get_slot cpu_ring tail) =? expected)
      then select_expected cpus ring expected
      else Some cpu
  end.

Definition all_cpus : list Z := Z.of_nat <$> seq 0 (Z.to_nat SPZ_MAX_CPUS).

(** Result code, what was stored through [out], ring. *)
Definition spz_ring_pop_after (ring : spz_ring) (after : Z) : Z * option spz_event * spz_ring :=
  let consumer_after := ring_consumer_after ring in
  if after <? consumer_after then (- ESTALE, None, ring)
  else if ring_next_sequence ring <? after then (- ERANGE, None, ring)
  else if after =? UINT64_MAX then (- EOVERFLOW, None, ring)
  else
    let ring := ring <| ring_cpu ::= fmap (fun cr => spz_discard_through cr after) |> in
    let ring := if consumer_after <? after then ring <| ring_consumer_after := after |> else ring in
    let expected := after + 1 in
    match select_expected all_cpus ring expected with
    | None => (0, None, ring)
    | Some cpu =>
        let cpu_ring := get_cpu ring cpu in
        let tail := cr_tail cpu_ring in
        let selected := get_slot cpu_ring tail in
        let out := slot_event selected in
        if negb (slot_commit selected =? expected) then (- EAGAIN, Some out, ring)
        else
          let cpu_ring := set_slot tail (selected <| slot_commit := 0 |>) cpu_ring in
          let ring := set_cpu cpu (cpu_ring <| cr_tail := u64 (tail + 1) |>) ring in
          (1, Some out, ring <| ring_consumer_after := expected |>)
    end.

Definition spz_ring_lost (ring : spz_ring) (cpu : Z) : Z :=
  if SPZ_MAX_CPUS <=? cpu then 0 else cr_lost (get_cpu ring cpu).

(** ** What the ring promises: one log of consecutively numbered events *)

Record event_log := {
  log_next : Z;
  log_consumed : Z;
  log_entries : list spz_event;
  log_lost : list Z;
  log_pending : list Z;
}.

#[export] Instance event_log_shape : Shape event_log :=
  shape! Build_event_log < log_next ; log_consumed ; log_entries ; log_lost ; log_pending >.

Definition log_init : event_log :=
  {| log_next := 0; log_consumed := 0; log_entries := [];
     log_lost := replicate (Z.to_nat SPZ_MAX_CPUS) 0;
     log_pending := replicate (Z.to_nat SPZ_MAX_CPUS) 0 |}.

(** The entries a CPU still has in flight. *)
Definition on_cpu (cpu : Z) (l : list spz_event) : list spz_event :=
  filter (fun e => ev_cpu e = cpu) l.
#[global] Arguments on_cpu : simpl never.
Definition log_used (cpu : Z) (s : event_log) : Z := Z.of_nat (length (on_cpu cpu (log_entries s))).

Definition log_append (cpu : Z) (e : spz_event) (s : event_log) : Z * event_log :=
  if SPZ_RING_CAPACITY <=? log_used cpu s then (- ENOSPC, s)
  else if log_next s =? UINT64_MAX then (- EOVERFLOW, s)
  else (0, s <| log_next := log_next s + 1 |>
             <| log_entries := log_entries s ++ [stamp_event cpu (log_next s + 1) e] |>).

Definition log_count_loss (cpu : Z) (s : event_log) : event_log :=
  s <| log_lost := <[Z.to_nat cpu := u64 (log_lost s !!! Z.to_nat cpu + 1)]> (log_lost s) |>
    <| log_pending := <[Z.to_nat cpu := u64 (log_pending s !!! Z.to_nat cpu + 1)]> (log_pending s) |>.

(** Accept an event of a CPU: full means the loss is counted; otherwise a
    pending loss is reported first when two slots are free. *)
Definition log_push (cpu : Z) (e : spz_event) (s : event_log) : Z * event_log :=
  if SPZ_RING_CAPACITY <=? log_used cpu s then (- ENOSPC, log_count_loss cpu s)
  else
    let pending := log_pending s !!! Z.to_nat cpu in
    let '(r, s) :=
      if negb (pending =? 0) && (log_used cpu s <=? SPZ_RING_CAPACITY - 2) then
        match log_append cpu (loss_event pending (log_lost s !!! Z.to_nat cpu)) s with
        | (0, s) => (0, s <| log_pending := <[Z.to_nat cpu := 0]> (log_pending s) |>)
        | (r, s) => (r, s)
        end
      else (0, s) in
    if r =? 0 then log_append cpu e s else (r, s).

(** Consume through [after], then hand out the next event if there is one. *)
Definition log_pop (after : Z) (s : event_log) : Z * option spz_event * event_log :=
  if after <? log_consumed s then (- ESTALE, None, s)
  else if log_next s <? after then (- ERANGE, None, s)
  else if after =? UINT64_MAX then (- EOVERFLOW, None, s)
  else
    match drop (Z.to_nat (after - log_consumed s)) (log_entries s) with
    | [] => (0, None, s <| log_consumed := after |> <| log_entries := [] |>)
    | e :: rest => (1, Some e, s <| log_consumed := after + 1 |> <| log_entries := rest |>)
    end.

(** ** One CPU's slots as a queue *)

(** The committed slots, oldest first. *)
Definition queue (cr : spz_cpu_ring) : list spz_ring_slot :=
  (fun k => get_slot cr (cr_tail cr + Z.of_nat k)) <$> seq 0 (Z.to_nat (cr_head cr - cr_tail cr)).

Record cpu_wf (cr : spz_cpu_ring) : Prop := {
  cwf_len : length (cr_slots cr) = Z.to_nat SPZ_RING_CAPACITY;
  cwf_tail : 0 <= cr_tail cr <= cr_head cr;
  cwf_used : cr_head cr - cr_tail cr <= SPZ_RING_CAPACITY;
  cwf_head : is_u64 (cr_head cr);
  cwf_free : forall i, cr_head cr <= i < cr_tail cr + SPZ_RING_CAPACITY ->
             slot_commit (get_slot cr i) = 0;
}.

Lemma slot_index_lt i : (slot_index i < Z.to_nat SPZ_RING_CAPACITY)%nat.
Proof. unfold slot_index, SPZ_RING_CAPACITY. zlia. Qed.

(** Two positions of one window of 64 share a slot only if they are equal. *)
Lemma slot_index_inj i j :
  slot_index i = slot_index j -> Z.abs (i - j) < SPZ_RING_CAPACITY -> i = j.
Proof. unfold slot_index, SPZ_RING_CAPACITY. intros H Hd. zlia. Qed.

Lemma get_set_slot_eq i s cr :
  length (cr_slots cr) = Z.to_nat SPZ_RING_CAPACITY -> get_slot (set_slot i s cr) i = s.
Proof.
  intros Hl. unfold get_slot, set_slot. cbn. apply list_lookup_total_insert_eq.
  rewrite Hl. apply slot_index_lt.
Qed.

Lemma get_set_slot_ne i j s cr :
  slot_index i <> slot_index j -> get_slot (set_slot i s cr) j = get_slot cr j.
Proof. intros Hne. unfold get_slot, set_slot. cbn. by apply list_lookup_total_insert_ne. Qed.

Lemma length_set_slot i s cr : length (cr_slots (set_slot i s cr)) = length (cr_slots cr).
Proof. apply length_insert. Qed.

Lemma length_queue cr : length (queue cr) = Z.to_nat (cr_head cr - cr_tail cr).
Proof. unfold queue. by rewrite length_fmap, length_seq. Qed.

(** A slot array with the same contents on the window has the same queue. *)
Lemma queue_ext cr1 cr2 :
  cr_head cr1 - cr_tail cr1 = cr_head cr2 - cr_tail cr2 ->
  (forall k, 0 <= k < cr_head cr1 - cr_tail cr1 ->
     get_slot cr1 (cr_tail cr1 + k) = get_slot cr2 (cr_tail cr2 + k)) ->
  queue cr1 = queue cr2.
Proof.
  intros Hn Hs. unfold queue. rewrite Hn. apply list_fmap_ext. intros i k Hk.
  apply Hs. apply lookup_seq in Hk. lia.
Qed.

Lemma queue_empty cr : cr_head cr <= cr_tail cr -> queue cr = [].
Proof. intros H. unfold queue. by replace (Z.to_nat _) with 0%nat by lia. Qed.

(** Committing the slot at [head] appends to the queue. *)
Definition commit_slot (s : spz_ring_slot) (cr : spz_cpu_ring) : spz_cpu_ring :=
  (set_slot (cr_head cr) s cr) <| cr_head := u64 (cr_head cr + 1) |>.

Lemma commit_slot_queue s cr :
  cpu_wf cr -> cr_head cr - cr_tail cr < SPZ_RING_CAPACITY -> cr_head cr < UINT64_MAX ->
  queue (commit_slot s cr) = queue cr ++ [s].
Proof.
  intros [Hlen Htail _ _ _] Hused Hmax. unfold queue.
  assert (Hu : u64 (cr_head cr + 1) = cr_head cr + 1) by zlia.
  change (cr_head (commit_slot s cr)) with (u64 (cr_head cr + 1)).
  change (cr_tail (commit_slot s cr)) with (cr_tail cr). rewrite Hu.
  replace (Z.to_nat (cr_head cr + 1 - cr_tail cr)) with (S (Z.to_nat (cr_head cr - cr_tail cr))) by lia.
  rewrite seq_S, fmap_app. f_equal.
  - apply list_fmap_ext. intros i k Hk. apply lookup_seq in Hk.
    apply (get_set_slot_ne (cr_head cr) _ s cr). intros Heq. apply slot_index_inj in Heq; lia.
  - cbn [fmap list_fmap]. f_equal. rewrite Nat.add_0_l, Z2Nat.id, Zplus_minus by lia.
    by apply (get_set_slot_eq (cr_head cr) s cr).
Qed.

Lemma commit_slot_wf s cr :
  cpu_wf cr -> cr_head cr - cr_tail cr < SPZ_RING_CAPACITY -> cr_head cr < UINT64_MAX ->
  cpu_wf (commit_slot s cr).
Proof.
  intros [Hlen Htail Hle Hu64 Hfree] Hused Hmax.
  assert (Hu : u64 (cr_head cr + 1) = cr_head cr + 1) by zlia.
  split; cbn -[u64 get_slot]; rewrite ?Hu; try zlia.
  - by rewrite length_insert.
  - intros i Hi. rewrite <- (Hfree i) by lia. f_equal.
    apply (get_set_slot_ne (cr_head cr) _ s cr). intros Heq. apply slot_index_inj in Heq; lia.
Qed.

(** Releasing the slot at [tail] drops the oldest entry. *)
Definition release_slot (cr : spz_cpu_ring) : spz_cpu_ring :=
  (set_slot (cr_tail cr) ((get_slot cr (cr_tail cr)) <| slot_commit := 0 |>) cr)
    <| cr_tail := u64 (cr_tail cr + 1) |>.

Lemma release_slot_queue cr :
  cpu_wf cr -> cr_tail cr < cr_head cr ->
  queue cr = get_slot cr (cr_tail cr) :: queue (release_slot cr).
Proof.
  intros [Hlen Htail Hle Hu64 _] Hlt. unfold queue.
  assert (Hu : u64 (cr_tail cr + 1) = cr_tail cr + 1) by zlia.
  change (cr_tail (release_slot cr)) with (u64 (cr_tail cr + 1)).
  change (cr_head (release_slot cr)) with (cr_head cr). rewrite Hu.
  replace (Z.to_nat (cr_head cr - cr_tail cr)) with (S (Z.to_nat (cr_head cr - (cr_tail cr + 1)))) by lia.
  cbn [seq]. rewrite fmap_cons. f_equal; [f_equal; lia|].
  rewrite <- fmap_S_seq, <- list_fmap_compose. apply list_fmap_ext. intros i k Hk. unfold compose.
  apply lookup_seq in Hk. symmetry.
  replace (cr_tail cr + 1 + Z.of_nat k) with (cr_tail cr + Z.of_nat (S k)) by lia.
  apply (get_set_slot_ne (cr_tail cr) _ _ cr). intros Heq.
  unfold SPZ_RING_CAPACITY in *. apply slot_index_inj in Heq; unfold SPZ_RING_CAPACITY; lia.
Qed.

Lemma release_slot_wf cr : cpu_wf cr -> cr_tail cr < cr_head cr -> cpu_wf (release_slot cr).
Proof.
  intros [Hlen Htail Hle Hu64 Hfree] Hlt.
  assert (Hu : u64 (cr_tail cr + 1) = cr_tail cr + 1) by zlia.
  split; cbn -[u64 get_slot]; rewrite ?Hu; try zlia.
  - by rewrite length_insert.
  - intros i Hi. destruct (Z.eq_dec i (cr_tail cr + SPZ_RING_CAPACITY)) as [->|Hn].
    + replace (get_slot _ _) with ((get_slot cr (cr_tail cr)) <| slot_commit := 0 |>); [done|].
      unfold get_slot at 2. cbn -[get_slot].
      replace (slot_index (cr_tail cr + SPZ_RING_CAPACITY)) with (slot_index (cr_tail cr))
        by (unfold slot_index, SPZ_RING_CAPACITY; zlia).
      symmetry. apply list_lookup_total_insert_eq. rewrite Hlen. apply slot_index_lt.
    + rewrite <- (Hfree i) by lia. f_equal.
      apply (get_set_slot_ne (cr_tail cr) _ _ cr). intros Heq.
      unfold SPZ_RING_CAPACITY in *. apply slot_index_inj in Heq; unfold SPZ_RING_CAPACITY; lia.
Qed.

(** ** Numbered lists of events *)

(** Consecutive sequence numbers from [s] on. *)
Fixpoint contig (s : Z) (l : list spz_event) : Prop :=
  match l with
  | [] => True
  | e :: l => ev_sequence e = s /\ contig (s + 1) l
  end.

(** Increasing sequence numbers, all at least [s]. *)
Fixpoint increasing (s : Z) (l : list spz_event) : Prop :=
  match l with
  | [] => True
  | e :: l => s <= ev_sequence e /\ increasing (ev_sequence e + 1) l
  end.

Lemma increasing_weaken s s' l : s' <= s -> increasing s l -> increasing s' l.
Proof. destruct l as [|e l]; simpl; [done|]. intros Hs [He Hl]. split; [lia|done]. Qed.

Lemma contig_increasing s l : contig s l -> increasing s l.
Proof.
  revert s. induction l as [|e l IH]; intros s; simpl; [done|]. intros [-> Hl].
  split; [lia|by apply IH].
Qed.

Lemma increasing_filter P `{!forall e, Decision (P e)} s l :
  increasing s l -> increasing s (filter P l).
Proof.
  revert s. induction l as [|e l IH]; intros s; simpl; [done|]. intros [Hs Hl].
  rewrite filter_cons. case_decide; simpl.
  - split; [done|by apply IH].
  - apply increasing_weaken with (ev_sequence e + 1); [lia|by apply IH].
Qed.

Lemma increasing_elem s l e : increasing s l -> e ∈ l -> s <= ev_sequence e.
Proof.
  revert s. induction l as [|e' l IH]; intros s Hl Hin; [by apply elem_of_nil in Hin|].
  destruct Hl as [Hs Hl]. apply elem_of_cons in Hin as [->|Hin]; [done|].
  specialize (IH _ Hl Hin). lia.
Qed.

Definition newer (after : Z) (l : list spz_event) : list spz_event :=
  filter (fun e => after < ev_sequence e) l.

Lemma newer_all after s l : increasing s l -> after < s -> newer after l = l.
Proof.
  intros Hl Hs. unfold newer. induction l as [|e l IH] in s, Hl, Hs |- *; [done|].
  destruct Hl as [He Hl]. rewrite filter_cons, decide_True by lia. f_equal.
  apply (IH (ev_sequence e + 1)); [done|lia].
Qed.

Lemma newer_contig after s l :
  contig s l -> s <= after + 1 -> newer after l = drop (Z.to_nat (after + 1 - s)) l.
Proof.
  revert s. induction l as [|e l IH]; intros s Hl Hs; [by rewrite drop_nil|].
  destruct (Z.eq_dec s (after + 1)) as [->|Hn].
  - replace (Z.to_nat _) with 0%nat by lia. rewrite drop_0.
    apply (newer_all _ (after + 1)); [by apply contig_increasing|lia].
  - destruct Hl as [He Hl]. unfold newer. rewrite filter_cons, decide_False by lia.
    replace (Z.to_nat (after + 1 - s)) with (S (Z.to_nat (after + 1 - (s + 1)))) by lia.
    simpl. apply IH; [done|lia].
Qed.

Lemma newer_on_cpu after cpu l : newer after (on_cpu cpu l) = on_cpu cpu (newer after l).
Proof.
  unfold newer, on_cpu. rewrite !list_filter_filter. apply list_filter_iff. tauto.
Qed.

Lemma contig_drop n s l : contig s l -> contig (s + Z.of_nat n) (drop n l).
Proof.
  revert s l. induction n as [|n IH]; intros s l Hl.
  - by rewrite Z.add_0_r.
  - destruct l as [|e l]; [done|]. destruct Hl as [_ Hl]. simpl.
    replace (s + Z.of_nat (S n)) with (s + 1 + Z.of_nat n) by lia. by apply IH.
Qed.

Lemma contig_snoc s l e :
  contig s l -> ev_sequence e = s + Z.of_nat (length l) -> contig s (l ++ [e]).
Proof.
  revert s. induction l as [|e' l IH]; intros s; simpl.
  - intros _ ->. split; [lia|done].
  - intros [He' Hl] He. split; [done|]. apply IH; [done|lia].
Qed.

(** ** The refinement relation *)

Record cpu_refines (s : event_log) (cpu : Z) (cr : spz_cpu_ring) : Prop := {
  cr_wf : cpu_wf cr;
  cr_queue : slot_event <$> queue cr = on_cpu cpu (log_entries s);
  cr_commits : Forall (fun sl => slot_commit sl = ev_sequence (slot_event sl)) (queue cr);
  cr_head_le : cr_head cr <= log_next s;
  cr_lost_eq : cr_lost cr = log_lost s !!! Z.to_nat cpu;
  cr_pending_eq : cr_loss_pending cr = log_pending s !!! Z.to_nat cpu;
  cr_pending_u64 : is_u64 (cr_loss_pending cr);
}.

Record ring_refines (ring : spz_ring) (s : event_log) : Prop := {
  rr_next : ring_next_sequence ring = log_next s;
  rr_consumed : ring_consumer_after ring = log_consumed s;
  rr_bounds : 0 <= log_consumed s <= log_next s;
  rr_max : log_next s <= UINT64_MAX;
  rr_contig : contig (log_consumed s + 1) (log_entries s);
  rr_length : Z.of_nat (length (log_entries s)) = log_next s - log_consumed s;
  rr_origin : Forall (fun e => 0 <= ev_cpu e < SPZ_MAX_CPUS) (log_entries s);
  rr_cpus : length (ring_cpu ring) = Z.to_nat SPZ_MAX_CPUS;
  rr_lens : length (log_lost s) = Z.to_nat SPZ_MAX_CPUS /\ length (log_pending s) = Z.to_nat SPZ_MAX_CPUS;
  rr_cpu : forall cpu, 0 <= cpu < SPZ_MAX_CPUS -> cpu_refines s cpu (get_cpu ring cpu);
}.

Lemma get_set_cpu_eq ring cpu cr :
  0 <= cpu < SPZ_MAX_CPUS -> length (ring_cpu ring) = Z.to_nat SPZ_MAX_CPUS ->
  get_cpu (set_cpu cpu cr ring) cpu = cr.
Proof. intros Hc Hl. apply list_lookup_total_insert_eq. rewrite Hl. lia. Qed.

Lemma get_set_cpu_ne ring cpu cpu' cr :
  0 <= cpu -> 0 <= cpu' -> cpu <> cpu' -> get_cpu (set_cpu cpu cr ring) cpu' = get_cpu ring cpu'.
Proof. intros Hc Hc' Hne. apply list_lookup_total_insert_ne. lia. Qed.

Lemma length_set_cpu ring cpu cr : length (ring_cpu (set_cpu cpu cr ring)) = length (ring_cpu ring).
Proof. apply length_insert. Qed.

(** The number of committed slots is the number of entries of that CPU. *)
Lemma cpu_refines_used s cpu cr :
  cpu_refines s cpu cr -> spz_cpu_used cr = log_used cpu s /\ cr_head cr - cr_tail cr = log_used cpu s.
Proof.
  intros [[Hlen Htail Hle Hu _] Hq _ _ _ _ _]. unfold log_used. rewrite <- Hq, length_fmap, length_queue.
  unfold spz_cpu_used, SPZ_RING_CAPACITY in *. split; zlia.
Qed.

Lemma ring_init_refines : ring_refines spz_ring_init log_init.
Proof.
  split; try done; intros cpu Hcpu. unfold get_cpu, spz_ring_init. cbn [ring_cpu].
  rewrite lookup_total_replicate_2 by lia.
  assert (Hl : (replicate (Z.to_nat SPZ_MAX_CPUS) 0 : list Z) !!! Z.to_nat cpu = 0)
    by (apply lookup_total_replicate_2; lia).
  split; cbn; try done.
  split; cbn; try done. intros i Hi. unfold get_slot. cbn [zero_cpu_ring cr_slots].
  by rewrite lookup_total_replicate_2 by apply slot_index_lt.
Qed.

(** ** Publishing *)

Lemma on_cpu_app cpu l1 l2 : on_cpu cpu (l1 ++ l2) = on_cpu cpu l1 ++ on_cpu cpu l2.
Proof. apply list.filter_app. Qed.

(** Changing the entries of a log only on other CPUs. *)
Lemma cpu_refines_other s s' cpu cr :
  cpu_refines s cpu cr ->
  on_cpu cpu (log_entries s') = on_cpu cpu (log_entries s) ->
  log_next s <= log_next s' ->
  log_lost s' !!! Z.to_nat cpu = log_lost s !!! Z.to_nat cpu ->
  log_pending s' !!! Z.to_nat cpu = log_pending s !!! Z.to_nat cpu ->
  cpu_refines s' cpu cr.
Proof. intros [] He Hn Hl Hp. split; rewrite ?He, ?Hl, ?Hp; try done. lia. Qed.

Lemma spz_publish_refines ring s cpu e :
  ring_refines ring s -> 0 <= cpu < SPZ_MAX_CPUS ->
  (spz_publish ring cpu e).1 = (log_append cpu e s).1 /\
  ring_refines (spz_publish ring cpu e).2 (log_append cpu e s).2.
Proof.
  intros Hr Hcpu. pose proof (rr_cpu _ _ Hr cpu Hcpu) as Hc.
  pose proof Hr as [Hnext Hcons Hb Hmax Hcontig Hlen Horig Hcpus Hlens Hall].
  destruct (cpu_refines_used _ _ _ Hc) as [Hu Hu'].
  unfold spz_publish, log_append. rewrite Hu.
  destruct (SPZ_RING_CAPACITY <=? log_used cpu s) eqn:Efull; [done|].
  pose proof Hc as [Hwf Hq Hcom Hhead Hlost Hpend Hpu].
  rewrite (cwf_free _ Hwf) by (destruct Hwf; lia). simpl (negb _).
  unfold spz_next_sequence. rewrite Hnext.
  destruct (log_next s =? UINT64_MAX) eqn:Emax; [done|]. simpl (negb _). cbn iota.
  split; [done|]. cbn -[stamp_event u64 set_cpu set_slot get_cpu].
  set (ev := stamp_event cpu (log_next s + 1) e).
  assert (Hh : cr_head (get_cpu ring cpu) < UINT64_MAX) by lia.
  split; cbn -[stamp_event u64 get_cpu ev]; try done; try lia.
  - apply contig_snoc; [done|]. cbn. lia.
  - rewrite length_app. simpl length. lia.
  - apply Forall_app. split; [done|]. by constructor.
  - by rewrite length_insert.
  - intros cpu' Hcpu'. destruct (Z.eq_dec cpu cpu') as [<-|Hne].
    + rewrite (get_set_cpu_eq (ring <| ring_next_sequence := log_next s + 1 |>)) by done.
      change (cpu_refines (s <| log_next := log_next s + 1 |> <| log_entries := log_entries s ++ [ev] |>)
        cpu (commit_slot {| slot_commit := log_next s + 1; slot_event := ev |} (get_cpu ring cpu))).
      assert (Hlt : cr_head (get_cpu ring cpu) - cr_tail (get_cpu ring cpu) < SPZ_RING_CAPACITY) by lia.
      split; try done.
      * by apply commit_slot_wf.
      * rewrite commit_slot_queue, fmap_app, Hq by done. cbn -[ev].
        rewrite on_cpu_app. f_equal. unfold on_cpu. by rewrite filter_cons, decide_True.
      * rewrite commit_slot_queue by done. apply Forall_app. split; [done|]. by constructor.
      * destruct Hwf. cbn -[u64 get_cpu]. zlia.
    + rewrite (get_set_cpu_ne (ring <| ring_next_sequence := log_next s + 1 |>)) by lia.
      apply (cpu_refines_other s); try done; [by apply Hall| |cbn; lia].
      cbn -[ev]. rewrite on_cpu_app. unfold on_cpu at 2. rewrite filter_cons, decide_False by done.
      by rewrite filter_nil, app_nil_r.
Qed.

(** Updating the loss counters of one CPU. *)
Lemma loss_update_refines ring s cpu lost pending :
  ring_refines ring s -> 0 <= cpu < SPZ_MAX_CPUS -> is_u64 pending ->
  ring_refines
    (set_cpu cpu ((get_cpu ring cpu) <| cr_lost := lost |> <| cr_loss_pending := pending |>) ring)
    (s <| log_lost := <[Z.to_nat cpu := lost]> (log_lost s) |>
       <| log_pending := <[Z.to_nat cpu := pending]> (log_pending s) |>).
Proof.
  intros Hr Hcpu Hp. pose proof Hr as [Hnext Hcons Hb Hmax Hcontig Hlen Horig Hcpus [Hl1 Hl2] Hall].
  split; try done.
  - by rewrite length_set_cpu.
  - cbn. by rewrite !length_insert.
  - intros cpu' Hcpu'. destruct (Z.eq_dec cpu cpu') as [<-|Hne].
    + rewrite get_set_cpu_eq by done. destruct (Hall cpu Hcpu) as [[] Hq Hcom Hhead Hlost Hpend Hpu].
      split; cbn; try done; rewrite list_lookup_total_insert_eq by lia; done.
    + rewrite get_set_cpu_ne by lia. apply (cpu_refines_other s); try done; [by apply Hall| |];
        cbn; by rewrite list_lookup_total_insert_ne by lia.
Qed.

Lemma count_loss_refines ring s cpu :
  ring_refines ring s -> 0 <= cpu < SPZ_MAX_CPUS ->
  ring_refines (count_loss cpu ring) (log_count_loss cpu s).
Proof.
  intros Hr Hcpu. destruct (rr_cpu _ _ Hr cpu Hcpu) as [_ _ _ _ Hlost Hpend _].
  unfold log_count_loss. rewrite <- Hlost, <- Hpend.
  apply (loss_update_refines ring s); [done|done|zlia].
Qed.

Lemma pending_reset_refines ring s cpu :
  ring_refines ring s -> 0 <= cpu < SPZ_MAX_CPUS ->
  ring_refines (set_cpu cpu ((get_cpu ring cpu) <| cr_loss_pending := 0 |>) ring)
    (s <| log_pending := <[Z.to_nat cpu := 0]> (log_pending s) |>).
Proof.
  intros Hr Hcpu. destruct (rr_cpu _ _ Hr cpu Hcpu) as [_ _ _ _ Hlost _ _].
  pose proof (loss_update_refines ring s cpu (cr_lost (get_cpu ring cpu)) 0 Hr Hcpu ltac:(lia)) as H.
  rewrite Hlost in H. destruct (rr_lens _ _ Hr) as [Hl _].
  assert (Hid : <[Z.to_nat cpu := log_lost s !!! Z.to_nat cpu]> (log_lost s) = log_lost s)
    by (apply list_insert_id, list_lookup_lookup_total_lt; lia).
  rewrite Hid in H. rewrite <- Hlost in H.
  replace ((get_cpu ring cpu) <| cr_loss_pending := 0 |>)
    with ((get_cpu ring cpu) <| cr_lost := cr_lost (get_cpu ring cpu) |> <| cr_loss_pending := 0 |>)
    by (by destruct (get_cpu ring cpu)).
  by replace (s <| log_pending := <[Z.to_nat cpu:=0]> (log_pending s) |>)
    with (s <| log_lost := log_lost s |> <| log_pending := <[Z.to_nat cpu:=0]> (log_pending s) |>)
    by (by destruct s).
Qed.

(** The outcomes of [log_append]: full, exhausted, or one more entry. *)
Lemma log_append_cases cpu e s :
  (SPZ_RING_CAPACITY <= log_used cpu s /\ log_append cpu e s = (- ENOSPC, s)) \/
  (log_used cpu s < SPZ_RING_CAPACITY /\ log_next s = UINT64_MAX /\ log_append cpu e s = (- EOVERFLOW, s)) \/
  (log_used cpu s < SPZ_RING_CAPACITY /\ log_next s <> UINT64_MAX /\
   exists s', log_append cpu e s = (0, s') /\ log_used cpu s' = log_used cpu s + 1 /\
     log_pending s' = log_pending s /\ log_lost s' = log_lost s /\
     log_next s' = log_next s + 1 /\ log_consumed s' = log_consumed s /\
     log_entries s' = log_entries s ++ [stamp_event cpu (log_next s + 1) e]).
Proof.
  unfold log_append. destruct (SPZ_RING_CAPACITY <=? log_used cpu s) eqn:E1; [left; split; [lia|done]|].
  destruct (log_next s =? UINT64_MAX) eqn:E2; right; [left|right]; repeat split; try lia.
  eexists. split; [done|]. repeat split. unfold log_used. cbn -[stamp_event].
  rewrite on_cpu_app, length_app. unfold on_cpu at 2.
  rewrite filter_cons, decide_True by done. simpl. lia.
Qed.

Lemma spz_ring_push_refines ring s cpu e :
  ring_refines ring s -> 0 <= cpu < SPZ_MAX_CPUS ->
  (spz_ring_push ring cpu (Some e)).1 = (log_push cpu e s).1 /\
  ring_refines (spz_ring_push ring cpu (Some e)).2 (log_push cpu e s).2.
Proof.
  intros Hr Hcpu. pose proof (rr_cpu _ _ Hr cpu Hcpu) as Hc.
  destruct (cpu_refines_used _ _ _ Hc) as [Hu _].
  pose proof Hc as [_ _ _ _ Hlost Hpend _].
  assert (0 <= log_used cpu s <= SPZ_RING_CAPACITY)
    by (destruct Hc as [[]]; destruct (cpu_refines_used s cpu (get_cpu ring cpu) ltac:(done)); lia).
  unfold spz_ring_push, log_push. rewrite (proj2 (Z.leb_gt _ _)) by lia. rewrite Hu.
  replace (u64 (SPZ_RING_CAPACITY - log_used cpu s)) with (SPZ_RING_CAPACITY - log_used cpu s)
    by (unfold SPZ_RING_CAPACITY in *; zlia).
  destruct (SPZ_RING_CAPACITY - log_used cpu s =? 0) eqn:E0.
  { rewrite (proj2 (Z.leb_le _ _)) by lia. split; [done|by apply count_loss_refines]. }
  rewrite (proj2 (Z.leb_gt SPZ_RING_CAPACITY (log_used cpu s))) by lia. rewrite Hpend, Hlost.
  set (pending := log_pending s !!! Z.to_nat cpu).
  assert (Hlast : forall ring1 s1, ring_refines ring1 s1 -> log_used cpu s1 < SPZ_RING_CAPACITY ->
    let p := (let '(result, r) := spz_publish ring1 cpu e in
              if result =? - ENOSPC then (result, count_loss cpu r) else (result, r)) in
    p.1 = (log_append cpu e s1).1 /\ ring_refines p.2 (log_append cpu e s1).2).
  { intros ring1 s1 Hr1 Hu1. destruct (spz_publish_refines ring1 s1 cpu e Hr1 Hcpu) as [Hres Href].
    destruct (spz_publish ring1 cpu e) as [result r]. cbn [fst snd] in *. rewrite Hres.
    destruct (log_append_cases cpu e s1) as [[? _]|[[_ [_ E]]|[_ [_ [s' [E _]]]]]];
      [lia|rewrite E in *; done|rewrite E in *; done]. }
  replace (2 <=? SPZ_RING_CAPACITY - log_used cpu s) with (log_used cpu s <=? SPZ_RING_CAPACITY - 2) by lia.
  destruct (negb (pending =? 0) && (log_used cpu s <=? SPZ_RING_CAPACITY - 2)) eqn:E1;
    [|simpl (negb _); apply Hlast; [done|lia]].
  set (le := loss_event _ _).
  destruct (spz_publish_refines ring s cpu le Hr Hcpu) as [Hres Href].
  destruct (spz_publish ring cpu le) as [result r]. cbn [fst snd] in *. rewrite Hres. clear Hres.
  destruct (log_append_cases cpu le s) as [[? _]|[[_ [_ E]]|[_ [_ (s' & E & Hu' & Hp' & _)]]]];
    [lia|rewrite E in *; done|]. rewrite E in *. cbn [fst snd] in *. simpl (negb _). cbn iota.
  assert (Hpe : cr_loss_pending (get_cpu r cpu) = pending)
    by (rewrite (cr_pending_eq _ _ _ (rr_cpu _ _ Href cpu Hcpu)), Hp'; done).
  replace ((get_cpu r cpu) <| cr_loss_pending ::= (fun n => u64 (n - pending)) |>)
    with ((get_cpu r cpu) <| cr_loss_pending := 0 |>)
    by (revert Hpe; destruct (get_cpu r cpu); cbn -[u64]; intros ->; unfold field_update; cbn -[u64]; by rewrite Z.sub_diag).
  apply Hlast; [by apply pending_reset_refines|].
  change (log_used cpu s' < SPZ_RING_CAPACITY). rewrite Hu'. unfold SPZ_RING_CAPACITY in *. lia.
Qed.

(** ** Consuming *)

Definition committed (cr : spz_cpu_ring) : Prop :=
  Forall (fun sl => slot_commit sl = ev_sequence (slot_event sl)) (queue cr).

(** What [spz_discard_through] leaves of one CPU's ring. *)
Record discarded (after : Z) (cr cr' : spz_cpu_ring) : Prop := {
  dc_wf : cpu_wf cr';
  dc_queue : slot_event <$> queue cr' = newer after (slot_event <$> queue cr);
  dc_committed : committed cr';
  dc_head : cr_head cr' = cr_head cr;
  dc_lost : cr_lost cr' = cr_lost cr;
  dc_pending : cr_loss_pending cr' = cr_loss_pending cr;
}.

Lemma discard_loop_spec after n cr s :
  Z.to_nat (cr_head cr - cr_tail cr) = n -> cpu_wf cr -> committed cr -> 1 <= s ->
  increasing s (slot_event <$> queue cr) ->
  discarded after cr (discard_loop n cr (cr_tail cr) (cr_head cr) after).
Proof.
  revert cr s. induction n as [|n IH]; intros cr s Hn Hwf Hcom Hs Hinc; simpl.
  - assert (queue cr = []) as Hq by (apply queue_empty; lia).
    split; try done. by rewrite Hq.
  - pose proof Hwf as [_ Htail _ Hu _]. rewrite (proj2 (Z.ltb_lt _ _)) by lia.
    assert (Hu1 : u64 (cr_tail cr + 1) = cr_tail cr + 1) by zlia.
    pose proof (release_slot_queue cr Hwf ltac:(lia)) as Hq. unfold committed in Hcom.
    rewrite Hq in Hcom, Hinc. apply Forall_cons in Hcom as [Hc1 Hcom].
    destruct Hinc as [Hi1 Hinc]. rewrite Hc1. rewrite eqb_ne by lia. simpl (false || _).
    destruct (after <? _) eqn:Ea.
    + split; try done; [|unfold committed; rewrite Hq; by constructor]; rewrite Hq.
      symmetry. apply (newer_all _ (ev_sequence (slot_event (get_slot cr (cr_tail cr))))); [|lia]. by split; [lia|].
    + change (discarded after cr (discard_loop n (release_slot cr) (cr_tail (release_slot cr))
        (cr_head (release_slot cr)) after)).
      destruct (IH (release_slot cr) (ev_sequence (slot_event (get_slot cr (cr_tail cr))) + 1)) as [W Q C H L P];
        [cbn -[u64 get_slot]; lia|by apply release_slot_wf; [|lia]|done|lia|done|].
      split; try done. rewrite Q, Hq. unfold newer. simpl. by rewrite filter_cons, decide_False by lia.
Qed.

Lemma spz_discard_through_spec s cpu cr after :
  cpu_refines s cpu cr -> contig (log_consumed s + 1) (log_entries s) -> 0 <= log_consumed s ->
  discarded after cr (spz_discard_through cr after).
Proof.
  intros [Hwf Hq Hcom _ _ _ _] Hc Hs. apply (discard_loop_spec _ _ _ (log_consumed s + 1)); try done; [lia|].
  rewrite Hq. by apply increasing_filter, contig_increasing.
Qed.

(** Consuming through [after] on every CPU. *)
Lemma discard_all_refines ring s after :
  ring_refines ring s -> log_consumed s <= after <= log_next s ->
  ring_refines
    (ring <| ring_cpu ::= fmap (fun cr => spz_discard_through cr after) |> <| ring_consumer_after := after |>)
    (s <| log_consumed := after |>
       <| log_entries := drop (Z.to_nat (after - log_consumed s)) (log_entries s) |>).
Proof.
  intros [Hnext Hcons Hb Hmax Hcontig Hlen Horig Hcpus Hlens Hall] Ha.
  split; cbn -[spz_discard_through]; try done.
  - lia.
  - replace (after + 1) with (log_consumed s + 1 + Z.of_nat (Z.to_nat (after - log_consumed s))) by lia.
    by apply contig_drop.
  - rewrite length_drop. lia.
  - by apply Forall_drop.
  - by rewrite length_fmap.
  - intros cpu Hcpu. unfold get_cpu at 1. cbn [ring_cpu field_update].
    rewrite (@list_lookup_total_fmap _ _ _ spz_cpu_ring_inhabited) by lia. fold (get_cpu ring cpu).
    pose proof (Hall cpu Hcpu) as Hc.
    destruct (spz_discard_through_spec s cpu _ after Hc Hcontig ltac:(lia)) as [W Q C H L P].
    destruct Hc as [Hwf Hq Hcom Hhead Hlost Hpend Hpu].
    split; rewrite ?L, ?P, ?H; try done. rewrite Q, Hq, newer_on_cpu. cbn [log_entries field_update].
    rewrite (newer_contig _ (log_consumed s + 1)) by (done || lia). do 2 f_equal. lia.
Qed.

(** The oldest slot of a CPU is that CPU's first entry of the log. *)
Lemma oldest_slot s cpu cr :
  cpu_refines s cpu cr ->
  match on_cpu cpu (log_entries s) with
  | [] => cr_head cr <= cr_tail cr
  | e :: _ => cr_tail cr < cr_head cr /\ slot_event (get_slot cr (cr_tail cr)) = e /\
              slot_commit (get_slot cr (cr_tail cr)) = ev_sequence e
  end.
Proof.
  intros [Hwf Hq Hcom _ _ _ _]. rewrite <- Hq.
  destruct (Z_lt_le_dec (cr_tail cr) (cr_head cr)) as [Hlt|Hge].
  - rewrite (release_slot_queue cr Hwf Hlt) in *. simpl.
    apply Forall_cons in Hcom as [Hc _]. done.
  - by rewrite queue_empty.
Qed.

Lemma select_expected_None ring s cpus expected :
  ring_refines ring s -> log_entries s = [] -> Forall (fun c => 0 <= c < SPZ_MAX_CPUS) cpus ->
  select_expected cpus ring expected = None.
Proof.
  intros Hr He. induction cpus as [|c cpus IH]; intros Hc; [done|]. simpl.
  apply Forall_cons in Hc as [Hc Hcs]. pose proof (oldest_slot _ _ _ (rr_cpu _ _ Hr c Hc)) as Ho.
  rewrite He in Ho. simpl in Ho. rewrite (proj2 (Z.leb_le _ _)) by done. by apply IH.
Qed.

Lemma select_expected_Some ring s e rest cpus :
  ring_refines ring s -> log_entries s = e :: rest -> Forall (fun c => 0 <= c < SPZ_MAX_CPUS) cpus ->
  ev_cpu e ∈ cpus -> select_expected cpus ring (log_consumed s + 1) = Some (ev_cpu e).
Proof.
  intros Hr He. induction cpus as [|c cpus IH]; intros Hc Hin; [by apply elem_of_nil in Hin|]. simpl.
  apply Forall_cons in Hc as [Hc Hcs]. pose proof (oldest_slot _ _ _ (rr_cpu _ _ Hr c Hc)) as Ho.
  pose proof (rr_contig _ _ Hr) as Hcontig. rewrite He in Ho, Hcontig. destruct Hcontig as [Hs Hrest].
  unfold on_cpu in Ho. rewrite filter_cons in Ho. case_decide as Heq.
  - destruct Ho as (Hlt & _ & ->). rewrite (proj2 (Z.leb_gt _ _)) by done.
    by rewrite Hs, Z.eqb_refl, Heq.
  - apply elem_of_cons in Hin as [?|Hin]; [done|]. specialize (IH Hcs Hin).
    destruct (filter _ rest) as [|e' l] eqn:Ef; [by rewrite (proj2 (Z.leb_le _ _)) by done|].
    destruct Ho as (Hlt & _ & ->). rewrite (proj2 (Z.leb_gt _ _)) by done.
    assert (log_consumed s + 1 + 1 <= ev_sequence e').
    { apply (increasing_elem _ rest); [by apply contig_increasing|].
      apply (list_elem_of_filter (fun e => ev_cpu e = c)). rewrite Ef. by left. }
    by rewrite eqb_ne by lia.
Qed.

Lemma release_refines ring s e rest :
  ring_refines ring s -> log_entries s = e :: rest ->
  ring_refines
    (set_cpu (ev_cpu e) (release_slot (get_cpu ring (ev_cpu e))) ring)
      <| ring_consumer_after := log_consumed s + 1 |>
    (s <| log_consumed := log_consumed s + 1 |> <| log_entries := rest |>).
Proof.
  intros [Hnext Hcons Hb Hmax Hcontig Hlen Horig Hcpus Hlens Hall] He.
  rewrite He in *. simpl in Hlen. destruct Hcontig as [Hs Hrest].
  apply Forall_cons in Horig as [Hcpu Horig].
  split; cbn -[release_slot]; try done; try lia.
  - by rewrite length_insert.
  - intros cpu' Hcpu'. pose proof (Hall cpu' Hcpu') as [Hwf Hq Hcom Hhead Hlost Hpend Hpu].
    rewrite He in Hq. unfold on_cpu in Hq. rewrite filter_cons in Hq.
    destruct (Z.eq_dec (ev_cpu e) cpu') as [<-|Hne].
    + change (cpu_refines (s <| log_consumed := log_consumed s + 1 |> <| log_entries := rest |>) (ev_cpu e)
        (get_cpu (set_cpu (ev_cpu e) (release_slot (get_cpu ring (ev_cpu e))) ring) (ev_cpu e))).
      rewrite get_set_cpu_eq by done. rewrite decide_True in Hq by done.
      assert (Hlt : cr_tail (get_cpu ring (ev_cpu e)) < cr_head (get_cpu ring (ev_cpu e))).
      { destruct (Z_lt_le_dec (cr_tail (get_cpu ring (ev_cpu e))) (cr_head (get_cpu ring (ev_cpu e))));
          [done|]. by rewrite queue_empty in Hq. }
      rewrite (release_slot_queue _ Hwf Hlt) in Hq, Hcom. apply Forall_cons in Hcom as [_ Hcom].
      simpl in Hq. injection Hq as _ Hq.
      split; try done. by apply release_slot_wf.
    + change (cpu_refines (s <| log_consumed := log_consumed s + 1 |> <| log_entries := rest |>) cpu'
        (get_cpu (set_cpu (ev_cpu e) (release_slot (get_cpu ring (ev_cpu e))) ring) cpu')).
      rewrite get_set_cpu_ne by lia. rewrite decide_False in Hq by done. by split.
Qed.

Lemma all_cpus_elem cpu : 0 <= cpu < SPZ_MAX_CPUS -> cpu ∈ all_cpus.
Proof.
  intros H. unfold all_cpus. apply list_elem_of_fmap. exists (Z.to_nat cpu). split; [lia|].
  apply elem_of_seq. lia.
Qed.

Lemma all_cpus_bounds : Forall (fun c => 0 <= c < SPZ_MAX_CPUS) all_cpus.
Proof.
  apply Forall_forall. intros c Hc. unfold all_cpus in Hc.
  apply list_elem_of_fmap in Hc as (n & -> & Hn). apply elem_of_seq in Hn. lia.
Qed.

Lemma spz_ring_pop_after_refines ring s after :
  ring_refines ring s ->
  (spz_ring_pop_after ring after).1 = (log_pop after s).1 /\
  ring_refines (spz_ring_pop_after ring after).2 (log_pop after s).2.
Proof.
  intros Hr. pose proof (rr_next _ _ Hr) as Hnext. pose proof (rr_consumed _ _ Hr) as Hcons.
  unfold spz_ring_pop_after, log_pop. rewrite Hcons, Hnext.
  destruct (after <? log_consumed s) eqn:E1; [done|].
  destruct (log_next s <? after) eqn:E2; [done|].
  destruct (after =? UINT64_MAX) eqn:E3; [done|].
  set (disc := fmap (fun cr => spz_discard_through cr after)).
  replace (if log_consumed s <? after then _ else _)
    with (ring <| ring_cpu ::= disc |> <| ring_consumer_after := after |>).
  2: { destruct (log_consumed s <? after) eqn:E4; [done|].
       destruct ring. cbn in *. unfold field_update. cbn -[disc]. f_equal. lia. }
  pose proof (discard_all_refines ring s after Hr ltac:(lia)) as Hr1. fold disc in Hr1.
  set (ring1 := ring <| ring_cpu ::= disc |> <| ring_consumer_after := after |>) in *. clearbody ring1.
  destruct (drop _ (log_entries s)) as [|e rest] eqn:Ed.
  - by rewrite (select_expected_None _ _ _ _ Hr1 eq_refl all_cpus_bounds).
  - pose proof (rr_origin _ _ Hr1) as Ho. apply Forall_cons in Ho as [Ho _].
    pose proof (select_expected_Some ring1 _ e rest all_cpus Hr1 eq_refl all_cpus_bounds
      (all_cpus_elem _ Ho)) as Hsel.
    change (log_consumed _ + 1) with (after + 1) in Hsel. rewrite Hsel.
    pose proof (oldest_slot _ _ _ (rr_cpu _ _ Hr1 _ Ho)) as Hs.
    pose proof (rr_contig _ _ Hr1) as [He _]. cbn in He.
    cbn [log_entries field_update] in Hs. unfold on_cpu in Hs.
    rewrite filter_cons, decide_True in Hs by done. destruct Hs as (_ & Hev & Hcom).
    rewrite Hcom, He, Z.eqb_refl. simpl (negb _). cbn iota. rewrite Hev. split; [done|].
    exact (release_refines _ _ e rest Hr1 eq_refl).
Qed.

(** ** Sequences of operations *)

Inductive ring_op :=
  | RingPush (cpu : Z) (event : option spz_event)
  | RingPop (after : Z).

(** Result code and delivered event of an operation, and the next state. *)
Definition ring_step (op : ring_op) (ring : spz_ring) : Z * option spz_event * spz_ring :=
  match op with
  | RingPush cpu event => let '(r, ring) := spz_ring_push ring cpu event in (r, None, ring)
  | RingPop after => spz_ring_pop_after ring after
  end.

Definition log_step (op : ring_op) (s : event_log) : Z * option spz_event * event_log :=
  match op with
  | RingPush cpu None => (- EINVAL, None, s)
  | RingPush cpu (Some e) =>
      if SPZ_MAX_CPUS <=? cpu then (- EINVAL, None, s)
      else let '(r, s) := log_push cpu e s in (r, None, s)
  | RingPop after => log_pop after s
  end.

(** Run operations in order; the outputs, oldest first, and the final state. *)
Fixpoint run_ops {S} (step : ring_op -> S -> Z * option spz_event * S) (ops : list ring_op) (s : S) :
    list (Z * option spz_event) * S :=
  match ops with
  | [] => ([], s)
  | op :: ops =>
      let '(out, s) := step op s in
      let '(outs, s) := run_ops step ops s in (out :: outs, s)
  end.

Definition op_ok (op : ring_op) : Prop :=
  match op with
  | RingPush cpu event => is_u32 cpu /\ (forall e, event = Some e -> event_wf e)
  | RingPop after => is_u64 after
  end.

Lemma ring_step_refines op ring s :
  ring_refines ring s -> op_ok op ->
  (ring_step op ring).1 = (log_step op s).1 /\ ring_refines (ring_step op ring).2 (log_step op s).2.
Proof.
  intros Hr Hop. destruct op as [cpu [e|]|after]; cbn [ring_step log_step].
  - destruct (SPZ_MAX_CPUS <=? cpu) eqn:E; [unfold spz_ring_push; by rewrite E|].
    destruct (spz_ring_push_refines ring s cpu e Hr ltac:(simpl in Hop; lia)) as [H1 H2].
    destruct (spz_ring_push ring cpu (Some e)), (log_push cpu e s). cbn in *. by subst.
  - done.
  - by apply spz_ring_pop_after_refines.
Qed.

Lemma run_ops_refines ops ring s :
  ring_refines ring s -> Forall op_ok ops ->
  (run_ops ring_step ops ring).1 = (run_ops log_step ops s).1 /\
  ring_refines (run_ops ring_step ops ring).2 (run_ops log_step ops s).2.
Proof.
  revert ring s. induction ops as [|op ops IH]; intros ring s Hr Hok; [done|]. simpl.
  apply Forall_cons in Hok as [Hop Hok]. destruct (ring_step_refines op ring s Hr Hop) as [H1 H2].
  destruct (ring_step op ring) as [o1 r1], (log_step op s) as [o2 s2]. cbn [fst snd] in *. subst o2.
  destruct (IH _ _ H2 Hok) as [H3 H4].
  destruct (run_ops ring_step ops r1), (run_ops log_step ops s2). cbn [fst snd] in *. by subst.
Qed.

(** ** Sealed events *)

(** What the reader of an event checks: the header words and the checksum of
    the bytes in front of it. *)
Definition event_sealed (e : spz_event) : Prop :=
  ev_magic e = SPZ_EVENT_MAGIC /\ ev_version e = SPZ_ABI_VERSION /\ ev_size e = SPZ_EVENT_WIRE_SIZE /\
  ev_crc32 e = crc_of (take 428 (event_bytes e)).

Lemma stamp_event_wf cpu sequence e :
  is_u32 cpu -> is_u64 sequence -> event_wf e -> event_wf (stamp_event cpu sequence e).
Proof.
  intros Hc Hs Hw. assert (Hcrc : is_u32 (ev_crc32 (stamp_event cpu sequence e))).
  { unfold stamp_event, spz_crc32_ieee. cbn -[crc_bytes event_bytes u32]. zlia. }
  destruct Hw. split; cbn -[event_bytes spz_crc32_ieee] in *; try done; vm_compute; split; discriminate.
Qed.

Lemma stamp_event_sealed cpu sequence e :
  is_u32 cpu -> is_u64 sequence -> event_wf e -> event_sealed (stamp_event cpu sequence e).
Proof.
  intros Hc Hs Hw. pose proof (length_event_body _ (stamp_event_wf cpu sequence e Hc Hs Hw)) as Hl.
  repeat split. unfold event_bytes at 1. rewrite take_app_length' by done.
  rewrite crc_of_eq. unfold stamp_event at 1. cbn -[crc_bytes event_bytes event_body_bytes u32 stamp_event].
  do 3 f_equal. unfold event_bytes. by rewrite take_app_length'.
Qed.

Record log_wf (s : event_log) : Prop := {
  lw_entries : Forall (fun e => event_wf e /\ event_sealed e) (log_entries s);
  lw_next : 0 <= log_next s <= UINT64_MAX;
  lw_lost : Forall (fun n => is_u64 n) (log_lost s);
  lw_pending : Forall (fun n => is_u64 n) (log_pending s);
}.

Lemma lookup_total_u64 (l : list Z) i : Forall (fun n => is_u64 n) l -> is_u64 (l !!! i).
Proof.
  intros Hl. destruct (l !! i) as [x|] eqn:E.
  - rewrite (list_lookup_total_correct _ _ _ E). by apply (Forall_lookup_1 _ _ _ _ Hl E).
  - rewrite list_lookup_total_alt, E. simpl. lia.
Qed.

Lemma log_append_wf cpu e s :
  log_wf s -> is_u32 cpu -> event_wf e -> log_wf (log_append cpu e s).2.
Proof.
  intros Hs Hc He. unfold log_append. destruct (_ <=? _); [done|]. destruct (_ =? _) eqn:E; [done|].
  pose proof Hs as [H1 H2 H3 H4]. split; cbn -[stamp_event]; try done; [|zlia].
  apply Forall_app. split; [done|]. constructor; [|done].
  assert (is_u64 (log_next s + 1)) by zlia.
  split; [by apply stamp_event_wf|by apply stamp_event_sealed].
Qed.

Lemma loss_event_wf pending lost : is_u64 pending -> is_u64 lost -> event_wf (loss_event pending lost).
Proof.
  intros Hp Hl. destruct zero_event_wf. split; cbn in *; try done.
Qed.

Lemma log_push_wf cpu e s :
  log_wf s -> is_u32 cpu -> event_wf e -> log_wf (log_push cpu e s).2.
Proof.
  intros Hs Hc He. unfold log_push. pose proof Hs as [H1 H2 H3 H4]. destruct (_ <=? _).
  { split; cbn -[u64]; try done; apply Forall_insert; try done; zlia. }
  destruct (_ && _); [|by apply log_append_wf].
  pose proof (log_append_wf cpu (loss_event (log_pending s !!! Z.to_nat cpu) (log_lost s !!! Z.to_nat cpu)) s
    Hs Hc ltac:(apply loss_event_wf; by apply lookup_total_u64)) as Hw.
  destruct (log_append _ _ _) as [r s1]. cbn [snd] in Hw.
  destruct (Z.eq_dec r 0) as [->|Hn].
  - apply log_append_wf; [|done..]. destruct Hw. split; cbn; try done. by apply Forall_insert.
  - by destruct r.
Qed.

Lemma log_step_wf op s : log_wf s -> op_ok op -> log_wf (log_step op s).2.
Proof.
  intros Hs Hop. destruct op as [cpu [e|]|after]; cbn [log_step]; [|done|].
  - destruct (_ <=? _); [done|]. destruct Hop as [Hc He].
    pose proof (log_push_wf cpu e s Hs Hc (He e eq_refl)) as Hw. by destruct (log_push cpu e s).
  - unfold log_pop. do 3 (destruct (_ : bool); [done|]).
    pose proof Hs as [H1 H2 H3 H4].
    pose proof (Forall_drop _ (Z.to_nat (after - log_consumed s)) _ H1) as Hd.
    destruct (drop _ _) as [|e rest]; split; try done. by apply Forall_cons in Hd as [_ Hd].
Qed.

Lemma run_ops_log_wf ops s : log_wf s -> Forall op_ok ops -> log_wf (run_ops log_step ops s).2.
Proof.
  revert s. induction ops as [|op ops IH]; intros s Hs Hok; [done|]. simpl.
  apply Forall_cons in Hok as [Hop Hok]. pose proof (log_step_wf op s Hs Hop) as H1.
  destruct (log_step op s) as [o s1]. cbn [snd] in H1. specialize (IH _ H1 Hok). by destruct (run_ops log_step ops s1).
Qed.

Lemma log_init_wf : log_wf log_init.
Proof. split; cbn; [done|zlia|repeat constructor; lia|repeat constructor; lia]. Qed.

(** ** Draining *)

(** The poll loop of a consumer: read the event after the last one consumed. *)
Fixpoint drain (fuel : nat) (ring : spz_ring) : list spz_event * spz_ring :=
  match fuel with
  | O => ([], ring)
  | S fuel =>
      match spz_ring_pop_after ring (ring_consumer_after ring) with
      | (1, Some e, ring) => let '(es, ring) := drain fuel ring in (e :: es, ring)
      | (_, _, ring) => ([], ring)
      end
  end.

Lemma drain_spec n ring s :
  ring_refines ring s -> n = length (log_entries s) ->
  (drain n ring).1 = log_entries s /\
  ring_consumer_after (drain n ring).2 = log_next s /\ ring_next_sequence (drain n ring).2 = log_next s.
Proof.
  revert ring s. induction n as [|n IH]; intros ring s Hr Hn.
  - destruct (log_entries s) eqn:E; [|done]. pose proof (rr_length _ _ Hr) as Hl. rewrite E in Hl.
    simpl in *. rewrite (rr_consumed _ _ Hr), (rr_next _ _ Hr). repeat split; lia.
  - destruct (spz_ring_pop_after_refines ring s (log_consumed s) Hr) as [H1 H2].
    pose proof (rr_length _ _ Hr) as Hl. pose proof (rr_bounds _ _ Hr). pose proof (rr_max _ _ Hr).
    simpl. rewrite (rr_consumed _ _ Hr). revert H1 H2. unfold log_pop.
    zbool. rewrite Z.sub_diag, drop_0.
    destruct (log_entries s) as [|e rest] eqn:E; [done|]. destruct (spz_ring_pop_after _ _) as [[r o] ring'].
    cbn [fst snd]. intros [= -> ->] H2. destruct (IH ring' _ H2) as (H3 & H4 & H5); [simpl in *; lia|].
    destruct (drain n ring') as [es ring'']. cbn [fst snd] in *. by rewrite H3.
Qed.

Lemma contig_sequences s l : contig s l -> ev_sequence <$> l = seqZ s (Z.of_nat (length l)).
Proof.
  revert s. induction l as [|e l IH]; intros s; [done|]. cbn [contig length]. intros [<- Hl].
  rewrite Nat2Z.inj_succ, seqZ_cons, fmap_cons, Z.pred_succ by lia. f_equal.
  replace (Z.succ (ev_sequence e)) with (ev_sequence e + 1) by lia. by apply IH.
Qed.

(** ** Losses *)

(** The pushes of a CPU that were refused for lack of room. *)
Fixpoint refused (cpu : Z) (ops : list ring_op) (outs : list (Z * option spz_event)) : Z :=
  match ops, outs with
  | RingPush c (Some _) :: ops, (r, _) :: outs =>
      (if (r =? - ENOSPC) && (c =? cpu) then 1 else 0) + refused cpu ops outs
  | _ :: ops, _ :: outs => refused cpu ops outs
  | _, _ => 0
  end.

Lemma log_append_lost cpu e s : log_lost (log_append cpu e s).2 = log_lost s.
Proof. unfold log_append. by do 2 (destruct (_ : bool); [done|]). Qed.

(** A refused push is counted on its CPU; an accepted one changes no count. *)
Lemma log_push_lost cpu e s :
  (SPZ_RING_CAPACITY <= log_used cpu s /\ log_push cpu e s = (- ENOSPC, log_count_loss cpu s)) \/
  ((log_push cpu e s).1 <> - ENOSPC /\ log_lost (log_push cpu e s).2 = log_lost s).
Proof.
  unfold log_push. destruct (SPZ_RING_CAPACITY <=? log_used cpu s) eqn:E; [left; split; [lia|done]|right].
  assert (Hlast : forall s1, log_used cpu s1 < SPZ_RING_CAPACITY -> log_lost s1 = log_lost s ->
    (log_append cpu e s1).1 <> - ENOSPC /\ log_lost (log_append cpu e s1).2 = log_lost s).
  { intros s1 Hu Hl. rewrite log_append_lost. split; [|done].
    destruct (log_append_cases cpu e s1) as [[? _]|[[_ [_ ->]]|[_ [_ [s' [-> _]]]]]]; [lia|done|done]. }
  destruct (_ && _) eqn:E1; [|simpl; apply Hlast; [lia|done]].
  apply andb_prop in E1 as [_ E1].
  destruct (log_append_cases cpu (loss_event (log_pending s !!! Z.to_nat cpu) (log_lost s !!! Z.to_nat cpu)) s)
    as [[? _]|[[_ [_ ->]]|[_ [_ (s' & -> & Hu & _ & Hl & _)]]]]; [lia|done|]. apply Hlast; [|done].
  change (log_used cpu s' < SPZ_RING_CAPACITY). unfold SPZ_RING_CAPACITY in *. lia.
Qed.

Lemma log_step_lost op s cpu :
  op_ok op -> length (log_lost s) = Z.to_nat SPZ_MAX_CPUS -> 0 <= cpu < SPZ_MAX_CPUS ->
  let '(out, s') := log_step op s in
  length (log_lost s') = Z.to_nat SPZ_MAX_CPUS /\
  (log_lost s' !!! Z.to_nat cpu = log_lost s !!! Z.to_nat cpu /\ refused cpu [op] [out] = 0 \/
   log_lost s' !!! Z.to_nat cpu = u64 (log_lost s !!! Z.to_nat cpu + 1) /\ refused cpu [op] [out] = 1).
Proof.
  intros Hop Hl Hcpu. destruct op as [c [e|]|after]; cbn [log_step]; [|by auto|].
  - destruct (SPZ_MAX_CPUS <=? c) eqn:Ec; [by auto|]. destruct Hop as [Hc _].
    destruct (log_push_lost c e s) as [[_ ->]|[Hr Hs]].
    + cbn. rewrite length_insert. split; [done|]. destruct (c =? cpu) eqn:E.
      * right. replace cpu with c by lia. by rewrite list_lookup_total_insert_eq by lia.
      * left. by rewrite list_lookup_total_insert_ne by lia.
    + destruct (log_push c e s) as [r s']. cbn [fst snd] in *. rewrite Hs. split; [done|]. left.
      split; [done|]. simpl. zbool. done.
  - unfold log_pop. do 3 (destruct (_ : bool); [by auto|]). destruct (drop _ _); cbn; auto.
Qed.

Lemma refused_cons cpu op ops out outs :
  refused cpu (op :: ops) (out :: outs) = refused cpu [op] [out] + refused cpu ops outs.
Proof. destruct op as [c [e|]|a], out as [r o]; simpl; lia. Qed.

Lemma run_ops_lost ops s cpu :
  Forall op_ok ops -> length (log_lost s) = Z.to_nat SPZ_MAX_CPUS -> 0 <= cpu < SPZ_MAX_CPUS ->
  is_u64 (log_lost s !!! Z.to_nat cpu) ->
  log_lost (run_ops log_step ops s).2 !!! Z.to_nat cpu =
  u64 (log_lost s !!! Z.to_nat cpu + refused cpu ops (run_ops log_step ops s).1).
Proof.
  intros Hok. revert s. induction Hok as [|op ops Hop Hok IH]; intros s Hl Hcpu Hu.
  - simpl. zlia.
  - simpl run_ops. pose proof (log_step_lost op s cpu Hop Hl Hcpu) as Hs.
    destruct (log_step op s) as [out s1]. destruct Hs as [Hl1 Hs].
    specialize (IH s1 Hl1 Hcpu). destruct (run_ops log_step ops s1) as [outs s2]. cbn [fst snd] in *.
    rewrite refused_cons. destruct Hs as [[Hs ->]|[Hs ->]]; rewrite Hs in IH; rewrite IH by zlia;
      [f_equal; lia|]. unfold u64. rewrite Zplus_mod_idemp_l. f_equal. lia.
Qed.

(** ** Properties *)

Section from_init.
Context (ops : list ring_op) (Hok : Forall op_ok ops).

Lemma from_init_refines :
  ring_refines (run_ops ring_step ops spz_ring_init).2 (run_ops log_step ops log_init).2.
Proof. by apply run_ops_refines; [apply ring_init_refines|]. Qed.

Lemma from_init_outputs :
  (run_ops ring_step ops spz_ring_init).1 = (run_ops log_step ops log_init).1.
Proof. by apply run_ops_refines; [apply ring_init_refines|]. Qed.
End from_init.

(** C19: the eight slot arrays implement one totally ordered event log. For any
    sequence of pushes on any CPUs and of polls, every result code and every
    delivered event of the ring is the one the log prescribes. *)
Theorem ring_implements_log ops :
  Forall op_ok ops ->
  (run_ops ring_step ops spz_ring_init).1 = (run_ops log_step ops log_init).1.
Proof. apply from_init_outputs. Qed.

(** A consumer that polls from the last consumed sequence number receives
    every published event still queued, in order, without gap or repetition,
    each sealed with its header words and CRC, and ends level with the producers. *)
Theorem ring_drain_delivers ops :
  Forall op_ok ops ->
  let ring := (run_ops ring_step ops spz_ring_init).2 in
  let n := ring_next_sequence ring - ring_consumer_after ring in
  let '(events, ring') := drain (Z.to_nat n) ring in
  ev_sequence <$> events = seqZ (ring_consumer_after ring + 1) n /\
  Forall event_sealed events /\
  ring_consumer_after ring' = ring_next_sequence ring.
Proof.
  intros Hok ring n. pose proof (from_init_refines ops Hok) as Hr. fold ring in Hr.
  pose proof (run_ops_log_wf ops _ log_init_wf Hok) as Hw.
  set (s := (run_ops log_step ops log_init).2) in *. clearbody ring s.
  pose proof (rr_length _ _ Hr) as Hl. pose proof (rr_contig _ _ Hr) as Hc.
  assert (Hn : n = Z.of_nat (length (log_entries s)))
    by (unfold n; rewrite (rr_next _ _ Hr), (rr_consumed _ _ Hr); lia).
  destruct (drain_spec (Z.to_nat n) ring s Hr ltac:(lia)) as (H1 & H2 & H3).
  destruct (drain _ ring) as [events ring']. cbn [fst snd] in *. subst events.
  rewrite H2, (rr_next _ _ Hr), (rr_consumed _ _ Hr), Hn. split; [by apply contig_sequences|].
  split; [|done]. eapply Forall_impl; [exact (lw_entries _ Hw)|]. by intros e [_ He].
Qed.

(** The loss counter of a CPU is exactly the number of its pushes refused
    with ENOSPC, modulo 2^64; no other operation moves it. *)
Theorem ring_lost_counts_refused ops cpu :
  Forall op_ok ops -> 0 <= cpu < SPZ_MAX_CPUS ->
  let '(outs, ring) := run_ops ring_step ops spz_ring_init in
  spz_ring_lost ring cpu = u64 (refused cpu ops outs).
Proof.
  intros Hok Hcpu. pose proof (from_init_refines ops Hok) as Hr. pose proof (from_init_outputs ops Hok) as Ho.
  pose proof (cr_lost_eq _ _ _ (rr_cpu _ _ Hr cpu Hcpu)) as Hl.
  assert (Hz : log_lost log_init !!! Z.to_nat cpu = 0)
    by (apply lookup_total_replicate_2; lia).
  rewrite (run_ops_lost ops log_init cpu), Hz in Hl by (done || lia).
  destruct (run_ops ring_step ops spz_ring_init) as [outs ring]. cbn [fst snd] in *. subst outs.
  unfold spz_ring_lost. zbool. by rewrite Hl.
Qed.

(** ** Concrete runs *)

(** Two CPUs, a poll that acknowledges, one that finds nothing, a stale one. *)
Definition sample_ops : list ring_op :=
  [RingPush 0 (Some sample_event); RingPush 5 (Some zero_event); RingPush 0 (Some zero_event);
   RingPush 9 (Some zero_event); RingPop 0; RingPop 1; RingPop 1].

Lemma sample_ops_ok : Forall op_ok sample_ops.
Proof.
  repeat (constructor; [first [split; [lia|intros e [= <-]; first [apply sample_event_wf|apply zero_event_wf]]
                              |simpl; lia]|]). constructor.
Qed.

(** Sixty-six events on one CPU: two are lost. *)
Definition overflow_ops : list ring_op := replicate 66 (RingPush 1 (Some zero_event)).

Lemma overflow_ops_ok : Forall op_ok overflow_ops.
Proof. apply Forall_replicate. split; [lia|]. intros e [= <-]. apply zero_event_wf. Qed.

Example sample_ops_results :
  (run_ops ring_step sample_ops spz_ring_init).1.*1 = [0; 0; 0; - EINVAL; 1; 1; - ESTALE].
Proof. vm_compute. reflexivity. Qed.

Lemma ring_implements_log_witness :
  (run_ops ring_step sample_ops spz_ring_init).1 = (run_ops log_step sample_ops log_init).1.
Proof. exact (ring_implements_log sample_ops sample_ops_ok). Defined.

Lemma ring_drain_delivers_witness :
  let ring := (run_ops ring_step sample_ops spz_ring_init).2 in
  let n := ring_next_sequence ring - ring_consumer_after ring in
  let '(events, ring') := drain (Z.to_nat n) ring in
  ev_sequence <$> events = seqZ (ring_consumer_after ring + 1) n /\
  Forall event_sealed events /\ ring_consumer_after ring' = ring_next_sequence ring.
Proof. exact (ring_drain_delivers sample_ops sample_ops_ok). Defined.

Lemma ring_lost_counts_refused_witness :
  (let '(outs, _) := run_ops ring_step overflow_ops spz_ring_init in refused 1 overflow_ops outs = 2) /\
  (let '(outs, ring) := run_ops ring_step overflow_ops spz_ring_init in
   spz_ring_lost ring 1 = u64 (refused 1 overflow_ops outs)).
Proof.
  split; [vm_compute; reflexivity|].
  exact (ring_lost_counts_refused overflow_ops 1 overflow_ops_ok ltac:(split; reflexivity || discriminate)).
Defined.
