(* ===== verification/DeviceProfiles.v ===== *)
(** * The device profiles (kpm/generated/device_profiles.h)

    The profile structures member by member and the table of shipped profiles.
    The header is produced by tools/gen_kpm_profiles.py and kept in the
    repository; the values below are those of its initialisers. *)

From S2P Require Import Prelude.

Record spz_product_profile := {
  pp_manufacturer : option (list Z);
  pp_model : option (list Z);
  pp_device : option (list Z);
  pp_fingerprint : option (list Z);
  pp_android_release : option (list Z);
  pp_sdk : Z;
  pp_security_patch : option (list Z);
}.

Record spz_kernel_profile := {
  kp_release : option (list Z);
  kp_build_id : option (list Z);
  kp_ack_commit : option (list Z);
  kp_btf_sha256 : option (list Z);
  kp_page_size : Z;
  kp_va_bits : Z;
  kp_task_struct_size : Z;
  kp_cred_size : Z;
  kp_perf_event_size : Z;
  kp_task_comm_len : Z;
  kp_linux_banner_capacity : Z;
}.

Record spz_kpatch_profile := {
  kpp_kpver : option (list Z);
  kpp_kver : option (list Z);
  kpp_sdk_version : option (list Z);
  kpp_sdk_commit : option (list Z);
  kpp_control_path : option (list Z);
  kpp_module_name : option (list Z);
  kpp_safe_unload_symbol : option (list Z);
  kpp_memcpy_kfunc : option (list Z);
  kpp_memset_kfunc : option (list Z);
  kpp_kfunc_exports_are_pointers : Z;
}.

Record spz_task_profile := {
  tp_thread_info_flags : Z;
  tp_cpu : Z;
  tp_state : Z;
  tp_usage : Z;
  tp_tasks : Z;
  tp_mm : Z;
  tp_active_mm : Z;
  tp_exit_state : Z;
  tp_pid : Z;
  tp_tgid : Z;
  tp_real_parent : Z;
  tp_parent : Z;
  tp_thread_pid : Z;
  tp_pid_links : Z;
  tp_thread_node : Z;
  tp_start_time : Z;
  tp_start_boottime : Z;
  tp_real_cred : Z;
  tp_cred : Z;
  tp_comm : Z;
  tp_signal : Z;
  tp_perf_event_ctxp : Z;
  tp_perf_event_list : Z;
  tp_thread : Z;
  tp_signal_thread_head : Z;
}.

Record spz_cred_profile := {
  crp_uid : Z;
}.

Record spz_perf_event_profile := {
  pep_state : Z;
  pep_attr : Z;
  pep_attr_bp_type : Z;
  pep_attr_bp_addr : Z;
  pep_attr_bp_len : Z;
  pep_hw : Z;
  pep_arch_address : Z;
  pep_arch_trigger : Z;
  pep_arch_ctrl : Z;
  pep_hw_target : Z;
  pep_ctx : Z;
  pep_oncpu : Z;
  pep_cpu : Z;
  pep_owner : Z;
  pep_context_task : Z;
}.

Record spz_debug_profile := {
  dp_dfr0 : Z;
  dp_debug_arch : Z;
  dp_brps : Z;
  dp_wrps : Z;
  dp_ctx_cmps : Z;
  dp_max_cpus : Z;
}.

Record spz_layout_profile := {
  lp_work_struct_size : Z;
  lp_work_data : Z;
  lp_work_entry : Z;
  lp_work_func : Z;
  lp_work_data_init : Z;
  lp_pt_regs_size : Z;
  lp_pt_regs_regs : Z;
  lp_pt_regs_sp : Z;
  lp_pt_regs_pc : Z;
  lp_pt_regs_pstate : Z;
  lp_per_cpu_pointer_stride : Z;
}.

Record spz_maps_profile := {
  mp_max_snapshot_bytes : Z;
  mp_max_chunk_bytes : Z;
  mp_seq_file_size : Z;
  mp_seq_buf : Z;
  mp_seq_size : Z;
  mp_seq_from : Z;
  mp_seq_count : Z;
  mp_seq_pad_until : Z;
  mp_seq_private : Z;
  mp_proc_maps_private_size : Z;
  mp_proc_task : Z;
  mp_proc_mm : Z;
  mp_proc_iter : Z;
  mp_vma_iterator_size : Z;
  mp_mas_tree : Z;
  mp_mas_index : Z;
  mp_mas_last : Z;
  mp_mas_node : Z;
  mp_mas_status : Z;
  mp_mm_struct_size : Z;
  mp_mm_mt : Z;
  mp_vma_struct_size : Z;
  mp_vma_start : Z;
  mp_vma_end : Z;
  mp_mas_start_node : Z;
  mp_ma_start_status : Z;
  mp_show_map_vma_args : Z;
}.

Record spz_symbols_profile := {
  sp_linux_banner : option (list Z);
  sp_init_task : option (list Z);
  sp_finish_task_switch : option (list Z);
  sp_do_exit : option (list Z);
  sp_breakpoint_handler : option (list Z);
  sp_watchpoint_handler : option (list Z);
  sp_single_step_handler : option (list Z);
  sp_bp_on_reg : option (list Z);
  sp_wp_on_reg : option (list Z);
  sp_per_cpu_offset : option (list Z);
  sp_nr_cpu_ids : option (list Z);
  sp_system_unbound_wq : option (list Z);
  sp_queue_work_on : option (list Z);
  sp_flush_work : option (list Z);
  sp_synchronize_rcu_tasks : option (list Z);
  sp_schedule_on_each_cpu : option (list Z);
  sp_ktime_get_mono_fast_ns : option (list Z);
  sp_copy_from_kernel_nofault : option (list Z);
  sp_show_map_vma : option (list Z);
  sp_find_vma : option (list Z);
  sp_mas_walk : option (list Z);
  sp_get_task_mm : option (list Z);
  sp_mmput : option (list Z);
  sp_mmap_read_lock_killable : option (list Z);
  sp_mmap_read_unlock : option (list Z);
  sp_rust_helper_get_task_struct : option (list Z);
  sp_rust_helper_put_task_struct : option (list Z);
  sp_vmalloc_noprof : option (list Z);
  sp_vfree : option (list Z);
}.

Record spz_hooks_profile := {
  hp_finish_task_switch_args : Z;
  hp_do_exit_args : Z;
  hp_breakpoint_handler_args : Z;
  hp_watchpoint_handler_args : Z;
  hp_single_step_handler_args : Z;
}.

Record spz_quirks_profile := {
  qp_control_under_rcu : Z;
  qp_unload_requires_quiescent : Z;
  qp_cpu_hotplug_while_armed : Z;
  qp_safe_unload_required : Z;
  qp_linux_banner_prefix_ok : Z;
}.

Record spz_device_profile := {
  profile_id : option (list Z);
  profile_product : spz_product_profile;
  profile_kernel : spz_kernel_profile;
  profile_kpatch : spz_kpatch_profile;
  profile_task : spz_task_profile;
  profile_cred : spz_cred_profile;
  profile_perf_event : spz_perf_event_profile;
  profile_debug : spz_debug_profile;
  profile_layout : spz_layout_profile;
  profile_maps : spz_maps_profile;
  profile_symbols : spz_symbols_profile;
  profile_hooks : spz_hooks_profile;
  profile_quirks : spz_quirks_profile;
}.

Definition plk110_product : spz_product_profile := {|
  pp_manufacturer := Some (str "OnePlus");
  pp_model := Some (str "PLK110");
  pp_device := Some (str "OP60FFL1");
  pp_fingerprint := Some (str "OnePlus/PLK110/OP60FFL1:16/BP2A.250605.015/B.4999618-258d62aa-25a17fd:user/release-keys");
  pp_android_release := Some (str "16");
  pp_sdk := 36;
  pp_security_patch := Some (str "2026-06-01") |}.

Definition plk110_kernel : spz_kernel_profile := {|
  kp_release := Some (str "6.12.23-android16-5-gb2a876903b49-ab14541642-4k");
  kp_build_id := Some (str "30b974f296b5639f597e345adb578a0cbcabeb03");
  kp_ack_commit := Some (str "b2a876903b495c444a94b16f50d1463ffe953957");
  kp_btf_sha256 := Some (str "75b509d7abaed46f57cf26c3780122b5abfae889cde4a22edf1812bba3ce3320");
  kp_page_size := 4096;
  kp_va_bits := 39;
  kp_task_struct_size := 5184;
  kp_cred_size := 184;
  kp_perf_event_size := 1120;
  kp_task_comm_len := 16;
  kp_linux_banner_capacity := 256 |}.

Definition plk110_kpatch : spz_kpatch_profile := {|
  kpp_kpver := Some (str "d05");
  kpp_kver := Some (str "60c17");
  kpp_sdk_version := Some (str "0.13.5-2");
  kpp_sdk_commit := Some (str "0fe6d142266b80e5aa445a7ea1534f88a8f33a35");
  kpp_control_path := Some (str "/data/adb/modules/KPatch-Next/bin/kpatch");
  kpp_module_name := Some (str "stackplz-kpm");
  kpp_safe_unload_symbol := Some (str "kpm_safe_unload_v1");
  kpp_memcpy_kfunc := Some (str "kf_memcpy");
  kpp_memset_kfunc := Some (str "kf_memset");
  kpp_kfunc_exports_are_pointers := 1 |}.

Definition plk110_task : spz_task_profile := {|
  tp_thread_info_flags := 0;
  tp_cpu := 40;
  tp_state := 48;
  tp_usage := 64;
  tp_tasks := 1592;
  tp_mm := 1672;
  tp_active_mm := 1680;
  tp_exit_state := 1696;
  tp_pid := 1800;
  tp_tgid := 1804;
  tp_real_parent := 1816;
  tp_parent := 1824;
  tp_thread_pid := 1904;
  tp_pid_links := 1912;
  tp_thread_node := 1976;
  tp_start_time := 2104;
  tp_start_boottime := 2112;
  tp_real_cred := 2296;
  tp_cred := 2304;
  tp_comm := 2320;
  tp_signal := 2392;
  tp_perf_event_ctxp := 2992;
  tp_perf_event_list := 3048;
  tp_thread := 3488;
  tp_signal_thread_head := 16 |}.

Definition plk110_cred : spz_cred_profile := {|
  crp_uid := 8 |}.

Definition plk110_perf_event : spz_perf_event_profile := {|
  pep_state := 168;
  pep_attr := 216;
  pep_attr_bp_type := 268;
  pep_attr_bp_addr := 272;
  pep_attr_bp_len := 280;
  pep_hw := 360;
  pep_arch_address := 360;
  pep_arch_trigger := 368;
  pep_arch_ctrl := 376;
  pep_hw_target := 456;
  pep_ctx := 552;
  pep_oncpu := 664;
  pep_cpu := 668;
  pep_owner := 688;
  pep_context_task := 152 |}.

Definition plk110_debug : spz_debug_profile := {|
  dp_dfr0 := 19722761426713;
  dp_debug_arch := 9;
  dp_brps := 6;
  dp_wrps := 4;
  dp_ctx_cmps := 2;
  dp_max_cpus := 8 |}.

Definition plk110_layout : spz_layout_profile := {|
  lp_work_struct_size := 32;
  lp_work_data := 0;
  lp_work_entry := 8;
  lp_work_func := 24;
  lp_work_data_init := 4503599625273344;
  lp_pt_regs_size := 336;
  lp_pt_regs_regs := 0;
  lp_pt_regs_sp := 248;
  lp_pt_regs_pc := 256;
  lp_pt_regs_pstate := 264;
  lp_per_cpu_pointer_stride := 8 |}.

Definition plk110_maps : spz_maps_profile := {|
  mp_max_snapshot_bytes := 2097152;
  mp_max_chunk_bytes := 1536;
  mp_seq_file_size := 136;
  mp_seq_buf := 0;
  mp_seq_size := 8;
  mp_seq_from := 16;
  mp_seq_count := 24;
  mp_seq_pad_until := 32;
  mp_seq_private := 128;
  mp_proc_maps_private_size := 120;
  mp_proc_task := 8;
  mp_proc_mm := 16;
  mp_proc_iter := 24;
  mp_vma_iterator_size := 72;
  mp_mas_tree := 0;
  mp_mas_index := 8;
  mp_mas_last := 16;
  mp_mas_node := 24;
  mp_mas_status := 56;
  mp_mm_struct_size := 1216;
  mp_mm_mt := 64;
  mp_vma_struct_size := 256;
  mp_vma_start := 0;
  mp_vma_end := 8;
  mp_mas_start_node := 1;
  mp_ma_start_status := 1;
  mp_show_map_vma_args := 2 |}.

Definition plk110_symbols : spz_symbols_profile := {|
  sp_linux_banner := Some (str "linux_banner");
  sp_init_task := Some (str "init_task");
  sp_finish_task_switch := Some (str "finish_task_switch");
  sp_do_exit := Some (str "do_exit");
  sp_breakpoint_handler := Some (str "breakpoint_handler");
  sp_watchpoint_handler := Some (str "watchpoint_handler");
  sp_single_step_handler := Some (str "single_step_handler");
  sp_bp_on_reg := Some (str "bp_on_reg");
  sp_wp_on_reg := Some (str "wp_on_reg");
  sp_per_cpu_offset := Some (str "__per_cpu_offset");
  sp_nr_cpu_ids := Some (str "nr_cpu_ids");
  sp_system_unbound_wq := Some (str "system_unbound_wq");
  sp_queue_work_on := Some (str "queue_work_on");
  sp_flush_work := Some (str "flush_work");
  sp_synchronize_rcu_tasks := Some (str "synchronize_rcu_tasks");
  sp_schedule_on_each_cpu := Some (str "schedule_on_each_cpu");
  sp_ktime_get_mono_fast_ns := Some (str "ktime_get_mono_fast_ns");
  sp_copy_from_kernel_nofault := Some (str "copy_from_kernel_nofault");
  sp_show_map_vma := Some (str "show_map_vma");
  sp_find_vma := Some (str "find_vma");
  sp_mas_walk := Some (str "mas_walk");
  sp_get_task_mm := Some (str "get_task_mm");
  sp_mmput := Some (str "mmput");
  sp_mmap_read_lock_killable := Some (str "mmap_read_lock_killable");
  sp_mmap_read_unlock := Some (str "mmap_read_unlock");
  sp_rust_helper_get_task_struct := Some (str "rust_helper_get_task_struct");
  sp_rust_helper_put_task_struct := Some (str "rust_helper_put_task_struct");
  sp_vmalloc_noprof := Some (str "vmalloc_noprof");
  sp_vfree := Some (str "vfree") |}.

Definition plk110_hooks : spz_hooks_profile := {|
  hp_finish_task_switch_args := 1;
  hp_do_exit_args := 1;
  hp_breakpoint_handler_args := 3;
  hp_watchpoint_handler_args := 3;
  hp_single_step_handler_args := 3 |}.

Definition plk110_quirks : spz_quirks_profile := {|
  qp_control_under_rcu := 1;
  qp_unload_requires_quiescent := 1;
  qp_cpu_hotplug_while_armed := 0;
  qp_safe_unload_required := 0;
  qp_linux_banner_prefix_ok := 1 |}.

Definition profile_oneplus_plk110_a16_b4999618_d05 : spz_device_profile := {|
  profile_id := Some (str "oneplus-plk110-a16-b4999618-d05");
  profile_product := plk110_product;
  profile_kernel := plk110_kernel;
  profile_kpatch := plk110_kpatch;
  profile_task := plk110_task;
  profile_cred := plk110_cred;
  profile_perf_event := plk110_perf_event;
  profile_debug := plk110_debug;
  profile_layout := plk110_layout;
  profile_maps := plk110_maps;
  profile_symbols := plk110_symbols;
  profile_hooks := plk110_hooks;
  profile_quirks := plk110_quirks |}.

Definition SPZ_DEVICE_PROFILES : list spz_device_profile := [profile_oneplus_plk110_a16_b4999618_d05].

Definition SPZ_DEFAULT_DEVICE_PROFILE_ID : list Z := str "oneplus-plk110-a16-b4999618-d05".
Definition SPZ_DEFAULT_KPM_MODULE_NAME : list Z := str "stackplz-kpm".
