(* ===== verification/Profile.v ===== *)
(** * Device profile selection and validation (kpm/core/profile.c)

    A profile is looked up by its id, checked for internal consistency, and then
    compared with the running kernel through a table of callbacks; only a profile
    that passes every check allows the hooks to be installed. *)

From S2P Require Import Prelude Abi DeviceProfiles.

Definition SPZ_BANNER_CAPACITY_MAX : Z := 512.

Inductive spz_profile_state :=
  SPZ_PROFILE_UNINITIALIZED | SPZ_PROFILE_REJECTED | SPZ_PROFILE_READY.

Inductive spz_profile_reason :=
  | SPZ_PROFILE_REASON_NONE
  | SPZ_PROFILE_REASON_INVALID_ARGUMENT
  | SPZ_PROFILE_REASON_UNKNOWN_ID
  | SPZ_PROFILE_REASON_GENERATED_BOUNDS
  | SPZ_PROFILE_REASON_KERNEL_RELEASE
  | SPZ_PROFILE_REASON_PAGE_SIZE
  | SPZ_PROFILE_REASON_CPU_COUNT
  | SPZ_PROFILE_REASON_DEBUG_ARCH
  | SPZ_PROFILE_REASON_BRP_COUNT
  | SPZ_PROFILE_REASON_WRP_COUNT
  | SPZ_PROFILE_REASON_CONTEXT_COUNT
  | SPZ_PROFILE_REASON_SYMBOL_LINUX_BANNER
  | SPZ_PROFILE_REASON_SYMBOL_INIT_TASK
  | SPZ_PROFILE_REASON_SYMBOL_FINISH_TASK_SWITCH
  | SPZ_PROFILE_REASON_SYMBOL_DO_EXIT
  | SPZ_PROFILE_REASON_SYMBOL_BREAKPOINT_HANDLER
  | SPZ_PROFILE_REASON_SYMBOL_WATCHPOINT_HANDLER
  | SPZ_PROFILE_REASON_SYMBOL_SINGLE_STEP_HANDLER
  | SPZ_PROFILE_REASON_SYMBOL_BP_ON_REG
  | SPZ_PROFILE_REASON_SYMBOL_WP_ON_REG
  | SPZ_PROFILE_REASON_SYMBOL_PER_CPU_OFFSET
  | SPZ_PROFILE_REASON_SYMBOL_NR_CPU_IDS
  | SPZ_PROFILE_REASON_SYMBOL_SYSTEM_UNBOUND_WQ
  | SPZ_PROFILE_REASON_SYMBOL_QUEUE_WORK_ON
  | SPZ_PROFILE_REASON_SYMBOL_FLUSH_WORK
  | SPZ_PROFILE_REASON_SYMBOL_SYNCHRONIZE_RCU_TASKS
  | SPZ_PROFILE_REASON_SYMBOL_SCHEDULE_ON_EACH_CPU
  | SPZ_PROFILE_REASON_SYMBOL_KTIME_GET_MONO_FAST_NS
  | SPZ_PROFILE_REASON_SYMBOL_COPY_FROM_KERNEL_NOFAULT
  | SPZ_PROFILE_REASON_INIT_TASK_PID
  | SPZ_PROFILE_REASON_INIT_TASK_TGID
  | SPZ_PROFILE_REASON_INIT_TASK_COMM
  | SPZ_PROFILE_REASON_INIT_TASK_CRED
  | SPZ_PROFILE_REASON_CPU_TOPOLOGY_CHANGED.

#[export] Instance spz_profile_state_eq : EqDecision spz_profile_state.
Proof. solve_decision. Defined.
#[export] Instance spz_profile_reason_eq : EqDecision spz_profile_reason.
Proof. solve_decision. Defined.

(** [enum spz_runtime_symbol]: positions in the symbol table. *)
Definition SPZ_SYMBOL_LINUX_BANNER : nat := 0.
Definition SPZ_SYMBOL_INIT_TASK : nat := 1.
Definition SPZ_SYMBOL_FINISH_TASK_SWITCH : nat := 2.
Definition SPZ_SYMBOL_DO_EXIT : nat := 3.
Definition SPZ_SYMBOL_BREAKPOINT_HANDLER : nat := 4.
Definition SPZ_SYMBOL_WATCHPOINT_HANDLER : nat := 5.
Definition SPZ_SYMBOL_SINGLE_STEP_HANDLER : nat := 6.
Definition SPZ_SYMBOL_BP_ON_REG : nat := 7.
Definition SPZ_SYMBOL_WP_ON_REG : nat := 8.
Definition SPZ_SYMBOL_PER_CPU_OFFSET : nat := 9.
Definition SPZ_SYMBOL_NR_CPU_IDS : nat := 10.
Definition SPZ_SYMBOL_SYSTEM_UNBOUND_WQ : nat := 11.
Definition SPZ_SYMBOL_QUEUE_WORK_ON : nat := 12.
Definition SPZ_SYMBOL_FLUSH_WORK : nat := 13.
Definition SPZ_SYMBOL_SYNCHRONIZE_RCU_TASKS : nat := 14.
Definition SPZ_SYMBOL_SCHEDULE_ON_EACH_CPU : nat := 15.
Definition SPZ_SYMBOL_KTIME_GET_MONO_FAST_NS : nat := 16.
Definition SPZ_SYMBOL_COPY_FROM_KERNEL_NOFAULT : nat := 17.
Definition SPZ_SYMBOL_COUNT : nat := 18.

(** The callbacks into the running kernel; a NULL pointer is [None]. A memory
    read gives its result code and, when that is 0, the bytes stored; the banner
    read gives its result code and the bytes it stored. *)
Record spz_profile_runtime_ops := {
  po_lookup_symbol : option (list Z -> Z);
  po_read_memory : option (Z -> nat -> Z * list Z);
  po_read_kernel_banner : option (nat -> Z * list Z);
  po_page_size : option (unit -> Z);
  po_cpu_count : option (unit -> Z);
  po_read_dfr0 : option (unit -> Z);
  po_read_debug_owner : option (Z -> Z -> Z -> Z * Z);
}.

Record spz_profile_runtime := {
  pr_profile : option spz_device_profile;
  pr_symbols : list Z;
  pr_dfr0 : Z;
  pr_initial_cpu_count : Z;
  pr_state : spz_profile_state;
  pr_reason : spz_profile_reason;
  pr_hooks_allowed : Z;
}.

#[export] Instance spz_profile_runtime_shape : Shape spz_profile_runtime :=
  shape! Build_spz_profile_runtime < pr_profile ; pr_symbols ; pr_dfr0 ; pr_initial_cpu_count ;
    pr_state ; pr_reason ; pr_hooks_allowed >.

Definition zero_profile_runtime : spz_profile_runtime :=
  {| pr_profile := None; pr_symbols := replicate SPZ_SYMBOL_COUNT 0; pr_dfr0 := 0;
     pr_initial_cpu_count := 0; pr_state := SPZ_PROFILE_UNINITIALIZED;
     pr_reason := SPZ_PROFILE_REASON_NONE; pr_hooks_allowed := 0 |}.

(** ** Reasons *)

(** The contents of [out] afterwards; [None] is the NULL buffer. *)
Definition spz_copy_reason (out : option (list Z)) (capacity : nat) (reason : list Z) : option (list Z) :=
  match out with
  | None => None
  | Some buffer =>
      if Nat.eqb capacity 0 then Some buffer
      else
        let length := if Nat.leb capacity (length reason) then (capacity - 1)%nat else length reason in
        Some (take length reason ++ 0 :: drop (S length) buffer)
  end.

Definition spz_profile_reason_name (reason : spz_profile_reason) : list Z :=
  match reason with
  | SPZ_PROFILE_REASON_NONE => str "ok"
  | SPZ_PROFILE_REASON_INVALID_ARGUMENT => str "invalid_argument"
  | SPZ_PROFILE_REASON_UNKNOWN_ID => str "unknown_profile_id"
  | SPZ_PROFILE_REASON_GENERATED_BOUNDS => str "generated_profile_bounds"
  | SPZ_PROFILE_REASON_KERNEL_RELEASE => str "kernel_release_mismatch"
  | SPZ_PROFILE_REASON_PAGE_SIZE => str "page_size_mismatch"
  | SPZ_PROFILE_REASON_CPU_COUNT => str "cpu_count_mismatch"
  | SPZ_PROFILE_REASON_DEBUG_ARCH => str "debug_arch_mismatch"
  | SPZ_PROFILE_REASON_BRP_COUNT => str "breakpoint_count_mismatch"
  | SPZ_PROFILE_REASON_WRP_COUNT => str "watchpoint_count_mismatch"
  | SPZ_PROFILE_REASON_CONTEXT_COUNT => str "context_count_mismatch"
  | SPZ_PROFILE_REASON_SYMBOL_LINUX_BANNER => str "missing_symbol_linux_banner"
  | SPZ_PROFILE_REASON_SYMBOL_INIT_TASK => str "missing_symbol_init_task"
  | SPZ_PROFILE_REASON_SYMBOL_FINISH_TASK_SWITCH => str "missing_symbol_finish_task_switch"
  | SPZ_PROFILE_REASON_SYMBOL_DO_EXIT => str "missing_symbol_do_exit"
  | SPZ_PROFILE_REASON_SYMBOL_BREAKPOINT_HANDLER => str "missing_symbol_breakpoint_handler"
  | SPZ_PROFILE_REASON_SYMBOL_WATCHPOINT_HANDLER => str "missing_symbol_watchpoint_handler"
  | SPZ_PROFILE_REASON_SYMBOL_SINGLE_STEP_HANDLER => str "missing_symbol_single_step_handler"
  | SPZ_PROFILE_REASON_SYMBOL_BP_ON_REG => str "missing_symbol_bp_on_reg"
  | SPZ_PROFILE_REASON_SYMBOL_WP_ON_REG => str "missing_symbol_wp_on_reg"
  | SPZ_PROFILE_REASON_SYMBOL_PER_CPU_OFFSET => str "missing_symbol_per_cpu_offset"
  | SPZ_PROFILE_REASON_SYMBOL_NR_CPU_IDS => str "missing_symbol_nr_cpu_ids"
  | SPZ_PROFILE_REASON_SYMBOL_SYSTEM_UNBOUND_WQ => str "missing_symbol_system_unbound_wq"
  | SPZ_PROFILE_REASON_SYMBOL_QUEUE_WORK_ON => str "missing_symbol_queue_work_on"
  | SPZ_PROFILE_REASON_SYMBOL_FLUSH_WORK => str "missing_symbol_flush_work"
  | SPZ_PROFILE_REASON_SYMBOL_SYNCHRONIZE_RCU_TASKS => str "missing_symbol_synchronize_rcu_tasks"
  | SPZ_PROFILE_REASON_SYMBOL_SCHEDULE_ON_EACH_CPU => str "missing_symbol_schedule_on_each_cpu"
  | SPZ_PROFILE_REASON_SYMBOL_KTIME_GET_MONO_FAST_NS => str "missing_symbol_ktime_get_mono_fast_ns"
  | SPZ_PROFILE_REASON_SYMBOL_COPY_FROM_KERNEL_NOFAULT => str "missing_symbol_copy_from_kernel_nofault"
  | SPZ_PROFILE_REASON_INIT_TASK_PID => str "init_task_pid_mismatch"
  | SPZ_PROFILE_REASON_INIT_TASK_TGID => str "init_task_tgid_mismatch"
  | SPZ_PROFILE_REASON_INIT_TASK_COMM => str "init_task_comm_mismatch"
  | SPZ_PROFILE_REASON_INIT_TASK_CRED => str "init_task_cred_mismatch"
  | SPZ_PROFILE_REASON_CPU_TOPOLOGY_CHANGED => str "cpu_topology_changed"
  end.

Definition spz_reject (reason : spz_profile_reason) (text : option (list Z)) (capacity : nat) (error : Z) :
    Z * spz_profile_runtime * option (list Z) :=
  (error, zero_profile_runtime <| pr_state := SPZ_PROFILE_REJECTED |> <| pr_reason := reason |>,
   spz_copy_reason text capacity (spz_profile_reason_name reason)).

(** ** Selection *)

Definition spz_profile_select (id : option (list Z)) : option spz_device_profile :=
  match id with
  | None | Some [] => None
  | Some id => find (fun p => bool_decide (profile_id p = Some id)) SPZ_DEVICE_PROFILES
  end.

(** ** Consistency of a profile *)

(** [(offset, width)] *)
Definition spz_field_fits (total : Z) (field : Z * Z) : bool :=
  (field.1 <=? total) && (field.2 <=? u32 (total - field.1)).

Definition task_fields (profile : spz_device_profile) : list (Z * Z) :=
  [(tp_thread_info_flags (profile_task profile), 8);
   (tp_cpu (profile_task profile), 4);
   (tp_state (profile_task profile), 8);
   (tp_usage (profile_task profile), 4);
   (tp_tasks (profile_task profile), 16);
   (tp_mm (profile_task profile), 8);
   (tp_active_mm (profile_task profile), 8);
   (tp_exit_state (profile_task profile), 4);
   (tp_pid (profile_task profile), 4);
   (tp_tgid (profile_task profile), 4);
   (tp_real_parent (profile_task profile), 8);
   (tp_parent (profile_task profile), 8);
   (tp_thread_pid (profile_task profile), 8);
   (tp_pid_links (profile_task profile), 16);
   (tp_thread_node (profile_task profile), 16);
   (tp_start_time (profile_task profile), 8);
   (tp_start_boottime (profile_task profile), 8);
   (tp_real_cred (profile_task profile), 8);
   (tp_cred (profile_task profile), 8);
   (tp_comm (profile_task profile), kp_task_comm_len (profile_kernel profile));
   (tp_signal (profile_task profile), 8);
   (tp_perf_event_ctxp (profile_task profile), 8);
   (tp_perf_event_list (profile_task profile), 16);
   (tp_thread (profile_task profile), 1)].

Definition perf_fields (profile : spz_device_profile) : list (Z * Z) :=
  [(pep_state (profile_perf_event profile), 4);
   (pep_attr (profile_perf_event profile), 1);
   (pep_attr_bp_type (profile_perf_event profile), 4);
   (pep_attr_bp_addr (profile_perf_event profile), 8);
   (pep_attr_bp_len (profile_perf_event profile), 8);
   (pep_hw (profile_perf_event profile), 1);
   (pep_arch_address (profile_perf_event profile), 8);
   (pep_arch_trigger (profile_perf_event profile), 8);
   (pep_arch_ctrl (profile_perf_event profile), 4);
   (pep_hw_target (profile_perf_event profile), 8);
   (pep_ctx (profile_perf_event profile), 8);
   (pep_oncpu (profile_perf_event profile), 4);
   (pep_cpu (profile_perf_event profile), 4);
   (pep_owner (profile_perf_event profile), 8);
   (pep_context_task (profile_perf_event profile), 8)].

(** [(uint32_t)((dfr0 >> shift) & 0xf)] *)
Definition dfr0_field (dfr0 shift : Z) : Z := Z.land (Z.shiftr dfr0 shift) 15.

Definition args_one_or_three (n : Z) : bool := (n =? 1) || (n =? 3).

Definition spz_profile_bounds_valid (profile : spz_device_profile) : bool :=
  let kernel := profile_kernel profile in
  let layout := profile_layout profile in
  let debug := profile_debug profile in
  let hooks := profile_hooks profile in
  if (kp_task_struct_size kernel =? 0) || (kp_cred_size kernel =? 0) || (kp_perf_event_size kernel =? 0)
  then false
  else if negb (kp_task_comm_len kernel =? Z.of_nat SPZ_COMM_LEN) then false
  else if (kp_linux_banner_capacity kernel <? 64) || (SPZ_BANNER_CAPACITY_MAX <? kp_linux_banner_capacity kernel)
  then false
  else if negb (kp_page_size kernel =? 4096) && negb (kp_page_size kernel =? 16384)
          && negb (kp_page_size kernel =? 65536) then false
  else if (kp_va_bits kernel <? 32) || (52 <? kp_va_bits kernel) then false
  else if negb (forallb (spz_field_fits (kp_task_struct_size kernel)) (task_fields profile)) then false
  else if negb (spz_field_fits (kp_cred_size kernel) (crp_uid (profile_cred profile), 4)) then false
  else if negb (forallb (spz_field_fits (kp_perf_event_size kernel)) (perf_fields profile)) then false
  else if 4096 - 16 <? tp_signal_thread_head (profile_task profile) then false
  else if (lp_work_struct_size layout <? 32) || (256 <? lp_work_struct_size layout)
          || negb (spz_field_fits (lp_work_struct_size layout) (lp_work_data layout, 8))
          || negb (spz_field_fits (lp_work_struct_size layout) (lp_work_entry layout, 16))
          || negb (spz_field_fits (lp_work_struct_size layout) (lp_work_func layout, 8))
          || (lp_pt_regs_size layout <? 272) || (1024 <? lp_pt_regs_size layout)
          || negb (spz_field_fits (lp_pt_regs_size layout) (lp_pt_regs_regs layout, 31 * 8))
          || negb (spz_field_fits (lp_pt_regs_size layout) (lp_pt_regs_sp layout, 8))
          || negb (spz_field_fits (lp_pt_regs_size layout) (lp_pt_regs_pc layout, 8))
          || negb (spz_field_fits (lp_pt_regs_size layout) (lp_pt_regs_pstate layout, 8))
          || negb (lp_per_cpu_pointer_stride layout =? 8) then false
  else if (dp_debug_arch debug <? 6) || (15 <? dp_debug_arch debug)
          || (dp_brps debug =? 0) || (16 <? dp_brps debug)
          || (dp_wrps debug =? 0) || (16 <? dp_wrps debug)
          || (16 <? dp_ctx_cmps debug) || (dp_max_cpus debug =? 0) || (SPZ_MAX_CPUS <? dp_max_cpus debug)
  then false
  else if negb (dfr0_field (dp_dfr0 debug) 0 =? dp_debug_arch debug)
          || negb (dfr0_field (dp_dfr0 debug) 12 + 1 =? dp_brps debug)
          || negb (dfr0_field (dp_dfr0 debug) 20 + 1 =? dp_wrps debug)
          || negb (dfr0_field (dp_dfr0 debug) 28 + 1 =? dp_ctx_cmps debug) then false
  else if negb (args_one_or_three (hp_finish_task_switch_args hooks))
          || negb (args_one_or_three (hp_do_exit_args hooks))
          || negb (args_one_or_three (hp_breakpoint_handler_args hooks))
          || negb (args_one_or_three (hp_watchpoint_handler_args hooks))
          || negb (args_one_or_three (hp_single_step_handler_args hooks)) then false
  else true.

(** ** The running kernel *)

(** [strncmp(a, b, n) == 0], reading NUL past the end of a string. *)
Fixpoint strncmp_eq (a b : list Z) (n : nat) : bool :=
  match n with
  | O => true
  | S n =>
      let x := default 0 (head a) in
      let y := default 0 (head b) in
      if negb (x =? y) then false else if x =? 0 then true else strncmp_eq (tail a) (tail b) n
  end.

Definition banner_prefix : list Z := str "Linux version ".

Definition spz_release_matches_banner (banner release : option (list Z)) : bool :=
  match banner, release with
  | Some banner, Some release =>
      let prefix_length := length banner_prefix in
      let release_length := length release in
      if negb (strncmp_eq banner banner_prefix prefix_length) then false
      else if negb (strncmp_eq (drop prefix_length banner) release release_length) then false
      else
        let next := default 0 (banner !! (prefix_length + release_length)%nat) in
        (next =? 32) || (next =? 0)
  | _, _ => false
  end.

(** [SPZ_READ_MEMBER]: result code and value of a member of [width] bytes. *)
Definition spz_read_member (read_memory : Z -> nat -> Z * list Z) (base offset : Z) (width : nat) : Z * Z :=
  if UINT64_MAX - offset <? base then (- EOVERFLOW, 0)
  else let '(result, bytes) := read_memory (base + offset) width in (result, le_value bytes).

(** [Some reason] is the -EINVAL return with [*reason] set. *)
Definition spz_read_init_task (profile : spz_device_profile) (read_memory : Z -> nat -> Z * list Z)
    (init_task : Z) : option spz_profile_reason :=
  let task := profile_task profile in
  let uid_offset := crp_uid (profile_cred profile) in
  let '(result, pid) := spz_read_member read_memory init_task (tp_pid task) 4 in
  if negb (result =? 0) || negb (pid =? 0) then Some SPZ_PROFILE_REASON_INIT_TASK_PID
  else
    let '(result, tgid) := spz_read_member read_memory init_task (tp_tgid task) 4 in
    if negb (result =? 0) || negb (tgid =? 0) then Some SPZ_PROFILE_REASON_INIT_TASK_TGID
    else if UINT64_MAX - tp_comm task <? init_task then Some SPZ_PROFILE_REASON_INIT_TASK_COMM
    else
      let '(result, comm) := read_memory (init_task + tp_comm task) SPZ_COMM_LEN in
      if negb (result =? 0) || negb (bool_decide (take 7 comm = str "swapper"))
      then Some SPZ_PROFILE_REASON_INIT_TASK_COMM
      else
        let '(result1, cred) := spz_read_member read_memory init_task (tp_cred task) 8 in
        let '(result2, real_cred) := spz_read_member read_memory init_task (tp_real_cred task) 8 in
        if negb (result1 =? 0) || negb (result2 =? 0)
           || (cred =? 0) || negb (cred =? real_cred) || (UINT64_MAX - uid_offset <? cred)
        then Some SPZ_PROFILE_REASON_INIT_TASK_CRED
        else
          let '(result, uid) := read_memory (cred + uid_offset) 4%nat in
          if negb (result =? 0) || negb (le_value uid =? 0) then Some SPZ_PROFILE_REASON_INIT_TASK_CRED
          else None.

(** The names looked up, in symbol order, with the reason a missing one gives. *)
Definition symbol_table (profile : spz_device_profile) : list (option (list Z) * spz_profile_reason) :=
  let symbols := profile_symbols profile in
  [(sp_linux_banner symbols, SPZ_PROFILE_REASON_SYMBOL_LINUX_BANNER);
   (sp_init_task symbols, SPZ_PROFILE_REASON_SYMBOL_INIT_TASK);
   (sp_finish_task_switch symbols, SPZ_PROFILE_REASON_SYMBOL_FINISH_TASK_SWITCH);
   (sp_do_exit symbols, SPZ_PROFILE_REASON_SYMBOL_DO_EXIT);
   (sp_breakpoint_handler symbols, SPZ_PROFILE_REASON_SYMBOL_BREAKPOINT_HANDLER);
   (sp_watchpoint_handler symbols, SPZ_PROFILE_REASON_SYMBOL_WATCHPOINT_HANDLER);
   (sp_single_step_handler symbols, SPZ_PROFILE_REASON_SYMBOL_SINGLE_STEP_HANDLER);
   (sp_bp_on_reg symbols, SPZ_PROFILE_REASON_SYMBOL_BP_ON_REG);
   (sp_wp_on_reg symbols, SPZ_PROFILE_REASON_SYMBOL_WP_ON_REG);
   (sp_per_cpu_offset symbols, SPZ_PROFILE_REASON_SYMBOL_PER_CPU_OFFSET);
   (sp_nr_cpu_ids symbols, SPZ_PROFILE_REASON_SYMBOL_NR_CPU_IDS);
   (sp_system_unbound_wq symbols, SPZ_PROFILE_REASON_SYMBOL_SYSTEM_UNBOUND_WQ);
   (sp_queue_work_on symbols, SPZ_PROFILE_REASON_SYMBOL_QUEUE_WORK_ON);
   (sp_flush_work symbols, SPZ_PROFILE_REASON_SYMBOL_FLUSH_WORK);
   (sp_synchronize_rcu_tasks symbols, SPZ_PROFILE_REASON_SYMBOL_SYNCHRONIZE_RCU_TASKS);
   (sp_schedule_on_each_cpu symbols, SPZ_PROFILE_REASON_SYMBOL_SCHEDULE_ON_EACH_CPU);
   (sp_ktime_get_mono_fast_ns symbols, SPZ_PROFILE_REASON_SYMBOL_KTIME_GET_MONO_FAST_NS);
   (sp_copy_from_kernel_nofault symbols, SPZ_PROFILE_REASON_SYMBOL_COPY_FROM_KERNEL_NOFAULT)].

(** The lookup loop: the addresses, or the reason of the first missing name. *)
Fixpoint lookup_symbols (lookup : list Z -> Z) (table : list (option (list Z) * spz_profile_reason)) :
    spz_profile_reason + list Z :=
  match table with
  | [] => inr []
  | (name, reason) :: table =>
      match name with
      | None | Some [] => inl reason
      | Some name =>
          let address := lookup name in
          if address =? 0 then inl reason
          else match lookup_symbols lookup table with
               | inl reason => inl reason
               | inr addresses => inr (address :: addresses)
               end
      end
  end.

(** [banner] after the memset and the callback's stores. *)
Definition banner_buffer (written : list Z) (capacity : nat) : list Z :=
  let written := take capacity written in
  written ++ replicate (Z.to_nat SPZ_BANNER_CAPACITY_MAX - length written) 0.

(** The checks after the argument guards: result code, runtime, reason text. *)
Definition validate_against (profile : spz_device_profile)
    (lookup_symbol : list Z -> Z) (read_memory : Z -> nat -> Z * list Z)
    (read_kernel_banner : nat -> Z * list Z) (page_size cpu_count read_dfr0 : unit -> Z)
    (text : option (list Z)) (capacity : nat) : Z * spz_profile_runtime * option (list Z) :=
  let debug := profile_debug profile in
  if negb (page_size tt =? kp_page_size (profile_kernel profile))
  then spz_reject SPZ_PROFILE_REASON_PAGE_SIZE text capacity (- EINVAL)
  else
    let cpus := cpu_count tt in
    if (cpus =? 0) || (dp_max_cpus debug <? cpus) || (SPZ_MAX_CPUS <? cpus)
    then spz_reject SPZ_PROFILE_REASON_CPU_COUNT text capacity (- ERANGE)
    else
      let dfr0 := read_dfr0 tt in
      if negb (dfr0_field dfr0 0 =? dp_debug_arch debug)
      then spz_reject SPZ_PROFILE_REASON_DEBUG_ARCH text capacity (- EINVAL)
      else if negb (dfr0_field dfr0 12 + 1 =? dp_brps debug)
      then spz_reject SPZ_PROFILE_REASON_BRP_COUNT text capacity (- EINVAL)
      else if negb (dfr0_field dfr0 20 + 1 =? dp_wrps debug)
      then spz_reject SPZ_PROFILE_REASON_WRP_COUNT text capacity (- EINVAL)
      else if negb (dfr0_field dfr0 28 + 1 =? dp_ctx_cmps debug)
      then spz_reject SPZ_PROFILE_REASON_CONTEXT_COUNT text capacity (- EINVAL)
      else
        match lookup_symbols lookup_symbol (symbol_table profile) with
        | inl reason => spz_reject reason text capacity (- ENOENT)
        | inr symbols =>
            let banner_capacity := Z.to_nat (kp_linux_banner_capacity (profile_kernel profile)) in
            let '(banner_result, written) := read_kernel_banner banner_capacity in
            let banner := banner_buffer written banner_capacity in
            if (if banner_result =? - ENOSPC then qp_linux_banner_prefix_ok (profile_quirks profile) =? 0
                else negb (banner_result =? 0))
            then spz_reject SPZ_PROFILE_REASON_KERNEL_RELEASE text capacity (- EINVAL)
            else if negb (existsb (Z.eqb 0) (take banner_capacity banner))
                    || negb (spz_release_matches_banner (Some banner) (kp_release (profile_kernel profile)))
            then spz_reject SPZ_PROFILE_REASON_KERNEL_RELEASE text capacity (- EINVAL)
            else
              match spz_read_init_task profile read_memory (symbols !!! SPZ_SYMBOL_INIT_TASK) with
              | Some reason => spz_reject reason text capacity (- EINVAL)
              | None =>
                  (0, {| pr_profile := Some profile; pr_symbols := symbols; pr_dfr0 := dfr0;
                         pr_initial_cpu_count := cpus; pr_state := SPZ_PROFILE_READY;
                         pr_reason := SPZ_PROFILE_REASON_NONE; pr_hooks_allowed := 1 |},
                   spz_copy_reason text capacity (spz_profile_reason_name SPZ_PROFILE_REASON_NONE))
              end
        end.

(** [profile] and [ops] are [None] for NULL; [runtime] is a reference. *)
Definition spz_profile_validate (profile : option spz_device_profile) (ops : option spz_profile_runtime_ops)
    (text : option (list Z)) (capacity : nat) : Z * spz_profile_runtime * option (list Z) :=
  match profile, ops with
  | Some profile,
    Some {| po_lookup_symbol := Some lookup_symbol; po_read_memory := Some read_memory;
            po_read_kernel_banner := Some read_kernel_banner; po_page_size := Some page_size;
            po_cpu_count := Some cpu_count; po_read_dfr0 := Some read_dfr0;
            po_read_debug_owner := Some _ |} =>
      match spz_profile_select (profile_id profile) with
      | None => spz_reject SPZ_PROFILE_REASON_UNKNOWN_ID text capacity (- ENOENT)
      | Some _ =>
          if negb (spz_profile_bounds_valid profile)
          then spz_reject SPZ_PROFILE_REASON_GENERATED_BOUNDS text capacity (- ERANGE)
          else validate_against profile lookup_symbol read_memory read_kernel_banner
                 page_size cpu_count read_dfr0 text capacity
      end
  | _, _ => spz_reject SPZ_PROFILE_REASON_INVALID_ARGUMENT text capacity (- EINVAL)
  end.

(** Result code and reason text. *)
Definition spz_profile_cpu_topology_unchanged (runtime : option spz_profile_runtime)
    (ops : option spz_profile_runtime_ops) (text : option (list Z)) (capacity : nat) : Z * option (list Z) :=
  let invalid :=
    (- EINVAL, spz_copy_reason text capacity (spz_profile_reason_name SPZ_PROFILE_REASON_INVALID_ARGUMENT)) in
  match runtime, ops with
  | Some runtime, Some ops =>
      match po_cpu_count ops with
      | None => invalid
      | Some cpu_count =>
          if negb (bool_decide (pr_state runtime = SPZ_PROFILE_READY)) || (pr_hooks_allowed runtime =? 0)
          then invalid
          else if negb (cpu_count tt =? pr_initial_cpu_count runtime)
          then (- ESTALE, spz_copy_reason text capacity
                            (spz_profile_reason_name SPZ_PROFILE_REASON_CPU_TOPOLOGY_CHANGED))
          else (0, spz_copy_reason text capacity (spz_profile_reason_name SPZ_PROFILE_REASON_NONE))
      end
  | _, _ => invalid
  end.

(** ** Consequences of the consistency check *)

(** The widths of the members the readers use. *)
Record profile_typed (profile : spz_device_profile) : Prop := {
  pt_task : Forall (fun f => is_u32 f.1) (task_fields profile);
  pt_uid : is_u32 (crp_uid (profile_cred profile));
  pt_task_size : is_u32 (kp_task_struct_size (profile_kernel profile));
  pt_cred_size : is_u32 (kp_cred_size (profile_kernel profile));
}.

Lemma spz_field_fits_true total f :
  is_u32 total -> 0 <= f.1 -> spz_field_fits total f = true -> f.1 + f.2 <= total.
Proof. intros Ht Hf. unfold spz_field_fits. intros H. zlia. Qed.

(** [guards]: split the chain of rejecting conditions of a boolean check. *)
Ltac guards H :=
  repeat (let E := fresh "E" in
          match type of H with
          | (if ?c then false else _) = true => destruct c eqn:E; [discriminate H|]
          end).

(** The identification register shows the architecture and the counts of slots. *)
Record dfr0_names (dfr0 : Z) (debug : spz_debug_profile) : Prop := {
  dn_arch : dfr0_field dfr0 0 = dp_debug_arch debug;
  dn_brps : dfr0_field dfr0 12 + 1 = dp_brps debug;
  dn_wrps : dfr0_field dfr0 20 + 1 = dp_wrps debug;
  dn_ctx_cmps : dfr0_field dfr0 28 + 1 = dp_ctx_cmps debug;
}.

(** What a consistent profile guarantees to the code that uses its numbers. *)
Record profile_bounds (profile : spz_device_profile) : Prop := {
  pb_task : Forall (fun f => spz_field_fits (kp_task_struct_size (profile_kernel profile)) f = true)
              (task_fields profile);
  pb_perf : Forall (fun f => spz_field_fits (kp_perf_event_size (profile_kernel profile)) f = true)
              (perf_fields profile);
  pb_cred : spz_field_fits (kp_cred_size (profile_kernel profile)) (crp_uid (profile_cred profile), 4) = true;
  pb_comm : kp_task_comm_len (profile_kernel profile) = Z.of_nat SPZ_COMM_LEN;
  pb_banner : 64 <= kp_linux_banner_capacity (profile_kernel profile) <= SPZ_BANNER_CAPACITY_MAX;
  pb_page : kp_page_size (profile_kernel profile) ∈ [4096; 16384; 65536];
  pb_brps : 1 <= dp_brps (profile_debug profile) <= 16;
  pb_wrps : 1 <= dp_wrps (profile_debug profile) <= 16;
  pb_cpus : dp_max_cpus (profile_debug profile) <> 0 /\ dp_max_cpus (profile_debug profile) <= SPZ_MAX_CPUS;
  pb_regs : Forall (fun f => spz_field_fits (lp_pt_regs_size (profile_layout profile)) f = true)
              [(lp_pt_regs_regs (profile_layout profile), 248); (lp_pt_regs_sp (profile_layout profile), 8);
               (lp_pt_regs_pc (profile_layout profile), 8); (lp_pt_regs_pstate (profile_layout profile), 8)];
  pb_regs_size : 272 <= lp_pt_regs_size (profile_layout profile) <= 1024;
  pb_work_size : 32 <= lp_work_struct_size (profile_layout profile) <= 256;
  pb_work : Forall (fun f => spz_field_fits (lp_work_struct_size (profile_layout profile)) f = true)
              [(lp_work_data (profile_layout profile), 8); (lp_work_entry (profile_layout profile), 16);
               (lp_work_func (profile_layout profile), 8)];
  pb_stride : lp_per_cpu_pointer_stride (profile_layout profile) = 8;
  pb_sizes : kp_task_struct_size (profile_kernel profile) <> 0 /\ kp_cred_size (profile_kernel profile) <> 0 /\
             kp_perf_event_size (profile_kernel profile) <> 0;
  pb_va : 32 <= kp_va_bits (profile_kernel profile) <= 52;
  pb_signal : tp_signal_thread_head (profile_task profile) <= 4096 - 16;
  pb_arch : 6 <= dp_debug_arch (profile_debug profile) <= 15;
  pb_dfr0 : dfr0_names (dp_dfr0 (profile_debug profile)) (profile_debug profile);
  pb_args : Forall (fun n => n = 1 \/ n = 3)
              [hp_finish_task_switch_args (profile_hooks profile); hp_do_exit_args (profile_hooks profile);
               hp_breakpoint_handler_args (profile_hooks profile); hp_watchpoint_handler_args (profile_hooks profile);
               hp_single_step_handler_args (profile_hooks profile)];
}.

Lemma dfr0_field_bound d k : 0 <= dfr0_field d k <= 15.
Proof.
  unfold dfr0_field. change 15 with (Z.ones 4). rewrite Z.land_ones by lia.
  change (2 ^ 4) with 16. change (Z.ones 4) with 15. zlia.
Qed.

Lemma fields_fit total fields :
  forallb (spz_field_fits total) fields = true <-> Forall (fun f => spz_field_fits total f = true) fields.
Proof. rewrite forallb_forall, Forall_forall. by setoid_rewrite list_elem_of_In. Qed.

Lemma args_one_or_three_spec n : args_one_or_three n = true <-> n = 1 \/ n = 3.
Proof. unfold args_one_or_three. rewrite orb_true_iff, !Z.eqb_eq. done. Qed.

(** [off]: the next rejecting condition does not hold. *)
Ltac off :=
  match goal with |- (if ?c then false else _) = true =>
    replace c with false; [|symmetry; rewrite ?orb_false_iff, ?negb_false_iff, ?fields_fit, ?args_one_or_three_spec]
  end.

(** The check is exact. *)
Lemma bounds_valid_iff profile : spz_profile_bounds_valid profile = true <-> profile_bounds profile.
Proof.
  unfold spz_profile_bounds_valid. cbv zeta. split.
  - intros H. guards H. clear H.
    rewrite ?orb_false_iff, ?negb_false_iff, ?fields_fit, ?args_one_or_three_spec in *. destruct_and!.
    pose proof (dfr0_field_bound (dp_dfr0 (profile_debug profile)) 12).
    pose proof (dfr0_field_bound (dp_dfr0 (profile_debug profile)) 20).
    split; try lia; try done; try (by repeat constructor).
    + rewrite !elem_of_cons, elem_of_nil. lia.

    + split; lia.
    + by rewrite !Forall_cons.
  - intros Hb. destruct (pb_sizes _ Hb) as (? & ? & ?), (pb_cpus _ Hb), (pb_dfr0 _ Hb).
    pose proof (pb_va _ Hb). pose proof (pb_signal _ Hb). pose proof (pb_arch _ Hb). pose proof (pb_brps _ Hb).
    pose proof (pb_wrps _ Hb). pose proof (pb_regs_size _ Hb). pose proof (pb_work_size _ Hb). pose proof (pb_banner _ Hb).
    pose proof (dfr0_field_bound (dp_dfr0 (profile_debug profile)) 28).
    pose proof (pb_page _ Hb) as Hpage. rewrite !elem_of_cons, elem_of_nil in Hpage.
    pose proof (pb_args _ Hb). pose proof (pb_regs _ Hb). pose proof (pb_work _ Hb).
    repeat match goal with H : Forall _ (_ :: _) |- _ => apply Forall_cons in H as [? ?] end.
    pose proof (pb_comm _ Hb). pose proof (pb_stride _ Hb).
    do 13 (off; [|first [lia | apply Hb | split_and!; first [done|lia]]]). done.
Qed.

Lemma bounds_valid_spec profile : spz_profile_bounds_valid profile = true -> profile_bounds profile.
Proof. apply bounds_valid_iff. Qed.

(** ** The release check *)

Lemma strncmp_eq_prefix a b :
  Forall (fun c => c <> 0) b -> strncmp_eq a b (length b) = true <-> take (length b) a = b.
Proof.
  intros Hb. revert a. induction Hb as [|y b Hy Hb IH]; intros a; [done|]. cbn [length strncmp_eq].
  destruct a as [|x a]; cbn [head default id take tail].
  - rewrite eqb_ne by done. done.
  - destruct (x =? y) eqn:E; cbn [negb].
    + rewrite eqb_ne by lia. rewrite IH. replace x with y by lia.
      split; [by intros ->|by intros [=]].
    + split; [done|]. intros H. injection H. lia.
Qed.

Lemma take_eq_app {A} (n : nat) (l k : list A) : take n l = k -> length k = n -> l = k ++ drop n l.
Proof. intros <- _. by rewrite take_drop. Qed.

(** The banner check accepts exactly the banners that start with
    "Linux version ", then the release of the profile, then a space or the end:
    a longer release with this one as a prefix is refused. *)
Theorem release_matches_banner_iff banner release :
  Forall (fun c => c <> 0) release ->
  spz_release_matches_banner (Some banner) (Some release) = true <->
  exists rest, banner = str "Linux version " ++ release ++ rest /\
    (rest = [] \/ exists rest', rest = 32 :: rest' \/ rest = 0 :: rest').
Proof.
  intros Hr. unfold spz_release_matches_banner. fold banner_prefix.
  assert (Hp : Forall (fun c => c <> 0) banner_prefix) by (repeat constructor; discriminate).
  pose proof (strncmp_eq_prefix banner banner_prefix Hp) as H1.
  pose proof (strncmp_eq_prefix (drop (length banner_prefix) banner) release Hr) as H2.
  destruct (strncmp_eq banner _ _); cbn [negb].
  2: { split; [done|]. intros (rest & -> & _).
       rewrite take_app_length in H1. by destruct H1 as [_ H1]; specialize (H1 eq_refl). }
  destruct H1 as [H1 _]. specialize (H1 eq_refl). apply take_eq_app in H1; [|done].
  set (rest := drop (length banner_prefix) banner) in *. clearbody rest. subst banner.
  destruct (strncmp_eq rest _ _); cbn [negb].
  2: { split; [done|]. intros (rest' & E & _). apply app_inv_head in E. subst rest.
       rewrite take_app_length in H2. by destruct H2 as [_ H2]; specialize (H2 eq_refl). }
  destruct H2 as [H2 _]. specialize (H2 eq_refl). apply take_eq_app in H2; [|done].
  set (rest2 := drop (length release) rest) in *. clearbody rest2. subst rest.
  rewrite app_assoc, lookup_app_r, length_app, Nat.sub_diag by (rewrite length_app; lia).
  rewrite orb_true_iff, !Z.eqb_eq. split.
  - intros H. exists rest2. split; [by rewrite app_assoc|].
    destruct rest2 as [|c rest2]; [by left|right]. exists rest2. simpl in H. destruct H; subst; auto.
  - intros (rest' & E & H). rewrite app_assoc in E. apply app_inv_head in E. subst rest2.
    destruct H as [->|(r & [->| ->])]; simpl; auto.
Qed.

Lemma release_matches_banner_iff_witness :
  spz_release_matches_banner (Some (str "Linux version 6.12 (gcc)")) (Some (str "6.12")) = true <->
  exists rest, str "Linux version 6.12 (gcc)" = str "Linux version " ++ str "6.12" ++ rest /\
    (rest = [] \/ exists rest', rest = 32 :: rest' \/ rest = 0 :: rest').
Proof.
  exact (release_matches_banner_iff (str "Linux version 6.12 (gcc)") (str "6.12")
    ltac:(repeat constructor; discriminate)).
Defined.

(** ** Properties *)

(** Every profile of the shipped table passes its own consistency check and is
    the one its id selects; the default id selects the first. *)
Theorem shipped_profiles_consistent :
  Forall (fun p => spz_profile_select (profile_id p) = Some p /\ spz_profile_bounds_valid p = true)
    SPZ_DEVICE_PROFILES /\
  spz_profile_select (Some SPZ_DEFAULT_DEVICE_PROFILE_ID) = head SPZ_DEVICE_PROFILES.
Proof. split; [repeat constructor; vm_compute; reflexivity|vm_compute; reflexivity]. Qed.

(** The reason copied out is the longest prefix that fits with its NUL: a
    buffer of [capacity] bytes keeps its length, and holds the reason name, cut to
    [capacity - 1] bytes, followed by a NUL. *)
Theorem spz_copy_reason_fits buffer capacity reason :
  (0 < capacity <= length buffer)%nat ->
  exists out, spz_copy_reason (Some buffer) capacity reason = Some out /\
    length out = length buffer /\
    take (length reason `min` (capacity - 1)) out = take (capacity - 1) reason /\
    out !! (length reason `min` (capacity - 1))%nat = Some 0 /\
    drop capacity out = drop capacity buffer.
Proof.
  intros Hc. unfold spz_copy_reason. destruct (Nat.eqb capacity 0) eqn:E0; [apply Nat.eqb_eq in E0; lia|].
  set (n := if Nat.leb capacity (length reason) then _ else _).
  assert (Hn : n = (length reason `min` (capacity - 1))%nat).
  { unfold n. destruct (Nat.leb capacity (length reason)) eqn:E.
    - apply Nat.leb_le in E. lia.
    - apply Nat.leb_gt in E. lia. }
  rewrite <- Hn. clearbody n.
  assert (Hl : length (take n reason) = n) by (rewrite length_take; lia).
  eexists. split; [reflexivity|]. split; [|split; [|split]].
  - rewrite length_app. cbn [length]. rewrite length_drop. lia.
  - rewrite take_app_length' by done. subst n.
    destruct (Nat.le_ge_cases (length reason) (capacity - 1)); [by rewrite Nat.min_l, !take_ge by lia|].
    by rewrite Nat.min_r by lia.
  - rewrite lookup_app_r, Hl, Nat.sub_diag by lia. done.
  - rewrite drop_app_ge, Hl by lia.
    replace (capacity - n)%nat with (S (capacity - n - 1)) by lia. cbn [drop]. rewrite drop_drop. f_equal. lia.
Qed.

Lemma spz_copy_reason_fits_witness :
  exists out, spz_copy_reason (Some (replicate 4 7)) 3 (str "okay") = Some out /\
    length out = length (replicate 4 7) /\
    take (length (str "okay") `min` (3 - 1)) out = take (3 - 1) (str "okay") /\
    out !! (length (str "okay") `min` (3 - 1))%nat = Some 0 /\
    drop 3 out = drop 3 (replicate 4 7).
Proof. exact (spz_copy_reason_fits (replicate 4 7) 3 (str "okay") ltac:(simpl; lia)). Defined.

(** ** A kernel that the shipped profile describes *)

Definition plk110_memory (address : Z) (length : nat) : Z * list Z :=
  let task := profile_task profile_oneplus_plk110_a16_b4999618_d05 in
  let offset := address - 4096 in
  if offset =? tp_comm task then (0, str "swapper/0" ++ replicate 7 0)
  else if (offset =? tp_cred task) || (offset =? tp_real_cred task) then (0, le_bytes length 1048576)
  else (0, replicate length 0).

Definition plk110_ops : spz_profile_runtime_ops :=
  {| po_lookup_symbol := Some (fun _ => 4096);
     po_read_memory := Some plk110_memory;
     po_read_kernel_banner := Some (fun _ =>
       (0, str "Linux version 6.12.23-android16-5-gb2a876903b49-ab14541642-4k (build)"));
     po_page_size := Some (fun _ => 4096);
     po_cpu_count := Some (fun _ => 8);
     po_read_dfr0 := Some (fun _ => dp_dfr0 (profile_debug profile_oneplus_plk110_a16_b4999618_d05));
     po_read_debug_owner := Some (fun _ _ _ => (0, 0)) |}.
