(* ===== verification/ProfileSpec.v ===== *)
(** * What the validation of a profile decides (kpm/core/profile.c)

    The validation accepts exactly the profiles that are consistent and that name
    what the running kernel shows; [kernel_matches] lists what is compared, in terms
    of the callbacks only. *)

From S2P Require Import Prelude Abi DeviceProfiles Profile.

(** ** What the running kernel has to show *)

(** A read of [n] bytes at an address that does not wrap. *)
Definition reads (read_memory : Z -> nat -> Z * list Z) (base offset : Z) (n : nat) (bytes : list Z) : Prop :=
  base + offset <= UINT64_MAX /\ read_memory (base + offset) n = (0, bytes).

(** The task at [init_task] is the idle task: number and group 0, its name, and
    one set of credentials, of the user 0. *)
Record idle_task (profile : spz_device_profile) (read_memory : Z -> nat -> Z * list Z) (init_task : Z) : Prop := {
  it_pid : exists bytes, reads read_memory init_task (tp_pid (profile_task profile)) 4 bytes /\ le_value bytes = 0;
  it_tgid : exists bytes, reads read_memory init_task (tp_tgid (profile_task profile)) 4 bytes /\ le_value bytes = 0;
  it_comm : exists bytes, reads read_memory init_task (tp_comm (profile_task profile)) SPZ_COMM_LEN bytes /\
    take 7 bytes = str "swapper";
  it_cred : exists cred real uid,
    reads read_memory init_task (tp_cred (profile_task profile)) 8 cred /\
    reads read_memory init_task (tp_real_cred (profile_task profile)) 8 real /\
    le_value cred <> 0 /\ le_value cred = le_value real /\
    reads read_memory (le_value cred) (crp_uid (profile_cred profile)) 4 uid /\ le_value uid = 0;
}.

(** The banner names the release of the profile. It was read whole, or cut where
    the profile allows that; it ends inside the buffer, and the release in it is
    followed by a space or the end. *)
Definition banner_names (profile : spz_device_profile) (read_kernel_banner : nat -> Z * list Z) : Prop :=
  let capacity := Z.to_nat (kp_linux_banner_capacity (profile_kernel profile)) in
  let '(result, written) := read_kernel_banner capacity in
  let banner := banner_buffer written capacity in
  (result = 0 \/ result = - ENOSPC /\ qp_linux_banner_prefix_ok (profile_quirks profile) <> 0) /\
  0 ∈ take capacity banner /\
  exists release rest, kp_release (profile_kernel profile) = Some release /\
    banner = str "Linux version " ++ release ++ rest /\
    (rest = [] \/ exists rest', rest = 32 :: rest' \/ rest = 0 :: rest').

Record kernel_matches (profile : spz_device_profile) (lookup_symbol : list Z -> Z)
    (read_memory : Z -> nat -> Z * list Z) (read_kernel_banner : nat -> Z * list Z)
    (page_size cpu_count read_dfr0 : unit -> Z) (symbols : list Z) : Prop := {
  km_page : page_size tt = kp_page_size (profile_kernel profile);
  km_cpus : cpu_count tt <> 0 /\ cpu_count tt <= dp_max_cpus (profile_debug profile) /\ cpu_count tt <= SPZ_MAX_CPUS;
  km_dfr0 : dfr0_names (read_dfr0 tt) (profile_debug profile);
  km_symbols : Forall2 (fun entry a => exists name, entry.1 = Some name /\ name <> [] /\
                          a = lookup_symbol name /\ a <> 0) (symbol_table profile) symbols;
  km_banner : banner_names profile read_kernel_banner;
  km_init_task : idle_task profile read_memory (symbols !!! SPZ_SYMBOL_INIT_TASK);
}.

(** ** The checks decide it *)

Lemma read_member_iff read_memory base offset n value :
  (exists bytes, reads read_memory base offset n bytes /\ le_value bytes = value) <->
  spz_read_member read_memory base offset n = (0, value).
Proof.
  unfold spz_read_member, reads. destruct (Z.ltb_spec (UINT64_MAX - offset) base).
  - split; [|done]. intros (bytes & [? _] & _). lia.
  - split; [intros (bytes & [_ ->] & ->); done|]. destruct (read_memory _ _) as [r bytes].
    intros [= -> <-]. exists bytes. split; [split; [lia|done]|done].
Qed.

(** [passes G]: the next check of the chain did not refuse. *)
Ltac passes G :=
  match goal with |- (if ?c then Some _ else _) = None -> _ => destruct c eqn:G; [done|] end.

Lemma read_init_task_iff profile read_memory init_task :
  spz_read_init_task profile read_memory init_task = None <-> idle_task profile read_memory init_task.
Proof.
  unfold spz_read_init_task. cbv zeta. split.
  - destruct (spz_read_member _ _ (tp_pid _) 4) as [r1 pid] eqn:E1. passes G1.
    destruct (spz_read_member _ _ (tp_tgid _) 4) as [r2 tgid] eqn:E2. passes G2.
    passes G3.
    destruct (read_memory (init_task + _) SPZ_COMM_LEN) as [r3 comm] eqn:E3. passes G4.
    destruct (spz_read_member _ _ (tp_cred _) 8) as [r4 cred] eqn:E4.
    destruct (spz_read_member _ _ (tp_real_cred _) 8) as [r5 real] eqn:E5. passes G5.
    destruct (read_memory (cred + _) 4%nat) as [r6 uid] eqn:E6. passes G6. intros _.
    rewrite ?orb_false_iff, ?negb_false_iff, ?Z.eqb_eq, ?Z.eqb_neq, ?Z.ltb_ge, ?bool_decide_eq_true in *. destruct_and!. subst.
    split; [by apply read_member_iff|by apply read_member_iff| |].
    + exists comm. split; [split; [lia|done]|done].
    + apply read_member_iff in E4 as (c1 & Hc1 & E4), E5 as (c2 & Hc2 & E5). subst. exists c1, c2, uid.
      split_and!; [done..|split; [lia|done]|done].
  - intros [Hpid%read_member_iff Htgid%read_member_iff (comm & [Hc ->] & Hcomm) (cred & real & uid & H1 & H2 & H3 & H4 & [H5 H6] & H7)].
    assert (spz_read_member read_memory init_task (tp_cred (profile_task profile)) 8 = (0, le_value cred)) as ->
      by (apply read_member_iff; by exists cred).
    assert (spz_read_member read_memory init_task (tp_real_cred (profile_task profile)) 8 = (0, le_value cred)) as ->
      by (apply read_member_iff; by exists real).
    rewrite Hpid, Htgid. cbn [negb orb Z.eqb]. rewrite (proj2 (Z.ltb_ge _ _)) by lia.
    rewrite Hcomm, bool_decide_eq_true_2 by done. cbn [negb orb]. rewrite Z.eqb_refl, eqb_ne, (proj2 (Z.ltb_ge _ _)) by lia.
    cbn [negb orb]. by rewrite H6, H7.
Qed.

(** The checks of the banner, for a release that is a C string. *)
Lemma banner_checks profile read_kernel_banner :
  (forall release, kp_release (profile_kernel profile) = Some release -> Forall (fun c => c <> 0) release) ->
  let capacity := Z.to_nat (kp_linux_banner_capacity (profile_kernel profile)) in
  let '(result, written) := read_kernel_banner capacity in
  let banner := banner_buffer written capacity in
  (if result =? - ENOSPC then qp_linux_banner_prefix_ok (profile_quirks profile) =? 0 else negb (result =? 0)) = false /\
  negb (existsb (Z.eqb 0) (take capacity banner))
    || negb (spz_release_matches_banner (Some banner) (kp_release (profile_kernel profile))) = false <->
  banner_names profile read_kernel_banner.
Proof.
  intros Hstr capacity. unfold banner_names. fold capacity. destruct (read_kernel_banner capacity) as [result written].
  set (banner := banner_buffer written capacity). rewrite orb_false_iff, !negb_false_iff.
  assert (existsb (Z.eqb 0) (take capacity banner) = true <-> 0 ∈ take capacity banner) as ->.
  { rewrite existsb_exists. setoid_rewrite <- list_elem_of_In. setoid_rewrite Z.eqb_eq.
    split; [by intros (? & ? & <-)|eauto]. }
  assert (spz_release_matches_banner (Some banner) (kp_release (profile_kernel profile)) = true <->
    exists release rest, kp_release (profile_kernel profile) = Some release /\
      banner = str "Linux version " ++ release ++ rest /\
      (rest = [] \/ exists rest', rest = 32 :: rest' \/ rest = 0 :: rest')) as ->.
  { destruct (kp_release (profile_kernel profile)) as [release|]; [|split; [done|by intros (? & ? & [=] & _)]].
    rewrite release_matches_banner_iff by auto. split; [intros (rest & H); by exists release, rest|].
    intros (? & rest & [= <-] & H). by exists rest. }
  assert ((if result =? - ENOSPC then qp_linux_banner_prefix_ok (profile_quirks profile) =? 0 else negb (result =? 0)) = false <->
    (result = 0 \/ result = - ENOSPC /\ qp_linux_banner_prefix_ok (profile_quirks profile) <> 0)) as ->; [|done].
  destruct (Z.eqb_spec result (- ENOSPC)) as [->|Hne]; [rewrite Z.eqb_neq; unfold ENOSPC; lia|].
  rewrite negb_false_iff, Z.eqb_eq. tauto.
Qed.

(** ** Outcomes *)

(** A rejected runtime forbids hooks and carries a reason. *)
Definition rejected (out : Z * spz_profile_runtime * option (list Z)) : Prop :=
  let '(result, runtime, _) := out in
  result < 0 /\ pr_state runtime = SPZ_PROFILE_REJECTED /\ pr_hooks_allowed runtime = 0 /\
  pr_profile runtime = None /\ pr_reason runtime <> SPZ_PROFILE_REASON_NONE.

Definition accepted (out : Z * spz_profile_runtime * option (list Z)) : Prop :=
  let '(result, runtime, _) := out in
  result = 0 /\ pr_state runtime = SPZ_PROFILE_READY /\ pr_hooks_allowed runtime = 1 /\
  pr_reason runtime = SPZ_PROFILE_REASON_NONE.

Lemma spz_reject_rejected reason text capacity error :
  error < 0 -> reason <> SPZ_PROFILE_REASON_NONE -> rejected (spz_reject reason text capacity error).
Proof. by intros. Qed.

Lemma lookup_symbols_inl lookup table reason :
  lookup_symbols lookup table = inl reason -> reason ∈ table.*2.
Proof.
  induction table as [|[name r] table IH]; [done|]. simpl.
  destruct name as [[|c name]|]; [intros [= ->]; left| |intros [= ->]; left].
  destruct (_ =? 0); [intros [= ->]; left|].
  destruct (lookup_symbols lookup table) as [r'|]; [|done]. intros [= ->]. right. by apply IH.
Qed.

(** Every name is there and is found. *)
Lemma lookup_symbols_iff lookup table addresses :
  lookup_symbols lookup table = inr addresses <->
  Forall2 (fun entry a => exists name, entry.1 = Some name /\ name <> [] /\ a = lookup name /\ a <> 0)
    table addresses.
Proof.
  split.
  - revert addresses. induction table as [|[name r] table IH]; simpl; intros l; [intros [= <-]; constructor|].
    destruct name as [[|c name]|]; [done| |done]. destruct (_ =? 0) eqn:E; [done|].
    destruct (lookup_symbols lookup table) as [r'|l']; [done|]. intros [= <-]. constructor; [|by apply IH].
    exists (c :: name). simpl. repeat split; [done|lia].
  - induction 1 as [|[name r] a table l (n & Hname & Hne & -> & Ha) _ IH]; [done|]. cbn in *. subst name.
    destruct n as [|c n]; [done|]. by rewrite eqb_ne, IH by done.
Qed.

Lemma symbol_table_reasons profile :
  Forall (fun r => r <> SPZ_PROFILE_REASON_NONE) (symbol_table profile).*2.
Proof. repeat constructor; discriminate. Qed.

Lemma spz_read_init_task_reason profile read base reason :
  spz_read_init_task profile read base = Some reason -> reason <> SPZ_PROFILE_REASON_NONE.
Proof. unfold spz_read_init_task. by repeat case_match; intros [= <-]. Qed.

(** What an accepted runtime records of the kernel. *)
Record records_kernel (profile : spz_device_profile) (cpu_count read_dfr0 : unit -> Z) (symbols : list Z)
    (runtime : spz_profile_runtime) : Prop := {
  rk_profile : pr_profile runtime = Some profile;
  rk_symbols : pr_symbols runtime = symbols;
  rk_cpus : pr_initial_cpu_count runtime = cpu_count tt;
  rk_dfr0 : pr_dfr0 runtime = read_dfr0 tt;
}.

Section against.
Context (profile : spz_device_profile) (lookup_symbol : list Z -> Z) (read_memory : Z -> nat -> Z * list Z).
Context (read_kernel_banner : nat -> Z * list Z) (page_size cpu_count read_dfr0 : unit -> Z).
Context (text : option (list Z)) (capacity : nat).

Abbreviation matches := (kernel_matches profile lookup_symbol read_memory read_kernel_banner page_size cpu_count read_dfr0).
Abbreviation out := (validate_against profile lookup_symbol read_memory read_kernel_banner page_size cpu_count read_dfr0
  text capacity).

(** The names of the profile are C strings. *)
Definition c_release : Prop :=
  forall release, kp_release (profile_kernel profile) = Some release -> Forall (fun c => c <> 0) release.

(** [refuses]: the next check of the chain rejects a kernel that does not match, or
    the chain goes on. *)
Ltac refuses :=
  match goal with
  | |- context [if ?c then spz_reject _ _ _ _ else _] =>
      let E := fresh "E" in
      destruct c eqn:E; [right; split; [by apply spz_reject_rejected|
        intros ? [? ? [] ? ? ?]; rewrite ?orb_true_iff, ?negb_true_iff, ?Z.eqb_eq, ?Z.eqb_neq, ?Z.ltb_lt in E; lia]|]
  end.

(** The checks after the argument guards accept exactly the kernels that match. *)
Lemma validate_against_iff :
  c_release ->
  (accepted out /\ exists symbols, matches symbols /\ records_kernel profile cpu_count read_dfr0 symbols out.1.2) \/
  (rejected out /\ forall symbols, ~ matches symbols).
Proof.
  intros Hstr. unfold validate_against. cbv zeta. do 6 refuses.
  destruct (lookup_symbols _ _) as [r|symbols] eqn:El.
  { right. split; [|intros symbols [_ _ _ Hs _ _]; apply lookup_symbols_iff in Hs; congruence].
    apply spz_reject_rejected; [done|]. apply lookup_symbols_inl in El.
    exact (proj1 (Forall_forall _ _) (symbol_table_reasons profile) _ El). }
  pose proof (banner_checks profile read_kernel_banner Hstr) as Hb. cbv zeta in Hb.
  destruct (read_kernel_banner _) as [br written].
  match goal with |- context [if ?c then spz_reject _ _ _ _ else if ?d then _ else _] => destruct c eqn:E5, d eqn:E6 end.
  1-3: right; split; [by apply spz_reject_rejected|intros ? [_ _ _ _ Hban _]; apply Hb in Hban as []; congruence].
  pose proof (proj1 Hb (conj eq_refl eq_refl)) as Hban.
  destruct (spz_read_init_task _ _ _) as [r|] eqn:Er.
  { right. split; [apply spz_reject_rejected; [done|by apply spz_read_init_task_reason in Er]|].
    intros s [_ _ _ Hs _ Hi]. apply lookup_symbols_iff in Hs. assert (s = symbols) as -> by congruence.
    apply read_init_task_iff in Hi. congruence. }
  rewrite ?orb_false_iff, ?negb_false_iff in *. destruct_and!. left. split; [done|].
  exists symbols. split; [|done]. split; [lia|lia|split; lia|by apply lookup_symbols_iff|done|by apply read_init_task_iff].
Qed.
End against.

(** The reason text is the name of the reason stored in the runtime. *)
Lemma validate_against_text profile lookup_symbol read_memory banner page_size cpu_count dfr0 text capacity :
  let out := validate_against profile lookup_symbol read_memory banner page_size cpu_count dfr0 text capacity in
  out.2 = spz_copy_reason text capacity (spz_profile_reason_name (pr_reason out.1.2)).
Proof. unfold validate_against. cbv zeta. repeat (case_match; [done|]); by repeat case_match. Qed.

(** Every check passes: the arguments are there, the profile is consistent and known
    by its id, and the callbacks show the kernel it names. *)
Definition every_check_passes (profile : option spz_device_profile) (ops : option spz_profile_runtime_ops)
    (symbols : list Z) (p : spz_device_profile) (cpu_count read_dfr0 : unit -> Z) : Prop :=
  exists lookup_symbol read_memory read_kernel_banner page_size read_debug_owner,
    profile = Some p /\ is_Some (spz_profile_select (profile_id p)) /\ profile_bounds p /\
    ops = Some {| po_lookup_symbol := Some lookup_symbol; po_read_memory := Some read_memory;
                  po_read_kernel_banner := Some read_kernel_banner; po_page_size := Some page_size;
                  po_cpu_count := Some cpu_count; po_read_dfr0 := Some read_dfr0;
                  po_read_debug_owner := Some read_debug_owner |} /\
    kernel_matches p lookup_symbol read_memory read_kernel_banner page_size cpu_count read_dfr0 symbols.

Lemma validate_cases profile ops text capacity :
  (forall p, profile = Some p -> c_release p) ->
  let out := spz_profile_validate profile ops text capacity in
  out.2 = spz_copy_reason text capacity (spz_profile_reason_name (pr_reason out.1.2)) /\
  ((accepted out /\ exists symbols p cpu_count read_dfr0,
      every_check_passes profile ops symbols p cpu_count read_dfr0 /\
      records_kernel p cpu_count read_dfr0 symbols out.1.2) \/
   (rejected out /\ forall symbols p cpu_count read_dfr0,
      ~ every_check_passes profile ops symbols p cpu_count read_dfr0)).
Proof.
  intros Hstr. cbv zeta.
  assert (forall r e, e < 0 -> r <> SPZ_PROFILE_REASON_NONE ->
    (spz_reject r text capacity e).2 = spz_copy_reason text capacity
      (spz_profile_reason_name (pr_reason (spz_reject r text capacity e).1.2)) /\
    rejected (spz_reject r text capacity e)) as Hrej by done.
  unfold spz_profile_validate.
  destruct profile as [p|].
  2: { split; [done|]. right. split; [by apply Hrej|]. by intros ? ? ? ? (? & ? & ? & ? & ? & [=] & _). }
  destruct ops as [[[ls|] [rm|] [rb|] [ps|] [cc|] [rd|] [ro|]]|];
    try (split; [done|right; split; [by apply Hrej|by intros ? ? ? ? (? & ? & ? & ? & ? & _ & _ & _ & [=] & _)]]).
  destruct (spz_profile_select (profile_id p)) as [sel|] eqn:Es.
  2: { split; [done|]. right. split; [by apply Hrej|]. intros ? ? ? ? (? & ? & ? & ? & ? & [= <-] & [? Hs] & _). congruence. }
  destruct (spz_profile_bounds_valid p) eqn:Eb; cbn [negb].
  2: { split; [done|]. right. split; [by apply Hrej|]. intros ? ? ? ? (? & ? & ? & ? & ? & [= <-] & _ & Hb & _).
       apply bounds_valid_iff in Hb. congruence. }
  split; [apply validate_against_text|]. apply bounds_valid_iff in Eb.
  destruct (validate_against_iff p ls rm rb ps cc rd text capacity (Hstr p eq_refl)) as [[Ha (symbols & Hm & Hk)]|[Hr Hm]].
  - left. split; [done|]. exists symbols, p, cc, rd. split; [|done]. by exists ls, rm, rb, ps, ro.
  - right. split; [done|]. intros symbols ? ? ? (? & ? & ? & ? & ? & [= <-] & _ & _ & [=] & Hmm). subst. by eapply Hm.
Qed.

(** A symbol of an accepted kernel is where its table says, and not NULL. *)
Lemma matches_symbol p lookup_symbol read_memory banner page_size cpu_count dfr0 symbols i name reason :
  kernel_matches p lookup_symbol read_memory banner page_size cpu_count dfr0 symbols ->
  symbol_table p !! i = Some (name, reason) ->
  exists n, name = Some n /\ symbols !!! i = lookup_symbol n /\ symbols !!! i <> 0.
Proof.
  intros [_ _ _ Hs _ _] Hi. destruct (Forall2_lookup_l _ _ _ _ _ Hs Hi) as (a & Ha & n & Hn & _ & -> & Hne).
  exists n. by rewrite (list_lookup_total_correct _ _ _ Ha).
Qed.

(** C35: validation is all or nothing, and exact. Let the release in the profile be a
    C string. Either the profile is consistent, its id is in the shipped table, every
    callback is there and the running kernel shows all the profile names - page size,
    number of CPUs, architecture and counts of debug registers, every symbol, the
    banner of its release and the idle task - and then the code is 0 and the runtime is
    READY, allows hooks and records that kernel. Or one of these fails, and then the
    code is negative and the runtime is REJECTED, forbids hooks and holds no profile
    but a reason. The text handed back is the name of the reason in either case. *)
Theorem spz_profile_validate_gate profile ops text capacity :
  (forall p, profile = Some p -> c_release p) ->
  let out := spz_profile_validate profile ops text capacity in
  out.2 = spz_copy_reason text capacity (spz_profile_reason_name (pr_reason out.1.2)) /\
  ((accepted out /\ exists symbols p cpu_count read_dfr0,
      every_check_passes profile ops symbols p cpu_count read_dfr0 /\
      records_kernel p cpu_count read_dfr0 symbols out.1.2) \/
   (rejected out /\ forall symbols p cpu_count read_dfr0,
      ~ every_check_passes profile ops symbols p cpu_count read_dfr0)).
Proof. exact (validate_cases profile ops text capacity). Qed.

(** ** The shipped profile on a kernel it describes *)

Lemma plk110_release : c_release profile_oneplus_plk110_a16_b4999618_d05.
Proof. intros release [= <-]. repeat constructor; discriminate. Qed.

Example plk110_accepted :
  accepted (spz_profile_validate (Some profile_oneplus_plk110_a16_b4999618_d05) (Some plk110_ops) None 0).
Proof. vm_compute. auto. Qed.

(** The shipped profiles have releases that are C strings. *)
Lemma selected_release id p : spz_profile_select id = Some p -> c_release p.
Proof.
  unfold spz_profile_select. destruct id as [[|c id]|]; [done| |done]. intros H. apply find_some in H as [[<-|[]] _].
  apply plk110_release.
Qed.

(** With the release of another build in the banner it is rejected. *)
Definition plk110_other_ops : spz_profile_runtime_ops :=
  {| po_lookup_symbol := po_lookup_symbol plk110_ops; po_read_memory := po_read_memory plk110_ops;
     po_read_kernel_banner := Some (fun _ => (0, str "Linux version 6.12.23-android16-5-other (build)"));
     po_page_size := po_page_size plk110_ops; po_cpu_count := po_cpu_count plk110_ops;
     po_read_dfr0 := po_read_dfr0 plk110_ops; po_read_debug_owner := po_read_debug_owner plk110_ops |}.

Example plk110_other_rejected :
  let '(result, runtime, _) :=
    spz_profile_validate (Some profile_oneplus_plk110_a16_b4999618_d05) (Some plk110_other_ops) None 0 in
  result = - EINVAL /\ pr_reason runtime = SPZ_PROFILE_REASON_KERNEL_RELEASE.
Proof. vm_compute. auto. Qed.

(** The kernel that the profile describes is accepted, so the theorem says what was
    compared. *)
Lemma spz_profile_validate_gate_witness :
  exists symbols, kernel_matches profile_oneplus_plk110_a16_b4999618_d05 (fun _ => 4096) plk110_memory
    (fun _ => (0, str "Linux version 6.12.23-android16-5-gb2a876903b49-ab14541642-4k (build)"))
    (fun _ => 4096) (fun _ => 8) (fun _ => dp_dfr0 plk110_debug) symbols.
Proof.
  destruct (spz_profile_validate_gate (Some profile_oneplus_plk110_a16_b4999618_d05) (Some plk110_ops) None 0
    ltac:(intros ? [= <-]; apply plk110_release)) as [_ [[_ (symbols & p & cc & rd & H & _)]|[[Hr _] _]]].
  - destruct H as (ls & rm & rb & ps & ro & [= <-] & _ & _ & [= <- <- <- <- <- <- _] & Hm). exists symbols. exact Hm.
  - vm_compute in Hr. discriminate Hr.
Defined.
