(* ===== verification/Task.v ===== *)
(** * Task bindings (kpm/core/task.c)

    A binding names the task to observe by pid, uid, comm or start time. The
    scheduler hook captures the strong identity of the first matching task; from
    then on only that very task matches, until the binding is set again, cleared,
    found stale or exited. Here the operations run one at a time; Seqlock.v treats
    the interleaving of their memory accesses. *)

From S2P Require Import Prelude Abi DeviceProfiles Profile.

Definition SPZ_BINDING_SNAPSHOT_ATTEMPTS : nat := 32.
Definition SPZ_BINDING_WRITE_ATTEMPTS : nat := 128.

(** ** State (kpm/include/stackplz/task.h) *)

Inductive spz_binding_state :=
  SPZ_BINDING_EMPTY | SPZ_BINDING_PENDING | SPZ_BINDING_BOUND | SPZ_BINDING_STALE | SPZ_BINDING_EXITED.

#[export] Instance spz_binding_state_eq : EqDecision spz_binding_state.
Proof. solve_decision. Defined.

Record spz_binding_request := {
  rq_binding_id : Z;
  rq_pid : Z;
  rq_mode : spz_bind_mode;
  rq_uid : Z;
  rq_start_boot_time : Z;
  rq_comm : list Z;
  rq_has_uid : Z;
  rq_has_comm : Z;
  rq_has_start_boot_time : Z;
}.

Record spz_task_identity := {
  id_generation : Z;
  id_task_cookie : Z;
  id_pid : Z;
  id_tgid : Z;
  id_uid : Z;
  id_start_time : Z;
  id_start_boot_time : Z;
  id_comm : list Z;
}.

Record spz_binding_snapshot_t := {
  sn_state : spz_binding_state;
  sn_generation : Z;
  sn_request : spz_binding_request;
  sn_identity : spz_task_identity;
}.

Record spz_binding := {
  bd_sequence : Z;
  bd_generation : Z;
  bd_state : spz_binding_state;
  bd_request : spz_binding_request;
  bd_identity : spz_task_identity;
}.

#[export] Instance spz_binding_request_shape : Shape spz_binding_request :=
  shape! Build_spz_binding_request < rq_binding_id ; rq_pid ; rq_mode ; rq_uid ; rq_start_boot_time ;
    rq_comm ; rq_has_uid ; rq_has_comm ; rq_has_start_boot_time >.
#[export] Instance spz_task_identity_shape : Shape spz_task_identity :=
  shape! Build_spz_task_identity < id_generation ; id_task_cookie ; id_pid ; id_tgid ; id_uid ;
    id_start_time ; id_start_boot_time ; id_comm >.
#[export] Instance spz_binding_shape : Shape spz_binding :=
  shape! Build_spz_binding < bd_sequence ; bd_generation ; bd_state ; bd_request ; bd_identity >.

Definition empty_request : spz_binding_request :=
  {| rq_binding_id := 0; rq_pid := 0; rq_mode := SPZ_BIND_INVALID; rq_uid := 0; rq_start_boot_time := 0;
     rq_comm := replicate SPZ_COMM_LEN 0; rq_has_uid := 0; rq_has_comm := 0; rq_has_start_boot_time := 0 |}.
Definition empty_identity : spz_task_identity :=
  {| id_generation := 0; id_task_cookie := 0; id_pid := 0; id_tgid := 0; id_uid := 0; id_start_time := 0;
     id_start_boot_time := 0; id_comm := replicate SPZ_COMM_LEN 0 |}.

(** ** Reading the current task

    [task] is the address of the task structure and its bytes, [None] for NULL;
    [kmem] reads kernel memory, for the credentials the task points to. *)

(** The bytes copied, or the error. *)
Definition spz_task_read (task : list Z) (available offset : Z) (length : nat) : Z + list Z :=
  if (available <? offset) || (available - offset <? Z.of_nat length) then inl (- ERANGE)
  else inr (take length (drop (Z.to_nat offset) task)).

Section extract.
Context (kmem : Z -> nat -> list Z).

(** The identity and the exit state, or the error. *)
Definition spz_extract_identity (profile : option spz_device_profile) (current_task : option (Z * list Z))
    (available : Z) : Z + (spz_task_identity * Z) :=
  match profile, current_task with
  | Some profile, Some (address, task) =>
      let kernel := profile_kernel profile in
      let offsets := profile_task profile in
      let uid_offset := crp_uid (profile_cred profile) in
      if available <? kp_task_struct_size kernel then inl (- EINVAL)
      else
        match spz_task_read task available (tp_pid offsets) 4,
              spz_task_read task available (tp_tgid offsets) 4,
              spz_task_read task available (tp_start_time offsets) 8,
              spz_task_read task available (tp_start_boottime offsets) 8,
              spz_task_read task available (tp_comm offsets) SPZ_COMM_LEN,
              spz_task_read task available (tp_exit_state offsets) 4,
              spz_task_read task available (tp_cred offsets) 8 with
        | inr pid, inr tgid, inr start_time, inr start_boot_time, inr comm, inr state, inr cred =>
            let cred_pointer := le_value cred in
            if (cred_pointer =? 0) || (UINT64_MAX - uid_offset <? cred_pointer)
               || (kp_cred_size kernel <? uid_offset) || (u32 (kp_cred_size kernel - uid_offset) <? 4)
            then inl (- EFAULT)
            else
              inr ({| id_generation := 0; id_task_cookie := address; id_pid := le_value pid;
                      id_tgid := le_value tgid; id_uid := le_value (kmem (cred_pointer + uid_offset) 4%nat);
                      id_start_time := le_value start_time; id_start_boot_time := le_value start_boot_time;
                      id_comm := <[(SPZ_COMM_LEN - 1)%nat := 0]> comm |},
                   le_value state)
        | _, _, _, _, _, _, _ => inl (- ERANGE)
        end
  | _, _ => inl (- EINVAL)
  end.

End extract.

(** ** The sequence lock, run alone *)

Definition spz_next_generation (generation : Z) : Z :=
  if generation =? UINT64_MAX then 1
  else let generation := u64 (generation + 1) in if generation =? 0 then 1 else generation.

(** [Some odd_sequence] with the lock taken, or [None] for -EAGAIN. *)
Fixpoint write_begin_loop (attempts : nat) (binding : spz_binding) : option Z * spz_binding :=
  match attempts with
  | O => (None, binding)
  | S attempts =>
      let sequence := bd_sequence binding in
      if negb (Z.land sequence 1 =? 0) then write_begin_loop attempts binding
      else let desired := u64 (sequence + 1) in (Some desired, binding <| bd_sequence := desired |>)
  end.

Definition spz_write_begin (binding : spz_binding) : option Z * spz_binding :=
  write_begin_loop SPZ_BINDING_WRITE_ATTEMPTS binding.

Definition spz_write_end (odd_sequence : Z) (binding : spz_binding) : spz_binding :=
  binding <| bd_sequence := u64 (odd_sequence + 1) |>.

(** The destination array after [length] bytes of the source were stored. *)
Definition spz_atomic_store_bytes (destination source : list Z) (length : nat) : list Z :=
  take length source ++ drop length destination.

Definition spz_store_request (request : spz_binding_request) (binding : spz_binding) : spz_binding :=
  binding <| bd_request :=
    {| rq_binding_id := rq_binding_id request; rq_pid := rq_pid request; rq_mode := rq_mode request;
       rq_uid := rq_uid request; rq_start_boot_time := rq_start_boot_time request;
       rq_comm := spz_atomic_store_bytes (rq_comm (bd_request binding)) (rq_comm request) SPZ_COMM_LEN;
       rq_has_uid := rq_has_uid request; rq_has_comm := rq_has_comm request;
       rq_has_start_boot_time := rq_has_start_boot_time request |} |>.

Definition spz_store_identity (identity : spz_task_identity) (binding : spz_binding) : spz_binding :=
  binding <| bd_identity :=
    {| id_generation := id_generation identity; id_task_cookie := id_task_cookie identity;
       id_pid := id_pid identity; id_tgid := id_tgid identity; id_uid := id_uid identity;
       id_start_time := id_start_time identity; id_start_boot_time := id_start_boot_time identity;
       id_comm := spz_atomic_store_bytes (id_comm (bd_identity binding)) (id_comm identity) SPZ_COMM_LEN |} |>.

(** The image a reader copies out. *)
Definition spz_load_binding (binding : spz_binding) : spz_binding_snapshot_t :=
  {| sn_state := bd_state binding; sn_generation := bd_generation binding;
     sn_request := bd_request binding; sn_identity := bd_identity binding |}.

Fixpoint snapshot_loop (attempts : nat) (binding : spz_binding) : option spz_binding_snapshot_t :=
  match attempts with
  | O => None
  | S attempts =>
      let before := bd_sequence binding in
      if negb (Z.land before 1 =? 0) then snapshot_loop attempts binding
      else
        let snapshot := spz_load_binding binding in
        let after := bd_sequence binding in
        if (before =? after) && (Z.land after 1 =? 0) then Some snapshot
        else snapshot_loop attempts binding
  end.

Definition spz_binding_snapshot (binding : spz_binding) : option spz_binding_snapshot_t :=
  snapshot_loop SPZ_BINDING_SNAPSHOT_ATTEMPTS binding.

Strategy 1000 [spz_write_begin spz_binding_snapshot].
Strategy 2000 [write_begin_loop snapshot_loop].

(** ** Requests *)

(** [a-z A-Z 0-9 . _ : -] *)
Definition safe_comm_byte (byte : Z) : bool :=
  ((97 <=? byte) && (byte <=? 122)) || ((65 <=? byte) && (byte <=? 90)) ||
  ((48 <=? byte) && (byte <=? 57)) || (byte =? 46) || (byte =? 95) || (byte =? 58) || (byte =? 45).

Fixpoint safe_comm_loop (index : nat) (comm : list Z) : bool :=
  match comm with
  | [] => false
  | byte :: comm =>
      if byte =? 0 then negb (Nat.eqb index 0)
      else if safe_comm_byte byte then safe_comm_loop (S index) comm
      else false
  end.

Definition spz_safe_request_comm (comm : list Z) : bool := safe_comm_loop 0 (take SPZ_COMM_LEN comm).

Definition spz_request_valid (request : option spz_binding_request) : bool :=
  match request with
  | None => false
  | Some request =>
      if (rq_binding_id request =? 0) || (rq_pid request =? 0) then false
      else if bool_decide (rq_mode request <> SPZ_BIND_PID) && bool_decide (rq_mode request <> SPZ_BIND_TGID)
              && bool_decide (rq_mode request <> SPZ_BIND_EITHER) then false
      else if (1 <? rq_has_uid request) || (1 <? rq_has_comm request) || (1 <? rq_has_start_boot_time request)
      then false
      else if negb (rq_has_comm request =? 0) && negb (spz_safe_request_comm (rq_comm request)) then false
      else true
  end.

Definition spz_selector_matches (request : spz_binding_request) (identity : spz_task_identity) : bool :=
  let id_matches :=
    match rq_mode request with
    | SPZ_BIND_PID => id_pid identity =? rq_pid request
    | SPZ_BIND_TGID => id_tgid identity =? rq_pid request
    | _ => (id_pid identity =? rq_pid request) || (id_tgid identity =? rq_pid request)
    end in
  if negb id_matches then false
  else if negb (rq_has_uid request =? 0) && negb (id_uid identity =? rq_uid request) then false
  else if negb (rq_has_comm request =? 0) && negb (strncmp_eq (id_comm identity) (rq_comm request) SPZ_COMM_LEN)
  then false
  else if negb (rq_has_start_boot_time request =? 0)
          && negb (id_start_boot_time identity =? rq_start_boot_time request) then false
  else true.

Definition spz_same_strong_identity (left right : spz_task_identity) : bool :=
  (id_pid left =? id_pid right) && (id_tgid left =? id_tgid right) &&
  (id_start_time left =? id_start_time right) && (id_start_boot_time left =? id_start_boot_time right).

(** ** Operations *)

Definition spz_binding_init : spz_binding :=
  {| bd_sequence := 0; bd_generation := 0; bd_state := SPZ_BINDING_EMPTY;
     bd_request := empty_request; bd_identity := empty_identity |}.

(** Result code, [*generation] when it was stored, binding. *)
Definition spz_binding_set (binding : spz_binding) (request : option spz_binding_request) :
    Z * option Z * spz_binding :=
  match request with
  | Some r =>
      if negb (spz_request_valid request) then (- EINVAL, None, binding)
      else
        match spz_write_begin binding with
        | (None, binding) => (- EAGAIN, None, binding)
        | (Some odd_sequence, binding) =>
            let next := spz_next_generation (bd_generation binding) in
            let binding := spz_store_request r binding in
            let binding := spz_store_identity empty_identity binding in
            let binding := binding <| bd_generation := next |> <| bd_state := SPZ_BINDING_PENDING |> in
            (0, Some next, spz_write_end odd_sequence binding)
        end
  | None => (- EINVAL, None, binding)
  end.

Definition spz_mark_state_if_generation (binding : spz_binding) (generation : Z)
    (required replacement : spz_binding_state) : Z * spz_binding :=
  match spz_write_begin binding with
  | (None, binding) => (- EAGAIN, binding)
  | (Some odd_sequence, binding) =>
      if negb (bd_generation binding =? generation) || negb (bool_decide (bd_state binding = required))
      then (- ESTALE, spz_write_end odd_sequence binding)
      else (0, spz_write_end odd_sequence (binding <| bd_state := replacement |>))
  end.

Section current.
Context (kmem : Z -> nat -> list Z) (profile : option spz_device_profile)
        (current_task : option (Z * list Z)) (available : Z).

(** Result code, [*identity] when it was stored, binding. *)
Definition spz_binding_matches_current (binding : spz_binding) (expected_generation : Z) :
    Z * option spz_task_identity * spz_binding :=
  match profile, current_task with
  | Some _, Some _ =>
      match spz_binding_snapshot binding with
      | None => (- EAGAIN, None, binding)
      | Some snapshot =>
          if negb (sn_generation snapshot =? expected_generation) then (- ESTALE, None, binding)
          else
            match sn_state snapshot with
            | SPZ_BINDING_STALE => (- ESTALE, None, binding)
            | SPZ_BINDING_EXITED => (- ESRCH, None, binding)
            | SPZ_BINDING_BOUND =>
                match spz_extract_identity kmem profile current_task available with
                | inl result => (result, None, binding)
                | inr (current, exit_state) =>
                    let current := current <| id_generation := sn_generation snapshot |> in
                    if negb (id_pid current =? id_pid (sn_identity snapshot)) then (0, None, binding)
                    else if negb (spz_same_strong_identity (sn_identity snapshot) current)
                    then (- ESTALE, None,
                          (spz_mark_state_if_generation binding (sn_generation snapshot)
                             SPZ_BINDING_BOUND SPZ_BINDING_STALE).2)
                    else if negb (exit_state =? 0)
                    then (- ESRCH, None,
                          (spz_mark_state_if_generation binding (sn_generation snapshot)
                             SPZ_BINDING_BOUND SPZ_BINDING_EXITED).2)
                    else (1, Some current, binding)
                end
            | _ => (0, None, binding)
            end
      end
  | _, _ => (- EINVAL, None, binding)
  end.

Definition spz_binding_observe_current (binding : spz_binding) :
    Z * option spz_task_identity * spz_binding :=
  match profile, current_task with
  | Some _, Some _ =>
      match spz_binding_snapshot binding with
      | None => (- EAGAIN, None, binding)
      | Some snapshot =>
          match sn_state snapshot with
          | SPZ_BINDING_BOUND => spz_binding_matches_current binding (sn_generation snapshot)
          | SPZ_BINDING_STALE => (- ESTALE, None, binding)
          | SPZ_BINDING_EXITED => (- ESRCH, None, binding)
          | SPZ_BINDING_EMPTY => (0, None, binding)
          | SPZ_BINDING_PENDING =>
              match spz_extract_identity kmem profile current_task available with
              | inl result => (result, None, binding)
              | inr (current, exit_state) =>
                  if negb (exit_state =? 0) || negb (spz_selector_matches (sn_request snapshot) current)
                  then (0, None, binding)
                  else
                    let current := current <| id_generation := sn_generation snapshot |> in
                    match spz_write_begin binding with
                    | (None, binding) => (- EAGAIN, None, binding)
                    | (Some odd_sequence, binding) =>
                        if negb (bd_generation binding =? sn_generation snapshot)
                           || negb (bool_decide (bd_state binding = SPZ_BINDING_PENDING))
                        then (- ESTALE, None, spz_write_end odd_sequence binding)
                        else
                          let binding := spz_store_identity current binding in
                          let binding := binding <| bd_state := SPZ_BINDING_BOUND |> in
                          (1, Some current, spz_write_end odd_sequence binding)
                    end
              end
          end
      end
  | _, _ => (- EINVAL, None, binding)
  end.

Definition spz_binding_mark_exit (binding : spz_binding) : Z * spz_binding :=
  match profile, current_task with
  | Some _, Some _ =>
      match spz_binding_snapshot binding with
      | None => (- EAGAIN, binding)
      | Some snapshot =>
          if bool_decide (sn_state snapshot <> SPZ_BINDING_BOUND) then (0, binding)
          else
            match spz_extract_identity kmem profile current_task available with
            | inl result => (result, binding)
            | inr (current, _) =>
                if negb (spz_same_strong_identity (sn_identity snapshot) current) then (0, binding)
                else
                  let '(result, binding) := spz_mark_state_if_generation binding (sn_generation snapshot)
                                              SPZ_BINDING_BOUND SPZ_BINDING_EXITED in
                  (if result =? 0 then 1 else result, binding)
            end
      end
  | _, _ => (- EINVAL, binding)
  end.

End current.

Definition spz_binding_clear (binding : spz_binding) : Z * spz_binding :=
  match spz_write_begin binding with
  | (None, binding) => (- EAGAIN, binding)
  | (Some odd_sequence, binding) =>
      let next := spz_next_generation (bd_generation binding) in
      let binding := spz_store_request empty_request binding in
      let binding := spz_store_identity empty_identity binding in
      let binding := binding <| bd_generation := next |> <| bd_state := SPZ_BINDING_EMPTY |> in
      (0, spz_write_end odd_sequence binding)
  end.

(** ** Invariant *)

Definition request_typed (r : spz_binding_request) : Prop := length (rq_comm r) = SPZ_COMM_LEN.

(** States in which an identity has been captured. *)
Definition captured (s : spz_binding_state) : Prop :=
  s = SPZ_BINDING_BOUND \/ s = SPZ_BINDING_STALE \/ s = SPZ_BINDING_EXITED.

Record binding_wf (b : spz_binding) : Prop := {
  bw_sequence : 0 <= bd_sequence b < UINT64_MAX;
  bw_even : Z.land (bd_sequence b) 1 = 0;
  bw_generation : 0 <= bd_generation b <= UINT64_MAX;
  bw_request : bd_state b <> SPZ_BINDING_EMPTY ->
               bd_generation b <> 0 /\ spz_request_valid (Some (bd_request b)) = true;
  bw_request_comm : length (rq_comm (bd_request b)) = SPZ_COMM_LEN;
  bw_identity_comm : length (id_comm (bd_identity b)) = SPZ_COMM_LEN;
  bw_captured : captured (bd_state b) ->
                id_generation (bd_identity b) = bd_generation b /\
                spz_selector_matches (bd_request b) (bd_identity b) = true;
  bw_empty : ~ captured (bd_state b) -> bd_identity b = empty_identity;
}.

Lemma land_1 z : Z.land z 1 = z mod 2.
Proof. change 1 with (Z.ones 1). by rewrite Z.land_ones. Qed.

(** The sequence after one locked update. *)
Definition bump (b : spz_binding) : spz_binding := b <| bd_sequence := u64 (bd_sequence b + 2) |>.

Lemma even_succ_u64 s : 0 <= s < UINT64_MAX -> u64 (s + 1) = s + 1.
Proof. intros. zlia. Qed.

Lemma bump_sequence s :
  0 <= s < UINT64_MAX -> Z.land s 1 = 0 -> 0 <= u64 (s + 2) < UINT64_MAX /\ Z.land (u64 (s + 2)) 1 = 0.
Proof. rewrite !land_1. intros Hs He. zlia. Qed.

Lemma write_begin_loop_even n b :
  Z.land (bd_sequence b) 1 = 0 ->
  write_begin_loop (S n) b =
  (Some (u64 (bd_sequence b + 1)), b <| bd_sequence := u64 (bd_sequence b + 1) |>).
Proof. intros He. simpl. by rewrite He. Qed.

Lemma snapshot_loop_even n b :
  Z.land (bd_sequence b) 1 = 0 -> snapshot_loop (S n) b = Some (spz_load_binding b).
Proof. intros He. simpl. by rewrite He, !Z.eqb_refl. Qed.

Lemma write_begin_wf b :
  binding_wf b -> spz_write_begin b = (Some (bd_sequence b + 1), b <| bd_sequence := bd_sequence b + 1 |>).
Proof.
  intros [Hs He _ _ _ _ _ _]. unfold spz_write_begin, SPZ_BINDING_WRITE_ATTEMPTS.
  by rewrite write_begin_loop_even, even_succ_u64.
Qed.

Lemma snapshot_wf b : binding_wf b -> spz_binding_snapshot b = Some (spz_load_binding b).
Proof.
  intros [Hs He _ _ _ _ _ _]. unfold spz_binding_snapshot, SPZ_BINDING_SNAPSHOT_ATTEMPTS.
  by rewrite snapshot_loop_even.
Qed.

Lemma write_end_bump odd b b' :
  odd = bd_sequence b + 1 ->
  spz_write_end odd b' = b' <| bd_sequence := u64 (bd_sequence b + 2) |>.
Proof. intros ->. unfold spz_write_end. by replace (bd_sequence b + 1 + 1) with (bd_sequence b + 2) by lia. Qed.

Lemma store_bytes_full dst src n :
  length dst = n -> length src = n -> spz_atomic_store_bytes dst src n = src.
Proof.
  intros Hd Hs. unfold spz_atomic_store_bytes. rewrite <- Hd at 2. rewrite drop_all, app_nil_r.
  rewrite <- Hs. apply firstn_all.
Qed.

Lemma store_request_typed r b :
  length (rq_comm (bd_request b)) = SPZ_COMM_LEN -> request_typed r ->
  spz_store_request r b = b <| bd_request := r |>.
Proof. intros Hb Hr. unfold spz_store_request. rewrite store_bytes_full by done. by destruct r. Qed.

Lemma store_identity_typed i b :
  length (id_comm (bd_identity b)) = SPZ_COMM_LEN -> length (id_comm i) = SPZ_COMM_LEN ->
  spz_store_identity i b = b <| bd_identity := i |>.
Proof. intros Hb Hi. unfold spz_store_identity. rewrite store_bytes_full by done. by destruct i. Qed.

Lemma next_generation_fresh g :
  0 <= g <= UINT64_MAX ->
  0 < spz_next_generation g <= UINT64_MAX /\ spz_next_generation g <> g.
Proof.
  intros Hg. unfold spz_next_generation. destruct (g =? UINT64_MAX) eqn:E; [zlia|].
  cbv zeta. replace (u64 (g + 1)) with (g + 1) by zlia. rewrite eqb_ne by lia. zlia.
Qed.

(** ** Each operation on a well-formed binding *)

Lemma binding_set_eq b r :
  binding_wf b -> request_typed r -> spz_request_valid (Some r) = true ->
  spz_binding_set b (Some r) =
  (0, Some (spz_next_generation (bd_generation b)),
   bump (b <| bd_request := r |> <| bd_identity := empty_identity |>
           <| bd_generation := spz_next_generation (bd_generation b) |>
           <| bd_state := SPZ_BINDING_PENDING |>)).
Proof.
  intros Hw Hr Hv. unfold spz_binding_set. rewrite Hv. cbn [negb]. rewrite write_begin_wf by done.
  destruct Hw. cbv zeta. rewrite store_request_typed by done. rewrite store_identity_typed by done.
  by rewrite (write_end_bump _ b).
Qed.

Lemma binding_clear_eq b :
  binding_wf b ->
  spz_binding_clear b =
  (0, bump (b <| bd_request := empty_request |> <| bd_identity := empty_identity |>
              <| bd_generation := spz_next_generation (bd_generation b) |>
              <| bd_state := SPZ_BINDING_EMPTY |>)).
Proof.
  intros Hw. unfold spz_binding_clear. rewrite write_begin_wf by done.
  destruct Hw. cbv zeta. rewrite store_request_typed by done. rewrite store_identity_typed by done.
  by rewrite (write_end_bump _ b).
Qed.

Lemma mark_state_eq b replacement :
  binding_wf b -> bd_state b = SPZ_BINDING_BOUND ->
  spz_mark_state_if_generation b (bd_generation b) SPZ_BINDING_BOUND replacement =
  (0, bump (b <| bd_state := replacement |>)).
Proof.
  intros Hw Hs. unfold spz_mark_state_if_generation. rewrite write_begin_wf by done. cbv zeta.
  cbn [bd_generation bd_state field_update]. 
  change (bd_generation (b <| bd_sequence := bd_sequence b + 1 |>)) with (bd_generation b).
  change (bd_state (b <| bd_sequence := bd_sequence b + 1 |>)) with (bd_state b).
  rewrite Z.eqb_refl, bool_decide_true by done. cbn [negb orb]. by rewrite (write_end_bump _ b).
Qed.

Lemma task_read_length task available offset n bs :
  0 <= offset -> length task = Z.to_nat available ->
  spz_task_read task available offset n = inr bs -> length bs = n.
Proof.
  intros Ho Hl. unfold spz_task_read. destruct (_ || _) eqn:E; [done|]. intros [= <-].
  rewrite length_take, length_drop, Hl. lia.
Qed.

Section current_ops.
Context (kmem : Z -> nat -> list Z) (profile : spz_device_profile) (task : Z * list Z) (available : Z).

Abbreviation extract := (spz_extract_identity kmem (Some profile) (Some task) available).
Abbreviation matches := (spz_binding_matches_current kmem (Some profile) (Some task) available).
Abbreviation observe := (spz_binding_observe_current kmem (Some profile) (Some task) available).
Abbreviation mark_exit := (spz_binding_mark_exit kmem (Some profile) (Some task) available).

(** The outcome of matching the current task against a bound identity. *)
Lemma matches_bound_eq b :
  binding_wf b -> bd_state b = SPZ_BINDING_BOUND ->
  matches b (bd_generation b) =
  match extract with
  | inl r => (r, None, b)
  | inr (current, exit_state) =>
      if negb (id_pid current =? id_pid (bd_identity b)) then (0, None, b)
      else if negb (spz_same_strong_identity (bd_identity b) current)
      then (- ESTALE, None, bump (b <| bd_state := SPZ_BINDING_STALE |>))
      else if negb (exit_state =? 0) then (- ESRCH, None, bump (b <| bd_state := SPZ_BINDING_EXITED |>))
      else (1, Some (current <| id_generation := bd_generation b |>), b)
  end.
Proof.
  intros Hw Hs. unfold spz_binding_matches_current. rewrite snapshot_wf by done.
  unfold spz_load_binding. cbn [sn_generation sn_state sn_identity sn_request].
  rewrite Z.eqb_refl, Hs. cbn [negb]. rewrite !mark_state_eq by done.
  by destruct extract as [|[current es]].
Qed.

(** Matching changes nothing unless the binding is bound and the generation is
    the expected one; the result is then negative or 0. *)
Lemma matches_not_bound b g :
  binding_wf b -> bd_state b <> SPZ_BINDING_BOUND \/ bd_generation b <> g ->
  (matches b g).2 = b /\ (matches b g).1.2 = None /\ (matches b g).1.1 <= 0.
Proof.
  intros Hw Hs. unfold spz_binding_matches_current. rewrite snapshot_wf by done.
  unfold spz_load_binding. cbn [sn_generation sn_state].
  destruct (bd_generation b =? g) eqn:E; cbn [negb]; [|done].
  destruct (bd_state b); try done. destruct Hs as [Hs|Hs]; [done|lia].
Qed.

Lemma observe_eq b :
  binding_wf b ->
  observe b =
  match bd_state b with
  | SPZ_BINDING_BOUND => matches b (bd_generation b)
  | SPZ_BINDING_STALE => (- ESTALE, None, b)
  | SPZ_BINDING_EXITED => (- ESRCH, None, b)
  | SPZ_BINDING_EMPTY => (0, None, b)
  | SPZ_BINDING_PENDING =>
      match extract with
      | inl r => (r, None, b)
      | inr (current, exit_state) =>
          if negb (exit_state =? 0) || negb (spz_selector_matches (bd_request b) current) then (0, None, b)
          else
            let current := current <| id_generation := bd_generation b |> in
            (1, Some current, bump ((spz_store_identity current b) <| bd_state := SPZ_BINDING_BOUND |>))
      end
  end.
Proof.
  intros Hw. unfold spz_binding_observe_current. rewrite snapshot_wf by done.
  unfold spz_load_binding. cbn [sn_generation sn_state sn_request].
  destruct (bd_state b) eqn:Hs; try done. destruct extract as [|[current es]]; [done|].
  destruct (_ || _); [done|]. rewrite write_begin_wf by done. cbv zeta.
  change (bd_generation (b <| bd_sequence := bd_sequence b + 1 |>)) with (bd_generation b).
  change (bd_state (b <| bd_sequence := bd_sequence b + 1 |>)) with (bd_state b).
  rewrite Z.eqb_refl, bool_decide_true by done. cbn [negb orb]. by rewrite (write_end_bump _ b).
Qed.

Lemma mark_exit_eq b :
  binding_wf b ->
  mark_exit b =
  if bool_decide (bd_state b = SPZ_BINDING_BOUND) then
    match extract with
    | inl r => (r, b)
    | inr (current, _) =>
        if spz_same_strong_identity (bd_identity b) current
        then (1, bump (b <| bd_state := SPZ_BINDING_EXITED |>)) else (0, b)
    end
  else (0, b).
Proof.
  intros Hw. unfold spz_binding_mark_exit. rewrite snapshot_wf by done.
  unfold spz_load_binding. cbn [sn_generation sn_state sn_identity].
  destruct (decide (bd_state b = SPZ_BINDING_BOUND)) as [Hs|Hs].
  - rewrite bool_decide_false, bool_decide_true by auto. destruct extract as [|[current es]]; [done|].
    destruct (spz_same_strong_identity _ _); cbn [negb]; [|done]. by rewrite mark_state_eq.
  - by rewrite bool_decide_true, bool_decide_false by auto.
Qed.

Lemma extract_comm_length current es :
  profile_typed profile -> length task.2 = Z.to_nat available ->
  extract = inr (current, es) -> length (id_comm current) = SPZ_COMM_LEN.
Proof.
  intros [Hty _ _ _] Hl.
  assert (Ho : 0 <= tp_comm (profile_task profile)).
  { rewrite Forall_forall in Hty. specialize (Hty (tp_comm (profile_task profile), kp_task_comm_len (profile_kernel profile))).
    apply Hty. unfold task_fields. rewrite !elem_of_cons. tauto. } unfold spz_extract_identity. destruct task as [address bytes]. cbn [snd] in Hl.
  destruct (_ <? _); [done|].
  repeat (case_match; simplify_eq; try done). intros. simplify_eq. cbn [id_comm].
  rewrite length_insert. by eapply task_read_length.
Qed.

End current_ops.

(** ** Sequences of operations *)

(** What a hook passes on: kernel memory, the profile, the current task. *)
Record task_view := {
  tv_kmem : Z -> nat -> list Z;
  tv_profile : spz_device_profile;
  tv_task : Z * list Z;
  tv_available : Z;
}.

Definition view_identity (v : task_view) : Z + (spz_task_identity * Z) :=
  spz_extract_identity (tv_kmem v) (Some (tv_profile v)) (Some (tv_task v)) (tv_available v).

Definition view_ok (v : task_view) : Prop :=
  profile_typed (tv_profile v) /\ length (tv_task v).2 = Z.to_nat (tv_available v).

Inductive binding_op :=
  | BindSet (request : option spz_binding_request)
  | BindObserve (v : task_view)
  | BindMatch (v : task_view) (expected_generation : Z)
  | BindExit (v : task_view)
  | BindClear.

(** Result code, identity handed out, binding. *)
Definition binding_step (op : binding_op) (b : spz_binding) : Z * option spz_task_identity * spz_binding :=
  match op with
  | BindSet request => let '(r, _, b) := spz_binding_set b request in (r, None, b)
  | BindObserve v =>
      spz_binding_observe_current (tv_kmem v) (Some (tv_profile v)) (Some (tv_task v)) (tv_available v) b
  | BindMatch v g =>
      spz_binding_matches_current (tv_kmem v) (Some (tv_profile v)) (Some (tv_task v)) (tv_available v) b g
  | BindExit v =>
      let '(r, b) := spz_binding_mark_exit (tv_kmem v) (Some (tv_profile v)) (Some (tv_task v))
                       (tv_available v) b in (r, None, b)
  | BindClear => let '(r, b) := spz_binding_clear b in (r, None, b)
  end.

Definition bop_ok (op : binding_op) : Prop :=
  match op with
  | BindSet (Some r) => request_typed r
  | BindSet None | BindClear => True
  | BindObserve v | BindExit v | BindMatch v _ => view_ok v
  end.

Lemma bump_wf b b' :
  binding_wf b -> bd_sequence b' = bd_sequence b ->
  0 <= bd_generation b' <= UINT64_MAX ->
  (bd_state b' <> SPZ_BINDING_EMPTY ->
   bd_generation b' <> 0 /\ spz_request_valid (Some (bd_request b')) = true) ->
  length (rq_comm (bd_request b')) = SPZ_COMM_LEN -> length (id_comm (bd_identity b')) = SPZ_COMM_LEN ->
  (captured (bd_state b') ->
   id_generation (bd_identity b') = bd_generation b' /\
   spz_selector_matches (bd_request b') (bd_identity b') = true) ->
  (~ captured (bd_state b') -> bd_identity b' = empty_identity) ->
  binding_wf (bump b').
Proof.
  intros Hw Hs **. destruct (bump_sequence (bd_sequence b)) as [Hseq Heven]; [by destruct Hw..|].
  rewrite <- Hs in *. by split.
Qed.

(** Marking a bound binding stale or exited. *)
Lemma mark_wf b s :
  binding_wf b -> bd_state b = SPZ_BINDING_BOUND -> captured s -> binding_wf (bump (b <| bd_state := s |>)).
Proof.
  intros Hw Hs Hc. assert (Hb : captured (bd_state b)) by (rewrite Hs; by left).
  apply (bump_wf b); destruct Hw as [? ? ? Hr ? ? Hcap He]; try done.
  - intros _. apply Hr. by rewrite Hs.
  - intros _. by apply Hcap.
Qed.

Lemma selector_ignores_generation r i g :
  spz_selector_matches r (i <| id_generation := g |>) = spz_selector_matches r i.
Proof. by destruct i. Qed.

Lemma bind_wf b i :
  binding_wf b -> bd_state b = SPZ_BINDING_PENDING -> length (id_comm i) = SPZ_COMM_LEN ->
  id_generation i = bd_generation b -> spz_selector_matches (bd_request b) i = true ->
  binding_wf (bump (b <| bd_identity := i |> <| bd_state := SPZ_BINDING_BOUND |>)).
Proof.
  intros Hw Hs Hl Hg Hm. apply (bump_wf b); destruct Hw as [? ? ? Hr ? ? Hcap He]; try done.
  - intros _. apply Hr. by rewrite Hs.
  - intros Hn. destruct Hn. by left.
Qed.

Lemma not_captured_empty : ~ captured SPZ_BINDING_EMPTY.
Proof. by intros [|[]]. Qed.
Lemma not_captured_pending : ~ captured SPZ_BINDING_PENDING.
Proof. by intros [|[]]. Qed.

Lemma reset_wf b r s :
  binding_wf b -> request_typed r -> ~ captured s ->
  (s <> SPZ_BINDING_EMPTY -> spz_request_valid (Some r) = true) ->
  binding_wf (bump (b <| bd_request := r |> <| bd_identity := empty_identity |>
    <| bd_generation := spz_next_generation (bd_generation b) |> <| bd_state := s |>)).
Proof.
  intros Hw Hr Hc Hv. destruct (next_generation_fresh (bd_generation b)) as [Hg _]; [by destruct Hw|].
  apply (bump_wf b); try done; cbn [bd_generation field_update].
  - change (0 <= spz_next_generation (bd_generation b) <= UINT64_MAX). lia.
  - intros Hs. split; [|by apply Hv]. change (spz_next_generation (bd_generation b) <> 0). lia.
Qed.

Lemma binding_init_wf : binding_wf spz_binding_init.
Proof. by split. Qed.

(** [matches] keeps a binding well-formed. *)
Lemma matches_wf v b g :
  binding_wf b ->
  binding_wf (spz_binding_matches_current (tv_kmem v) (Some (tv_profile v)) (Some (tv_task v))
    (tv_available v) b g).2.
Proof.
  intros Hw.
  destruct (decide (bd_state b = SPZ_BINDING_BOUND /\ bd_generation b = g)) as [[Hs <-]|Hn].
  2: { destruct (matches_not_bound (tv_kmem v) (tv_profile v) (tv_task v) (tv_available v) b g Hw)
         as (-> & _); [|done].
       destruct (decide (bd_state b = SPZ_BINDING_BOUND)); [right|left]; [|done]. intros ?. by apply Hn. }
  rewrite matches_bound_eq by done. destruct (spz_extract_identity _ _ _ _) as [|[current es]]; [done|].
  repeat (destruct (negb _); [first [done|apply mark_wf; [done|done|unfold captured; tauto]]|]). done.
Qed.

Lemma binding_step_wf op b : binding_wf b -> bop_ok op -> binding_wf (binding_step op b).2.
Proof.
  intros Hw Hop. destruct op as [[r|]|v|v g|v|]; cbn [binding_step]; [| | |by apply matches_wf| |].
  - destruct (spz_request_valid (Some r)) eqn:Hv.
    + rewrite binding_set_eq by done. apply reset_wf; try done. apply not_captured_pending.
    + unfold spz_binding_set. by rewrite Hv.
  - done.
  - rewrite observe_eq by done. destruct (bd_state b) eqn:Hs; try done.
    + destruct (spz_extract_identity _ _ _ _) as [|[current es]] eqn:He; [done|].
      destruct (_ || _) eqn:Em; [done|]. rewrite orb_false_iff, !negb_false_iff in Em. destruct Em as [_ Em].
      destruct Hop as [Ht Hl]. pose proof (extract_comm_length _ _ _ _ _ _ Ht Hl He) as Hc.
      cbv zeta. cbn [snd]. rewrite store_identity_typed; [|by destruct Hw|done].
      apply bind_wf; try done.
    + by apply (matches_wf v).
  - rewrite mark_exit_eq by done. destruct (bool_decide _) eqn:Hs; [|done]. apply bool_decide_eq_true in Hs.
    destruct (spz_extract_identity _ _ _ _) as [|[current es]]; [done|].
    destruct (spz_same_strong_identity _ _); [|done]. apply mark_wf; [done|done|by right; right].
  - rewrite binding_clear_eq by done. apply reset_wf; try done. apply not_captured_empty.
Qed.

Fixpoint run_binding (ops : list binding_op) (b : spz_binding) :
    list (Z * option spz_task_identity) * spz_binding :=
  match ops with
  | [] => ([], b)
  | op :: ops =>
      let '(out, b) := binding_step op b in
      let '(outs, b) := run_binding ops b in (out :: outs, b)
  end.

(** Operations of the hooks: neither a new request nor a clear. *)
Definition hook_op (op : binding_op) : Prop :=
  match op with BindSet _ | BindClear => False | _ => True end.

(** ** What the hooks can do to a captured binding *)

Lemma same_strong_identity_generation i j g :
  spz_same_strong_identity i (j <| id_generation := g |>) = spz_same_strong_identity i j.
Proof. by destruct j. Qed.

(** A hook leaves a captured binding's generation, request and identity alone;
    it can only move BOUND to STALE or EXITED, and reports 1 with an identity
    only for the captured task. *)
Record hook_effect (b b' : spz_binding) (out : Z * option spz_task_identity) : Prop := {
  he_generation : bd_generation b' = bd_generation b;
  he_identity : bd_identity b' = bd_identity b;
  he_captured : captured (bd_state b');
  he_dead : bd_state b <> SPZ_BINDING_BOUND -> b' = b /\ out.1 <> 1 /\ out.2 = None;
  he_match : forall j, out.2 = Some j ->
    out.1 = 1 /\ spz_same_strong_identity (bd_identity b) j = true /\ id_generation j = bd_generation b;
}.

Lemma unchanged_effect b r :
  captured (bd_state b) -> r <> 1 -> hook_effect b b (r, None).
Proof. by split. Qed.

Lemma marked_effect b s r :
  bd_state b = SPZ_BINDING_BOUND -> captured s -> hook_effect b (bump (b <| bd_state := s |>)) (r, None).
Proof. by split. Qed.

Lemma extract_inl_neg kmem p t a r : spz_extract_identity kmem p t a = inl r -> r < 0.
Proof. unfold spz_extract_identity. repeat case_match; intros [= <-]; done. Qed.

#[local] Hint Resolve extract_inl_neg : spz.

Lemma matches_bound_effect v b :
  binding_wf b -> bd_state b = SPZ_BINDING_BOUND ->
  let '(out, b') := binding_step (BindMatch v (bd_generation b)) b in hook_effect b b' out.
Proof.
  intros Hw Hs. cbn [binding_step]. assert (Hc : captured (bd_state b)) by (rewrite Hs; by left).
  rewrite matches_bound_eq by done. destruct (spz_extract_identity _ _ _ _) as [r|[current es]] eqn:E.
  { apply unchanged_effect; [done|]. apply extract_inl_neg in E. lia. }
  destruct (negb (id_pid _ =? _)); [by apply unchanged_effect|].
  destruct (spz_same_strong_identity _ _) eqn:Em; cbn [negb].
  2: { apply marked_effect; [done|]. unfold captured; tauto. }
  destruct (negb (es =? 0)); [apply marked_effect; [done|unfold captured; tauto]|].
  split; try done. intros j [= <-]. by rewrite same_strong_identity_generation.
Qed.

Lemma matches_effect v g b :
  binding_wf b -> captured (bd_state b) ->
  let '(out, b') := binding_step (BindMatch v g) b in hook_effect b b' out.
Proof.
  intros Hw Hc. destruct (decide (bd_state b = SPZ_BINDING_BOUND /\ bd_generation b = g)) as [[Hs <-]|Hn].
  { by apply matches_bound_effect. }
  destruct (matches_not_bound (tv_kmem v) (tv_profile v) (tv_task v) (tv_available v) b g Hw) as (H1 & H2 & H3).
  { destruct (decide (bd_state b = SPZ_BINDING_BOUND)); [right|left]; [|done]. intros ?. by apply Hn. }
  cbn [binding_step]. destruct (spz_binding_matches_current _ _ _ _ _ _) as [[r o] b']. cbn [fst snd] in *.
  subst. apply unchanged_effect; [done|lia].
Qed.

Lemma hook_step_effect op b :
  binding_wf b -> captured (bd_state b) -> hook_op op ->
  let '(out, b') := binding_step op b in hook_effect b b' out.
Proof.
  intros Hw Hc Hop. destruct op as [r|v|v g|v|]; [done| |by apply matches_effect| |done]; cbn [binding_step].
  - rewrite observe_eq by done. destruct (bd_state b) eqn:Hs; try (by apply unchanged_effect; rewrite ?Hs).
    + by destruct (not_captured_pending Hc).
    + by apply (matches_bound_effect v).
  - rewrite mark_exit_eq by done. case_bool_decide as Hs; [|by apply unchanged_effect].
    destruct (spz_extract_identity _ _ _ _) as [r|[current es]] eqn:E.
    { apply unchanged_effect; [done|]. apply extract_inl_neg in E. lia. }
    destruct (spz_same_strong_identity _ _); [|by apply unchanged_effect].
    apply marked_effect; [done|unfold captured; tauto].
Qed.

(** ** Properties *)

Lemma run_binding_wf ops b : Forall bop_ok ops -> binding_wf b -> binding_wf (run_binding ops b).2.
Proof.
  intros Hok. revert b. induction Hok as [|op ops Hop Hok IH]; intros b Hw; [done|]. cbn [run_binding].
  pose proof (binding_step_wf op b Hw Hop) as Hw1. destruct (binding_step op b) as [out b1].
  specialize (IH b1 Hw1). by destruct (run_binding ops b1).
Qed.

(** Whatever sequence of requests, clears and hook calls a binding has seen,
    its sequence lock is released, a non-empty binding has a non-zero generation
    and a valid request, and a captured identity satisfies the request's selector
    and carries the binding's generation. *)
Theorem binding_invariant ops :
  Forall bop_ok ops -> binding_wf (run_binding ops spz_binding_init).2.
Proof. intros Hok. by apply run_binding_wf; [|apply binding_init_wf]. Qed.

(** A captured binding follows one task. Over any sequence of hook calls on
    any tasks, every identity handed out has the captured strong identity (pid,
    tgid, both start times) and the binding's generation; the captured identity
    and generation never change. *)
Theorem binding_follows_one_task ops b :
  binding_wf b -> captured (bd_state b) -> Forall bop_ok ops -> Forall hook_op ops ->
  let '(outs, b') := run_binding ops b in
  bd_generation b' = bd_generation b /\ bd_identity b' = bd_identity b /\
  Forall (fun out => forall j, out.2 = Some j ->
    out.1 = 1 /\ spz_same_strong_identity (bd_identity b) j = true /\ id_generation j = bd_generation b) outs.
Proof.
  intros Hw Hc Hok Hh. revert b Hw Hc. induction ops as [|op ops IH]; intros b Hw Hc; [done|]. cbn [run_binding].
  apply Forall_cons in Hok as [Hop Hok]. apply Forall_cons in Hh as [Hhop Hh].
  pose proof (hook_step_effect op b Hw Hc Hhop) as He. pose proof (binding_step_wf op b Hw Hop) as Hw1.
  destruct (binding_step op b) as [out b1]. destruct He as [Hg Hi Hc1 _ Hm]. cbn [snd] in Hw1.
  specialize (IH Hok Hh b1 Hw1 Hc1). destruct (run_binding ops b1) as [outs b2].
  rewrite Hg, Hi in IH. destruct IH as (? & ? & ?). repeat split; try done. by constructor.
Qed.

(** A stale or exited binding is dead. No hook call changes it or reports a
    match; only a new request or a clear leaves the state. *)
Theorem binding_dead_stays_dead ops b :
  binding_wf b -> bd_state b = SPZ_BINDING_STALE \/ bd_state b = SPZ_BINDING_EXITED ->
  Forall bop_ok ops -> Forall hook_op ops ->
  let '(outs, b') := run_binding ops b in
  b' = b /\ Forall (fun out => out.1 <> 1 /\ out.2 = None) outs.
Proof.
  intros Hw Hs Hok Hh. induction ops as [|op ops IH]; [done|]. cbn [run_binding].
  apply Forall_cons in Hok as [Hop Hok]. apply Forall_cons in Hh as [Hhop Hh].
  pose proof (hook_step_effect op b Hw ltac:(unfold captured; tauto) Hhop) as He.
  destruct (binding_step op b) as [out b1]. destruct He as [_ _ _ Hd _].
  destruct Hd as (-> & H1 & H2); [by destruct Hs as [-> | ->]|].
  specialize (IH Hok Hh). destruct (run_binding ops b) as [outs b2]. destruct IH as [-> IH].
  split; [done|]. by constructor.
Qed.

(** A generation is never reused by the next binding. After a new request or
    a clear, matching against the generation handed out before reports ESTALE and
    changes nothing, whatever the current task is. *)
Theorem old_generation_is_stale b r v :
  binding_wf b -> request_typed r -> spz_request_valid (Some r) = true ->
  (let '(code, g, b') := spz_binding_set b (Some r) in
   code = 0 /\ g = Some (bd_generation b') /\ bd_generation b' <> 0 /\
   binding_step (BindMatch v (bd_generation b)) b' = (- ESTALE, None, b')) /\
  (let '(code, b') := spz_binding_clear b in
   code = 0 /\ bd_generation b' <> 0 /\
   binding_step (BindMatch v (bd_generation b)) b' = (- ESTALE, None, b')).
Proof.
  intros Hw Hr Hv. rewrite binding_set_eq, binding_clear_eq by done.
  destruct (next_generation_fresh (bd_generation b)) as [Hg Hne]; [by destruct Hw|].
  assert (Hstale : forall b', binding_wf b' -> bd_generation b' = spz_next_generation (bd_generation b) ->
    binding_step (BindMatch v (bd_generation b)) b' = (- ESTALE, None, b')).
  { intros b' Hw' Hg'. cbn [binding_step]. unfold spz_binding_matches_current.
    rewrite snapshot_wf by done. unfold spz_load_binding. cbn [sn_generation]. by rewrite Hg', eqb_ne. }
  split; (repeat split); try apply Hstale; try done; try (cbn; lia); apply reset_wf; try done.
  - apply not_captured_pending.
  - apply not_captured_empty.
Qed.

(** The first live task that satisfies the selector of a pending binding is
    captured, and the same task then matches with the identity that was captured;
    a task with the captured pid but another start time makes it stale. *)
Theorem observe_captures v b current :
  binding_wf b -> view_ok v -> bd_state b = SPZ_BINDING_PENDING ->
  view_identity v = inr (current, 0) -> spz_selector_matches (bd_request b) current = true ->
  let i := current <| id_generation := bd_generation b |> in
  let '(out, b') := binding_step (BindObserve v) b in
  out = (1, Some i) /\ bd_state b' = SPZ_BINDING_BOUND /\ bd_identity b' = i /\
  binding_step (BindMatch v (bd_generation b)) b' = (1, Some i, b') /\
  (forall w other es, view_identity w = inr (other, es) -> id_pid other = id_pid current ->
     id_start_time other <> id_start_time current ->
     (binding_step (BindMatch w (bd_generation b)) b').1 = (- ESTALE, None) /\
     bd_state (binding_step (BindMatch w (bd_generation b)) b').2 = SPZ_BINDING_STALE).
Proof.
  intros Hw [Ht Hl] Hs Hv Hm i. cbn [binding_step]. rewrite observe_eq, Hs by done.
  unfold view_identity in *. rewrite Hv, Hm. cbn [negb orb Z.eqb]. cbv zeta.
  pose proof (extract_comm_length _ _ _ _ _ _ Ht Hl Hv) as Hc.
  rewrite store_identity_typed; [|by destruct Hw|done]. fold i.
  assert (Hw' : binding_wf (bump (b <| bd_identity := i |> <| bd_state := SPZ_BINDING_BOUND |>)))
    by (by apply bind_wf).
  set (b' := bump _) in *. assert (Hg : bd_generation b = bd_generation b') by done.
  assert (Hi : bd_identity b' = i) by done. assert (Hs' : bd_state b' = SPZ_BINDING_BOUND) by done.
  clearbody b'. repeat split; try done; rewrite Hg.
  - rewrite matches_bound_eq, Hv by done. rewrite Hi. unfold i, spz_same_strong_identity. cbn.
    rewrite !Z.eqb_refl. cbn. by rewrite Hg.
  - intros. rewrite matches_bound_eq by done. rewrite H, Hi. unfold i, spz_same_strong_identity. cbn.
    rewrite H0, Z.eqb_refl. cbn. by rewrite (eqb_ne (id_start_time current)), andb_false_r by auto.
  - intros. rewrite matches_bound_eq by done. rewrite H, Hi. unfold i, spz_same_strong_identity. cbn.
    rewrite H0, Z.eqb_refl. cbn. by rewrite (eqb_ne (id_start_time current)), andb_false_r by auto.
Qed.

(** The members of a task that its identity is read from. *)
Definition identity_fields (profile : spz_device_profile) : list (Z * Z) :=
  let offsets := profile_task profile in
  [(tp_pid offsets, 4); (tp_tgid offsets, 4); (tp_start_time offsets, 8); (tp_start_boottime offsets, 8);
   (tp_comm offsets, Z.of_nat SPZ_COMM_LEN); (tp_exit_state offsets, 4); (tp_cred offsets, 8)].

(** [n] bytes of the task, and the number they are. *)
Definition task_bytes (task : list Z) (offset : Z) (n : nat) : list Z := take n (drop (Z.to_nat offset) task).
Definition task_word (task : list Z) (offset : Z) (n : nat) : Z := le_value (task_bytes task offset n).

(** A read copies the bytes of the member exactly when they lie in front of
    [available]. *)
Lemma task_read_iff task available offset n :
  spz_task_read task available offset n =
  if offset + Z.of_nat n <=? available then inr (task_bytes task offset n) else inl (- ERANGE).
Proof.
  unfold spz_task_read. destruct (Z.leb_spec (offset + Z.of_nat n) available); zbool; [done|].
  by replace (_ || _) with true by (symmetry; rewrite orb_true_iff, !Z.ltb_lt; lia).
Qed.

Lemma identity_fields_fit profile available :
  profile_bounds profile -> profile_typed profile -> kp_task_struct_size (profile_kernel profile) <= available ->
  Forall (fun f => 0 <= f.1 /\ f.1 + f.2 <= kp_task_struct_size (profile_kernel profile)) (identity_fields profile).
Proof.
  intros Hb [Hty _ Hts _] Ha. pose proof (pb_task _ Hb) as Hf. rewrite Forall_forall in Hf, Hty. apply Forall_forall.
  intros f Hin. assert (f ∈ task_fields profile) as Hin'.
  { revert Hin. unfold identity_fields, task_fields. rewrite (pb_comm _ Hb), !elem_of_cons, !elem_of_nil. tauto. }
  specialize (Hf _ Hin'). specialize (Hty _ Hin'). cbn in Hty. split; [lia|]. by apply spz_field_fits_true in Hf; [|done|lia].
Qed.

(** Reading the identity looks at no byte behind the structure. *)
Lemma extract_identity_local kmem profile address task task' available :
  profile_bounds profile -> profile_typed profile -> kp_task_struct_size (profile_kernel profile) <= available ->
  take (Z.to_nat (kp_task_struct_size (profile_kernel profile))) task =
  take (Z.to_nat (kp_task_struct_size (profile_kernel profile))) task' ->
  spz_extract_identity kmem (Some profile) (Some (address, task)) available =
  spz_extract_identity kmem (Some profile) (Some (address, task')) available.
Proof.
  intros Hb Ht Ha Heq. pose proof (identity_fields_fit _ _ Hb Ht Ha) as Hfit. rewrite Forall_forall in Hfit.
  pose proof (pt_task _ Ht) as Hty. pose proof (pt_task_size _ Ht) as Hs.
  set (size := kp_task_struct_size (profile_kernel profile)) in *.
  assert (forall offset n, (offset, Z.of_nat n) ∈ identity_fields profile ->
    spz_task_read task available offset n = spz_task_read task' available offset n) as Hread.
  { intros offset n Hin. specialize (Hfit _ Hin). cbn in Hfit. rewrite !task_read_iff. case_match; [|done]. f_equal.
    unfold task_bytes.
    assert (forall l : list Z, take n (drop (Z.to_nat offset) l) =
      drop (Z.to_nat offset) (take (Z.to_nat offset + n) (take (Z.to_nat size) l))) as Hl.
    { intros l. rewrite take_take, take_drop_commute, Nat.min_l by lia. done. }
    by rewrite Hl, (Hl task'), Heq. }
  unfold spz_extract_identity. fold size. by rewrite !Hread by (unfold identity_fields; rewrite !elem_of_cons; tauto).
Qed.

(** C37: reading the identity of a task stays inside what is available. A structure
    that is not there whole is refused with EINVAL, and a member that reaches behind
    [available] with ERANGE; otherwise the only failure is a credentials pointer that is
    zero or would wrap, or a user number outside the credentials, and the identity is
    made of the bytes of the members the profile names. With a consistent profile no
    member reaches behind the structure, and no byte behind it makes a difference. *)
Theorem extract_identity_in_bounds kmem profile address task available :
  let offsets := profile_task profile in
  let uid := crp_uid (profile_cred profile) in
  let cred := task_word task (tp_cred offsets) 8 in
  spz_extract_identity kmem (Some profile) (Some (address, task)) available =
    (if available <? kp_task_struct_size (profile_kernel profile) then inl (- EINVAL)
     else if decide (Forall (fun f => f.1 + f.2 <= available) (identity_fields profile)) then
       if (cred =? 0) || (UINT64_MAX <? cred + uid) || negb (spz_field_fits (kp_cred_size (profile_kernel profile)) (uid, 4))
       then inl (- EFAULT)
       else inr ({| id_generation := 0; id_task_cookie := address; id_pid := task_word task (tp_pid offsets) 4;
                    id_tgid := task_word task (tp_tgid offsets) 4; id_uid := le_value (kmem (cred + uid) 4%nat);
                    id_start_time := task_word task (tp_start_time offsets) 8;
                    id_start_boot_time := task_word task (tp_start_boottime offsets) 8;
                    id_comm := <[15%nat := 0]> (task_bytes task (tp_comm offsets) 16) |},
                 task_word task (tp_exit_state offsets) 4)
     else inl (- ERANGE)) /\
  (profile_bounds profile -> profile_typed profile -> kp_task_struct_size (profile_kernel profile) <= available ->
   Forall (fun f => f.1 + f.2 <= available) (identity_fields profile) /\
   spz_field_fits (kp_cred_size (profile_kernel profile)) (uid, 4) = true /\
   forall task', take (Z.to_nat (kp_task_struct_size (profile_kernel profile))) task' =
                 take (Z.to_nat (kp_task_struct_size (profile_kernel profile))) task ->
     spz_extract_identity kmem (Some profile) (Some (address, task')) available =
     spz_extract_identity kmem (Some profile) (Some (address, task)) available).
Proof.
  cbv zeta. split.
  - unfold spz_extract_identity. destruct (available <? _); [done|]. rewrite !task_read_iff.
    case_decide as Hfit.
    + unfold identity_fields in Hfit. rewrite !Forall_cons in Hfit. cbn [fst snd] in Hfit. destruct_and!.
      rewrite !(proj2 (Z.leb_le _ _)) by lia. cbv zeta. fold (task_word task (tp_cred (profile_task profile)) 8).
      set (cred := task_word _ _ _). unfold spz_field_fits. cbn [fst snd].
      match goal with |- (if ?c then _ else _) = (if ?d then _ else _) => assert (c = d) as ->; [|done] end.
      rewrite negb_andb, <- Z.ltb_antisym, <- Z.ltb_antisym, !orb_assoc. do 2 f_equal. f_equal.
      destruct (Z.ltb_spec (UINT64_MAX - crp_uid (profile_cred profile)) cred),
        (Z.ltb_spec UINT64_MAX (cred + crp_uid (profile_cred profile))); lia || done.
    + repeat match goal with |- context [if ?a <=? available then _ else _] =>
        destruct (Z.leb_spec a available); [|done] end.
      destruct Hfit. unfold identity_fields. by repeat (apply Forall_cons_2; [done|]).
  - intros Hb Ht Ha. pose proof (identity_fields_fit _ _ Hb Ht Ha) as Hfit. split_and!.
    + eapply Forall_impl; [exact Hfit|]. cbn. lia.
    + apply Hb.
    + intros task' Heq. by apply extract_identity_local.
Qed.

(** ** A concrete task *)

Definition poke (offset : Z) (bytes mem : list Z) : list Z :=
  take (Z.to_nat offset) mem ++ bytes ++ drop (Z.to_nat offset + length bytes) mem.

Definition demo_task : list Z :=
  poke (tp_pid plk110_task) (le_bytes 4 77) (poke (tp_tgid plk110_task) (le_bytes 4 70)
    (poke (tp_start_time plk110_task) (le_bytes 8 500) (poke (tp_cred plk110_task) (le_bytes 8 4096)
      (replicate (Z.to_nat (kp_task_struct_size plk110_kernel)) 0)))).

Definition demo_view : task_view :=
  {| tv_kmem := fun _ n => le_bytes n 1000; tv_profile := profile_oneplus_plk110_a16_b4999618_d05;
     tv_task := (8192, demo_task); tv_available := kp_task_struct_size plk110_kernel |}.

Definition demo_request : spz_binding_request :=
  empty_request <| rq_binding_id := 1 |> <| rq_pid := 77 |> <| rq_mode := SPZ_BIND_PID |>.

Lemma plk110_typed : profile_typed profile_oneplus_plk110_a16_b4999618_d05.
Proof. split; [repeat constructor; cbn; lia|cbn; lia|cbn; lia|cbn; lia]. Qed.

Lemma demo_view_ok : view_ok demo_view.
Proof. split; [apply plk110_typed|vm_compute; reflexivity]. Qed.

Definition demo_pending : spz_binding := (spz_binding_set spz_binding_init (Some demo_request)).2.

Lemma demo_pending_wf : binding_wf demo_pending.
Proof. exact (binding_step_wf (BindSet (Some demo_request)) _ binding_init_wf eq_refl). Qed.

Definition demo_ops : list binding_op :=
  [BindObserve demo_view; BindSet (Some demo_request); BindObserve demo_view; BindExit demo_view; BindClear].

Lemma demo_ops_ok : Forall bop_ok demo_ops.
Proof. repeat (apply Forall_cons; split; [first [done|apply demo_view_ok]|]). by apply Forall_nil. Qed.

Lemma binding_invariant_witness : binding_wf (run_binding demo_ops spz_binding_init).2.
Proof. exact (binding_invariant demo_ops demo_ops_ok). Defined.

Definition demo_bound : spz_binding := (binding_step (BindObserve demo_view) demo_pending).2.

Lemma demo_bound_wf : binding_wf demo_bound.
Proof. exact (binding_step_wf (BindObserve demo_view) _ demo_pending_wf demo_view_ok). Qed.

Lemma demo_bound_state : bd_state demo_bound = SPZ_BINDING_BOUND.
Proof. vm_compute. reflexivity. Qed.

Definition demo_hooks : list binding_op :=
  [BindMatch demo_view 1; BindObserve demo_view; BindExit demo_view; BindMatch demo_view 1].

Lemma demo_hooks_ok : Forall bop_ok demo_hooks /\ Forall hook_op demo_hooks.
Proof. split; repeat (apply Forall_cons; split; [first [done|apply demo_view_ok]|]); by apply Forall_nil. Qed.

Lemma binding_follows_one_task_witness :
  (let '(outs, b') := run_binding demo_hooks demo_bound in
   bd_generation b' = bd_generation demo_bound /\ bd_identity b' = bd_identity demo_bound /\
   Forall (fun out => forall j, out.2 = Some j ->
     out.1 = 1 /\ spz_same_strong_identity (bd_identity demo_bound) j = true /\
     id_generation j = bd_generation demo_bound) outs) /\
  (run_binding demo_hooks demo_bound).1.*1 = [1; 1; 1; - ESRCH].
Proof.
  split; [|vm_compute; reflexivity].
  exact (binding_follows_one_task demo_hooks demo_bound demo_bound_wf (or_introl demo_bound_state)
    (proj1 demo_hooks_ok) (proj2 demo_hooks_ok)).
Defined.

Definition demo_exited : spz_binding := (binding_step (BindExit demo_view) demo_bound).2.

Lemma demo_exited_wf : binding_wf demo_exited.
Proof. exact (binding_step_wf (BindExit demo_view) _ demo_bound_wf demo_view_ok). Qed.

Lemma demo_exited_state : bd_state demo_exited = SPZ_BINDING_EXITED.
Proof. vm_compute. reflexivity. Qed.

Lemma binding_dead_stays_dead_witness :
  let '(outs, b') := run_binding demo_hooks demo_exited in
  b' = demo_exited /\ Forall (fun out => out.1 <> 1 /\ out.2 = None) outs.
Proof.
  exact (binding_dead_stays_dead demo_hooks demo_exited demo_exited_wf (or_intror demo_exited_state)
    (proj1 demo_hooks_ok) (proj2 demo_hooks_ok)).
Defined.

Lemma old_generation_is_stale_witness :
  (let '(code, g, b') := spz_binding_set demo_bound (Some demo_request) in
   code = 0 /\ g = Some (bd_generation b') /\ bd_generation b' <> 0 /\
   binding_step (BindMatch demo_view (bd_generation demo_bound)) b' = (- ESTALE, None, b')) /\
  (let '(code, b') := spz_binding_clear demo_bound in
   code = 0 /\ bd_generation b' <> 0 /\
   binding_step (BindMatch demo_view (bd_generation demo_bound)) b' = (- ESTALE, None, b')).
Proof. exact (old_generation_is_stale demo_bound demo_request demo_view demo_bound_wf eq_refl eq_refl). Defined.

Definition demo_identity : spz_task_identity :=
  match view_identity demo_view with inr (i, _) => i | inl _ => empty_identity end.

Lemma demo_identity_eq : view_identity demo_view = inr (demo_identity, 0).
Proof. vm_compute. reflexivity. Qed.

Lemma demo_selected : spz_selector_matches (bd_request demo_pending) demo_identity = true.
Proof. vm_compute. reflexivity. Qed.

Lemma observe_captures_witness :
  let i := demo_identity <| id_generation := bd_generation demo_pending |> in
  let '(out, b') := binding_step (BindObserve demo_view) demo_pending in
  out = (1, Some i) /\ bd_state b' = SPZ_BINDING_BOUND /\ bd_identity b' = i /\
  binding_step (BindMatch demo_view (bd_generation demo_pending)) b' = (1, Some i, b') /\
  (forall w other es, view_identity w = inr (other, es) -> id_pid other = id_pid demo_identity ->
     id_start_time other <> id_start_time demo_identity ->
     (binding_step (BindMatch w (bd_generation demo_pending)) b').1 = (- ESTALE, None) /\
     bd_state (binding_step (BindMatch w (bd_generation demo_pending)) b').2 = SPZ_BINDING_STALE).
Proof.
  exact (observe_captures demo_view demo_pending demo_identity demo_pending_wf demo_view_ok eq_refl
    demo_identity_eq demo_selected).
Defined.

Lemma plk110_bounds : profile_bounds profile_oneplus_plk110_a16_b4999618_d05.
Proof. apply bounds_valid_spec. vm_compute. reflexivity. Qed.

Lemma extract_identity_in_bounds_witness :
  Forall (fun f => f.1 + f.2 <= 5184) (identity_fields profile_oneplus_plk110_a16_b4999618_d05) /\
  spz_extract_identity (tv_kmem demo_view) (Some profile_oneplus_plk110_a16_b4999618_d05)
    (Some (8192, demo_task ++ [1; 2; 3])) 5184 =
  spz_extract_identity (tv_kmem demo_view) (Some profile_oneplus_plk110_a16_b4999618_d05)
    (Some (8192, demo_task)) 5184.
Proof.
  destruct (extract_identity_in_bounds (tv_kmem demo_view) profile_oneplus_plk110_a16_b4999618_d05 8192 demo_task
    5184) as [_ H]. destruct (H plk110_bounds plk110_typed ltac:(discriminate)) as (Hfit & _ & Hlocal).
  split; [exact Hfit|]. apply Hlocal. vm_compute. reflexivity.
Defined.
