(* ===== verification/Seqlock.v ===== *)
(** * The task binding, one memory access at a time (kpm/core/task.c)

    Task.v runs each operation on a binding in one step. In the kernel the hooks of
    all CPUs and the control calls work on the same binding at once, and a sequence
    lock keeps them apart. Here an operation is a program of single atomic accesses,
    in the order the source makes them, and any number of threads run such programs
    in any interleaving. The accesses are taken to be sequentially consistent. A task
    structure is only read by the hook of the task itself, in one step. *)

From stdpp Require Import relations.
From S2P Require Import Prelude Abi DeviceProfiles Profile Task.

(** ** The members accessed atomically *)

Inductive cell : Set -> Type :=
| Sequence : cell Z
| Generation : cell Z
| State : cell spz_binding_state
| Rq_binding_id : cell Z
| Rq_pid : cell Z
| Rq_mode : cell spz_bind_mode
| Rq_uid : cell Z
| Rq_start_boot_time : cell Z
| Rq_comm (index : nat) : cell Z
| Rq_has_uid : cell Z
| Rq_has_comm : cell Z
| Rq_has_start_boot_time : cell Z
| Id_generation : cell Z
| Id_task_cookie : cell Z
| Id_pid : cell Z
| Id_tgid : cell Z
| Id_uid : cell Z
| Id_start_time : cell Z
| Id_start_boot_time : cell Z
| Id_comm (index : nat) : cell Z.

Definition get {T : Set} (c : cell T) (b : spz_binding) : T :=
  match c in cell T return T with
  | Sequence => bd_sequence b
  | Generation => bd_generation b
  | State => bd_state b
  | Rq_binding_id => rq_binding_id (bd_request b)
  | Rq_pid => rq_pid (bd_request b)
  | Rq_mode => rq_mode (bd_request b)
  | Rq_uid => rq_uid (bd_request b)
  | Rq_start_boot_time => rq_start_boot_time (bd_request b)
  | Rq_comm index => default 0 (rq_comm (bd_request b) !! index)
  | Rq_has_uid => rq_has_uid (bd_request b)
  | Rq_has_comm => rq_has_comm (bd_request b)
  | Rq_has_start_boot_time => rq_has_start_boot_time (bd_request b)
  | Id_generation => id_generation (bd_identity b)
  | Id_task_cookie => id_task_cookie (bd_identity b)
  | Id_pid => id_pid (bd_identity b)
  | Id_tgid => id_tgid (bd_identity b)
  | Id_uid => id_uid (bd_identity b)
  | Id_start_time => id_start_time (bd_identity b)
  | Id_start_boot_time => id_start_boot_time (bd_identity b)
  | Id_comm index => default 0 (id_comm (bd_identity b) !! index)
  end.

Definition put_request (f : spz_binding_request -> spz_binding_request) (b : spz_binding) : spz_binding :=
  b <| bd_request ::= f |>.
Definition put_identity (f : spz_task_identity -> spz_task_identity) (b : spz_binding) : spz_binding :=
  b <| bd_identity ::= f |>.

Definition put {T : Set} (c : cell T) : T -> spz_binding -> spz_binding :=
  match c in cell T return T -> spz_binding -> spz_binding with
  | Sequence => fun v b => b <| bd_sequence := v |>
  | Generation => fun v b => b <| bd_generation := v |>
  | State => fun v b => b <| bd_state := v |>
  | Rq_binding_id => fun v => put_request (fun r => r <| rq_binding_id := v |>)
  | Rq_pid => fun v => put_request (fun r => r <| rq_pid := v |>)
  | Rq_mode => fun v => put_request (fun r => r <| rq_mode := v |>)
  | Rq_uid => fun v => put_request (fun r => r <| rq_uid := v |>)
  | Rq_start_boot_time => fun v => put_request (fun r => r <| rq_start_boot_time := v |>)
  | Rq_comm index => fun v => put_request (fun r => r <| rq_comm ::= <[index := v]> |>)
  | Rq_has_uid => fun v => put_request (fun r => r <| rq_has_uid := v |>)
  | Rq_has_comm => fun v => put_request (fun r => r <| rq_has_comm := v |>)
  | Rq_has_start_boot_time => fun v => put_request (fun r => r <| rq_has_start_boot_time := v |>)
  | Id_generation => fun v => put_identity (fun i => i <| id_generation := v |>)
  | Id_task_cookie => fun v => put_identity (fun i => i <| id_task_cookie := v |>)
  | Id_pid => fun v => put_identity (fun i => i <| id_pid := v |>)
  | Id_tgid => fun v => put_identity (fun i => i <| id_tgid := v |>)
  | Id_uid => fun v => put_identity (fun i => i <| id_uid := v |>)
  | Id_start_time => fun v => put_identity (fun i => i <| id_start_time := v |>)
  | Id_start_boot_time => fun v => put_identity (fun i => i <| id_start_boot_time := v |>)
  | Id_comm index => fun v => put_identity (fun i => i <| id_comm ::= <[index := v]> |>)
  end.

Definition is_sequence {T : Set} (c : cell T) : bool := match c with Sequence => true | _ => false end.

(** ** Programs of accesses

    [Cas] is the strong compare-and-exchange on the sequence; the source does not
    use the value it reports on failure. *)

Inductive prog (A : Type) : Type :=
| Ret (a : A)
| Load {T : Set} (c : cell T) (k : T -> prog A)
| Store {T : Set} (c : cell T) (v : T) (k : prog A)
| Cas (expected desired : Z) (k : bool -> prog A).
Arguments Ret {A} a.
Arguments Load {A T} c k.
Arguments Store {A T} c v k.
Arguments Cas {A} expected desired k.

#[export] Instance prog_ret : MRet prog := @Ret.
#[export] Instance prog_bind : MBind prog := fun A B f =>
  fix go (p : prog A) : prog B :=
    match p with
    | Ret a => f a
    | Load c k => Load c (fun v => go (k v))
    | Store c v k => Store c v (go k)
    | Cas e d k => Cas e d (fun won => go (k won))
    end.

Definition load {T : Set} (c : cell T) : prog T := Load c Ret.
Definition store {T : Set} (c : cell T) (v : T) : prog unit := Store c v (Ret tt).

(** One access: the rest of the program, the memory, and whether the sequence was
    stored, which ends a write. *)
Definition exec {A} (p : prog A) (b : spz_binding) : option (prog A * spz_binding * bool) :=
  match p with
  | Ret _ => None
  | Load c k => Some (k (get c b), b, false)
  | Store c v k => Some (k, put c v b, is_sequence c)
  | Cas e d k =>
      if bd_sequence b =? e then Some (k true, b <| bd_sequence := d |>, false) else Some (k false, b, false)
  end.

(** ** The sequence lock *)

Fixpoint atomic_write_begin_loop (attempts : nat) : prog (option Z) :=
  match attempts with
  | O => mret None
  | S attempts =>
      sequence ← load Sequence;
      if negb (Z.land sequence 1 =? 0) then atomic_write_begin_loop attempts
      else
        let desired := u64 (sequence + 1) in
        Cas sequence desired (fun won => if won then mret (Some desired) else atomic_write_begin_loop attempts)
  end.

Definition atomic_write_begin : prog (option Z) := atomic_write_begin_loop SPZ_BINDING_WRITE_ATTEMPTS.

Definition atomic_write_end (odd_sequence : Z) : prog unit := store Sequence (u64 (odd_sequence + 1)).

Fixpoint atomic_store_bytes (destination : nat -> cell Z) (index : nat) (source : list Z) : prog unit :=
  match source with
  | [] => mret tt
  | byte :: source => store (destination index) byte ;; atomic_store_bytes destination (S index) source
  end.

Fixpoint atomic_load_bytes (source : nat -> cell Z) (index length : nat) : prog (list Z) :=
  match length with
  | O => mret []
  | S length =>
      byte ← load (source index);
      bytes ← atomic_load_bytes source (S index) length;
      mret (byte :: bytes)
  end.

Definition atomic_store_request (request : spz_binding_request) : prog unit :=
  store Rq_binding_id (rq_binding_id request) ;;
  store Rq_pid (rq_pid request) ;;
  store Rq_mode (rq_mode request) ;;
  store Rq_uid (rq_uid request) ;;
  store Rq_start_boot_time (rq_start_boot_time request) ;;
  atomic_store_bytes Rq_comm 0 (take SPZ_COMM_LEN (rq_comm request)) ;;
  store Rq_has_uid (rq_has_uid request) ;;
  store Rq_has_comm (rq_has_comm request) ;;
  store Rq_has_start_boot_time (rq_has_start_boot_time request).

Definition atomic_load_request : prog spz_binding_request :=
  binding_id ← load Rq_binding_id;
  pid ← load Rq_pid;
  mode ← load Rq_mode;
  uid ← load Rq_uid;
  start_boot_time ← load Rq_start_boot_time;
  comm ← atomic_load_bytes Rq_comm 0 SPZ_COMM_LEN;
  has_uid ← load Rq_has_uid;
  has_comm ← load Rq_has_comm;
  has_start_boot_time ← load Rq_has_start_boot_time;
  mret {| rq_binding_id := binding_id; rq_pid := pid; rq_mode := mode; rq_uid := uid;
          rq_start_boot_time := start_boot_time; rq_comm := comm; rq_has_uid := has_uid;
          rq_has_comm := has_comm; rq_has_start_boot_time := has_start_boot_time |}.

Definition atomic_store_identity (identity : spz_task_identity) : prog unit :=
  store Id_generation (id_generation identity) ;;
  store Id_task_cookie (id_task_cookie identity) ;;
  store Id_pid (id_pid identity) ;;
  store Id_tgid (id_tgid identity) ;;
  store Id_uid (id_uid identity) ;;
  store Id_start_time (id_start_time identity) ;;
  store Id_start_boot_time (id_start_boot_time identity) ;;
  atomic_store_bytes Id_comm 0 (take SPZ_COMM_LEN (id_comm identity)).

Definition atomic_load_identity : prog spz_task_identity :=
  generation ← load Id_generation;
  task_cookie ← load Id_task_cookie;
  pid ← load Id_pid;
  tgid ← load Id_tgid;
  uid ← load Id_uid;
  start_time ← load Id_start_time;
  start_boot_time ← load Id_start_boot_time;
  comm ← atomic_load_bytes Id_comm 0 SPZ_COMM_LEN;
  mret {| id_generation := generation; id_task_cookie := task_cookie; id_pid := pid; id_tgid := tgid;
          id_uid := uid; id_start_time := start_time; id_start_boot_time := start_boot_time;
          id_comm := comm |}.

(** The loads between the two loads of the sequence. *)
Definition atomic_load_binding : prog spz_binding_snapshot_t :=
  generation ← load Generation;
  state ← load State;
  request ← atomic_load_request;
  identity ← atomic_load_identity;
  mret {| sn_state := state; sn_generation := generation; sn_request := request; sn_identity := identity |}.

Fixpoint atomic_snapshot_loop (attempts : nat) : prog (option spz_binding_snapshot_t) :=
  match attempts with
  | O => mret None
  | S attempts =>
      before ← load Sequence;
      if negb (Z.land before 1 =? 0) then atomic_snapshot_loop attempts
      else
        snapshot ← atomic_load_binding;
        after ← load Sequence;
        if (before =? after) && (Z.land after 1 =? 0) then mret (Some snapshot)
        else atomic_snapshot_loop attempts
  end.

Definition atomic_binding_snapshot : prog (option spz_binding_snapshot_t) :=
  atomic_snapshot_loop SPZ_BINDING_SNAPSHOT_ATTEMPTS.

(** ** Operations *)

(** Result code, [*generation] when it was stored. *)
Definition atomic_binding_set (request : option spz_binding_request) : prog (Z * option Z) :=
  match request with
  | Some r =>
      if negb (spz_request_valid request) then mret (- EINVAL, None)
      else
        begun ← atomic_write_begin;
        match begun with
        | None => mret (- EAGAIN, None)
        | Some odd_sequence =>
            generation ← load Generation;
            let next := spz_next_generation generation in
            atomic_store_request r ;;
            atomic_store_identity empty_identity ;;
            store Generation next ;;
            store State SPZ_BINDING_PENDING ;;
            atomic_write_end odd_sequence ;;
            mret (0, Some next)
        end
  | None => mret (- EINVAL, None)
  end.

Definition atomic_binding_clear : prog Z :=
  begun ← atomic_write_begin;
  match begun with
  | None => mret (- EAGAIN)
  | Some odd_sequence =>
      generation ← load Generation;
      let next := spz_next_generation generation in
      atomic_store_request empty_request ;;
      atomic_store_identity empty_identity ;;
      store Generation next ;;
      store State SPZ_BINDING_EMPTY ;;
      atomic_write_end odd_sequence ;;
      mret 0
  end.

(** The condition of an [if] whose second load is only made when the first does not
    decide it: the generation differs, or the state does. *)
Definition atomic_changed (generation : Z) (required : spz_binding_state) : prog bool :=
  current ← load Generation;
  if negb (current =? generation) then mret true
  else state ← load State; mret (negb (bool_decide (state = required))).

Definition atomic_mark_state_if_generation (generation : Z) (required replacement : spz_binding_state) : prog Z :=
  begun ← atomic_write_begin;
  match begun with
  | None => mret (- EAGAIN)
  | Some odd_sequence =>
      changed ← atomic_changed generation required;
      if changed : bool then atomic_write_end odd_sequence ;; mret (- ESTALE)
      else store State replacement ;; atomic_write_end odd_sequence ;; mret 0
  end.

(** Result code, [*identity] when it was stored. *)
Definition atomic_binding_matches_current (v : task_view) (expected_generation : Z) :
    prog (Z * option spz_task_identity) :=
  taken ← atomic_binding_snapshot;
  match taken with
  | None => mret (- EAGAIN, None)
  | Some snapshot =>
      if negb (sn_generation snapshot =? expected_generation) then mret (- ESTALE, None)
      else
        match sn_state snapshot with
        | SPZ_BINDING_STALE => mret (- ESTALE, None)
        | SPZ_BINDING_EXITED => mret (- ESRCH, None)
        | SPZ_BINDING_BOUND =>
            match view_identity v with
            | inl result => mret (result, None)
            | inr (current, exit_state) =>
                let current := current <| id_generation := sn_generation snapshot |> in
                if negb (id_pid current =? id_pid (sn_identity snapshot)) then mret (0, None)
                else if negb (spz_same_strong_identity (sn_identity snapshot) current) then
                  atomic_mark_state_if_generation (sn_generation snapshot) SPZ_BINDING_BOUND SPZ_BINDING_STALE ;;
                  mret (- ESTALE, None)
                else if negb (exit_state =? 0) then
                  atomic_mark_state_if_generation (sn_generation snapshot) SPZ_BINDING_BOUND SPZ_BINDING_EXITED ;;
                  mret (- ESRCH, None)
                else mret (1, Some current)
            end
        | _ => mret (0, None)
        end
  end.

Definition atomic_binding_observe_current (v : task_view) : prog (Z * option spz_task_identity) :=
  taken ← atomic_binding_snapshot;
  match taken with
  | None => mret (- EAGAIN, None)
  | Some snapshot =>
      match sn_state snapshot with
      | SPZ_BINDING_BOUND => atomic_binding_matches_current v (sn_generation snapshot)
      | SPZ_BINDING_STALE => mret (- ESTALE, None)
      | SPZ_BINDING_EXITED => mret (- ESRCH, None)
      | SPZ_BINDING_EMPTY => mret (0, None)
      | SPZ_BINDING_PENDING =>
          match view_identity v with
          | inl result => mret (result, None)
          | inr (current, exit_state) =>
              if negb (exit_state =? 0) || negb (spz_selector_matches (sn_request snapshot) current)
              then mret (0, None)
              else
                let current := current <| id_generation := sn_generation snapshot |> in
                begun ← atomic_write_begin;
                match begun with
                | None => mret (- EAGAIN, None)
                | Some odd_sequence =>
                    changed ← atomic_changed (sn_generation snapshot) SPZ_BINDING_PENDING;
                    if changed : bool then atomic_write_end odd_sequence ;; mret (- ESTALE, None)
                    else
                      atomic_store_identity current ;;
                      store State SPZ_BINDING_BOUND ;;
                      atomic_write_end odd_sequence ;;
                      mret (1, Some current)
                end
          end
      end
  end.

Definition atomic_binding_mark_exit (v : task_view) : prog Z :=
  taken ← atomic_binding_snapshot;
  match taken with
  | None => mret (- EAGAIN)
  | Some snapshot =>
      if bool_decide (sn_state snapshot <> SPZ_BINDING_BOUND) then mret 0
      else
        match view_identity v with
        | inl result => mret result
        | inr (current, _) =>
            if negb (spz_same_strong_identity (sn_identity snapshot) current) then mret 0
            else
              result ← atomic_mark_state_if_generation (sn_generation snapshot)
                         SPZ_BINDING_BOUND SPZ_BINDING_EXITED;
              mret (if result =? 0 then 1 else result)
        end
  end.

(** ** Threads *)

(** A call of one of the operations of task.c. *)
Inductive call := Do (op : binding_op) | Take_snapshot.

(** Its arguments have the types of the source. *)
Definition call_ok (c : call) : Prop := match c with Do op => bop_ok op | Take_snapshot => True end.

(** What a call reports. *)
Record outcome := {
  oc_code : Z;
  oc_generation : option Z;
  oc_identity : option spz_task_identity;
  oc_snapshot : option spz_binding_snapshot_t;
}.

Definition reports (code : Z) (identity : option spz_task_identity) : outcome :=
  {| oc_code := code; oc_generation := None; oc_identity := identity; oc_snapshot := None |}.

Definition program (c : call) : prog outcome :=
  match c with
  | Do (BindSet request) =>
      result ← atomic_binding_set request;
      mret {| oc_code := result.1; oc_generation := result.2; oc_identity := None; oc_snapshot := None |}
  | Do (BindObserve v) => result ← atomic_binding_observe_current v; mret (reports result.1 result.2)
  | Do (BindMatch v g) => result ← atomic_binding_matches_current v g; mret (reports result.1 result.2)
  | Do (BindExit v) => result ← atomic_binding_mark_exit v; mret (reports result None)
  | Do BindClear => result ← atomic_binding_clear; mret (reports result None)
  | Take_snapshot =>
      taken ← atomic_binding_snapshot;
      mret match taken with
           | None => reports (- EAGAIN) None
           | Some s => {| oc_code := 0; oc_generation := None; oc_identity := None; oc_snapshot := Some s |}
           end
  end.

(** A thread between calls, or in a call that began when [start] versions of the
    binding were known. *)
Inductive thread :=
| Outside
| Inside (c : call) (start : nat) (p : prog outcome).

(** A call that returned. *)
Record finished := { fi_call : call; fi_start : nat; fi_outcome : outcome }.

(** What a reader sees of a binding. *)
Definition contents (b : spz_binding) : spz_binding := b <| bd_sequence := 0 |>.

(** The memory and the threads. [sy_log] and [sy_finished] are a record for the
    theorems, which no program reads: the contents of the binding at the start and
    at every release of the lock, and the calls that returned, oldest first. *)
Record sys := {
  sy_memory : spz_binding;
  sy_threads : list thread;
  sy_log : list spz_binding;
  sy_finished : list finished;
}.

Inductive sys_step : sys -> sys -> Prop :=
| step_call s i c :
    sy_threads s !! i = Some Outside -> call_ok c ->
    sys_step s {| sy_memory := sy_memory s;
                  sy_threads := <[i := Inside c (length (sy_log s)) (program c)]> (sy_threads s);
                  sy_log := sy_log s; sy_finished := sy_finished s |}
| step_access s i c n p p' b released :
    sy_threads s !! i = Some (Inside c n p) ->
    exec p (sy_memory s) = Some (p', b, released) ->
    sys_step s {| sy_memory := b; sy_threads := <[i := Inside c n p']> (sy_threads s);
                  sy_log := if released : bool then sy_log s ++ [contents b] else sy_log s;
                  sy_finished := sy_finished s |}
| step_return s i c n o :
    sy_threads s !! i = Some (Inside c n (Ret o)) ->
    sys_step s {| sy_memory := sy_memory s; sy_threads := <[i := Outside]> (sy_threads s);
                  sy_log := sy_log s;
                  sy_finished := sy_finished s ++ [{| fi_call := c; fi_start := n; fi_outcome := o |}] |}.

(** [n] threads and a binding after [spz_binding_init]. *)
Definition sys_initial (n : nat) : sys :=
  {| sy_memory := spz_binding_init; sy_threads := replicate n Outside;
     sy_log := [contents spz_binding_init]; sy_finished := [] |}.
