(* ===== verification/SeqlockSpec.v ===== *)
(** * Versions of the task binding and a logic for its threads

    The contents of the binding at the releases of its lock are its versions, and
    they only move forward. A small program logic says what one thread does while
    the others interfere (a thread outside the lock knows how far the versions had
    grown, one inside knows the memory), and what it proves of every program holds
    of every interleaving. *)

From stdpp Require Import relations.
From S2P Require Import Prelude Abi DeviceProfiles Profile Task Seqlock.

(** ** Versions *)

(** The operations of Task.v on the contents of a binding. *)
Definition sequential (c : call) (b : spz_binding) : outcome * spz_binding :=
  match c with
  | Do (BindSet request) =>
      let '(code, generation, b) := spz_binding_set b request in
      ({| oc_code := code; oc_generation := generation; oc_identity := None; oc_snapshot := None |}, contents b)
  | Do op => let '(code, found, b) := binding_step op b in (reports code found, contents b)
  | Take_snapshot =>
      (match spz_binding_snapshot b with
       | None => reports (- EAGAIN) None
       | Some s => {| oc_code := 0; oc_generation := None; oc_identity := None; oc_snapshot := Some s |}
       end, contents b)
  end.

(** A release leaves the contents as they were or does what one call does. *)
Definition transition (v v' : spz_binding) : Prop :=
  v' = v \/ exists c, call_ok c /\ v' = (sequential c v).2.

Inductive valid_log : list spz_binding -> Prop :=
| valid_initial : valid_log [contents spz_binding_init]
| valid_release l v v' : valid_log l -> last l = Some v -> transition v v' -> valid_log (l ++ [v']).

(** Contents at an even sequence. *)
Definition version (v : spz_binding) : Prop := bd_sequence v = 0 /\ binding_wf v.

Lemma contents_version b : binding_wf b -> version (contents b).
Proof. intros []. by split. Qed.

Lemma sequential_step op v : (sequential (Do op) v).2 = contents (binding_step op v).2.
Proof.
  destruct op as [r| | | |]; cbn [sequential binding_step]; [by destruct (spz_binding_set v r) as [[]]|..];
    by repeat case_match.
Qed.

Lemma contents_id v : version v -> contents v = v.
Proof. intros [Hs _]. destruct v. cbn in Hs. by subst. Qed.

Lemma sequential_version c v : version v -> call_ok c -> version (sequential c v).2.
Proof.
  intros [Hs Hw] Hc. destruct c as [op|]; [|by apply contents_version].
  rewrite sequential_step. by apply contents_version, binding_step_wf.
Qed.

Lemma transition_version v v' : version v -> transition v v' -> version v'.
Proof. intros Hv [->|(c & Hc & ->)]; [done|by apply sequential_version]. Qed.

Lemma valid_versions l : valid_log l -> Forall version l.
Proof.
  induction 1 as [|l v v' Hl IH Hlast Ht]; [apply Forall_singleton, contents_version, binding_init_wf|].
  apply Forall_app. split; [done|]. apply Forall_singleton, (transition_version v); [|done].
  rewrite Forall_forall in IH. apply IH. apply last_Some in Hlast as [l' ->]. set_solver.
Qed.

Lemma valid_version l k v : valid_log l -> l !! k = Some v -> version v.
Proof. intros Hl. by apply Forall_lookup_1, valid_versions. Qed.

Lemma valid_last l v : valid_log l -> last l = Some v -> version v.
Proof. rewrite last_lookup. apply valid_version. Qed.

(** ** Versions only move forward

    Within a generation a binding goes from pending to bound to stale or exited. *)

Definition rank (s : spz_binding_state) : Z :=
  match s with
  | SPZ_BINDING_EMPTY => 0 | SPZ_BINDING_PENDING => 1 | SPZ_BINDING_BOUND => 2
  | SPZ_BINDING_STALE | SPZ_BINDING_EXITED => 3
  end.

Record forward (v v' : spz_binding) : Prop := {
  fw_generation : bd_generation v <= bd_generation v';
  fw_rank : bd_generation v' = bd_generation v -> v' = v \/ rank (bd_state v) < rank (bd_state v');
  fw_identity : bd_generation v' = bd_generation v -> captured (bd_state v) ->
                bd_identity v' = bd_identity v /\ bd_request v' = bd_request v /\ captured (bd_state v');
}.

#[export] Instance forward_preorder : PreOrder forward.
Proof.
  split.
  - intros v. split; [lia|by left|done].
  - intros u v w [G1 R1 I1] [G2 R2 I2]. split; [lia|..]; intros Hg; assert (bd_generation v = bd_generation u) as H1 by lia;
      assert (bd_generation w = bd_generation v) as H2 by lia.
    + destruct (R1 H1) as [->|], (R2 H2) as [->|]; auto with lia.
    + intros Hc. destruct (I1 H1 Hc) as (? & ? & Hc'). destruct (I2 H2 Hc') as (? & ? & ?).
      split_and!; congruence || done.
Qed.

(** A new generation. *)
Lemma forward_new v v' : bd_generation v < bd_generation v' -> forward v v'.
Proof. intros. split; lia. Qed.

Lemma next_generation_succ g : 0 <= g < UINT64_MAX -> spz_next_generation g = g + 1.
Proof.
  intros Hg. unfold spz_next_generation. rewrite eqb_ne by lia. cbv zeta.
  replace (u64 (g + 1)) with (g + 1) by zlia. by rewrite eqb_ne by lia.
Qed.

(** The same generation in a later state. *)
Lemma forward_state v v' :
  bd_generation v' = bd_generation v -> rank (bd_state v) < rank (bd_state v') ->
  (captured (bd_state v) -> bd_identity v' = bd_identity v /\ bd_request v' = bd_request v /\ captured (bd_state v')) ->
  forward v v'.
Proof. intros Hg Hr Hc. split; [lia|by right|auto]. Qed.

Lemma forward_mark v s :
  version v -> bd_state v = SPZ_BINDING_BOUND -> s = SPZ_BINDING_STALE \/ s = SPZ_BINDING_EXITED ->
  forward v (contents (bump (v <| bd_state := s |>))).
Proof.
  intros Hv Hs Hd. apply forward_state; [done| |].
  - rewrite Hs. by destruct Hd as [-> | ->].
  - intros _. repeat split. by right.
Qed.

(** One generation at a time, and forward within it. *)
Definition advances (v v' : spz_binding) : Prop := forward v v' /\ bd_generation v' <= bd_generation v + 1.

Lemma advances_same v : advances v v.
Proof. split; [reflexivity|lia]. Qed.

Lemma advances_mark v s :
  version v -> bd_state v = SPZ_BINDING_BOUND -> s = SPZ_BINDING_STALE \/ s = SPZ_BINDING_EXITED ->
  advances v (contents (bump (v <| bd_state := s |>))).
Proof. intros. split; [by apply forward_mark|]. change (bd_generation v <= bd_generation v + 1). lia. Qed.

Lemma advances_matches v w g :
  version v ->
  advances v (contents (spz_binding_matches_current (tv_kmem w) (Some (tv_profile w)) (Some (tv_task w))
    (tv_available w) v g).2).
Proof.
  intros Hv. pose proof Hv as [_ Hw].
  destruct (decide (bd_state v = SPZ_BINDING_BOUND /\ bd_generation v = g)) as [[Hs <-]|Hn].
  2: { destruct (matches_not_bound (tv_kmem w) (tv_profile w) (tv_task w) (tv_available w) v g Hw) as (-> & _).
       - destruct (decide (bd_state v = SPZ_BINDING_BOUND)); [right|left]; [|done]. intros ?. by apply Hn.
       - rewrite contents_id by done. apply advances_same. }
  rewrite matches_bound_eq by done.
  destruct (spz_extract_identity _ _ _ _) as [|[current es]]; repeat case_match; cbn [snd];
    rewrite ?contents_id by done; auto using advances_same, advances_mark.
Qed.

Lemma advances_reset v r s :
  version v -> bd_generation v < UINT64_MAX ->
  advances v (contents (bump (v <| bd_request := r |> <| bd_identity := empty_identity |>
    <| bd_generation := spz_next_generation (bd_generation v) |> <| bd_state := s |>))).
Proof.
  intros [_ Hw] Hg. rewrite next_generation_succ by (destruct Hw; lia).
  split; [apply forward_new|]; cbn; lia.
Qed.

Lemma sequential_advances c v :
  version v -> call_ok c -> bd_generation v < UINT64_MAX -> advances v (sequential c v).2.
Proof.
  intros Hv Hc Hg. pose proof Hv as [_ Hw].
  destruct c as [op|]; [|by cbn; rewrite contents_id; [apply advances_same|]].
  rewrite sequential_step. destruct op as [[r|]|w|w g|w|]; cbn [binding_step].
  - destruct (spz_request_valid (Some r)) eqn:E.
    + rewrite binding_set_eq by done. by apply advances_reset.
    + unfold spz_binding_set. rewrite E. cbn. rewrite contents_id by done. apply advances_same.
  - cbn. rewrite contents_id by done. apply advances_same.
  - rewrite observe_eq by done. destruct (bd_state v) eqn:Hs; cbn [snd]; rewrite ?contents_id by done;
      auto using advances_same, advances_matches.
    destruct (spz_extract_identity _ _ _ _) as [|[current es]]; cbn [snd]; [rewrite contents_id by done; apply advances_same|].
    destruct (_ || _); cbn [snd]; [rewrite contents_id by done; apply advances_same|]. cbv zeta. cbn [snd].
    split; [apply forward_state; [done|by rewrite Hs|rewrite Hs; by intros [|[]]]|]. cbn. lia.
  - by apply advances_matches.
  - rewrite mark_exit_eq by done. case_bool_decide as Hs; [|cbn; rewrite contents_id by done; apply advances_same].
    destruct (spz_extract_identity _ _ _ _) as [|[current es]]; [|destruct (spz_same_strong_identity _ _)]; cbn [snd];
      rewrite ?contents_id by done; auto using advances_same, advances_mark.
  - rewrite binding_clear_eq by done. by apply advances_reset.
Qed.

(** No generation wraps around in a log of less than 2^63 versions. *)
Definition bounded (l : list spz_binding) : Prop := Z.of_nat (length l) < 2 ^ 63.

Lemma bounded_app l l' : bounded (l ++ l') -> bounded l.
Proof. unfold bounded. rewrite length_app. lia. Qed.

Lemma valid_generation l :
  valid_log l -> bounded l -> forall k v, l !! k = Some v -> bd_generation v <= Z.of_nat k.
Proof.
  induction 1 as [|l u u' Hl IH Hlast Ht]; intros Hb k v Hk.
  - by apply list_lookup_singleton_Some in Hk as [-> <-].
  - specialize (IH (bounded_app _ _ Hb)). apply lookup_snoc_Some in Hk as [[_ Hk]|[-> <-]]; [by apply IH|].
    pose proof (valid_last _ _ Hl Hlast) as Hu. rewrite last_lookup in Hlast. pose proof (IH _ _ Hlast) as Hg.
    apply lookup_lt_Some in Hlast. unfold bounded in Hb. rewrite length_app in Hb. simpl in Hb.
    destruct Ht as [->|(c & Hc & ->)]; [lia|].
    destruct (sequential_advances c u Hu Hc) as [_ Ha]; [unfold UINT64_MAX; lia|lia].
Qed.

Lemma valid_forward l :
  valid_log l -> bounded l ->
  forall k k' v v', (k <= k')%nat -> l !! k = Some v -> l !! k' = Some v' -> forward v v'.
Proof.
  induction 1 as [|l u u' Hl IH Hlast Ht]; intros Hb k k' v v' Hle Hk Hk'.
  - apply list_lookup_singleton_Some in Hk as [-> <-], Hk' as [-> <-]. reflexivity.
  - pose proof (bounded_app _ _ Hb) as Hbl. specialize (IH Hbl).
    apply lookup_snoc_Some in Hk' as [[Hlt Hk']|[-> <-]].
    + rewrite lookup_app_l in Hk by lia. by apply (IH k k').
    + apply lookup_snoc_Some in Hk as [[Hlt Hk]|[-> <-]]; [|reflexivity].
      pose proof (valid_last _ _ Hl Hlast) as Hu. rewrite last_lookup in Hlast.
      transitivity u; [apply (IH k (pred (length l))); [lia|done|done]|].
      destruct Ht as [->|(c & Hc & ->)]; [reflexivity|].
      apply sequential_advances; [done|done|].
      pose proof (valid_generation l Hl Hbl _ _ Hlast). unfold bounded in Hbl. unfold UINT64_MAX. lia.
Qed.

(** A later version with the same generation and state is the same. *)
Lemma valid_stable l k k' v v' :
  valid_log l -> bounded l -> (k <= k')%nat -> l !! k = Some v -> l !! k' = Some v' ->
  bd_generation v' = bd_generation v -> bd_state v' = bd_state v -> v' = v.
Proof.
  intros Hl Hb Hle Hk Hk' Hg Hs. destruct (valid_forward l Hl Hb k k' v v' Hle Hk Hk') as [_ Hr _].
  destruct (Hr Hg) as [|Hlt]; [done|]. rewrite Hs in Hlt. lia.
Qed.

(** ** A program logic for one thread *)

(** The versions so far, and whether some thread holds the lock. *)
Definition world : Type := list spz_binding * bool.

(** The value of the sequence. *)
Definition epoch (w : world) : Z := 2 * (Z.of_nat (length w.1) - 1) + (if w.2 then 1 else 0).

Definition later (w w' : world) : Prop := w.1 `prefix_of` w'.1 /\ epoch w <= epoch w'.

#[export] Instance later_preorder : PreOrder later.
Proof.
  split; [by split|]. intros u v w [? ?] [? ?]. split; [by etrans|lia].
Qed.

Lemma later_same w w' : later w w' -> epoch w' = epoch w -> w' = w.
Proof.
  destruct w as [l h], w' as [l' h']. unfold later, epoch. cbn. intros [[r ->] _] He.
  rewrite length_app in He. destruct r; simpl in He; [|destruct h, h'; lia].
  rewrite app_nil_r. f_equal. destruct h, h'; lia || done.
Qed.

Record shared (w : world) (b : spz_binding) : Prop := {
  sh_valid : valid_log w.1;
  sh_bounded : bounded w.1;
  sh_sequence : bd_sequence b = epoch w;
  sh_free : w.2 = false -> last w.1 = Some (contents b);
}.

(** Outside the lock a thread knows a world of the past; inside, the memory and the
    versions, the newest of which it found. *)
Inductive mode := Free (w : world) | Held (b : spz_binding) (l : list spz_binding).

(** [wp p m Φ]: from [m] the program [p] keeps to the protocol of the lock, and its
    result and the mode it ends in satisfy [Φ], whatever the other threads do. *)
Fixpoint wp {A} (p : prog A) (m : mode) (Φ : A -> mode -> Prop) : Prop :=
  match p with
  | Ret a => Φ a m
  | Load c k =>
      match m with
      | Free w => forall w' b, later w w' -> shared w' b -> wp (k (get c b)) (Free w') Φ
      | Held b l => wp (k (get c b)) m Φ
      end
  | Store c v k =>
      match m with
      | Free _ => False
      | Held b l =>
          if is_sequence c then
            bd_sequence (put c v b) = bd_sequence b + 1 /\
            (exists u, last l = Some u /\ transition u (contents b)) /\
            wp k (Free (l ++ [contents b], false)) Φ
          else wp k (Held (put c v b) l) Φ
      end
  | Cas e d k =>
      match m with
      | Free w =>
          forall w' b, later w w' -> shared w' b ->
          if bd_sequence b =? e
          then w'.2 = false /\ d = e + 1 /\ wp (k true) (Held (b <| bd_sequence := d |>) w'.1) Φ
          else wp (k false) (Free w') Φ
      | Held _ _ => False
      end
  end.

Lemma wp_mono {A} (p : prog A) m (Φ Ψ : A -> mode -> Prop) :
  wp p m Φ -> (forall a m', Φ a m' -> Ψ a m') -> wp p m Ψ.
Proof.
  intros Hp HΦ. revert m Hp. induction p as [a|T c k IH|T c v k IH|e d k IH]; intros m Hp; cbn in *.
  - by apply HΦ.
  - destruct m; eauto.
  - destruct m; [done|]. destruct (is_sequence c); [destruct Hp as (? & ? & ?); eauto|eauto].
  - destruct m; [|done]. intros w' b Hl Hs. specialize (Hp w' b Hl Hs). destruct (_ =? _); [|eauto].
    destruct Hp as (? & ? & ?). eauto.
Qed.

Lemma wp_bind {A B} (p : prog A) (f : A -> prog B) m Φ :
  wp p m (fun a m' => wp (f a) m' Φ) -> wp (p ≫= f) m Φ.
Proof.
  revert m. induction p as [a|T c k IH|T c v k IH|e d k IH]; intros m Hp; cbn in *.
  - done.
  - destruct m; [intros|]; by apply IH; auto.
  - destruct m; [done|]. destruct (is_sequence c); [destruct Hp as (? & ? & ?); eauto|eauto].
  - destruct m; [|done]. intros w' b Hl Hs. specialize (Hp w' b Hl Hs). destruct (_ =? _); [|by apply IH].
    destruct Hp as (? & ? & ?). eauto.
Qed.

(** The rule for a call: its own specification, then the continuation. *)
Lemma wp_call {A B} (p : prog A) (f : A -> prog B) m (Φ : A -> mode -> Prop) Ψ :
  wp p m Φ -> (forall a m', Φ a m' -> wp (f a) m' Ψ) -> wp (p ≫= f) m Ψ.
Proof. intros Hp Hf. by apply wp_bind, (wp_mono p m Φ). Qed.

Lemma wp_load_free {A} {T : Set} (c : cell T) (f : T -> prog A) w Φ :
  (forall w' b, later w w' -> shared w' b -> wp (f (get c b)) (Free w') Φ) -> wp (load c ≫= f) (Free w) Φ.
Proof. done. Qed.

(** ** Interleavings *)

Section adequacy.
Context (post : call -> nat -> outcome -> list spz_binding -> Prop).
Hypothesis post_mono : forall c n o l l', l `prefix_of` l' -> post c n o l -> post c n o l'.

(** The result of a call, outside the lock again. *)
Definition returns (c : call) (n : nat) (o : outcome) (m : mode) : Prop :=
  match m with Free w => post c n o w.1 | Held _ _ => False end.

Hypothesis program_ok : forall c w, call_ok c -> valid_log w.1 -> bounded w.1 ->
  wp (program c) (Free w) (returns c (length w.1)).

(** What a thread satisfies; [mine]: it holds the lock. *)
Definition thread_ok (w : world) (b : spz_binding) (mine : Prop) (t : thread) : Prop :=
  match t with
  | Outside => ~ mine
  | Inside c n p =>
      (mine -> wp p (Held b w.1) (returns c n)) /\
      (~ mine -> exists w0, later w0 w /\ wp p (Free w0) (returns c n))
  end.

Record sys_inv (s : sys) (w : world) (holder : option nat) : Prop := {
  iv_log : w.1 = sy_log s;
  iv_shared : shared w (sy_memory s);
  iv_holder : w.2 = bool_decide (is_Some holder);
  iv_threads : forall i t, sy_threads s !! i = Some t -> thread_ok w (sy_memory s) (holder = Some i) t;
  iv_finished : Forall (fun f => post (fi_call f) (fi_start f) (fi_outcome f) (sy_log s)) (sy_finished s);
}.

(** Other threads keep what they know when the world moves on and the lock is not
    theirs. *)
Lemma thread_ok_later w w' b b' (P P' : Prop) t :
  later w w' -> ~ P -> ~ P' -> thread_ok w b P t -> thread_ok w' b' P' t.
Proof.
  intros Hl Hp Hp'. destruct t as [|c n p]; cbn; [done|]. intros [_ Hf]. split; [done|]. intros _.
  destruct (Hf Hp) as (w0 & ? & ?). exists w0. split; [by etrans|done].
Qed.

Lemma lookup_insert_cases {A} (l : list A) i j (x y : A) :
  <[i := x]> l !! j = Some y -> (j = i /\ y = x) \/ (j <> i /\ l !! j = Some y).
Proof.
  intros H. destruct (decide (j = i)) as [->|Hne]; [left|right].
  - apply list_lookup_insert_Some in H as [(_ & -> & _)|[? _]]; done.
  - by rewrite list_lookup_insert_ne in H by done.
Qed.

Lemma put_sequence {T : Set} (c : cell T) v b :
  is_sequence c = false -> bd_sequence (put c v b) = bd_sequence b.
Proof. by destruct c. Qed.

(** The thread at [i] moves on; the others keep the world. *)
Lemma sys_inv_move s w w' holder holder' i t b l :
  sys_inv s w holder -> later w w' -> w'.1 = l -> sy_log s `prefix_of` l -> shared w' b ->
  w'.2 = bool_decide (is_Some holder') ->
  (forall j, j <> i -> holder = Some j <-> holder' = Some j) ->
  ((exists j, j <> i /\ holder = Some j) -> w' = w /\ b = sy_memory s) ->
  thread_ok w' b (holder' = Some i) t ->
  sys_inv {| sy_memory := b; sy_threads := <[i := t]> (sy_threads s); sy_log := l;
             sy_finished := sy_finished s |} w' holder'.
Proof.
  intros [Hl Hs Hh Ht Hf] Hw El Hp Hs' Hh' Hother Hkeep Hi. split; cbn; try done.
  - intros j t' Hj. apply lookup_insert_cases in Hj as [[-> ->]|[Hne Hj]]; [done|].
    specialize (Ht j t' Hj). destruct (decide (holder = Some j)) as [Hm|Hm].
    + destruct Hkeep as [-> ->]; [by exists j|]. by destruct t'; cbn in *; rewrite <- (Hother j Hne).
    + apply (thread_ok_later w w' (sy_memory s) b (holder = Some j)); try done. by rewrite <- (Hother j Hne).
  - eapply Forall_impl; [exact Hf|]. intros f. by apply post_mono.
Qed.

Lemma sys_inv_call s w holder i c :
  sys_inv s w holder -> sy_threads s !! i = Some Outside -> call_ok c ->
  sys_inv {| sy_memory := sy_memory s;
             sy_threads := <[i := Inside c (length (sy_log s)) (program c)]> (sy_threads s);
             sy_log := sy_log s; sy_finished := sy_finished s |} w holder.
Proof.
  intros Hinv Hi Hc. pose proof Hinv as [Hl Hs Hh Ht Hf].
  assert (holder <> Some i) by exact (Ht i Outside Hi).
  apply (sys_inv_move s w w holder holder i); try done. split; [done|]. intros _. exists w.
  split; [done|]. rewrite <- Hl. by destruct Hs; apply program_ok.
Qed.

Lemma sys_inv_return s w holder i c n o :
  sys_inv s w holder -> sy_threads s !! i = Some (Inside c n (Ret o)) ->
  sys_inv {| sy_memory := sy_memory s; sy_threads := <[i := Outside]> (sy_threads s);
             sy_log := sy_log s;
             sy_finished := sy_finished s ++ [{| fi_call := c; fi_start := n; fi_outcome := o |}] |} w holder.
Proof.
  intros Hinv Hi. pose proof Hinv as [Hl Hs Hh Ht Hf].
  destruct (Ht i _ Hi) as [Hheld Hfree]. assert (holder <> Some i) as Hm by (intros Hm; exact (Hheld Hm)).
  destruct (Hfree Hm) as (w0 & [Hp _] & Ho). cbn in Ho.
  destruct (sys_inv_move s w w holder holder i Outside (sy_memory s) (sy_log s)); try done.
  split; try done. cbn. apply Forall_app. split; [done|]. apply Forall_singleton. cbn.
  eapply post_mono; [|exact Ho]. by rewrite <- Hl.
Qed.

(** An access of the thread that holds the lock. *)
Lemma sys_inv_held s w i c n p p' b released :
  sys_inv s w (Some i) -> sy_threads s !! i = Some (Inside c n p) ->
  exec p (sy_memory s) = Some (p', b, released) ->
  bounded (if released : bool then sy_log s ++ [contents b] else sy_log s) ->
  exists w' holder', sys_inv {| sy_memory := b; sy_threads := <[i := Inside c n p']> (sy_threads s);
    sy_log := if released : bool then sy_log s ++ [contents b] else sy_log s;
    sy_finished := sy_finished s |} w' holder'.
Proof.
  intros Hinv Hi Hx Hb. pose proof Hinv as [Hl Hs Hh Ht Hf]. destruct (Ht i _ Hi) as [Hwp _].
  specialize (Hwp eq_refl). pose proof Hs as [Hv Hbd Hq Hfree].
  destruct p as [o|T x k|T x v k|e d k]; simplify_eq/=.
  - exists w, (Some i). by apply (sys_inv_move s w w (Some i) (Some i) i).
  - destruct (is_sequence x) eqn:Ex.
    + destruct Hwp as (Hq' & (u & Hu & Htr) & Hwp).
      assert (contents (put x v (sy_memory s)) = contents (sy_memory s)) as Hc by (by destruct x).
      rewrite Hc in *. exists (sy_log s ++ [contents (sy_memory s)], false), None.
      destruct w as [l h]; cbn in *; subst l h. assert (later (sy_log s, true) (sy_log s ++ [contents (sy_memory s)], false)).
      { split; [by apply prefix_app_r|]. unfold epoch. cbn. rewrite length_app. cbn. lia. }
      apply (sys_inv_move s (sy_log s, true) _ (Some i) None i); try done; try by apply prefix_app_r.
      * split; cbn; [by apply (valid_release _ u)|done| |].
        -- rewrite Hq', Hq. unfold epoch. cbn. rewrite length_app. cbn. lia.
        -- intros _. by rewrite last_snoc, Hc.
      * naive_solver.
      * naive_solver.
      * split; [done|]. intros _. exists (sy_log s ++ [contents (sy_memory s)], false). by split.
    + exists w, (Some i). apply (sys_inv_move s w w (Some i) (Some i) i); try done.
      * split; [done|done|by rewrite put_sequence|]. intros Hw. rewrite Hw in Hh. done.
      * naive_solver.
  - done.
Qed.

(** An access of a thread outside the lock. *)
Lemma sys_inv_free s w holder i c n p p' b released :
  sys_inv s w holder -> holder <> Some i -> sy_threads s !! i = Some (Inside c n p) ->
  exec p (sy_memory s) = Some (p', b, released) ->
  released = false /\ exists w' holder', sys_inv {| sy_memory := b; sy_threads := <[i := Inside c n p']> (sy_threads s);
    sy_log := sy_log s; sy_finished := sy_finished s |} w' holder'.
Proof.
  intros Hinv Hm Hi Hx. pose proof Hinv as [Hl Hs Hh Ht Hf]. destruct (Ht i _ Hi) as [_ Hwp].
  destruct (Hwp Hm) as (w0 & Hw0 & Hwp'). clear Hwp. destruct p as [o|T x k|T x v k|e d k]; simplify_eq/=.
  - split; [done|]. exists w, holder. apply (sys_inv_move s w w holder holder i); try done.
    split; [done|]. intros _. exists w. split; [done|]. by apply Hwp'.
  - specialize (Hwp' w _ Hw0 Hs). destruct (_ =? e) eqn:He; simplify_eq.
    + destruct Hwp' as (Hw2 & -> & Hwp). split; [done|]. exists (w.1, true), (Some i).
      destruct holder as [j|]; [by rewrite Hw2 in Hh|].
      destruct w as [l h]; cbn in *; subst l h. pose proof Hs as [? ? Hq ?]. cbn in *.
      apply (sys_inv_move s (sy_log s, false) _ None (Some i) i); try done.
      * split; [done|]. unfold epoch. cbn. lia.
      * split; cbn; [done|done| |done]. unfold epoch in *. cbn in *. lia.
      * naive_solver.
      * naive_solver.
    + split; [done|]. exists w, holder. apply (sys_inv_move s w w holder holder i); try done.
      split; [done|]. intros _. by exists w.
Qed.

Lemma sys_inv_step s w holder s' :
  sys_inv s w holder -> sys_step s s' -> bounded (sy_log s') -> exists w' holder', sys_inv s' w' holder'.
Proof.
  intros Hinv Hstep Hb. destruct Hstep as [s i c Hi Hc|s i c n p p' b released Hi Hx|s i c n o Hi].
  - exists w, holder. by apply sys_inv_call.
  - destruct (decide (holder = Some i)) as [->|Hm]; [by eapply sys_inv_held|].
    by destruct (sys_inv_free s w holder i c n p p' b released) as [-> ?].
  - exists w, holder. by apply sys_inv_return.
Qed.

Lemma step_log s s' : sys_step s s' -> (length (sy_log s) <= length (sy_log s') <= S (length (sy_log s)))%nat.
Proof. destruct 1; cbn; [lia| |lia]. destruct released; rewrite ?length_app; cbn; lia. Qed.

Lemma initial_sys_inv n : sys_inv (sys_initial n) ([contents spz_binding_init], false) None.
Proof.
  split; try done.
  - split; [apply valid_initial|done|done|done].
  - intros i t [-> _]%lookup_replicate. done.
Qed.

Lemma interleaving_inv n steps s :
  nsteps sys_step steps (sys_initial n) s -> Z.of_nat steps < 2 ^ 62 -> exists w holder, sys_inv s w holder.
Proof.
  intros Hrun Hn.
  assert ((length (sy_log s) <= S steps)%nat /\ exists w holder, sys_inv s w holder) as [_ ?]; [|done].
  revert s Hrun Hn. induction steps as [|steps IH]; intros s Hrun Hn.
  - inversion Hrun; subst. split; [done|]. eexists _, _. apply initial_sys_inv.
  - apply nsteps_inv_r in Hrun as (s1 & Hrun & Hstep). destruct (IH s1 Hrun) as (Hlen & w & holder & Hinv); [lia|].
    pose proof (step_log _ _ Hstep). split; [lia|]. apply (sys_inv_step s1 w holder); try done. unfold bounded. lia.
Qed.

End adequacy.
