(* ===== verification/SeqlockCalls.v ===== *)
(** * The sequence lock makes the operations of the task binding atomic

    Whatever the interleaving of any number of threads, a call of kpm/core/task.c
    gives up, is overtaken, or behaves as the operation of Task.v run in one step at
    some moment between its call and its return. *)

From stdpp Require Import relations.
From S2P Require Import Prelude Abi DeviceProfiles Profile Task Seqlock SeqlockSpec.

(** ** The lock *)

(** A thread that has just taken the lock. *)
Record entered (w : world) (b : spz_binding) (l : list spz_binding) : Prop := {
  en_later : later w (l, true);
  en_valid : valid_log l;
  en_bounded : bounded l;
  en_sequence : bd_sequence b = epoch (l, true);
  en_last : last l = Some (contents b);
}.

Lemma even_epoch w : Z.land (epoch w) 1 = if w.2 then 1 else 0.
Proof. unfold epoch. rewrite land_1. destruct w.2; Z.div_mod_to_equations; lia. Qed.

Lemma epoch_range w : w.1 <> [] -> bounded w.1 -> 0 <= epoch w < UINT64_MAX.
Proof.
  unfold epoch, bounded, UINT64_MAX. intros Hn Hb. destruct w as [[|v l] h]; [done|]. cbn in *. destruct h; lia.
Qed.

Lemma valid_nonempty l : valid_log l -> l <> [].
Proof. destruct 1; [done|]. by destruct l. Qed.

Lemma wp_write_begin w :
  wp atomic_write_begin (Free w) (fun r m =>
    match r with
    | None => exists w', m = Free w' /\ later w w'
    | Some odd => exists b l, m = Held b l /\ odd = bd_sequence b /\ entered w b l
    end).
Proof.
  unfold atomic_write_begin. generalize SPZ_BINDING_WRITE_ATTEMPTS as n. intros n.
  revert w. induction n as [|n IH]; intros w; cbn [atomic_write_begin_loop]; [by exists w|].
  assert (Hretry : forall w', later w w' -> wp (atomic_write_begin_loop n) (Free w') (fun r m =>
    match r with
    | None => exists w', m = Free w' /\ later w w'
    | Some odd => exists b l, m = Held b l /\ odd = bd_sequence b /\ entered w b l
    end)).
  { intros w' Hl. eapply wp_mono; [apply IH|]. intros [odd|] m.
    - intros (b & l & -> & -> & [? ? ? ? ?]). exists b, l. split_and!; [done..|]. split; try done. by etrans.
    - intros (w2 & -> & ?). exists w2. split; [done|by etrans]. }
  apply wp_load_free. intros w' b Hl Hs. cbn [get]. rewrite (sh_sequence _ _ Hs), even_epoch.
  destruct (w'.2) eqn:Hw; cbn [negb Z.eqb]; [by apply Hretry|].
  intros w2 b2 Hl2 Hs2. destruct (_ =? _) eqn:He.
  - apply Z.eqb_eq in He. rewrite (sh_sequence _ _ Hs2) in He. apply later_same in He as ->; [|done].
    destruct Hs2 as [Hv Hb Hq Hf]. pose proof (epoch_range w' (valid_nonempty _ Hv) Hb).
    assert (u64 (epoch w' + 1) = epoch w' + 1) as Hu by zlia. rewrite Hu.
    split_and!; [done..|]. cbn. eexists _, _. split_and!; [done..|].
    split; try done; cbn; [|unfold epoch; cbn; rewrite Hw; lia|by apply Hf].
    etrans; [done|]. split; [done|]. unfold epoch. cbn. rewrite Hw. lia.
  - apply Hretry. by etrans.
Qed.

(** Reading without the lock: what is read is that of the version of the beginning
    if the sequence has not moved when the reading ends. *)
Definition reads {A} (p : prog A) (Q : A -> spz_binding -> Prop) : Prop :=
  forall w, wp p (Free w) (fun a m => exists w', m = Free w' /\ later w w' /\
    (epoch w' = epoch w -> w.2 = false -> forall v, last w.1 = Some v -> version v -> Q a v)).

Lemma reads_ret {A} (a : A) (Q : A -> spz_binding -> Prop) : (forall v, version v -> Q a v) -> reads (mret a) Q.
Proof. intros HQ w. exists w. split_and!; [done..|]. auto. Qed.

Lemma reads_bind {A B} (p : prog A) P (k : A -> prog B) Q :
  reads p P -> (forall a, reads (k a) (fun b v => P a v -> Q b v)) -> reads (p ≫= k) Q.
Proof.
  intros Hp Hk w. eapply wp_call; [apply Hp|]. intros a m (w1 & -> & Hl1 & Ha).
  eapply wp_mono; [apply Hk|]. intros b m (w2 & -> & Hl2 & Hb). exists w2. split_and!; [done|by etrans|].
  intros He Hw v Hv Hver. assert (w1 = w) as ->.
  { apply later_same; [done|]. destruct Hl1, Hl2. lia. }
  apply Hb; auto.
Qed.

Lemma reads_load {T : Set} (c : cell T) : is_sequence c = false -> reads (load c) (fun a v => a = get c v).
Proof.
  intros Hc w w' b Hl Hs. exists w'. split_and!; [done..|]. intros He Hw v Hv _.
  apply later_same in He as ->; [|done]. rewrite (sh_free _ _ Hs Hw) in Hv. simplify_eq. by destruct c.
Qed.

(** One load after the other. *)
Ltac read_fields :=
  repeat first [eapply reads_bind; [apply reads_load; reflexivity|intros ?]
               |eapply reads_bind; [eassumption|intros ?]];
  apply reads_ret; intros.

Lemma reads_bytes (c : nat -> cell Z) (bytes : spz_binding -> list Z) i n :
  (forall i, is_sequence (c i) = false) -> (forall i v, get (c i) v = default 0 (bytes v !! i)) ->
  (forall v, version v -> length (bytes v) = (i + n)%nat) ->
  reads (atomic_load_bytes c i n) (fun a v => a = drop i (bytes v)).
Proof.
  intros Hc Hg. revert i. induction n as [|n IH]; intros i Hlen.
  - apply reads_ret. intros v Hv. rewrite drop_ge; [done|]. rewrite Hlen by done. lia.
  - apply (reads_bind _ _ _ _ (reads_load (c i) (Hc i))). intros byte. eapply reads_bind.
    + apply (IH (S i)). intros v Hv. rewrite Hlen by done. lia.
    + intros bytes'. apply reads_ret. intros v Hv -> ->. rewrite Hg. pose proof (Hlen v Hv).
      destruct (bytes v !! i) eqn:E; [|apply lookup_ge_None in E; lia]. cbn. by rewrite (drop_S _ _ _ E).
Qed.

Lemma reads_request : reads atomic_load_request (fun r v => r = bd_request v).
Proof.
  assert (reads (atomic_load_bytes Rq_comm 0 SPZ_COMM_LEN) (fun a v => a = rq_comm (bd_request v))).
  { apply (reads_bytes Rq_comm (fun v => rq_comm (bd_request v))); [done..|]. by intros v [_ []]. }
  unfold atomic_load_request. read_fields. subst. cbn. by destruct (bd_request v).
Qed.

Lemma reads_identity : reads atomic_load_identity (fun i v => i = bd_identity v).
Proof.
  assert (reads (atomic_load_bytes Id_comm 0 SPZ_COMM_LEN) (fun a v => a = id_comm (bd_identity v))).
  { apply (reads_bytes Id_comm (fun v => id_comm (bd_identity v))); [done..|]. by intros v [_ []]. }
  unfold atomic_load_identity. read_fields. subst. cbn. by destruct (bd_identity v).
Qed.

Lemma reads_binding : reads atomic_load_binding (fun s v => s = spz_load_binding v).
Proof.
  pose proof reads_request. pose proof reads_identity. unfold atomic_load_binding. read_fields. by subst.
Qed.

(** A version the binding had since the world [w]. *)
Record seen (w w' : world) (k : nat) (v : spz_binding) : Prop := {
  se_later : later w w';
  se_valid : valid_log w'.1;
  se_bounded : bounded w'.1;
  se_index : (length w.1 <= S k)%nat;
  se_lookup : w'.1 !! k = Some v;
}.

Lemma wp_snapshot w :
  wp atomic_binding_snapshot (Free w) (fun r m => exists w', m = Free w' /\ later w w' /\
    forall s, r = Some s -> exists k v, seen w w' k v /\ s = spz_load_binding v).
Proof.
  unfold atomic_binding_snapshot. generalize SPZ_BINDING_SNAPSHOT_ATTEMPTS as n. intros n.
  revert w. induction n as [|n IH]; intros w; cbn [atomic_snapshot_loop]; [by exists w|].
  assert (Hretry : forall w1, later w w1 -> wp (atomic_snapshot_loop n) (Free w1) (fun r m =>
    exists w', m = Free w' /\ later w w' /\
    forall s, r = Some s -> exists k v, seen w w' k v /\ s = spz_load_binding v)).
  { intros w1 Hl. eapply wp_mono; [apply IH|]. intros r m (w2 & -> & Hl2 & Hs). exists w2.
    split_and!; [done|by etrans|]. intros s Hr. destruct (Hs s Hr) as (k & v & [? ? ? Hi ?] & ->).
    exists k, v. split; [|done]. split; try done; [by etrans|]. destruct Hl as [Hp%prefix_length _]. lia. }
  apply wp_load_free. intros w1 b Hl Hs. cbn [get]. pose proof (sh_sequence _ _ Hs) as Hq. rewrite Hq, even_epoch.
  destruct (w1.2) eqn:Hw; cbn [negb Z.eqb]; [by apply Hretry|].
  eapply wp_call; [apply reads_binding|]. intros s m (w2 & -> & Hl2 & Hread).
  apply wp_load_free. intros w3 b3 Hl3 Hs3. cbn [get]. rewrite (sh_sequence _ _ Hs3). destruct (_ && _) eqn:E.
  - rewrite andb_true_iff in E. destruct E as [He _]. apply Z.eqb_eq in He.
    assert (w3 = w1) as -> by (apply later_same; [by etrans|done]).
    assert (w2 = w1) as -> by (apply later_same; [done|destruct Hl2, Hl3; lia]).
    destruct Hs as [Hv Hb _ Hf]. specialize (Hf Hw). exists w1. split_and!; [done..|].
    intros s' [= <-]. exists (pred (length w1.1)), (contents b). split.
    + split; try done; [|by rewrite <- last_lookup]. destruct Hl as [Hp%prefix_length _]. lia.
    + apply Hread; [done..|]. by apply (valid_last w1.1).
  - apply Hretry. etrans; [done|by etrans].
Qed.

(** ** Inside the lock *)

Lemma wp_load_held {A} {T : Set} (c : cell T) (f : T -> prog A) b l Φ :
  wp (f (get c b)) (Held b l) Φ -> wp (load c ≫= f) (Held b l) Φ.
Proof. done. Qed.

Lemma wp_store_held {A} {T : Set} (c : cell T) v (p : prog A) b l Φ :
  is_sequence c = false -> wp p (Held (put c v b) l) Φ -> wp (store c v ;; p) (Held b l) Φ.
Proof. intros Hc Hp. cbn. by rewrite Hc. Qed.

(** Storing the bytes of an array one by one. *)
Fixpoint put_bytes (c : nat -> cell Z) (index : nat) (source : list Z) (b : spz_binding) : spz_binding :=
  match source with [] => b | byte :: source => put_bytes c (S index) source (put (c index) byte b) end.

Lemma wp_store_bytes (c : nat -> cell Z) i source b l (Φ : unit -> mode -> Prop) :
  (forall i, is_sequence (c i) = false) -> Φ tt (Held (put_bytes c i source b) l) ->
  wp (atomic_store_bytes c i source) (Held b l) Φ.
Proof.
  intros Hc. revert i b. induction source as [|byte source IH]; intros i b HΦ; [done|].
  apply wp_store_held; [done|]. by apply IH.
Qed.

Lemma insert_bytes i (source d : list Z) x :
  (i + length (x :: source) <= length d)%nat ->
  take (S i) (<[i := x]> d) ++ source ++ drop (S i + length source) (<[i := x]> d) =
  take i d ++ (x :: source) ++ drop (i + length (x :: source)) d.
Proof.
  intros Hlen. simpl in Hlen. rewrite insert_take_drop by lia.
  rewrite cons_middle, (app_assoc (take i d)).
  assert (length (take i d ++ [x]) = S i) as Hi by (rewrite length_app, length_take_le; simpl; lia).
  rewrite take_app_length', drop_app_add', drop_drop by auto. rewrite <- app_assoc. simpl.
  do 3 f_equal. f_equal. lia.
Qed.

Lemma put_bytes_request i source b :
  (i + length source <= length (rq_comm (bd_request b)))%nat ->
  put_bytes Rq_comm i source b =
  put_request (fun r => r <| rq_comm ::= fun d => take i d ++ source ++ drop (i + length source) d |>) b.
Proof.
  revert i b. induction source as [|x source IH]; intros i b Hlen; cbn [put_bytes].
  - destruct b as [? ? ? [] ?]. unfold put_request, field_update. cbn. by rewrite Nat.add_0_r, take_drop.
  - rewrite IH; [|cbn; rewrite length_insert; simpl in Hlen; lia].
    destruct b as [? ? ? [] ?]. unfold put_request, field_update in *. cbn -[app take drop length] in *.
    by rewrite insert_bytes.
Qed.

Lemma put_bytes_identity i source b :
  (i + length source <= length (id_comm (bd_identity b)))%nat ->
  put_bytes Id_comm i source b =
  put_identity (fun r => r <| id_comm ::= fun d => take i d ++ source ++ drop (i + length source) d |>) b.
Proof.
  revert i b. induction source as [|x source IH]; intros i b Hlen; cbn [put_bytes].
  - destruct b as [? ? ? ? []]. unfold put_identity, field_update. cbn. by rewrite Nat.add_0_r, take_drop.
  - rewrite IH; [|cbn; rewrite length_insert; simpl in Hlen; lia].
    destruct b as [? ? ? ? []]. unfold put_identity, field_update in *. cbn -[app take drop length] in *.
    by rewrite insert_bytes.
Qed.

(** The arrays of the memory have their length. *)
Definition sized (b : spz_binding) : Prop :=
  length (rq_comm (bd_request b)) = SPZ_COMM_LEN /\ length (id_comm (bd_identity b)) = SPZ_COMM_LEN.

Ltac store_fields := repeat (apply wp_store_held; [reflexivity|]).

Lemma wp_store_request r b l (Φ : unit -> mode -> Prop) :
  sized b -> request_typed r -> Φ tt (Held (b <| bd_request := r |>) l) ->
  wp (atomic_store_request r) (Held b l) Φ.
Proof.
  intros [Hb _] Hr HΦ. unfold atomic_store_request. store_fields. apply wp_bind, wp_store_bytes; [done|].
  rewrite take_ge by (unfold request_typed in Hr; lia).
  rewrite put_bytes_request by (unfold request_typed in Hr; cbn; lia).
  store_fields.
  match goal with |- context [Held ?x l] => replace x with (b <| bd_request := r |>) end; [done|].
  unfold request_typed in Hr. destruct b as [? ? ? [] ?], r. unfold put_request, field_update. cbn in *.
  rewrite drop_ge by lia. by rewrite app_nil_r.
Qed.

Lemma wp_store_identity i b l (Φ : unit -> mode -> Prop) :
  sized b -> length (id_comm i) = SPZ_COMM_LEN -> Φ tt (Held (b <| bd_identity := i |>) l) ->
  wp (atomic_store_identity i) (Held b l) Φ.
Proof.
  intros [_ Hb] Hi HΦ. unfold atomic_store_identity. store_fields. apply wp_store_bytes; [done|].
  rewrite take_ge by lia. rewrite put_bytes_identity by (cbn; lia).
  match goal with |- context [Held ?x l] => replace x with (b <| bd_identity := i |>) end; [done|].
  destruct b as [? ? ? ? []], i. unfold put_identity, field_update. cbn in *. rewrite drop_ge by lia. by rewrite app_nil_r.
Qed.

Lemma wp_write_end w b b' l u (Φ : unit -> mode -> Prop) :
  entered w b l -> bd_sequence b' = bd_sequence b -> last l = Some u -> transition u (contents b') ->
  Φ tt (Free (l ++ [contents b'], false)) ->
  wp (atomic_write_end (bd_sequence b)) (Held b' l) Φ.
Proof.
  intros [_ Hv Hb Hq _] Hs Hu Ht HΦ. cbn. pose proof (epoch_range (l, true) (valid_nonempty _ Hv) Hb).
  rewrite Hq in *. split_and!; [|by exists u|done]. zlia.
Qed.

(** ** Calls *)

(** Why a call that began at version [n - 1] reports [o]. The versions from there on
    are those the binding had between the call and the return. *)
Inductive explained (c : call) (n : nat) (o : outcome) (l : list spz_binding) : Prop :=
(** too many attempts were disturbed: nothing was done *)
| gave_up : o = reports (- EAGAIN) None -> explained c n o l
(** the call did in one step, at version [k], what the operation of Task.v does *)
| in_one_step k v :
    (n <= S k)%nat -> l !! k = Some v -> o = (sequential c v).1 ->
    ((sequential c v).2 = v \/ l !! S k = Some (sequential c v).2) -> explained c n o l
(** the answer for version [k], whose task is gone, without marking the binding *)
| unmarked k v :
    (n <= S k)%nat -> l !! k = Some v -> o = (sequential c v).1 ->
    (exists code, (code = - ESTALE \/ code = - ESRCH) /\ o = reports code None) -> explained c n o l
(** the binding was changed while the call ran *)
| overtaken k k' v v' :
    (n <= S k)%nat -> (k < k')%nat -> l !! k = Some v -> l !! k' = Some v' -> v' <> v ->
    o = reports (- ESTALE) None -> explained c n o l.

Lemma explained_mono c n o l l' : l `prefix_of` l' -> explained c n o l -> explained c n o l'.
Proof.
  intros Hp [Ho|k v Hn Hk Ho He|k v Hn Hk Ho He|k k' v v' Hn Hlt Hk Hk' Hne Ho].
  - by apply gave_up.
  - apply (in_one_step _ _ _ _ k v); try done; [by eapply prefix_lookup_Some|].
    destruct He as [|He]; [by left|right]. by eapply prefix_lookup_Some.
  - apply (unmarked _ _ _ _ k v); try done. by eapply prefix_lookup_Some.
  - apply (overtaken _ _ _ _ k k' v v'); try done; by eapply prefix_lookup_Some.
Qed.

(** A call that only read. *)
Lemma explained_read c w w' k v n o :
  seen w w' k v -> (n <= length w.1)%nat -> sequential c v = (o, v) -> explained c n o w'.1.
Proof. intros [_ _ _ Hi Hk] Hn He. apply (in_one_step _ _ _ _ k v); rewrite ?He; auto with lia. Qed.

(** A call that released the lock. *)
Lemma entered_index w b l :
  entered w b l -> (length w.1 <= S (pred (length l)))%nat /\ l !! pred (length l) = Some (contents b) /\
  version (contents b).
Proof.
  intros [[Hp%prefix_length _] Hv _ _ Hl]. pose proof (valid_last _ _ Hv Hl).
  rewrite last_lookup in Hl. cbn in Hp. split_and!; [lia|done|done].
Qed.

Lemma explained_write c w b l n v' :
  entered w b l -> (n <= length w.1)%nat -> (sequential c (contents b)).2 = v' ->
  explained c n (sequential c (contents b)).1 (l ++ [v']).
Proof.
  intros He Hn <-. destruct (entered_index w b l He) as (Hi & Hk & _).
  pose proof (lookup_lt_Some _ _ _ Hk).
  apply (in_one_step _ _ _ _ (pred (length l)) (contents b)); [lia|by rewrite lookup_app_l by lia|done|].
  right. rewrite lookup_app_r by lia. by replace (S (pred (length l)) - length l)%nat with 0%nat by lia.
Qed.

Lemma entered_sized w b l : entered w b l -> sized b.
Proof. intros (_ & _ & _ & [])%entered_index. by split. Qed.

(** The end of an operation that has given up or returned. *)
Definition ends (c : call) (n : nat) (o : outcome) (m : mode) : Prop := returns explained c n o m.

Lemma set_sequential v r :
  version v -> request_typed r -> spz_request_valid (Some r) = true ->
  sequential (Do (BindSet (Some r))) v =
  ({| oc_code := 0; oc_generation := Some (spz_next_generation (bd_generation v)); oc_identity := None;
      oc_snapshot := None |},
   contents (v <| bd_request := r |> <| bd_identity := empty_identity |>
     <| bd_generation := spz_next_generation (bd_generation v) |> <| bd_state := SPZ_BINDING_PENDING |>)).
Proof. intros [_ Hw] Hr Hv. cbn [sequential]. by rewrite binding_set_eq. Qed.

Lemma clear_sequential v :
  version v ->
  sequential (Do BindClear) v =
  (reports 0 None,
   contents (v <| bd_request := empty_request |> <| bd_identity := empty_identity |>
     <| bd_generation := spz_next_generation (bd_generation v) |> <| bd_state := SPZ_BINDING_EMPTY |>)).
Proof. intros [_ Hw]. cbn [sequential binding_step]. by rewrite binding_clear_eq. Qed.

Lemma wp_set r w :
  bop_ok (BindSet r) -> valid_log w.1 -> bounded w.1 ->
  wp (program (Do (BindSet r))) (Free w) (ends (Do (BindSet r)) (length w.1)).
Proof.
  intros Hr Hv Hb. cbn [program]. pose proof (valid_nonempty _ Hv) as Hne.
  destruct (last w.1) as [u|] eqn:Hu; [|by apply last_None in Hu].
  pose proof (valid_last _ _ Hv Hu) as Hver. rewrite last_lookup in Hu.
  assert (Hnow : seen w w (pred (length w.1)) u) by (split; try done; lia).
  destruct r as [r|].
  2: { apply (explained_read _ w w _ u _ _ Hnow); [done|]. cbn. by rewrite contents_id. }
  unfold atomic_binding_set. destruct (spz_request_valid (Some r)) eqn:Hok; cbn [negb].
  2: { apply (explained_read _ w w _ u _ _ Hnow); [done|].
       unfold sequential, spz_binding_set. rewrite Hok. cbn. by rewrite contents_id. }
  apply wp_bind, (wp_call _ _ _ _ _ (wp_write_begin w)). intros [odd|] m.
  2: { intros (w' & -> & Hl). by apply gave_up. }
  intros (b & l & -> & -> & He). apply wp_load_held. pose proof (entered_sized w b l He) as Hsz.
  destruct (entered_index w b l He) as (_ & Hk & Hvb). cbv zeta.
  pose proof (set_sequential (contents b) r Hvb Hr Hok) as Hseq.
  apply wp_bind, wp_store_request; [done..|].
  apply wp_bind, wp_store_identity; [by destruct Hsz|done|]. store_fields.
  apply wp_bind. eapply (wp_write_end w); [done|done|by destruct He|right; exists (Do (BindSet (Some r))); by rewrite Hseq|].
  pose proof (explained_write (Do (BindSet (Some r))) w b l _ _ He (le_n _) eq_refl) as Hx.
  by rewrite Hseq in Hx.
Qed.

Lemma wp_clear w : wp (program (Do BindClear)) (Free w) (ends (Do BindClear) (length w.1)).
Proof.
  cbn [program]. unfold atomic_binding_clear.
  apply wp_bind, (wp_call _ _ _ _ _ (wp_write_begin w)). intros [odd|] m.
  2: { intros (w' & -> & Hl). by apply gave_up. }
  intros (b & l & -> & -> & He). apply wp_load_held. pose proof (entered_sized w b l He) as Hsz.
  destruct (entered_index w b l He) as (_ & Hk & Hvb). cbv zeta.
  pose proof (clear_sequential (contents b) Hvb) as Hseq.
  apply wp_bind, wp_store_request; [done..|].
  apply wp_bind, wp_store_identity; [by destruct Hsz|done|]. store_fields.
  apply wp_bind. eapply (wp_write_end w); [done|done|by destruct He|right; exists (Do BindClear); by rewrite Hseq|].
  pose proof (explained_write (Do BindClear) w b l _ _ He (le_n _) eq_refl) as Hx.
  by rewrite Hseq in Hx.
Qed.

Lemma seen_later w w' w'' k v l :
  seen w w' k v -> later w' w'' -> w''.1 = l -> l !! k = Some v.
Proof. intros [_ _ _ _ Hk] [Hp _] <-. by eapply prefix_lookup_Some. Qed.

(** What the section of the lock finds: the version of the snapshot, or a later one. *)
Lemma entered_changed w0 w k v b l :
  seen w0 w k v -> entered w b l ->
  (k <= pred (length l))%nat /\
  (bd_generation b = bd_generation v -> bd_state b = bd_state v -> contents b = v).
Proof.
  intros Hs He. destruct (entered_index w b l He) as (Hi & Hk & _).
  pose proof Hs as [_ _ _ _ Hv]. assert (k <= pred (length l))%nat as Hle.
  { apply lookup_lt_Some in Hv. lia. }
  split; [done|]. intros Hg Hst. pose proof (seen_later _ _ _ _ _ l Hs (en_later _ _ _ He) eq_refl) as Hv'.
  by apply (valid_stable l k (pred (length l))); [apply (en_valid _ _ _ He)|apply (en_bounded _ _ _ He)|..].
Qed.

Lemma wp_changed g s b l (Φ : bool -> mode -> Prop) :
  Φ (negb (bd_generation b =? g) || negb (bool_decide (bd_state b = s))) (Held b l) ->
  wp (atomic_changed g s) (Held b l) Φ.
Proof. intros HΦ. apply wp_load_held. cbn [get]. destruct (_ =? g); [apply wp_load_held|]; exact HΦ. Qed.

(** A section that found the binding changed. *)
Lemma explained_overtaken c w0 w k v b l n :
  seen w0 w k v -> entered w b l -> (n <= length w0.1)%nat ->
  negb (bd_generation b =? bd_generation v) || negb (bool_decide (bd_state b = bd_state v)) = true ->
  explained c n (reports (- ESTALE) None) (l ++ [contents b]).
Proof.
  intros Hs He Hn Hch. destruct (entered_changed _ _ _ _ _ _ Hs He) as [Hle _].
  destruct (entered_index w b l He) as (Hi & Hk & _). pose proof (lookup_lt_Some _ _ _ Hk) as Hlt.
  assert (contents b <> v) as Hne.
  { intros <-. cbn in Hch. rewrite Z.eqb_refl, bool_decide_true in Hch by done. done. }
  pose proof (seen_later _ _ _ _ _ l Hs (en_later _ _ _ He) eq_refl) as Hv. destruct Hs as [_ _ _ Hsi _].
  apply (overtaken _ _ _ _ k (pred (length l)) v (contents b)); try done.
  - lia.
  - destruct (decide (k = pred (length l))) as [->|]; [congruence|lia].
  - rewrite lookup_app_l; [done|lia].
  - by rewrite lookup_app_l by lia.
Qed.

(** Marking the version [v] of a snapshot, as the call [c] does. *)
Lemma wp_mark c w0 w k v code s n :
  seen w0 w k v -> (n <= length w0.1)%nat -> call_ok c -> bd_state v = SPZ_BINDING_BOUND ->
  sequential c v = (reports code None, contents (bump (v <| bd_state := s |>))) ->
  wp (atomic_mark_state_if_generation (bd_generation v) SPZ_BINDING_BOUND s) (Free w) (fun r m =>
    exists w', m = Free w' /\ later w w' /\
      (r = - EAGAIN \/ r = - ESTALE /\ explained c n (reports (- ESTALE) None) w'.1 \/
       r = 0 /\ explained c n (reports code None) w'.1)).
Proof.
  intros Hs Hn Hc Hst Hseq. unfold atomic_mark_state_if_generation.
  apply (wp_call _ _ _ _ _ (wp_write_begin w)). intros [odd|] m.
  2: { intros (w' & -> & Hl). exists w'. auto. }
  intros (b & l & -> & -> & He). apply wp_bind, wp_changed. pose proof (en_last _ _ _ He) as Hlast.
  assert (Hup : forall x, later w (l ++ [x], false)).
  { intros x. etrans; [apply (en_later _ _ _ He)|]. split; [by apply prefix_app_r|]. unfold epoch. cbn.
    rewrite length_app. cbn. lia. }
  destruct (_ || _) eqn:Hch.
  - apply wp_bind, (wp_write_end w _ _ _ (contents b)); [done|done|done|by left|]. eexists. split_and!; [done|apply Hup|].
    right. left. split; [done|]. rewrite <- Hst in Hch. by apply (explained_overtaken c w0 w k v).
  - rewrite orb_false_iff, !negb_false_iff in Hch. destruct Hch as [Hg Hb]. apply Z.eqb_eq in Hg.
    apply bool_decide_eq_true in Hb. rewrite <- Hst in Hb.
    destruct (entered_changed _ _ _ _ _ _ Hs He) as [_ Heq]. specialize (Heq Hg Hb). subst v.
    apply wp_store_held; [done|]. apply wp_bind, (wp_write_end w _ _ _ (contents b)); [done|done|done| |].
    { right. exists c. split; [done|]. by rewrite Hseq. }
    eexists. split_and!; [done|apply Hup|]. right. right. split; [done|].
    assert (n <= length w.1)%nat as Hn' by (destruct Hs as [[Hp%prefix_length _] _ _ _ _]; lia).
    pose proof (explained_write c w b l n _ He Hn' eq_refl) as Hx. by rewrite Hseq in Hx.
Qed.

(** ** The hooks *)

(** Matching a version. *)
Lemma match_sequential view g v :
  version v ->
  sequential (Do (BindMatch view g)) v =
  if negb (bd_generation v =? g) then (reports (- ESTALE) None, v)
  else
    match bd_state v with
    | SPZ_BINDING_STALE => (reports (- ESTALE) None, v)
    | SPZ_BINDING_EXITED => (reports (- ESRCH) None, v)
    | SPZ_BINDING_BOUND =>
        match view_identity view with
        | inl r => (reports r None, v)
        | inr (current, exit_state) =>
            if negb (id_pid current =? id_pid (bd_identity v)) then (reports 0 None, v)
            else if negb (spz_same_strong_identity (bd_identity v) current)
            then (reports (- ESTALE) None, contents (bump (v <| bd_state := SPZ_BINDING_STALE |>)))
            else if negb (exit_state =? 0)
            then (reports (- ESRCH) None, contents (bump (v <| bd_state := SPZ_BINDING_EXITED |>)))
            else (reports 1 (Some (current <| id_generation := bd_generation v |>)), v)
        end
    | _ => (reports 0 None, v)
    end.
Proof.
  intros Hv. pose proof Hv as [_ Hw]. cbn [sequential binding_step].
  unfold spz_binding_matches_current. rewrite snapshot_wf by done. unfold spz_load_binding.
  cbn [sn_generation sn_state sn_identity sn_request]. fold (view_identity view).
  destruct (bd_generation v =? g); cbn [negb]; [|by rewrite contents_id].
  destruct (bd_state v) eqn:Hs; rewrite ?contents_id by done; try done. rewrite !mark_state_eq by done.
  destruct (view_identity view) as [|[current es]]; [by rewrite contents_id|].
  change (id_pid (current <| id_generation := bd_generation v |>)) with (id_pid current).
  change (spz_same_strong_identity (bd_identity v) (current <| id_generation := bd_generation v |>))
    with (spz_same_strong_identity (bd_identity v) current).
  destruct (negb (id_pid current =? _)); [by rewrite contents_id|].
  destruct (negb (spz_same_strong_identity _ _)); [done|].
  destruct (negb (es =? 0)); [done|]. by rewrite contents_id.
Qed.

(** [spz_binding_matches_current] as part of the call [c], which began at version
    [n - 1]. *)
Lemma wp_matches c view g w n :
  call_ok c -> (n <= length w.1)%nat ->
  (forall w' k v, seen w w' k v -> bd_generation v = g ->
     sequential c v = sequential (Do (BindMatch view g)) v) ->
  (forall w' k v, seen w w' k v -> bd_generation v <> g -> explained c n (reports (- ESTALE) None) w'.1) ->
  wp (atomic_binding_matches_current view g) (Free w) (fun r m => ends c n (reports r.1 r.2) m).
Proof.
  intros Hc Hn Heq Hold. unfold atomic_binding_matches_current.
  apply (wp_call _ _ _ _ _ (wp_snapshot w)). intros [s|] m (w1 & -> & Hl & Hs).
  2: { by apply gave_up. }
  destruct (Hs s eq_refl) as (k & v & Hseen & ->). clear Hs. unfold spz_load_binding.
  cbn [sn_generation sn_state sn_identity].
  assert (version v) as Hv by (destruct Hseen; by eapply valid_version).
  destruct (Z.eqb_spec (bd_generation v) g) as [<-|Hg]; cbn [negb]; [|by apply (Hold w1 k v)].
  pose proof (Heq w1 k v Hseen eq_refl) as Hq. rewrite match_sequential, Z.eqb_refl in Hq by done. cbn [negb] in Hq.
  assert (Hread : forall o, sequential c v = (o, v) -> explained c n o w1.1).
  { intros o. by apply (explained_read c w w1 k v). }
  assert (Hmark : forall code s, code = - ESTALE \/ code = - ESRCH -> bd_state v = SPZ_BINDING_BOUND ->
    sequential c v = (reports code None, contents (bump (v <| bd_state := s |>))) ->
    wp (atomic_mark_state_if_generation (bd_generation v) SPZ_BINDING_BOUND s ;; mret (code, None)) (Free w1)
       (fun r m => ends c n (reports r.1 r.2) m)).
  { intros code s Hcode Hst Ho. apply (wp_call _ _ _ _ _ (wp_mark c w w1 k v code s n Hseen Hn Hc Hst Ho)).
    intros r m (w2 & -> & Hl2 & Hr). cbn.
    assert (explained c n (reports code None) w2.1).
    { pose proof (seen_later _ _ _ _ _ _ Hseen Hl2 eq_refl). destruct Hseen.
      apply (unmarked _ _ _ _ k v); [lia|done|by rewrite Ho|by exists code]. }
    by destruct Hr as [?|[[? ?]|[? ?]]]. }
  destruct (bd_state v) eqn:Hst; try (by apply Hread).
  destruct (view_identity view) as [r|[current es]]; [by apply Hread|].
  change (id_pid (current <| id_generation := bd_generation v |>)) with (id_pid current).
  change (spz_same_strong_identity (bd_identity v) (current <| id_generation := bd_generation v |>))
    with (spz_same_strong_identity (bd_identity v) current).
  destruct (negb (id_pid current =? _)); [by apply Hread|].
  destruct (negb (spz_same_strong_identity _ _)); [by apply Hmark; auto|].
  destruct (negb (es =? 0)); [by apply Hmark; auto|]. by apply Hread.
Qed.

Lemma wp_match view g w :
  view_ok view -> wp (program (Do (BindMatch view g))) (Free w) (ends (Do (BindMatch view g)) (length w.1)).
Proof.
  intros Hok. cbn [program]. eapply wp_call; [apply (wp_matches (Do (BindMatch view g)))|]; try done.
  intros w' k v Hseen Hg. apply (explained_read _ w w' k v); [done|done|].
  rewrite match_sequential by (destruct Hseen; by eapply valid_version). by rewrite (eqb_ne _ _ Hg).
Qed.

(** Observing a version. *)
Lemma observe_sequential view v :
  version v -> view_ok view ->
  sequential (Do (BindObserve view)) v =
  match bd_state v with
  | SPZ_BINDING_BOUND => sequential (Do (BindMatch view (bd_generation v))) v
  | SPZ_BINDING_STALE => (reports (- ESTALE) None, v)
  | SPZ_BINDING_EXITED => (reports (- ESRCH) None, v)
  | SPZ_BINDING_EMPTY => (reports 0 None, v)
  | SPZ_BINDING_PENDING =>
      match view_identity view with
      | inl r => (reports r None, v)
      | inr (current, exit_state) =>
          if negb (exit_state =? 0) || negb (spz_selector_matches (bd_request v) current) then (reports 0 None, v)
          else
            let current := current <| id_generation := bd_generation v |> in
            (reports 1 (Some current),
             contents (v <| bd_identity := current |> <| bd_state := SPZ_BINDING_BOUND |>))
      end
  end.
Proof.
  intros Hv [Hp Hl]. pose proof Hv as [_ Hw]. cbn [sequential binding_step]. rewrite observe_eq by done.
  fold (view_identity view). destruct (bd_state v); try done; try (by rewrite contents_id).
  destruct (view_identity view) as [|[current es]] eqn:E; [by rewrite contents_id|].
  destruct (_ || _); [by rewrite contents_id|]. cbv zeta.
  rewrite store_identity_typed; [done|by destruct Hw|]. exact (extract_comm_length _ _ _ _ _ _ Hp Hl E).
Qed.

Lemma seen_trans w0 w w' k v : later w0 w -> seen w w' k v -> seen w0 w' k v.
Proof.
  intros Hl [? ? ? ? ?]. split; try done; [by etrans|]. destruct Hl as [Hp%prefix_length _]. lia.
Qed.

(** After a bound version, matching and observing its generation are the same. *)
Lemma observe_after_bound view w w1 w2 k k' v v' :
  view_ok view -> seen w w1 k v -> bd_state v = SPZ_BINDING_BOUND -> seen w1 w2 k' v' ->
  bd_generation v' = bd_generation v ->
  sequential (Do (BindObserve view)) v' = sequential (Do (BindMatch view (bd_generation v))) v'.
Proof.
  intros Hok Hs Hst Hs' Hg. assert (version v') as Hv' by (destruct Hs'; by eapply valid_version).
  rewrite observe_sequential by done.
  pose proof (seen_later _ _ _ _ _ _ Hs (se_later _ _ _ _ Hs') eq_refl) as Hk.
  destruct Hs' as [Hl Hval Hb Hi Hk']. assert (k <= k')%nat.
  { destruct Hs as [_ _ _ _ H]. apply lookup_lt_Some in H. lia. }
  destruct (valid_forward _ Hval Hb k k' v v') as [_ Hr _]; [done..|]. specialize (Hr Hg).
  destruct (bd_state v') eqn:E; try (rewrite match_sequential by done; by rewrite Hg, Z.eqb_refl, E).
  - destruct Hr as [->|Hr]; [congruence|]. by rewrite Hst in Hr.
  - by rewrite Hg.
Qed.

Lemma wp_capture view w w1 k v current :
  view_ok view -> seen w w1 k v -> bd_state v = SPZ_BINDING_PENDING ->
  view_identity view = inr (current, 0) -> spz_selector_matches (bd_request v) current = true ->
  let found := current <| id_generation := bd_generation v |> in
  wp (begun ← atomic_write_begin;
      match begun with
      | None => mret (- EAGAIN, None)
      | Some odd_sequence =>
          changed ← atomic_changed (bd_generation v) SPZ_BINDING_PENDING;
          if changed : bool then atomic_write_end odd_sequence ;; mret (- ESTALE, None)
          else
            atomic_store_identity found ;;
            store State SPZ_BINDING_BOUND ;;
            atomic_write_end odd_sequence ;;
            mret (1, Some found)
      end) (Free w1) (fun r m => ends (Do (BindObserve view)) (length w.1) (reports r.1 r.2) m).
Proof.
  intros Hok Hs Hst Hid Hsel found.
  apply (wp_call _ _ _ _ _ (wp_write_begin w1)). intros [odd|] m.
  2: { intros (w' & -> & Hl). by apply gave_up. }
  intros (b & l & -> & -> & He). apply wp_bind, wp_changed. pose proof (en_last _ _ _ He) as Hlast.
  destruct (_ || _) eqn:Hch.
  - apply wp_bind, (wp_write_end w1 _ _ _ (contents b)); [done|done|done|by left|].
    rewrite <- Hst in Hch. by apply (explained_overtaken _ w w1 k v).
  - rewrite orb_false_iff, !negb_false_iff in Hch. destruct Hch as [Hg Hb]. apply Z.eqb_eq in Hg.
    apply bool_decide_eq_true in Hb. rewrite <- Hst in Hb.
    destruct (entered_changed _ _ _ _ _ _ Hs He) as [_ Heq]. specialize (Heq Hg Hb).
    destruct (entered_index w1 b l He) as (_ & _ & Hvb). rewrite Heq in Hvb.
    pose proof (observe_sequential view v Hvb Hok) as Hseq. rewrite Hst, Hid, Hsel in Hseq. cbn [Z.eqb negb orb] in Hseq.
    cbv zeta in Hseq. fold found in Hseq.
    apply wp_bind, wp_store_identity; [by eapply entered_sized|exact (extract_comm_length _ _ _ _ _ _ (proj1 Hok) (proj2 Hok) Hid)|].
    apply wp_store_held; [done|]. assert (length w.1 <= length w1.1)%nat as Hn.
    { destruct Hs as [[Hp%prefix_length _] _ _ _ _]. lia. }
    pose proof (explained_write (Do (BindObserve view)) w1 b l _ _ He Hn eq_refl) as Hx.
    assert (Hsame : contents (v <| bd_identity := found |> <| bd_state := SPZ_BINDING_BOUND |>) =
                    contents (put State SPZ_BINDING_BOUND (b <| bd_identity := found |>))).
    { clearbody found. by rewrite <- Heq. }
    rewrite Heq, Hseq, Hsame in Hx.
    apply wp_bind, (wp_write_end w1 _ _ _ (contents b)); [done|done|done| |exact Hx].
    right. exists (Do (BindObserve view)). split; [done|]. by rewrite Heq, Hseq.
Qed.

Lemma wp_observe view w :
  view_ok view -> wp (program (Do (BindObserve view))) (Free w) (ends (Do (BindObserve view)) (length w.1)).
Proof.
  intros Hok. cbn [program]. eapply wp_call with (Φ := fun r m => ends _ _ (reports r.1 r.2) m); [|intros r m Hr; exact Hr].
  unfold atomic_binding_observe_current.
  apply (wp_call _ _ _ _ _ (wp_snapshot w)). intros [s|] m (w1 & -> & Hl & Hs).
  2: { by apply gave_up. }
  destruct (Hs s eq_refl) as (k & v & Hseen & ->). clear Hs. unfold spz_load_binding.
  cbn [sn_generation sn_state sn_identity sn_request].
  assert (version v) as Hv by (destruct Hseen; by eapply valid_version).
  pose proof (observe_sequential view v Hv Hok) as Hq.
  assert (Hread : forall o, sequential (Do (BindObserve view)) v = (o, v) ->
    explained (Do (BindObserve view)) (length w.1) o w1.1).
  { intros o. by apply (explained_read _ w w1 k v). }
  destruct (bd_state v) eqn:Hst; try (by apply Hread).
  - destruct (view_identity view) as [r|[current es]] eqn:Hid; [by apply Hread|].
    destruct (_ || _) eqn:Hsel; [by apply Hread|].
    rewrite orb_false_iff, !negb_false_iff in Hsel. destruct Hsel as [Hes%Z.eqb_eq Hsel]. subst es.
    by apply wp_capture with (k := k).
  - apply wp_matches; [done| | |].
    + destruct Hl as [Hp%prefix_length _]. lia.
    + intros w2 k' v' Hs' Hg. by apply (observe_after_bound view w w1 w2 k k').
    + intros w2 k' v' Hs' Hg. pose proof (seen_later _ _ _ _ _ _ Hseen (se_later _ _ _ _ Hs') eq_refl) as Hk.
      destruct Hs' as [_ _ _ Hi Hk'], Hseen as [_ _ _ Hi0 Hk0]. apply lookup_lt_Some in Hk0.
      apply (overtaken _ _ _ _ k k' v v'); try done; [|congruence].
      destruct (decide (k = k')) as [->|]; [congruence|lia].
Qed.

Lemma exit_sequential view v :
  version v ->
  sequential (Do (BindExit view)) v =
  if bool_decide (bd_state v = SPZ_BINDING_BOUND) then
    match view_identity view with
    | inl r => (reports r None, v)
    | inr (current, _) =>
        if spz_same_strong_identity (bd_identity v) current
        then (reports 1 None, contents (bump (v <| bd_state := SPZ_BINDING_EXITED |>))) else (reports 0 None, v)
    end
  else (reports 0 None, v).
Proof.
  intros Hv. pose proof Hv as [_ Hw]. cbn [sequential binding_step]. rewrite mark_exit_eq by done.
  fold (view_identity view). case_bool_decide; [|by rewrite contents_id].
  destruct (view_identity view) as [|[current es]]; [by rewrite contents_id|].
  destruct (spz_same_strong_identity _ _); [done|by rewrite contents_id].
Qed.

Lemma wp_exit view w :
  view_ok view -> wp (program (Do (BindExit view))) (Free w) (ends (Do (BindExit view)) (length w.1)).
Proof.
  intros Hok. cbn [program]. eapply wp_call with (Φ := fun r m => ends _ _ (reports r None) m); [|intros r m Hr; exact Hr].
  unfold atomic_binding_mark_exit.
  apply (wp_call _ _ _ _ _ (wp_snapshot w)). intros [s|] m (w1 & -> & Hl & Hs).
  2: { by apply gave_up. }
  destruct (Hs s eq_refl) as (k & v & Hseen & ->). clear Hs. unfold spz_load_binding.
  cbn [sn_generation sn_state sn_identity].
  assert (version v) as Hv by (destruct Hseen; by eapply valid_version).
  pose proof (exit_sequential view v Hv) as Hq.
  assert (Hread : forall o, sequential (Do (BindExit view)) v = (o, v) ->
    explained (Do (BindExit view)) (length w.1) o w1.1).
  { intros o. by apply (explained_read _ w w1 k v). }
  destruct (decide (bd_state v = SPZ_BINDING_BOUND)) as [Hst|Hst].
  2: { rewrite bool_decide_true by done. rewrite bool_decide_false in Hq by done. by apply Hread. }
  rewrite bool_decide_false by auto. rewrite bool_decide_true in Hq by done.
  destruct (view_identity view) as [r|[current es]]; [by apply Hread|].
  destruct (spz_same_strong_identity _ _); cbn [negb]; [|by apply Hread].
  eapply wp_call; [by apply (wp_mark (Do (BindExit view)) w w1 k v 1)|].
  intros r m (w2 & -> & Hl2 & [-> |[[-> Hx]|[-> Hx]]]); [by apply gave_up|exact Hx|exact Hx].
Qed.

Lemma wp_take_snapshot w : wp (program Take_snapshot) (Free w) (ends Take_snapshot (length w.1)).
Proof.
  cbn [program]. apply (wp_call _ _ _ _ _ (wp_snapshot w)). intros [s|] m (w1 & -> & Hl & Hs).
  2: { by apply gave_up. }
  destruct (Hs s eq_refl) as (k & v & Hseen & ->). assert (version v) as Hv by (destruct Hseen; by eapply valid_version).
  apply (explained_read Take_snapshot w w1 k v); [done|done|]. cbn [sequential].
  rewrite snapshot_wf by apply Hv. by rewrite contents_id.
Qed.

Lemma program_explained c w :
  call_ok c -> valid_log w.1 -> bounded w.1 -> wp (program c) (Free w) (returns explained c (length w.1)).
Proof.
  intros Hc Hv Hb. destruct c as [[r|v|v g|v|]|].
  - by apply wp_set.
  - by apply wp_observe.
  - by apply wp_match.
  - by apply wp_exit.
  - apply wp_clear.
  - apply wp_take_snapshot.
Qed.

(** ** Every interleaving *)

Definition answered (c : call) (n : nat) (o : outcome) (l : list spz_binding) : Prop :=
  call_ok c /\ explained c n o l.

Lemma answered_mono c n o l l' : l `prefix_of` l' -> answered c n o l -> answered c n o l'.
Proof. intros Hp [? ?]. split; [done|by eapply explained_mono]. Qed.

Lemma program_answers c w :
  call_ok c -> valid_log w.1 -> bounded w.1 -> wp (program c) (Free w) (returns answered c (length w.1)).
Proof.
  intros Hc Hv Hb. eapply wp_mono; [by apply program_explained|]. by intros o [w'|].
Qed.

Lemma run_answers n steps s :
  nsteps sys_step steps (sys_initial n) s -> Z.of_nat steps < 2 ^ 62 ->
  exists w holder, sys_inv answered s w holder.
Proof. apply interleaving_inv; [exact answered_mono|exact program_answers]. Qed.

(** C16: in every interleaving of any number of threads, each call that returned gave
    up, did in one step, at a moment between its call and its return, exactly what
    the operation of Task.v does, or found the binding changed meanwhile. What the
    binding holds whenever the lock is free is the newest of its versions: it is
    well-formed, and each version comes from the one before by one such step. The
    bound keeps the 64-bit sequence from wrapping around under a reader. *)
Theorem concurrent_calls_linearize n steps s :
  nsteps sys_step steps (sys_initial n) s -> Z.of_nat steps < 2 ^ 62 ->
  Forall (fun f => explained (fi_call f) (fi_start f) (fi_outcome f) (sy_log s)) (sy_finished s) /\
  valid_log (sy_log s) /\
  (Z.land (bd_sequence (sy_memory s)) 1 = 0 ->
   last (sy_log s) = Some (contents (sy_memory s)) /\ binding_wf (contents (sy_memory s))).
Proof.
  intros Hrun Hn. destruct (run_answers n steps s Hrun Hn) as (w & holder & [Hl [Hv Hb Hq Hf] _ _ Hfin]).
  rewrite Hl in *. split_and!; [|done|].
  - eapply Forall_impl; [exact Hfin|]. by intros f [_ ?].
  - rewrite Hq, even_epoch. destruct w.2; [done|]. intros _. specialize (Hf eq_refl).
    split; [done|]. by apply (valid_last (sy_log s)).
Qed.

(** An identity is only handed out for a bound version. *)
Lemma handed_out c n o l i :
  valid_log l -> answered c n o l -> oc_identity o = Some i ->
  oc_code o = 1 /\ exists k v, l !! k = Some v /\ bd_state v = SPZ_BINDING_BOUND /\
    bd_generation v = id_generation i /\ spz_same_strong_identity (bd_identity v) i = true.
Proof.
  intros Hl [Hc Hex] Hi. destruct Hex as [->|k v _ Hk -> He|k v _ _ _ (? & _ & ->)|? ? ? ? _ _ _ _ _ ->]; try done.
  pose proof (valid_version _ _ _ Hl Hk) as Hv.
  assert (Hmatch : forall view g, oc_identity (sequential (Do (BindMatch view g)) v).1 = Some i ->
    oc_code (sequential (Do (BindMatch view g)) v).1 = 1 /\ exists k v, l !! k = Some v /\
    bd_state v = SPZ_BINDING_BOUND /\ bd_generation v = id_generation i /\
    spz_same_strong_identity (bd_identity v) i = true).
  { intros view g. rewrite match_sequential by done. destruct (negb _); [done|].
    destruct (bd_state v) eqn:Hs; try done. destruct (view_identity view) as [|[current es]]; [done|].
    destruct (negb _); [done|]. destruct (spz_same_strong_identity _ current) eqn:Hsame; cbn [negb]; [|done].
    destruct (negb _); [done|]. intros [= <-]. split; [done|]. by exists k, v. }
  destruct c as [[r|view|view g|view|]|]; try done.
  - cbn [sequential] in Hi. by destruct (spz_binding_set v r) as [[? ?] ?].
  - rewrite observe_sequential in Hi, He |- * by done. destruct (bd_state v) eqn:Hs; try done; [|by eapply Hmatch].
    destruct (view_identity view) as [|[current es]]; [done|]. destruct (_ || _); [done|].
    cbv zeta in *. cbn [fst snd oc_identity reports] in Hi. injection Hi as <-. split; [done|].
    destruct He as [He|He]; [by rewrite <- He in Hs|]. eexists (S k), _. split; [exact He|].
    split_and!; [done|done|]. unfold spz_same_strong_identity. cbn. by rewrite !Z.eqb_refl.
  - by eapply Hmatch.
  - rewrite exit_sequential in Hi by done. by repeat case_match.
  - by rewrite clear_sequential in Hi.
  - cbn [sequential fst] in Hi. by case_match.
Qed.

(** C31: whatever the interleaving, all identities handed out under one generation are
    those of one task: they have the pid, the thread group and the start times of an
    identity that was captured for the request of that generation and satisfies it. *)
Theorem concurrent_identities_agree n steps s f1 f2 i1 i2 :
  nsteps sys_step steps (sys_initial n) s -> Z.of_nat steps < 2 ^ 62 ->
  f1 ∈ sy_finished s -> oc_identity (fi_outcome f1) = Some i1 ->
  f2 ∈ sy_finished s -> oc_identity (fi_outcome f2) = Some i2 ->
  id_generation i1 = id_generation i2 ->
  exists v, v ∈ sy_log s /\ bd_state v = SPZ_BINDING_BOUND /\ bd_generation v = id_generation i1 /\
    spz_selector_matches (bd_request v) (bd_identity v) = true /\
    spz_same_strong_identity (bd_identity v) i1 = true /\
    spz_same_strong_identity (bd_identity v) i2 = true.
Proof.
  intros Hrun Hn H1 E1 H2 E2 Hg.
  destruct (run_answers n steps s Hrun Hn) as (w & holder & [Hl [Hv Hb _ _] _ _ Hfin]). rewrite Hl in *.
  rewrite Forall_forall in Hfin.
  destruct (handed_out _ _ _ _ _ Hv (Hfin _ H1) E1) as (_ & k1 & v1 & Hk1 & Hs1 & Hg1 & Hi1).
  destruct (handed_out _ _ _ _ _ Hv (Hfin _ H2) E2) as (_ & k2 & v2 & Hk2 & Hs2 & Hg2 & Hi2).
  assert (bd_identity v2 = bd_identity v1) as Hid.
  { destruct (Nat.le_ge_cases k1 k2) as [Hle|Hle].
    - destruct (valid_forward _ Hv Hb k1 k2 v1 v2) as [_ _ Hc]; [done..|].
      by destruct Hc as (? & _ & _); [lia|rewrite Hs1; by left|].
    - destruct (valid_forward _ Hv Hb k2 k1 v2 v1) as [_ _ Hc]; [done..|].
      by destruct Hc as (? & _ & _); [lia|rewrite Hs2; by left|]. }
  exists v1. rewrite Hid in Hi2. split_and!; try done; [by eapply list_elem_of_lookup_2|].
  destruct (valid_version _ _ _ Hv Hk1) as [_ Hw]. apply Hw. rewrite Hs1. by left.
Qed.

(** ** A schedule: a reader overtaken by a writer *)

Inductive action := Call (i : nat) (c : call) | Access (i : nat) | Return (i : nat).

Definition act (a : action) (s : sys) : option sys :=
  match a with
  | Call i c =>
      match sy_threads s !! i with
      | Some Outside =>
          Some {| sy_memory := sy_memory s;
                  sy_threads := <[i := Inside c (length (sy_log s)) (program c)]> (sy_threads s);
                  sy_log := sy_log s; sy_finished := sy_finished s |}
      | _ => None
      end
  | Access i =>
      match sy_threads s !! i with
      | Some (Inside c n p) =>
          match exec p (sy_memory s) with
          | Some (p', b, released) =>
              Some {| sy_memory := b; sy_threads := <[i := Inside c n p']> (sy_threads s);
                      sy_log := if released : bool then sy_log s ++ [contents b] else sy_log s;
                      sy_finished := sy_finished s |}
          | None => None
          end
      | _ => None
      end
  | Return i =>
      match sy_threads s !! i with
      | Some (Inside c n (Ret o)) =>
          Some {| sy_memory := sy_memory s; sy_threads := <[i := Outside]> (sy_threads s);
                  sy_log := sy_log s;
                  sy_finished := sy_finished s ++ [{| fi_call := c; fi_start := n; fi_outcome := o |}] |}
      | _ => None
      end
  end.

Fixpoint perform (actions : list action) (s : sys) : option sys :=
  match actions with
  | [] => Some s
  | a :: actions => match act a s with Some s' => perform actions s' | None => None end
  end.

Definition action_ok (a : action) : Prop := match a with Call _ c => call_ok c | _ => True end.

Lemma perform_steps actions s s' :
  Forall action_ok actions -> perform actions s = Some s' -> nsteps sys_step (length actions) s s'.
Proof.
  revert s. induction actions as [|a actions IH]; intros s Hok Hp; [by simplify_eq/=; constructor|].
  apply Forall_cons in Hok as [Ha Hok]. cbn in Hp. destruct (act a s) as [s1|] eqn:E; [|done].
  apply (nsteps_l _ _ _ s1); [|by apply IH]. destruct a as [i c|i|i]; cbn in E.
  - destruct (sy_threads s !! i) as [[]|] eqn:Hi; simplify_eq. by apply step_call.
  - destruct (sy_threads s !! i) as [[|c n p]|] eqn:Hi; try done.
    destruct (exec p (sy_memory s)) as [[[p' b] released]|] eqn:Hx; simplify_eq. by eapply step_access.
  - destruct (sy_threads s !! i) as [[|c n [o| | |]]|] eqn:Hi; simplify_eq. by apply step_return.
Qed.

(** Thread 0 reads half of the binding to observe its task; thread 1 sets a request
    and thread 0 goes on: it reads everything once more, captures its task and
    later matches it. *)
Definition demo_schedule : list action :=
  [Call 0 (Do (BindObserve demo_view))] ++ replicate 20 (Access 0) ++
  [Call 1 (Do (BindSet (Some demo_request)))] ++ replicate 53 (Access 1) ++ [Return 1] ++
  replicate 111 (Access 0) ++ [Return 0; Call 0 (Do (BindMatch demo_view 1))] ++ replicate 51 (Access 0) ++ [Return 0].

Lemma demo_schedule_ok : Forall action_ok demo_schedule.
Proof.
  unfold demo_schedule. repeat (apply Forall_app; split); try (by apply Forall_replicate);
    repeat (apply Forall_cons; split); try apply Forall_nil; try done; apply demo_view_ok.
Qed.

Definition demo_run : sys := default (sys_initial 2) (perform demo_schedule (sys_initial 2)).

Strategy 1000 [perform].
Strategy expand [demo_run].

(** The request was set, the task captured and matched, under generation 1. *)
Lemma demo_run_outcomes :
  map (fun f => (oc_code (fi_outcome f), id_generation <$> oc_identity (fi_outcome f))) (sy_finished demo_run) =
  [(0, None); (1, Some 1); (1, Some 1)].
Proof. vm_compute. reflexivity. Qed.

Lemma demo_run_length : length (sy_finished demo_run) = 3%nat.
Proof. pose proof (f_equal length demo_run_outcomes) as H. by rewrite length_map in H. Qed.

Lemma performed actions s :
  sy_finished s = [] -> sy_finished (default s (perform actions s)) <> [] ->
  perform actions s = Some (default s (perform actions s)).
Proof. by destruct (perform actions s). Qed.

Lemma demo_run_steps : nsteps sys_step (length demo_schedule) (sys_initial 2) demo_run.
Proof.
  apply (perform_steps _ _ _ demo_schedule_ok), (performed demo_schedule (sys_initial 2) eq_refl).
  intros H. pose proof demo_run_length as Hlen. unfold demo_run in Hlen. rewrite H in Hlen. discriminate Hlen.
Qed.

Lemma demo_schedule_bound : Z.of_nat (length demo_schedule) < 2 ^ 62.
Proof. vm_compute. reflexivity. Qed.

Lemma concurrent_calls_linearize_witness :
  Forall (fun f => explained (fi_call f) (fi_start f) (fi_outcome f) (sy_log demo_run)) (sy_finished demo_run) /\
  valid_log (sy_log demo_run) /\
  (Z.land (bd_sequence (sy_memory demo_run)) 1 = 0 ->
   last (sy_log demo_run) = Some (contents (sy_memory demo_run)) /\ binding_wf (contents (sy_memory demo_run))).
Proof. exact (concurrent_calls_linearize 2 _ demo_run demo_run_steps demo_schedule_bound). Defined.

(** The captured identity and the matched one. *)
Definition demo_finished (i : nat) : finished :=
  default {| fi_call := Take_snapshot; fi_start := 0; fi_outcome := reports 0 None |} (sy_finished demo_run !! i).

Definition demo_found (i : nat) : spz_task_identity :=
  default empty_identity (oc_identity (fi_outcome (demo_finished i))).

Lemma demo_finished_in i : (i < 3)%nat -> demo_finished i ∈ sy_finished demo_run.
Proof.
  intros Hi. apply list_elem_of_lookup. exists i. unfold demo_finished.
  destruct (sy_finished demo_run !! i) eqn:E; [done|]. apply lookup_ge_None in E.
  pose proof demo_run_length. lia.
Qed.

Lemma concurrent_identities_agree_witness :
  exists v, v ∈ sy_log demo_run /\ bd_state v = SPZ_BINDING_BOUND /\ bd_generation v = id_generation (demo_found 1) /\
    spz_selector_matches (bd_request v) (bd_identity v) = true /\
    spz_same_strong_identity (bd_identity v) (demo_found 1) = true /\
    spz_same_strong_identity (bd_identity v) (demo_found 2) = true.
Proof.
  apply (concurrent_identities_agree 2 (length demo_schedule) demo_run (demo_finished 1) (demo_finished 2)).
  - exact demo_run_steps.
  - exact demo_schedule_bound.
  - apply demo_finished_in. lia.
  - vm_compute. reflexivity.
  - apply demo_finished_in. lia.
  - vm_compute. reflexivity.
  - vm_compute. reflexivity.
Defined.
