(* ===== verification/SeqlockWeak.v ===== *)
(** * The task binding under release and acquire (kpm/core/task.c)

    Seqlock.v lets every access see the newest value. The source asks for less: the
    sequence is loaded with [__ATOMIC_ACQUIRE], exchanged with [__ATOMIC_ACQ_REL] and
    stored with [__ATOMIC_RELEASE], and every other member is accessed with
    [__ATOMIC_RELAXED]. Here the same programs run on a memory that keeps all writes: a
    load may return an older write than the newest, as long as the thread has not seen
    a newer one to that cell, and a thread that reads a sequence also sees all that the
    thread which wrote it had seen. This is the usual view-based reading of C11 for
    these orders, restricted to executions without load buffering in which the writes
    to a cell are ordered as they are made; the program has no fence. *)

From stdpp Require Import relations.
From S2P Require Import Prelude Abi DeviceProfiles Profile Task Seqlock.

(** ** Memory *)

(** A number for every cell. *)
Definition cell_id {T : Set} (c : cell T) : nat :=
  match c with
  | Sequence => 0 | Generation => 1 | State => 2
  | Rq_binding_id => 3 | Rq_pid => 4 | Rq_mode => 5 | Rq_uid => 6 | Rq_start_boot_time => 7
  | Rq_has_uid => 8 | Rq_has_comm => 9 | Rq_has_start_boot_time => 10
  | Id_generation => 11 | Id_task_cookie => 12 | Id_pid => 13 | Id_tgid => 14 | Id_uid => 15
  | Id_start_time => 16 | Id_start_boot_time => 17
  | Rq_comm index => 18 + 2 * index
  | Id_comm index => 19 + 2 * index
  end%nat.

(** How far a thread has seen the writes to each cell: the place in the list of all
    writes of the newest one it knows of. *)
Definition view : Type := nat -> nat.

Definition view_start : view := fun _ => 0%nat.
Definition view_join (V V' : view) : view := fun c => Nat.max (V c) (V' c).
Definition view_raise (c t : nat) (V : view) : view := fun c' => if (c' =? c)%nat then Nat.max t (V c') else V c'.

(** A write: the cell, all members after it, and what a thread that acquires it gets to
    see. The first of all writes gives every cell its value at the start. *)
Record write := {
  wr_cell : nat;
  wr_memory : spz_binding;
  wr_view : view;
}.

(** The write at place [t] is one to the cell, and not older than the view allows. *)
Definition readable (c : nat) (V : view) (t : nat) (w : write) : bool :=
  (V c <=? t)%nat && ((wr_cell w =? c)%nat || (t =? 0)%nat).

(** No later write to the cell. *)
Definition newest (c t : nat) (h : list write) : bool := forallb (fun w => negb (wr_cell w =? c)%nat) (drop (S t) h).

Definition acquire {T : Set} (c : cell T) (t : nat) (w : write) (V : view) : view :=
  let V := view_raise (cell_id c) t V in if is_sequence c then view_join V (wr_view w) else V.

(** The thread adds a write; one to the sequence releases what the thread has seen. *)
Definition add_write {T : Set} (c : cell T) (v : T) (V : view) (h : list write) : view * list write :=
  let V := view_raise (cell_id c) (length h) V in
  (V, h ++ [{| wr_cell := cell_id c;
               wr_memory := put c v (from_option wr_memory spz_binding_init (last h));
               wr_view := if is_sequence c then V else view_start |}]).

(** One access that reads, if it does, the write at place [t]: the rest of the program,
    the view, the writes, and whether the sequence was stored. An exchange succeeds on
    the newest write only. *)
Definition weak_exec {A} (p : prog A) (V : view) (h : list write) (t : nat) : option (prog A * view * list write * bool) :=
  match p with
  | Ret _ => None
  | Load c k =>
      match h !! t with
      | Some w => if readable (cell_id c) V t w then Some (k (get c (wr_memory w)), acquire c t w V, h, false) else None
      | None => None
      end
  | Store c v k => let '(V, h) := add_write c v V h in Some (k, V, h, is_sequence c)
  | Cas e d k =>
      match h !! t with
      | Some w =>
          if readable (cell_id Sequence) V t w then
            let V := acquire Sequence t w V in
            if get Sequence (wr_memory w) =? e then
              if newest (cell_id Sequence) t h
              then let '(V, h) := add_write Sequence d V h in Some (k true, V, h, false)
              else None
            else Some (k false, V, h, false)
          else None
      | None => None
      end
  end.

(** ** Threads *)

Inductive weak_thread :=
| Weak_outside (V : view)
| Weak_inside (V : view) (c : call) (p : prog outcome).

(** [wk_log] and [wk_finished] are a record for the theorems: the contents at the start
    and at every release of the lock, and the calls that returned, oldest first. *)
Record weak_sys := {
  wk_writes : list write;
  wk_threads : list weak_thread;
  wk_log : list spz_binding;
  wk_finished : list (call * outcome);
}.

(** All members as of the newest writes. *)
Definition newest_memory (h : list write) : spz_binding := from_option wr_memory spz_binding_init (last h).

Inductive weak_step : weak_sys -> weak_sys -> Prop :=
| weak_call s i V c :
    wk_threads s !! i = Some (Weak_outside V) -> call_ok c ->
    weak_step s {| wk_writes := wk_writes s; wk_threads := <[i := Weak_inside V c (program c)]> (wk_threads s);
                   wk_log := wk_log s; wk_finished := wk_finished s |}
| weak_access s i V c p t p' V' h released :
    wk_threads s !! i = Some (Weak_inside V c p) ->
    weak_exec p V (wk_writes s) t = Some (p', V', h, released) ->
    weak_step s {| wk_writes := h; wk_threads := <[i := Weak_inside V' c p']> (wk_threads s);
                   wk_log := if released : bool then wk_log s ++ [contents (newest_memory h)] else wk_log s;
                   wk_finished := wk_finished s |}
| weak_return s i V c o :
    wk_threads s !! i = Some (Weak_inside V c (Ret o)) ->
    weak_step s {| wk_writes := wk_writes s; wk_threads := <[i := Weak_outside V]> (wk_threads s);
                   wk_log := wk_log s; wk_finished := wk_finished s ++ [(c, o)] |}.

Definition weak_initial (n : nat) : weak_sys :=
  {| wk_writes := [{| wr_cell := 0; wr_memory := spz_binding_init; wr_view := view_start |}];
     wk_threads := replicate n (Weak_outside view_start);
     wk_log := [contents spz_binding_init]; wk_finished := [] |}.

(** ** Schedules

    [Read_new] reads the newest write where it reads, [Read_old] the oldest one that the
    view of the thread allows, several accesses at once. *)

Inductive weak_action := Weak_call (i : nat) (c : call) | Read_new (i times : nat) | Read_old (i times : nat) | Weak_return (i : nat).

Definition reads_cell {A} (p : prog A) : nat := match p with Load c _ => cell_id c | _ => cell_id Sequence end.

(** The place of the newest write to a cell. *)
Fixpoint newest_place (c t : nat) (h : list write) (found : nat) : nat :=
  match h with
  | [] => found
  | w :: h => newest_place c (S t) h (if (wr_cell w =? c)%nat then t else found)
  end.

Fixpoint weak_accesses (i times : nat) (new : bool) (s : weak_sys) : option weak_sys :=
  match times with
  | O => Some s
  | S times =>
      match wk_threads s !! i with
      | Some (Weak_inside V c p) =>
          let t := if new then newest_place (reads_cell p) 0 (wk_writes s) 0 else V (reads_cell p) in
          match weak_exec p V (wk_writes s) t with
          | Some (p', V', h, released) =>
              weak_accesses i times new
                {| wk_writes := h; wk_threads := <[i := Weak_inside V' c p']> (wk_threads s);
                   wk_log := if released : bool then wk_log s ++ [contents (newest_memory h)] else wk_log s;
                   wk_finished := wk_finished s |}
          | None => None
          end
      | _ => None
      end
  end.

Definition weak_act (a : weak_action) (s : weak_sys) : option weak_sys :=
  match a with
  | Weak_call i c =>
      match wk_threads s !! i with
      | Some (Weak_outside V) =>
          Some {| wk_writes := wk_writes s; wk_threads := <[i := Weak_inside V c (program c)]> (wk_threads s);
                  wk_log := wk_log s; wk_finished := wk_finished s |}
      | _ => None
      end
  | Read_new i times => weak_accesses i times true s
  | Read_old i times => weak_accesses i times false s
  | Weak_return i =>
      match wk_threads s !! i with
      | Some (Weak_inside V c (Ret o)) =>
          Some {| wk_writes := wk_writes s; wk_threads := <[i := Weak_outside V]> (wk_threads s);
                  wk_log := wk_log s; wk_finished := wk_finished s ++ [(c, o)] |}
      | _ => None
      end
  end.

Fixpoint weak_perform (actions : list weak_action) (s : weak_sys) : option weak_sys :=
  match actions with
  | [] => Some s
  | a :: actions => match weak_act a s with Some s' => weak_perform actions s' | None => None end
  end.

(** ** What the versions promise *)

(** What one holder of the lock does to the contents. *)
Inductive moves (v : spz_binding) : spz_binding -> Prop :=
| moves_same : moves v v
| moves_set r :
    spz_request_valid (Some r) = true ->
    moves v (v <| bd_request := r |> <| bd_identity := empty_identity |>
               <| bd_generation := spz_next_generation (bd_generation v) |> <| bd_state := SPZ_BINDING_PENDING |>)
| moves_clear :
    moves v (v <| bd_request := empty_request |> <| bd_identity := empty_identity |>
               <| bd_generation := spz_next_generation (bd_generation v) |> <| bd_state := SPZ_BINDING_EMPTY |>)
| moves_bind i :
    bd_state v = SPZ_BINDING_PENDING -> id_generation i = bd_generation v ->
    moves v (v <| bd_identity := i |> <| bd_state := SPZ_BINDING_BOUND |>)
| moves_end s :
    bd_state v = SPZ_BINDING_BOUND -> s = SPZ_BINDING_STALE \/ s = SPZ_BINDING_EXITED ->
    moves v (v <| bd_state := s |>).

Inductive moving_log : list spz_binding -> Prop :=
| moving_start : moving_log [contents spz_binding_init]
| moving_release l v v' : moving_log l -> last l = Some v -> moves v v' -> moving_log (l ++ [v']).

(** The calls that report a change, and the version they have made. *)
Definition succeeded (c : call) (o : outcome) : Prop :=
  match c with
  | Do (BindSet (Some _)) | Do BindClear => oc_code o = 0
  | Do (BindExit _) => oc_code o = 1
  | _ => False
  end.

Definition effect (c : call) (o : outcome) (v : spz_binding) : Prop :=
  match c with
  | Do (BindSet (Some r)) => bd_state v = SPZ_BINDING_PENDING /\ bd_request v = r /\ oc_generation o = Some (bd_generation v)
  | Do BindClear => bd_state v = SPZ_BINDING_EMPTY
  | Do (BindExit _) => bd_state v = SPZ_BINDING_EXITED
  | _ => True
  end.
