(* ===== verification/SeqlockWeakSpec.v ===== *)
(** * The sequence lock under release and acquire

    What is left of the guarantees of SeqlockCalls.v when loads may return older values:
    the writers still exclude each other and act on the newest version, so that the
    versions move on as they should and no reported change is lost; but a snapshot may
    mix two versions, and a hook that acts on it may capture a task nobody asked for. *)

From stdpp Require Import relations.
From S2P Require Import Prelude Abi DeviceProfiles Profile Task Seqlock SeqlockSpec SeqlockCalls SeqlockWeak.

(** ** Histories *)

(** A store leaves the other cells alone. *)
Lemma get_put_other {T T' : Set} (c : cell T) (c' : cell T') v b :
  cell_id c <> cell_id c' -> get c (put c' v b) = get c b.
Proof.
  destruct c, c'; cbn [cell_id]; intros Hne; try done; cbn; f_equal; apply list_lookup_insert_ne; lia.
Qed.

(** Every write but the first changes the members by a store. *)
Inductive history : list write -> Prop :=
| history_start w : history [w]
| history_add h w0 {T : Set} (c : cell T) v V :
    history h -> last h = Some w0 ->
    history (h ++ [{| wr_cell := cell_id c; wr_memory := put c v (wr_memory w0); wr_view := V |}]).

Lemma newest_memory_last h w : last h = Some w -> newest_memory h = wr_memory w.
Proof. unfold newest_memory. by intros ->. Qed.

Lemma newest_snoc c t h w :
  (t < length h)%nat -> newest c t (h ++ [w]) = newest c t h && negb (wr_cell w =? c)%nat.
Proof. intros Ht. unfold newest. rewrite drop_app_le, forallb_app by lia. cbn. by rewrite andb_true_r. Qed.

(** The newest write to a cell has its value. *)
Lemma newest_value {T : Set} (c : cell T) h t w :
  history h -> h !! t = Some w -> newest (cell_id c) t h = true -> get c (wr_memory w) = get c (newest_memory h).
Proof.
  intros Hh. revert t w. induction Hh as [w0|h w0 T' c' v V Hh IH Hl]; intros t w Ht Hn.
  - by apply list_lookup_singleton_Some in Ht as [-> ->].
  - unfold newest_memory. rewrite last_snoc. cbn. apply lookup_snoc_Some in Ht as [[Hlt Ht]|[-> <-]]; [|done].
    rewrite newest_snoc in Hn by done. apply andb_true_iff in Hn as [Hn Hc]. cbn in Hc.
    apply negb_true_iff, Nat.eqb_neq in Hc. rewrite (IH t w Ht Hn), (newest_memory_last h w0 Hl).
    symmetry. apply get_put_other. congruence.
Qed.

(** The view has seen every write. *)
Definition covers (V : view) (h : list write) : Prop := forall t w, h !! t = Some w -> (t <= V (wr_cell w))%nat.

Lemma covers_newest V h c t w : covers V h -> h !! t = Some w -> readable c V t w = true -> newest c t h = true.
Proof.
  intros Hc Ht Hr. apply andb_true_iff in Hr as [Hv _]. apply Nat.leb_le in Hv.
  unfold newest. apply forallb_forall. intros w' Hw'. apply list_elem_of_In, list_elem_of_lookup in Hw' as [k Hk].
  rewrite lookup_drop in Hk. specialize (Hc _ _ Hk). apply negb_true_iff, Nat.eqb_neq. intros E. rewrite E in Hc. lia.
Qed.

Lemma view_raise_ge c t V c' : (V c' <= view_raise c t V c')%nat.
Proof. unfold view_raise. case_match; lia. Qed.

Lemma view_raise_at c t V : (t <= view_raise c t V c)%nat.
Proof. unfold view_raise. rewrite Nat.eqb_refl. lia. Qed.

Lemma covers_more V V' h : covers V h -> (forall c, (V c <= V' c)%nat) -> covers V' h.
Proof. intros Hc Hv t w Ht. etrans; [by eapply Hc|done]. Qed.

Lemma covers_acquire {T : Set} (c : cell T) t w V h : covers V h -> covers (acquire c t w V) h.
Proof.
  intros Hc. eapply covers_more; [done|]. intros c'. unfold acquire. pose proof (view_raise_ge (cell_id c) t V c').
  destruct (is_sequence c); [|done]. unfold view_join. lia.
Qed.

(** A write of a thread that has seen all. *)
Lemma covers_add {T : Set} (c : cell T) v V h : covers V h -> covers (add_write c v V h).1 (add_write c v V h).2.
Proof.
  intros Hc t w Ht. cbn in *. apply lookup_snoc_Some in Ht as [[_ Ht]|[-> <-]]; [|apply view_raise_at].
  etrans; [by eapply Hc|apply view_raise_ge].
Qed.

Lemma history_write {T : Set} (c : cell T) v V h : history h -> history (add_write c v V h).2.
Proof.
  intros Hh. cbn. destruct (last h) as [w|] eqn:E; [by apply (history_add h w c)|].
  apply last_None in E as ->. inversion Hh as [|? ? ? ? ? ? ? ? E]. by destruct h.
Qed.

Lemma newest_memory_add {T : Set} (c : cell T) v V h : newest_memory (add_write c v V h).2 = put c v (newest_memory h).
Proof. unfold newest_memory. cbn. by rewrite last_snoc. Qed.

(** ** A program logic for one thread *)

(** Outside the lock a thread knows some versions of the log and nothing of what it will
    read; inside it knows the version it found and the newest memory. *)
Inductive weak_mode := Weak_free (known : list spz_binding) | Weak_held (known : list spz_binding) (v b : spz_binding).

Fixpoint weak_wp {A} (p : prog A) (m : weak_mode) (Φ : A -> weak_mode -> Prop) : Prop :=
  match p with
  | Ret a => Φ a m
  | Load c k =>
      match m with
      | Weak_free _ => forall x, weak_wp (k x) m Φ
      | Weak_held _ _ b => weak_wp (k (get c b)) m Φ
      end
  | Store c x k =>
      match m with
      | Weak_free _ => False
      | Weak_held known v b =>
          if is_sequence c then
            Z.land (bd_sequence (put c x b)) 1 = 0 /\ moves v (contents b) /\ weak_wp k (Weak_free (contents b :: known)) Φ
          else weak_wp k (Weak_held known v (put c x b)) Φ
      end
  | Cas e d k =>
      match m with
      | Weak_free known =>
          weak_wp (k false) m Φ /\ Z.land e 1 = 0 /\ Z.land d 1 = 1 /\
          forall b, sized b -> bd_sequence b = e -> weak_wp (k true) (Weak_held known (contents b) (b <| bd_sequence := d |>)) Φ
      | Weak_held _ _ _ => False
      end
  end.

Lemma weak_wp_mono {A} (p : prog A) m (Φ Ψ : A -> weak_mode -> Prop) :
  weak_wp p m Φ -> (forall a m', Φ a m' -> Ψ a m') -> weak_wp p m Ψ.
Proof.
  intros Hp HΦ. revert m Hp. induction p as [a|T c k IH|T c v k IH|e d k IH]; intros m Hp; cbn in *.
  - by apply HΦ.
  - destruct m; eauto.
  - destruct m; [done|]. destruct (is_sequence c); [destruct Hp as (? & ? & ?)|]; eauto.
  - destruct m; [|done]. destruct Hp as (? & ? & ? & ?). split_and!; eauto.
Qed.

Lemma weak_wp_bind {A B} (p : prog A) (f : A -> prog B) m Φ :
  weak_wp p m (fun a m' => weak_wp (f a) m' Φ) -> weak_wp (p ≫= f) m Φ.
Proof.
  revert m. induction p as [a|T c k IH|T c v k IH|e d k IH]; intros m Hp; cbn in *.
  - done.
  - destruct m; eauto.
  - destruct m; [done|]. destruct (is_sequence c); [destruct Hp as (? & ? & ?)|]; eauto.
  - destruct m; [|done]. destruct Hp as (? & ? & ? & ?). split_and!; eauto.
Qed.

Lemma weak_wp_call {A B} (p : prog A) (f : A -> prog B) m (Φ : A -> weak_mode -> Prop) Ψ :
  weak_wp p m Φ -> (forall a m', Φ a m' -> weak_wp (f a) m' Ψ) -> weak_wp (p ≫= f) m Ψ.
Proof. intros Hp Hf. by apply weak_wp_bind, (weak_wp_mono p m Φ). Qed.

(** ** Outside the lock *)

Fixpoint only_loads {A} (p : prog A) : Prop :=
  match p with Ret _ => True | Load c k => forall x, only_loads (k x) | _ => False end.

Lemma only_loads_bind {A B} (p : prog A) (f : A -> prog B) :
  only_loads p -> (forall a, only_loads (f a)) -> only_loads (p ≫= f).
Proof. intros Hp Hf. induction p; cbn in *; auto. Qed.

Lemma weak_wp_loads {A} (p : prog A) known (Φ : A -> weak_mode -> Prop) :
  only_loads p -> (forall a, Φ a (Weak_free known)) -> weak_wp p (Weak_free known) Φ.
Proof. intros Hp HΦ. induction p; cbn in *; auto; done. Qed.

Lemma loads_bytes (c : nat -> cell Z) i n : only_loads (atomic_load_bytes c i n).
Proof. revert i. induction n as [|n IH]; intros i; [done|]. cbn. intros x. by apply only_loads_bind. Qed.

Lemma loads_binding : only_loads atomic_load_binding.
Proof.
  cbn. intros g s. unfold atomic_load_request, atomic_load_identity.
  repeat first [intros ? | apply loads_bytes | apply only_loads_bind | exact I | progress cbn [only_loads load]].
Qed.

Lemma loads_snapshot : only_loads atomic_binding_snapshot.
Proof.
  unfold atomic_binding_snapshot. induction SPZ_BINDING_SNAPSHOT_ATTEMPTS as [|n IH]; [done|].
  cbn [atomic_snapshot_loop]. intros before. change (only_loads (if negb (Z.land before 1 =? 0) then atomic_snapshot_loop n
    else snapshot ← atomic_load_binding; after ← load Sequence;
         if (before =? after) && (Z.land after 1 =? 0) then mret (Some snapshot) else atomic_snapshot_loop n)).
  destruct (negb _); [done|]. apply only_loads_bind; [apply loads_binding|]. intros s after.
  change (only_loads (if (before =? after) && (Z.land after 1 =? 0) then mret (Some s) else atomic_snapshot_loop n)).
  by destruct (_ && _).
Qed.

Lemma land_u64 x : Z.land (u64 x) 1 = Z.land x 1.
Proof. rewrite !land_1. unfold u64. Z.div_mod_to_equations. lia. Qed.

Lemma land_succ x : Z.land (x + 1) 1 = 1 - Z.land x 1.
Proof. rewrite !land_1. Z.div_mod_to_equations. lia. Qed.

Lemma weak_wp_write_begin known Φ :
  Φ None (Weak_free known) ->
  (forall b odd, sized b -> Z.land odd 1 = 1 -> Φ (Some odd) (Weak_held known (contents b) (b <| bd_sequence := odd |>))) ->
  weak_wp atomic_write_begin (Weak_free known) Φ.
Proof.
  intros H0 H1. unfold atomic_write_begin. induction SPZ_BINDING_WRITE_ATTEMPTS as [|n IH]; [done|].
  cbn [atomic_write_begin_loop]. intros sequence.
  change (weak_wp (if negb (Z.land sequence 1 =? 0) then atomic_write_begin_loop n
    else Cas sequence (u64 (sequence + 1)) (fun won => if won then mret (Some (u64 (sequence + 1))) else atomic_write_begin_loop n))
    (Weak_free known) Φ). destruct (Z.eqb_spec (Z.land sequence 1) 0) as [E|E]; cbn [negb]; [|done].
  assert (Z.land (u64 (sequence + 1)) 1 = 1) as Hodd by (rewrite land_u64, land_succ, E; done).
  split_and!; [done..|]. intros b Hb <-. by apply H1.
Qed.

(** ** Inside the lock *)

Fixpoint only_stores {A} (p : prog A) : Prop :=
  match p with Ret _ => True | Store c _ k => is_sequence c = false /\ only_stores k | _ => False end.

Lemma only_stores_bind {A B} (p : prog A) (f : A -> prog B) :
  only_stores p -> (forall a, only_stores (f a)) -> only_stores (p ≫= f).
Proof. intros Hp Hf. induction p; cbn in *; naive_solver. Qed.

(** Stores do what they do in a memory without delays. *)
Lemma weak_wp_stores {A} (p : prog A) known v b b' (Φ : A -> weak_mode -> Prop) :
  only_stores p -> wp p (Held b []) (fun _ m => m = Held b' []) -> (forall a, Φ a (Weak_held known v b')) ->
  weak_wp p (Weak_held known v b) Φ.
Proof.
  intros Hp Hw HΦ. revert b Hw. induction p as [a|T c k IH|T c x k IH|e d k IH]; intros b Hw; cbn in *; try done.
  - injection Hw as ->. auto.
  - destruct Hp as [Hc Hp]. rewrite Hc in *. auto.
Qed.

Lemma stores_bytes (c : nat -> cell Z) i source : (forall i, is_sequence (c i) = false) -> only_stores (atomic_store_bytes c i source).
Proof. intros Hc. revert i. induction source; intros i; cbn; auto. Qed.

Lemma stores_request r : only_stores (atomic_store_request r).
Proof. cbn. do 5 (split; [done|]). by apply only_stores_bind; [apply stores_bytes|]. Qed.

Lemma stores_identity i : only_stores (atomic_store_identity i).
Proof. cbn. do 7 (split; [done|]). by apply stores_bytes. Qed.

Lemma weak_wp_store_request r known v b (Φ : unit -> weak_mode -> Prop) :
  sized b -> request_typed r -> Φ tt (Weak_held known v (b <| bd_request := r |>)) ->
  weak_wp (atomic_store_request r) (Weak_held known v b) Φ.
Proof.
  intros Hb Hr HΦ. eapply weak_wp_stores; [apply stores_request|by apply wp_store_request|]. by intros [].
Qed.

Lemma weak_wp_store_identity i known v b (Φ : unit -> weak_mode -> Prop) :
  sized b -> length (id_comm i) = SPZ_COMM_LEN -> Φ tt (Weak_held known v (b <| bd_identity := i |>)) ->
  weak_wp (atomic_store_identity i) (Weak_held known v b) Φ.
Proof.
  intros Hb Hi HΦ. eapply weak_wp_stores; [apply stores_identity|by apply wp_store_identity|]. by intros [].
Qed.

Lemma weak_wp_store {A} {T : Set} (c : cell T) x (p : prog A) known v b Φ :
  is_sequence c = false -> weak_wp p (Weak_held known v (put c x b)) Φ -> weak_wp (store c x ;; p) (Weak_held known v b) Φ.
Proof. intros Hc Hp. cbn. by rewrite Hc. Qed.

Lemma weak_wp_load {A} {T : Set} (c : cell T) (p : T -> prog A) known v b Φ :
  weak_wp (p (get c b)) (Weak_held known v b) Φ -> weak_wp (load c ≫= p) (Weak_held known v b) Φ.
Proof. done. Qed.

Lemma weak_wp_write_end {A} odd known v b (p : prog A) Φ :
  Z.land odd 1 = 1 -> moves v (contents b) -> weak_wp p (Weak_free (contents b :: known)) Φ ->
  weak_wp (atomic_write_end odd ;; p) (Weak_held known v b) Φ.
Proof. intros Ho Hm Hp. cbn. split_and!; [|done..]. by rewrite land_u64, land_succ, Ho. Qed.

(** ** Calls *)

(** A call ends outside the lock, with the version it reports. *)
Definition weak_returns (c : call) (o : outcome) (m : weak_mode) : Prop :=
  match m with Weak_free known => succeeded c o -> exists v, v ∈ known /\ effect c o v | Weak_held _ _ _ => False end.

Lemma weak_set r known :
  request_typed r -> weak_wp (program (Do (BindSet (Some r)))) (Weak_free known) (weak_returns (Do (BindSet (Some r)))).
Proof.
  intros Hr. apply weak_wp_bind. unfold atomic_binding_set. destruct (spz_request_valid (Some r)) eqn:Hv; cbn [negb]; [|done].
  apply weak_wp_bind, weak_wp_write_begin; [by cbn|]. intros b odd Hb Ho.
  apply weak_wp_load. apply weak_wp_bind, weak_wp_store_request; [done..|].
  apply weak_wp_bind, weak_wp_store_identity; [by destruct Hb|done|]. do 2 (apply weak_wp_store; [done|]).
  apply weak_wp_write_end; [done|exact (moves_set (contents b) r Hv)|].
  intros _. eexists. split; [by left|]. done.
Qed.

Lemma weak_clear known : weak_wp (program (Do BindClear)) (Weak_free known) (weak_returns (Do BindClear)).
Proof.
  apply weak_wp_bind. apply weak_wp_bind, weak_wp_write_begin; [by cbn|]. intros b odd Hb Ho.
  apply weak_wp_load. apply weak_wp_bind, weak_wp_store_request; [done..|].
  apply weak_wp_bind, weak_wp_store_identity; [by destruct Hb|done|]. do 2 (apply weak_wp_store; [done|]).
  apply weak_wp_write_end; [done|exact (moves_clear (contents b))|].
  intros _. eexists. split; [by left|]. done.
Qed.

Lemma weak_wp_changed g s known v b (Φ : bool -> weak_mode -> Prop) :
  Φ true (Weak_held known v b) ->
  (bd_generation b = g -> bd_state b = s -> Φ false (Weak_held known v b)) ->
  weak_wp (atomic_changed g s) (Weak_held known v b) Φ.
Proof.
  intros Ht Hf. apply weak_wp_load. cbn [get]. destruct (Z.eqb_spec (bd_generation b) g) as [Eg|]; [|done].
  apply weak_wp_load. cbn. case_bool_decide as Es; [by apply Hf|done].
Qed.

Ltac outer_if := cbv zeta; match goal with |- weak_wp (if ?b then _ else _) _ _ => destruct b end.

Lemma weak_mark g s known (Φ : Z -> weak_mode -> Prop) :
  s = SPZ_BINDING_STALE \/ s = SPZ_BINDING_EXITED ->
  (forall code known', code < 0 -> Φ code (Weak_free known')) ->
  (forall v, bd_state v = s -> Φ 0 (Weak_free (v :: known))) ->
  weak_wp (atomic_mark_state_if_generation g SPZ_BINDING_BOUND s) (Weak_free known) Φ.
Proof.
  intros Hs Hf H0. apply weak_wp_bind, weak_wp_write_begin; [by apply Hf|]. intros b odd Hb Ho.
  apply weak_wp_bind, weak_wp_changed.
  - apply weak_wp_write_end; [done|apply moves_same|]. by apply Hf.
  - intros Eg Es. apply weak_wp_store; [done|].
    apply weak_wp_write_end; [done|exact (moves_end (contents b) s Es Hs)|]. by apply H0.
Qed.

Lemma weak_matches v g known (Φ : Z * option spz_task_identity -> weak_mode -> Prop) :
  (forall r known', Φ r (Weak_free known')) ->
  weak_wp (atomic_binding_matches_current v g) (Weak_free known) Φ.
Proof.
  intros HΦ. apply weak_wp_bind, weak_wp_loads; [apply loads_snapshot|]. intros [s|]; [|by apply HΦ].
  outer_if; [by apply HΦ|]. destruct (sn_state s); try by apply HΦ.
  destruct (view_identity v) as [|[current es]]; [by apply HΦ|]. outer_if; [by apply HΦ|].
  outer_if; [apply weak_wp_bind, weak_mark; auto; intros; by apply HΦ|].
  outer_if; [apply weak_wp_bind, weak_mark; auto; intros; by apply HΦ|by apply HΦ].
Qed.

Lemma weak_observe v known (Φ : Z * option spz_task_identity -> weak_mode -> Prop) :
  view_ok v -> (forall r known', Φ r (Weak_free known')) ->
  weak_wp (atomic_binding_observe_current v) (Weak_free known) Φ.
Proof.
  intros [Hp Hl] HΦ. apply weak_wp_bind, weak_wp_loads; [apply loads_snapshot|]. intros [s|]; [|by apply HΦ].
  destruct (sn_state s); [by apply HΦ| |by apply weak_matches|by apply HΦ..].
  destruct (view_identity v) as [|[current es]] eqn:Hi; [by apply HΦ|]. outer_if; [by apply HΦ|].
  pose proof (extract_comm_length _ _ _ _ _ _ Hp Hl Hi) as Hc.
  apply weak_wp_bind, weak_wp_write_begin; [by apply HΦ|]. intros b odd Hb Ho.
  apply weak_wp_bind, weak_wp_changed.
  - apply weak_wp_write_end; [done|apply moves_same|]. by apply HΦ.
  - intros Eg Es. apply weak_wp_bind, weak_wp_store_identity; [done|done|]. apply weak_wp_store; [done|].
    apply weak_wp_write_end; [done|apply (moves_bind (contents b)); [exact Es|exact (eq_sym Eg)]|]. by apply HΦ.
Qed.

Lemma weak_exit v known : weak_wp (program (Do (BindExit v))) (Weak_free known) (weak_returns (Do (BindExit v))).
Proof.
  apply weak_wp_bind, weak_wp_bind, weak_wp_loads; [apply loads_snapshot|]. intros [s|]; [|by cbn].
  case_bool_decide; [by cbn|]. destruct (view_identity v) as [r|[current es]] eqn:Hi.
  { cbn. intros ->. unfold view_identity in Hi. apply extract_inl_neg in Hi. lia. }
  outer_if; [by cbn|]. apply weak_wp_bind, weak_mark; [by right|intros code known' Hc|intros u Hu].
  - cbn. rewrite eqb_ne by lia. lia.
  - cbn. intros _. exists u. split; [by left|done].
Qed.

Lemma weak_program c known : call_ok c -> weak_wp (program c) (Weak_free known) (weak_returns c).
Proof.
  intros Hc. destruct c as [[[r|]|v|v g|v|]|].
  - by apply weak_set.
  - by cbn.
  - apply weak_wp_bind, weak_observe; [done|]. intros; by cbn.
  - apply weak_wp_bind, weak_matches. intros; by cbn.
  - by apply weak_exit.
  - apply weak_clear.
  - apply weak_wp_bind, weak_wp_loads; [apply loads_snapshot|]. intros [s|]; by cbn.
Qed.

(** ** Every execution *)

Lemma sized_put {T : Set} (c : cell T) x b : sized b -> sized (put c x b).
Proof. intros [H1 H2]. destruct c; split; cbn; rewrite ?length_insert; done. Qed.

(** A thread outside the lock, and the one that holds it. *)
Definition weak_thread_ok (log : list spz_binding) (t : weak_thread) : Prop :=
  match t with
  | Weak_outside _ => True
  | Weak_inside _ c p => exists known, known ⊆ log /\ weak_wp p (Weak_free known) (weak_returns c)
  end.

Definition weak_holder_ok (h : list write) (log : list spz_binding) (t : weak_thread) : Prop :=
  match t with
  | Weak_outside _ => False
  | Weak_inside V c p =>
      covers V h /\ exists known v, known ⊆ log /\ last log = Some v /\
        weak_wp p (Weak_held known v (newest_memory h)) (weak_returns c)
  end.

(** The lock is free: the newest write is a release that shows everything. *)
Definition weak_free_ok (h : list write) (log : list spz_binding) : Prop :=
  exists w, last h = Some w /\ wr_cell w = cell_id Sequence /\ covers (wr_view w) h /\
    last log = Some (contents (newest_memory h)).

Record weak_inv (s : weak_sys) (holder : option nat) : Prop := {
  wi_history : history (wk_writes s);
  wi_sized : sized (newest_memory (wk_writes s));
  wi_log : moving_log (wk_log s);
  wi_parity : Z.land (bd_sequence (newest_memory (wk_writes s))) 1 = match holder with Some _ => 1 | None => 0 end;
  wi_free : holder = None -> weak_free_ok (wk_writes s) (wk_log s);
  wi_others : forall i t, wk_threads s !! i = Some t -> holder <> Some i -> weak_thread_ok (wk_log s) t;
  wi_holder : forall i, holder = Some i -> exists t, wk_threads s !! i = Some t /\ weak_holder_ok (wk_writes s) (wk_log s) t;
  wi_finished : Forall (fun f => succeeded f.1 f.2 -> exists v, v ∈ wk_log s /\ effect f.1 f.2 v) (wk_finished s);
}.

Lemma weak_thread_ok_more log log' t : log ⊆ log' -> weak_thread_ok log t -> weak_thread_ok log' t.
Proof. intros Hl. destruct t; cbn; [done|]. intros (known & ? & ?). exists known. split; [by etrans|done]. Qed.

(** A reader moves on: only its own thread changes. *)
Lemma weak_inv_reader s holder i t :
  weak_inv s holder -> holder <> Some i -> weak_thread_ok (wk_log s) t ->
  weak_inv {| wk_writes := wk_writes s; wk_threads := <[i := t]> (wk_threads s); wk_log := wk_log s;
              wk_finished := wk_finished s |} holder.
Proof.
  intros [? ? ? ? ? Ho Hh ?] Hm Ht. split; try done; cbn.
  - intros j t' Hj Hne. apply lookup_insert_cases in Hj as [[-> ->]|[_ Hj]]; [done|by eapply Ho].
  - intros j Hj. destruct (Hh j Hj) as (t' & Hj' & ?). exists t'. split; [|done].
    rewrite list_lookup_insert_ne by congruence. done.
Qed.

(** The newest write to the cell of the last write is the last. *)
Lemma newest_last c t h w w' : last h = Some w -> wr_cell w = c -> h !! t = Some w' -> newest c t h = true -> w' = w.
Proof.
  intros Hl Hc Ht Hn. apply last_Some in Hl as [h0 ->]. apply lookup_snoc_Some in Ht as [[Hlt Ht]|[_ Ht]]; [|done].
  rewrite newest_snoc in Hn by done. apply andb_true_iff in Hn as [_ Hn]. by rewrite Hc, Nat.eqb_refl in Hn.
Qed.

Lemma covers_acquired t w V h : covers (wr_view w) h -> covers (acquire Sequence t w V) h.
Proof. intros Hc. eapply covers_more; [done|]. intros c. cbn. unfold view_join. lia. Qed.

(** The holder loads or stores a member. *)
Lemma weak_inv_member s i V c p h known v b :
  weak_inv s (Some i) -> wk_threads s !! i = Some (Weak_inside V c p) ->
  forall p' V', history h -> sized b -> newest_memory h = b ->
  bd_sequence b = bd_sequence (newest_memory (wk_writes s)) ->
  covers V' h -> known ⊆ wk_log s -> last (wk_log s) = Some v -> weak_wp p' (Weak_held known v b) (weak_returns c) ->
  weak_inv {| wk_writes := h; wk_threads := <[i := Weak_inside V' c p']> (wk_threads s); wk_log := wk_log s;
              wk_finished := wk_finished s |} (Some i).
Proof.
  intros [? ? ? Hp ? Ho Hh ?] Hi p' V' ? ? <- Hq ? ? ? ?. split; try done; cbn -[newest_memory].
  - by rewrite Hq.
  - intros j t Hj Hne. apply lookup_insert_cases in Hj as [[-> ->]|[_ Hj]]; [done|by eapply Ho].
  - intros j [= <-]. eexists. split; [apply list_lookup_insert_eq; by apply lookup_lt_Some in Hi|]. split; [done|]. eauto.
Qed.

(** The holder releases the lock. *)
Lemma weak_inv_release s i V c p V' p' x known v :
  weak_inv s (Some i) -> wk_threads s !! i = Some (Weak_inside V c p) -> covers V (wk_writes s) ->
  known ⊆ wk_log s -> last (wk_log s) = Some v ->
  Z.land x 1 = 0 -> moves v (contents (newest_memory (wk_writes s))) ->
  weak_wp p' (Weak_free (contents (newest_memory (wk_writes s)) :: known)) (weak_returns c) ->
  let h := (add_write Sequence x V (wk_writes s)).2 in
  weak_inv {| wk_writes := h; wk_threads := <[i := Weak_inside V' c p']> (wk_threads s);
              wk_log := wk_log s ++ [contents (newest_memory h)]; wk_finished := wk_finished s |} None.
Proof.
  intros [? Hs ? Hp ? Ho Hh Hf] Hi HV Hk Hl Hx Hm Hw h.
  assert (newest_memory h = put Sequence x (newest_memory (wk_writes s))) as Em by apply newest_memory_add.
  assert (contents (newest_memory h) = contents (newest_memory (wk_writes s))) as Ec by by rewrite Em.
  split; cbn -[h newest_memory]; rewrite ?Ec; try done.
  - by apply history_write.
  - rewrite Em. by apply sized_put.
  - by eapply moving_release.
  - by rewrite Em.
  - intros _. eexists. split; [unfold h; cbn; by rewrite last_snoc|]. split_and!; [done| |by rewrite last_snoc, Ec].
    exact (covers_add Sequence x V _ HV).
  - intros j t Hj _. apply lookup_insert_cases in Hj as [[-> ->]|[Hne Hj]].
    + eexists. split; [|done]. set_solver.
    + apply (weak_thread_ok_more (wk_log s)); [set_solver|]. eapply Ho; [done|congruence].
  - eapply Forall_impl; [done|]. intros f Hfs Hsu. destruct (Hfs Hsu) as (u & ? & ?). exists u. split; [set_solver|done].
Qed.

(** A thread takes the lock. *)
Lemma weak_inv_take s i V c p V' p' d known :
  weak_inv s None -> wk_threads s !! i = Some (Weak_inside V c p) -> covers V' (wk_writes s) ->
  known ⊆ wk_log s -> Z.land d 1 = 1 ->
  weak_wp p' (Weak_held known (contents (newest_memory (wk_writes s))) ((newest_memory (wk_writes s)) <| bd_sequence := d |>))
    (weak_returns c) ->
  weak_inv {| wk_writes := (add_write Sequence d V' (wk_writes s)).2;
              wk_threads := <[i := Weak_inside (add_write Sequence d V' (wk_writes s)).1 c p']> (wk_threads s);
              wk_log := wk_log s; wk_finished := wk_finished s |} (Some i).
Proof.
  intros [? ? ? Hp Hfr Ho Hh Hf] Hi HV Hk Hd Hw. destruct (Hfr eq_refl) as (w & _ & _ & _ & Hl).
  assert (newest_memory (add_write Sequence d V' (wk_writes s)).2 = (newest_memory (wk_writes s)) <| bd_sequence := d |>) as Em
    by apply newest_memory_add.
  split; try done.
  - by apply history_write.
  - cbn -[add_write newest_memory]. rewrite Em. exact (sized_put Sequence d _ wi_sized0).
  - cbn -[add_write newest_memory]. by rewrite Em.
  - intros j t Hj Hne. cbn in Hj. apply lookup_insert_cases in Hj as [[-> ->]|[_ Hj]]; [done|by eapply Ho].
  - intros j [= <-]. eexists. split; [apply list_lookup_insert_eq; by apply lookup_lt_Some in Hi|].
    split; [by apply covers_add|]. exists known, (contents (newest_memory (wk_writes s))). split_and!; [done..|].
    cbn -[add_write newest_memory]. by rewrite Em.
Qed.

(** An access of the thread that holds the lock. *)
Lemma weak_inv_held s i V c p t p' V' h released :
  weak_inv s (Some i) -> wk_threads s !! i = Some (Weak_inside V c p) ->
  weak_exec p V (wk_writes s) t = Some (p', V', h, released) ->
  exists holder, weak_inv {| wk_writes := h; wk_threads := <[i := Weak_inside V' c p']> (wk_threads s);
    wk_log := if released : bool then wk_log s ++ [contents (newest_memory h)] else wk_log s;
    wk_finished := wk_finished s |} holder.
Proof.
  intros HI Hi Hx. destruct (wi_holder _ _ HI i eq_refl) as (t0 & Hi' & Hok). rewrite Hi in Hi'. injection Hi' as <-.
  destruct Hok as (HV & known & v & Hk & Hl & Hw). pose proof (wi_history _ _ HI) as Hh. pose proof (wi_sized _ _ HI) as Hs.
  destruct p as [o|T x k|T x y k|e d k]; cbn -[newest_memory readable acquire add_write] in Hx, Hw; try done.
  - destruct (wk_writes s !! t) as [w|] eqn:Ht; [|done]. destruct (readable _ _ _ _) eqn:Er; simplify_eq.
    rewrite (newest_value x (wk_writes s) t w Hh Ht) by by eapply covers_newest.
    exists (Some i). eapply weak_inv_member; try done. by apply covers_acquire.
  - destruct (add_write x y V (wk_writes s)) as [V1 h1] eqn:Ea. simplify_eq.
    assert (h = (add_write x y V (wk_writes s)).2 /\ V' = (add_write x y V (wk_writes s)).1) as [-> ->] by by rewrite Ea.
    clear Ea. destruct (is_sequence x) eqn:Eq.
    + destruct x; try done. destruct Hw as (? & ? & ?). exists None. by eapply weak_inv_release.
    + exists (Some i). eapply (weak_inv_member s i V c _ _ known v (put x y (newest_memory (wk_writes s)))); try done.
      * by apply history_write.
      * by apply sized_put.
      * apply newest_memory_add.
      * by apply put_sequence.
      * by apply covers_add.
Qed.

(** An access of a thread outside the lock. *)
Lemma weak_inv_outside s holder i V c p t p' V' h released :
  weak_inv s holder -> holder <> Some i -> wk_threads s !! i = Some (Weak_inside V c p) ->
  weak_exec p V (wk_writes s) t = Some (p', V', h, released) ->
  exists holder, weak_inv {| wk_writes := h; wk_threads := <[i := Weak_inside V' c p']> (wk_threads s);
    wk_log := if released : bool then wk_log s ++ [contents (newest_memory h)] else wk_log s;
    wk_finished := wk_finished s |} holder.
Proof.
  intros HI Hm Hi Hx. destruct (wi_others _ _ HI i _ Hi Hm) as (known & Hk & Hw).
  destruct p as [o|T x k|T x y k|e d k]; cbn -[newest_memory readable acquire add_write] in Hx, Hw; try done.
  - destruct (wk_writes s !! t) as [w|]; [|done]. destruct (readable _ _ _ _); simplify_eq. exists holder.
    apply weak_inv_reader; [done|done|]. exists known. split; [done|apply Hw].
  - destruct Hw as (Hf & He & Hd & Ht). destruct (wk_writes s !! t) as [w|] eqn:Hwt; [|done].
    destruct (readable _ _ _ _); [|done]. destruct (Z.eqb_spec (bd_sequence (wr_memory w)) e) as [E|E].
    2: { simplify_eq. exists holder. apply weak_inv_reader; [done|done|]. by exists known. }
    destruct (newest _ _ _) eqn:En; [|done].
    assert (bd_sequence (newest_memory (wk_writes s)) = e) as Em
      by (rewrite <- E; symmetry; exact (newest_value Sequence _ _ _ (wi_history _ _ HI) Hwt En)).
    destruct holder as [j|]; [pose proof (wi_parity _ _ HI); rewrite Em in *; congruence|].
    destruct (wi_free _ _ HI eq_refl) as (w0 & Hl & Hc & Hcov & _).
    pose proof (newest_last _ _ _ _ _ Hl Hc Hwt En) as ->.
    destruct (add_write Sequence d (acquire Sequence t w0 V) (wk_writes s)) as [V1 h1] eqn:Ea. simplify_eq.
    assert (h = (add_write Sequence d (acquire Sequence t w0 V) (wk_writes s)).2 /\
            V' = (add_write Sequence d (acquire Sequence t w0 V) (wk_writes s)).1) as [-> ->] by by rewrite Ea.
    exists (Some i). eapply weak_inv_take; try done; [by apply covers_acquired|]. apply Ht; [apply HI|done].
Qed.

Lemma weak_inv_step s holder s' : weak_inv s holder -> weak_step s s' -> exists holder', weak_inv s' holder'.
Proof.
  intros HI Hstep. destruct Hstep as [s i V c Hi Hc|s i V c p t p' V' h released Hi Hx|s i V c o Hi].
  - assert (holder <> Some i) as Hm.
    { intros ->. destruct (wi_holder _ _ HI i eq_refl) as (t & Ht & Hok). by simplify_eq. }
    exists holder. apply weak_inv_reader; [done|done|]. exists []. split; [set_solver|by apply weak_program].
  - destruct (decide (holder = Some i)) as [->|Hm]; [by eapply weak_inv_held|by eapply weak_inv_outside].
  - assert (holder <> Some i) as Hm.
    { intros ->. destruct (wi_holder _ _ HI i eq_refl) as (t & Ht & Hok). simplify_eq.
      destruct Hok as (_ & ? & ? & _ & _ & []). }
    exists holder. destruct (wi_others _ _ HI i _ Hi Hm) as (known & Hk & Hw). cbn in Hw.
    destruct (weak_inv_reader s holder i (Weak_outside V) HI Hm I) as [? ? ? ? ? ? ? Hf]. split; try done.
    cbn in *. apply Forall_app. split; [done|]. apply Forall_singleton. cbn. intros Hs.
    destruct (Hw Hs) as (v & Hv & ?). exists v. split; [by apply Hk|done].
Qed.

Lemma weak_inv_initial n : weak_inv (weak_initial n) None.
Proof.
  split; try done.
  - constructor.
  - constructor.
  - intros _. eexists. split_and!; try done. intros t w [-> _]%list_lookup_singleton_Some. lia.
  - intros i t [-> _]%lookup_replicate _. done.
Qed.

(** C17: in every execution of any number of threads with release and acquire, in which
    loads may return older values, the writers of the binding still exclude each other
    and act on its newest version: each release of the lock leaves what one holder makes
    of the version before (a new generation with a request or none, a task captured for
    a pending request of the same generation, a bound task marked stale or exited, or no
    change), the newest writes hold the newest version whenever the lock is free, and a
    set, a clear or an exit that reports success has made its version. *)
Theorem weak_writers_exclude n steps s :
  nsteps weak_step steps (weak_initial n) s ->
  moving_log (wk_log s) /\
  (Z.land (bd_sequence (newest_memory (wk_writes s))) 1 = 0 -> last (wk_log s) = Some (contents (newest_memory (wk_writes s)))) /\
  Forall (fun f => succeeded f.1 f.2 -> exists v, v ∈ wk_log s /\ effect f.1 f.2 v) (wk_finished s).
Proof.
  intros Hrun. assert (exists holder, weak_inv s holder) as [holder [? ? Hl Hp Hf _ _ Hfin]].
  { revert s Hrun. induction steps as [|steps IH]; intros s Hrun.
    - inversion Hrun; subst. exists None. apply weak_inv_initial.
    - apply nsteps_inv_r in Hrun as (s1 & Hrun & Hstep). destruct (IH s1 Hrun) as [holder HI]. by eapply weak_inv_step. }
  split_and!; [done| |done]. rewrite Hp. destruct holder; [done|]. intros _. by destruct (Hf eq_refl) as (? & _ & _ & _ & ?).
Qed.

(** ** A snapshot of two versions *)

Definition weak_action_ok (a : weak_action) : Prop := match a with Weak_call _ c => call_ok c | _ => True end.
Definition weak_action_steps (a : weak_action) : nat :=
  match a with Read_new _ times | Read_old _ times => times | _ => 1 end.

Lemma weak_accesses_steps i times new s s' :
  weak_accesses i times new s = Some s' -> nsteps weak_step times s s'.
Proof.
  revert s. induction times as [|times IH]; intros s Ha; cbn in Ha; [simplify_eq; constructor|].
  destruct (wk_threads s !! i) as [[|V c p]|] eqn:Hi; try done.
  destruct (weak_exec _ _ _ _) as [[[[p' V'] h] released]|] eqn:Hx; [|done].
  eapply nsteps_l; [by eapply weak_access|by apply IH].
Qed.

Lemma weak_perform_steps actions s s' :
  Forall weak_action_ok actions -> weak_perform actions s = Some s' ->
  nsteps weak_step (sum_list_with weak_action_steps actions) s s'.
Proof.
  revert s. induction actions as [|a actions IH]; intros s Hok Hp; [simplify_eq/=; constructor|].
  apply Forall_cons in Hok as [Ha Hok]. cbn [weak_perform] in Hp. destruct (weak_act a s) as [s1|] eqn:E; [|done].
  apply (nsteps_trans _ _ _ s1); [|by apply IH]. destruct a as [i c|i times|i times|i]; cbn in E.
  - destruct (wk_threads s !! i) as [[]|] eqn:Hi; simplify_eq. by apply nsteps_once, weak_call.
  - by eapply weak_accesses_steps.
  - by eapply weak_accesses_steps.
  - destruct (wk_threads s !! i) as [[|V c [o| | |]]|] eqn:Hi; simplify_eq. by eapply nsteps_once, weak_return.
Qed.

(** Another task is asked for. *)
Definition other_request : spz_binding_request := demo_request <| rq_binding_id := 2 |> <| rq_pid := 200 |>.

(** Thread 0 asks for task 77 and then for task 200. The hook of task 77 on thread 1 has
    loaded the sequence in between. It loads the generation and the state of the second
    request, the members of the first, and once more the old sequence. *)
Definition torn_schedule : list weak_action :=
  [Weak_call 0 (Do (BindSet (Some demo_request))); Read_new 0 53; Weak_return 0;
   Weak_call 1 (Do (BindObserve demo_view)); Read_new 1 1;
   Weak_call 0 (Do (BindSet (Some other_request))); Read_new 0 53; Weak_return 0;
   Read_new 1 2; Read_old 1 48; Read_new 1 29; Weak_return 1].

Lemma torn_schedule_ok : Forall weak_action_ok torn_schedule.
Proof. repeat (apply Forall_cons; split; [first [exact I|exact eq_refl|exact demo_view_ok]|]). by apply Forall_nil. Qed.

Definition torn_end : weak_sys := default (weak_initial 2) (weak_perform torn_schedule (weak_initial 2)).

Strategy 1000 [weak_perform weak_accesses].
Strategy expand [torn_end].

Definition torn_outcomes : list (Z * option Z * option Z) :=
  (fun f => (oc_code f.2, id_pid <$> oc_identity f.2, id_generation <$> oc_identity f.2)) <$> wk_finished torn_end.

Lemma torn_finished : torn_outcomes = [(0, None, None); (0, None, None); (1, Some 77, Some 2)].
Proof. vm_compute. reflexivity. Qed.

Lemma torn_steps : nsteps weak_step (sum_list_with weak_action_steps torn_schedule) (weak_initial 2) torn_end.
Proof.
  apply weak_perform_steps; [exact torn_schedule_ok|]. unfold torn_end.
  destruct (weak_perform torn_schedule (weak_initial 2)) eqn:E; [reflexivity|].
  pose proof torn_finished as Hf. unfold torn_outcomes, torn_end in Hf. rewrite E in Hf. discriminate Hf.
Qed.

Lemma weak_writers_exclude_witness :
  moving_log (wk_log torn_end) /\ last (wk_log torn_end) = Some (contents (newest_memory (wk_writes torn_end))).
Proof.
  destruct (weak_writers_exclude 2 _ torn_end torn_steps) as (Hl & Hq & _). split; [exact Hl|].
  apply Hq. vm_compute. reflexivity.
Defined.

(** C18: with release and acquire, a snapshot may mix two versions although the sequence
    did not move: a hook that takes the generation from a new request and its selector
    from the one before captures a task that the new request does not ask for, and the
    binding stays bound to it. In the sequentially consistent interleavings of
    SeqlockCalls.v this is impossible. *)
Theorem weak_snapshot_binds_wrong_task :
  exists steps s, nsteps weak_step steps (weak_initial 2) s /\
    exists i, (Do (BindObserve demo_view), reports 1 (Some i)) ∈ wk_finished s /\
    let b := newest_memory (wk_writes s) in
    bd_sequence b = 6 /\ bd_state b = SPZ_BINDING_BOUND /\ bd_generation b = 2 /\ id_generation i = 2 /\
    bd_request b = other_request /\ bd_identity b = i /\ spz_selector_matches (bd_request b) i = false.
Proof.
  exists (sum_list_with weak_action_steps torn_schedule), torn_end. split; [exact torn_steps|].
  exists (bd_identity (newest_memory (wk_writes torn_end))). split.
  - apply (list_elem_of_lookup_2 _ 2). vm_compute. reflexivity.
  - vm_compute. repeat split.
Qed.
