(* ===== verification/Debug.v ===== *)
(** * Hardware breakpoints and watchpoints (kpm/core/debug.c)

    One debug slot per CPU is borrowed from the kernel: its registers are saved,
    programmed, disabled around the single step that passes a hit, and put back.
    The register accesses go through the table of operations of debug.h; the
    class [DebugHw] states what such a table promises. *)

From S2P Require Import Prelude Abi DeviceProfiles Profile Task.

Definition SPZ_DEBUG_MAX_SLOTS : Z := 16.
Definition SPZ_DEBUG_CTRL_ENABLE : Z := 1.
Definition SPZ_MDSCR_SS : Z := Z.shiftl 1 0.
Definition SPZ_MDSCR_MDE : Z := Z.shiftl 1 15.
Definition SPZ_PSTATE_SS : Z := Z.shiftl 1 21.
Definition SPZ_ESR_WNR : Z := Z.shiftl 1 6.
Definition SPZ_EVENT_FLAG_KERNEL_UACCESS : Z := 1.
Definition SPZ_DEBUG_PRIVILEGE_EL0 : Z := Z.shiftl 2 1.
Definition SPZ_DEBUG_LSC_LOAD : Z := Z.shiftl 1 3.
Definition SPZ_DEBUG_LSC_STORE : Z := Z.shiftl 2 3.

(** [SPZ_DEBUG_SLOT_ZERO] is the zero a cleared state holds. *)
Inductive spz_debug_slot_kind := SPZ_DEBUG_SLOT_ZERO | SPZ_DEBUG_SLOT_BREAKPOINT | SPZ_DEBUG_SLOT_WATCHPOINT.

Inductive spz_debug_state :=
  SPZ_DEBUG_EMPTY | SPZ_DEBUG_SNAPSHOTTED | SPZ_DEBUG_ARMED | SPZ_DEBUG_HIT_DISABLED
| SPZ_DEBUG_STEP_PENDING | SPZ_DEBUG_ONE_SHOT_DONE | SPZ_DEBUG_RESTORING | SPZ_DEBUG_QUARANTINED.

#[export] Instance spz_debug_slot_kind_eq : EqDecision spz_debug_slot_kind.
Proof. solve_decision. Defined.
#[export] Instance spz_debug_state_eq : EqDecision spz_debug_state.
Proof. solve_decision. Defined.

Definition slot_kind_number (k : spz_debug_slot_kind) : Z :=
  match k with SPZ_DEBUG_SLOT_ZERO => 0 | SPZ_DEBUG_SLOT_BREAKPOINT => 1 | SPZ_DEBUG_SLOT_WATCHPOINT => 2 end.

(** [enum spz_debug_result] *)
Definition SPZ_DEBUG_NOT_OWNED : Z := 0.
Definition SPZ_DEBUG_CONSUMED : Z := 1.
Definition SPZ_DEBUG_FORWARD_ORIGINAL : Z := 2.

Record spz_debug_request := {
  dr_id : Z;
  dr_kind : spz_break_kind;
  dr_address : Z;
  dr_length : Z;
  dr_mode : spz_break_mode;
}.

Record spz_debug_target := {
  dt_binding_id : Z;
  dt_identity : spz_task_identity;
}.

Record spz_debug_frame := {
  df_x : list Z;
  df_sp : Z;
  df_pc : Z;
  df_pstate : Z;
  df_esr : Z;
  df_far : Z;
  df_kernel_mode : Z;
}.

Record spz_debug_cpu_state := {
  ds_state : spz_debug_state;
  ds_kind : spz_debug_slot_kind;
  ds_slot : Z;
  ds_saved_value : Z;
  ds_saved_control : Z;
  ds_saved_mdscr : Z;
  ds_programmed_value : Z;
  ds_programmed_control : Z;
  ds_disabled_control : Z;
  ds_added_mde : Z;
  ds_added_mdscr_ss : Z;
  ds_added_pstate_ss : Z;
  ds_forward_single_step : Z;
  ds_transition : Z;
  ds_request : spz_debug_request;
  ds_target : spz_debug_target;
}.

#[export] Instance spz_debug_frame_shape : Shape spz_debug_frame :=
  shape! Build_spz_debug_frame < df_x ; df_sp ; df_pc ; df_pstate ; df_esr ; df_far ; df_kernel_mode >.
#[export] Instance spz_debug_cpu_state_shape : Shape spz_debug_cpu_state :=
  shape! Build_spz_debug_cpu_state < ds_state ; ds_kind ; ds_slot ; ds_saved_value ; ds_saved_control ;
    ds_saved_mdscr ; ds_programmed_value ; ds_programmed_control ; ds_disabled_control ; ds_added_mde ;
    ds_added_mdscr_ss ; ds_added_pstate_ss ; ds_forward_single_step ; ds_transition ; ds_request ; ds_target >.

Definition zero_debug_request : spz_debug_request :=
  {| dr_id := 0; dr_kind := SPZ_BREAK_INVALID; dr_address := 0; dr_length := 0;
     dr_mode := SPZ_BREAK_MODE_INVALID |}.
Definition zero_debug_target : spz_debug_target :=
  {| dt_binding_id := 0; dt_identity := empty_identity |}.
Definition zero_debug_cpu_state : spz_debug_cpu_state :=
  {| ds_state := SPZ_DEBUG_EMPTY; ds_kind := SPZ_DEBUG_SLOT_ZERO; ds_slot := 0; ds_saved_value := 0;
     ds_saved_control := 0; ds_saved_mdscr := 0; ds_programmed_value := 0; ds_programmed_control := 0;
     ds_disabled_control := 0; ds_added_mde := 0; ds_added_mdscr_ss := 0; ds_added_pstate_ss := 0;
     ds_forward_single_step := 0; ds_transition := 0; ds_request := zero_debug_request;
     ds_target := zero_debug_target |}.

#[export] Instance spz_debug_cpu_state_inhabited : Inhabited spz_debug_cpu_state :=
  populate zero_debug_cpu_state.

(** [struct spz_debug_ops] over a hardware state [hw] (the [context]): a read
    gives its result code and the value, a write its result code and the new
    state. [spz_debug_ops_table] is the same table with pointers that may be NULL. *)
Record spz_debug_ops (hw : Type) := {
  op_brp_count : Z;
  op_wrp_count : Z;
  op_read_value : hw -> Z -> spz_debug_slot_kind -> Z -> Z * Z;
  op_write_value : hw -> Z -> spz_debug_slot_kind -> Z -> Z -> Z * hw;
  op_read_control : hw -> Z -> spz_debug_slot_kind -> Z -> Z * Z;
  op_write_control : hw -> Z -> spz_debug_slot_kind -> Z -> Z -> Z * hw;
  op_read_mdscr : hw -> Z -> Z * Z;
  op_write_mdscr : hw -> Z -> Z -> Z * hw;
  op_read_owner : hw -> Z -> spz_debug_slot_kind -> Z -> Z * Z;
  op_barrier : hw -> Z -> hw;
}.

Record spz_debug_ops_table (hw : Type) := {
  ot_brp_count : Z;
  ot_wrp_count : Z;
  ot_read_value : option (hw -> Z -> spz_debug_slot_kind -> Z -> Z * Z);
  ot_write_value : option (hw -> Z -> spz_debug_slot_kind -> Z -> Z -> Z * hw);
  ot_read_control : option (hw -> Z -> spz_debug_slot_kind -> Z -> Z * Z);
  ot_write_control : option (hw -> Z -> spz_debug_slot_kind -> Z -> Z -> Z * hw);
  ot_read_mdscr : option (hw -> Z -> Z * Z);
  ot_write_mdscr : option (hw -> Z -> Z -> Z * hw);
  ot_read_owner : option (hw -> Z -> spz_debug_slot_kind -> Z -> Z * Z);
  ot_barrier : option (hw -> Z -> hw);
}.

#[global] Arguments op_brp_count {hw}.
#[global] Arguments op_wrp_count {hw}.
#[global] Arguments op_read_value {hw}.
#[global] Arguments op_write_value {hw}.
#[global] Arguments op_read_control {hw}.
#[global] Arguments op_write_control {hw}.
#[global] Arguments op_read_mdscr {hw}.
#[global] Arguments op_write_mdscr {hw}.
#[global] Arguments op_read_owner {hw}.
#[global] Arguments op_barrier {hw}.

Record spz_debug_controller (hw : Type) := {
  dc_ops : spz_debug_ops hw;
  dc_cpu_count : Z;
  dc_cpu : list spz_debug_cpu_state;
}.
#[global] Arguments dc_ops {hw}.
#[global] Arguments dc_cpu_count {hw}.
#[global] Arguments dc_cpu {hw}.

(** ** State bookkeeping *)

Definition spz_debug_transition (next : spz_debug_state) (state : spz_debug_cpu_state) : spz_debug_cpu_state :=
  let transition := u64 (ds_transition state + 1) in
  state <| ds_transition := if transition =? 0 then 1 else transition |> <| ds_state := next |>.

Definition spz_debug_reset_state (state : spz_debug_cpu_state) : spz_debug_cpu_state :=
  let transition := u64 (ds_transition state + 1) in
  zero_debug_cpu_state <| ds_transition := if transition =? 0 then 1 else transition |>
                       <| ds_state := SPZ_DEBUG_EMPTY |>.

Definition spz_request_slot_kind (request : spz_debug_request) : spz_debug_slot_kind :=
  match dr_kind request with
  | SPZ_BREAK_EXECUTE => SPZ_DEBUG_SLOT_BREAKPOINT
  | _ => SPZ_DEBUG_SLOT_WATCHPOINT
  end.

(** [control] word: byte mask, load/store selection, EL0, enable. *)
Definition debug_control (byte_mask lsc : Z) : Z :=
  Z.lor (Z.lor (Z.lor (u32 (Z.shiftl byte_mask 5)) lsc) SPZ_DEBUG_PRIVILEGE_EL0) SPZ_DEBUG_CTRL_ENABLE.

(** [inr (value, control, bas)], or the error. [None] is the NULL request. *)
Definition spz_debug_validate_request (request : option spz_debug_request) : Z + (Z * Z * Z) :=
  match request with
  | None => inl (- EINVAL)
  | Some request =>
      let address := dr_address request in
      let length := dr_length request in
      if dr_id request =? 0 then inl (- EINVAL)
      else if bool_decide (dr_mode request <> SPZ_BREAK_ONCE) && bool_decide (dr_mode request <> SPZ_BREAK_REPEAT)
      then inl (- EINVAL)
      else if (address =? 0) || negb (Z.shiftr address 56 =? 0) then inl (- EINVAL)
      else if bool_decide (dr_kind request = SPZ_BREAK_EXECUTE) then
        if negb (length =? 4) || negb (Z.land address 3 =? 0) then inl (- EINVAL)
        else inr (address, debug_control 0x0f 0, 0x0f)
      else if bool_decide (dr_kind request <> SPZ_BREAK_READ) && bool_decide (dr_kind request <> SPZ_BREAK_WRITE)
              && bool_decide (dr_kind request <> SPZ_BREAK_READ_WRITE) then inl (- EINVAL)
      else if negb (length =? 1) && negb (length =? 2) && negb (length =? 4) && negb (length =? 8)
      then inl (- EINVAL)
      else
        let last := u64 (u64 (address + length) - 1) in
        if (last <? address) || negb (Z.shiftr address 3 =? Z.shiftr last 3) then inl (- EINVAL)
        else
          let register_value := Z.land address (u64 (Z.lnot 7)) in
          let byte_mask := u8 (u32 (Z.shiftl (u32 (u32 (Z.shiftl 1 length) - 1)) (Z.land address 7))) in
          let lsc :=
            match dr_kind request with
            | SPZ_BREAK_READ => SPZ_DEBUG_LSC_LOAD
            | SPZ_BREAK_WRITE => SPZ_DEBUG_LSC_STORE
            | _ => Z.lor SPZ_DEBUG_LSC_LOAD SPZ_DEBUG_LSC_STORE
            end in
          inr (register_value, debug_control byte_mask lsc, byte_mask)
  end.

(** [None] is a NULL target. *)
Definition spz_debug_valid_target (target : option spz_debug_target) : bool :=
  match target with
  | None => false
  | Some target =>
      negb (dt_binding_id target =? 0) && negb (id_generation (dt_identity target) =? 0) &&
      (negb (id_pid (dt_identity target) =? 0) || negb (id_tgid (dt_identity target) =? 0))
  end.

Definition spz_debug_target_matches (expected : spz_debug_target) (current : option spz_debug_target) : bool :=
  match current with
  | None => false
  | Some current =>
      let e := dt_identity expected in
      let c := dt_identity current in
      (dt_binding_id expected =? dt_binding_id current) && (id_generation e =? id_generation c) &&
      (id_pid e =? id_pid c) && (id_tgid e =? id_tgid c) && (id_start_time e =? id_start_time c) &&
      (id_start_boot_time e =? id_start_boot_time c)
  end.

Definition has_bit (word mask : Z) : bool := negb (Z.land word mask =? 0).

Section debug.
Context {hw : Type} (ops : spz_debug_ops hw).

(** ** Slots *)

Definition spz_debug_slot_count (kind : spz_debug_slot_kind) : Z :=
  if bool_decide (kind = SPZ_DEBUG_SLOT_BREAKPOINT) then op_brp_count ops else op_wrp_count ops.

(** The loop from the highest slot down: [inr (slot, value, control)]. *)
Fixpoint find_slot_loop (index : nat) (h : hw) (cpu : Z) (kind : spz_debug_slot_kind) : Z + (Z * Z * Z) :=
  match index with
  | O => inl (- EBUSY)
  | S index =>
      let slot := Z.of_nat index in
      let '(result, owner) := op_read_owner ops h cpu kind slot in
      if negb (result =? 0) then inl result
      else
        let '(result, control) := op_read_control ops h cpu kind slot in
        if negb (result =? 0) then inl result
        else if negb (Bool.eqb (owner =? 0) (negb (has_bit control SPZ_DEBUG_CTRL_ENABLE))) then inl (- EBUSY)
        else if negb (owner =? 0) then find_slot_loop index h cpu kind
        else
          let '(result, value) := op_read_value ops h cpu kind slot in
          if negb (result =? 0) then inl result else inr (slot, value, control)
  end.

Definition spz_debug_find_slot (h : hw) (cpu : Z) (kind : spz_debug_slot_kind) : Z + (Z * Z * Z) :=
  find_slot_loop (Z.to_nat (spz_debug_slot_count kind)) h cpu kind.

(** [inr (value, control, owner)] *)
Definition spz_debug_live_image (h : hw) (cpu : Z) (state : spz_debug_cpu_state) : Z + (Z * Z * Z) :=
  let '(result, owner) := op_read_owner ops h cpu (ds_kind state) (ds_slot state) in
  if negb (result =? 0) then inl result
  else
    let '(result, value) := op_read_value ops h cpu (ds_kind state) (ds_slot state) in
    if negb (result =? 0) then inl result
    else
      let '(result, control) := op_read_control ops h cpu (ds_kind state) (ds_slot state) in
      if negb (result =? 0) then inl result else inr (value, control, owner).

(** ** Arming *)

Definition spz_debug_rollback_arm (h : hw) (cpu : Z) (state : spz_debug_cpu_state) :
    Z * hw * spz_debug_cpu_state :=
  match spz_debug_live_image h cpu state with
  | inl _ => (- EUCLEAN, h, spz_debug_transition SPZ_DEBUG_QUARANTINED state)
  | inr (live_value, live_control, owner) =>
      if negb (owner =? 0) || negb (live_value =? ds_programmed_value state)
         || (negb (live_control =? ds_programmed_control state) && negb (live_control =? ds_saved_control state))
      then (- EUCLEAN, h, spz_debug_transition SPZ_DEBUG_QUARANTINED state)
      else
        let '(result, h) :=
          if live_control =? ds_programmed_control state
          then op_write_control ops h cpu (ds_kind state) (ds_slot state) (ds_saved_control state)
          else (0, h) in
        if negb (result =? 0) then (- EIO, h, spz_debug_transition SPZ_DEBUG_QUARANTINED state)
        else
          let '(result, h) := op_write_value ops h cpu (ds_kind state) (ds_slot state) (ds_saved_value state) in
          if negb (result =? 0) then (- EIO, h, spz_debug_transition SPZ_DEBUG_QUARANTINED state)
          else (0, op_barrier ops h cpu, spz_debug_reset_state state)
  end.

(** The state filled in before the first register write. *)
Definition arm_snapshot (state : spz_debug_cpu_state) (kind : spz_debug_slot_kind)
    (slot saved_value saved_control saved_mdscr programmed_value programmed_control : Z)
    (request : spz_debug_request) (target : spz_debug_target) : spz_debug_cpu_state :=
  spz_debug_transition SPZ_DEBUG_SNAPSHOTTED
    {| ds_state := SPZ_DEBUG_EMPTY; ds_kind := kind; ds_slot := slot; ds_saved_value := saved_value;
       ds_saved_control := saved_control; ds_saved_mdscr := saved_mdscr;
       ds_programmed_value := programmed_value; ds_programmed_control := programmed_control;
       ds_disabled_control := Z.land programmed_control (u32 (Z.lnot SPZ_DEBUG_CTRL_ENABLE));
       ds_added_mde := if has_bit saved_mdscr SPZ_MDSCR_MDE then 0 else 1;
       ds_added_mdscr_ss := 0; ds_added_pstate_ss := 0; ds_forward_single_step := 0;
       ds_transition := ds_transition state; ds_request := request; ds_target := target |}.

(** The body of [spz_debug_arm_current] on one CPU's state. *)
Definition arm_cpu (h : hw) (cpu : Z) (state : spz_debug_cpu_state)
    (request : option spz_debug_request) (target : spz_debug_target) : Z * hw * spz_debug_cpu_state :=
  if bool_decide (ds_state state <> SPZ_DEBUG_EMPTY) then (- EBUSY, h, state)
  else
    match spz_debug_validate_request request, request with
    | inl result, _ => (result, h, state)
    | inr _, None => (- EINVAL, h, state)
    | inr (programmed_value, programmed_control, _), Some request =>
        let kind := spz_request_slot_kind request in
        match spz_debug_find_slot h cpu kind with
        | inl result => (result, h, state)
        | inr (slot, saved_value, saved_control) =>
            let '(result, saved_mdscr) := op_read_mdscr ops h cpu in
            if negb (result =? 0) then (result, h, state)
            else
              let state := arm_snapshot state kind slot saved_value saved_control saved_mdscr
                             programmed_value programmed_control request target in
              let '(result, h) := op_write_value ops h cpu kind slot programmed_value in
              if negb (result =? 0) then (result, h, spz_debug_reset_state state)
              else
                let '(result, h) := op_write_control ops h cpu kind slot programmed_control in
                if negb (result =? 0) then
                  let '(_, h, state) := spz_debug_rollback_arm h cpu state in (result, h, state)
                else
                  let '(result, h) :=
                    if negb (ds_added_mde state =? 0)
                    then op_write_mdscr ops h cpu (Z.lor saved_mdscr SPZ_MDSCR_MDE) else (0, h) in
                  if negb (result =? 0) then
                    let '(_, h, state) := spz_debug_rollback_arm h cpu state in (result, h, state)
                  else (0, op_barrier ops h cpu, spz_debug_transition SPZ_DEBUG_ARMED state)
        end
    end.

(** ** Restoring *)

(** Does a slot other than the owned one need MDE? Read failures count as yes. *)
Definition slot_requires_mde (h : hw) (cpu : Z) (owned : spz_debug_cpu_state)
    (kind : spz_debug_slot_kind) (slot : Z) : bool :=
  if bool_decide (kind = ds_kind owned) && (slot =? ds_slot owned) then false
  else
    let '(result1, owner) := op_read_owner ops h cpu kind slot in
    let '(result2, control) := op_read_control ops h cpu kind slot in
    if negb (result1 =? 0) || negb (result2 =? 0) then true
    else negb (owner =? 0) || has_bit control SPZ_DEBUG_CTRL_ENABLE.

Definition spz_debug_other_state_requires_mde (h : hw) (cpu : Z) (owned : spz_debug_cpu_state) : bool :=
  existsb (fun kind =>
    existsb (fun slot => slot_requires_mde h cpu owned kind (Z.of_nat slot))
      (seq 0 (Z.to_nat (spz_debug_slot_count kind))))
    [SPZ_DEBUG_SLOT_BREAKPOINT; SPZ_DEBUG_SLOT_WATCHPOINT].

Definition clear_bits (word mask : Z) : Z := Z.land word (u64 (Z.lnot mask)).

(** The [quarantine] label. *)
Definition restore_quarantine (result : Z) (h : hw) (cpu : Z) (state : spz_debug_cpu_state) :
    Z * hw * spz_debug_cpu_state :=
  (result, op_barrier ops h cpu, spz_debug_transition SPZ_DEBUG_QUARANTINED state).

(** The control word expected in the slot. *)
Definition expected_control (state : spz_debug_cpu_state) : Z :=
  match ds_state state with
  | SPZ_DEBUG_SNAPSHOTTED => ds_saved_control state
  | SPZ_DEBUG_ARMED => ds_programmed_control state
  | _ => ds_disabled_control state
  end.

Definition restore_cpu (h : hw) (cpu : Z) (state : spz_debug_cpu_state) : Z * hw * spz_debug_cpu_state :=
  match ds_state state with
  | SPZ_DEBUG_EMPTY => (0, h, state)
  | SPZ_DEBUG_QUARANTINED => (- EUCLEAN, h, state)
  | _ =>
      match spz_debug_live_image h cpu state with
      | inl result => (result, h, state)
      | inr (live_value, live_control, owner) =>
          if negb (owner =? 0) || negb (live_value =? ds_programmed_value state)
             || negb (live_control =? expected_control state)
          then (- EUCLEAN, h, spz_debug_transition SPZ_DEBUG_QUARANTINED state)
          else
            let '(result, mdscr) := op_read_mdscr ops h cpu in
            if negb (result =? 0) then (result, h, state)
            else
              let restored_mdscr :=
                if negb (ds_added_mdscr_ss state =? 0) then clear_bits mdscr SPZ_MDSCR_SS else mdscr in
              let state := spz_debug_transition SPZ_DEBUG_RESTORING state in
              let kind := ds_kind state in
              let slot := ds_slot state in
              let '(result, h) :=
                if has_bit live_control SPZ_DEBUG_CTRL_ENABLE
                then op_write_control ops h cpu kind slot (ds_disabled_control state) else (0, h) in
              if negb (result =? 0) then restore_quarantine result h cpu state
              else
                let '(result, h) := op_write_value ops h cpu kind slot (ds_saved_value state) in
                if negb (result =? 0) then restore_quarantine result h cpu state
                else
                  let '(result, h) := op_write_control ops h cpu kind slot (ds_saved_control state) in
                  if negb (result =? 0) then restore_quarantine result h cpu state
                  else
                    let restored_mdscr :=
                      if negb (ds_added_mde state =? 0)
                         && negb (spz_debug_other_state_requires_mde h cpu state)
                      then clear_bits restored_mdscr SPZ_MDSCR_MDE else restored_mdscr in
                    let '(result, h) :=
                      if negb (restored_mdscr =? mdscr)
                      then op_write_mdscr ops h cpu restored_mdscr else (0, h) in
                    if negb (result =? 0) then restore_quarantine result h cpu state
                    else (0, op_barrier ops h cpu, spz_debug_reset_state state)
      end
  end.

(** ** Hits *)

Definition spz_debug_fill_event (state : spz_debug_cpu_state) (frame : spz_debug_frame)
    (observed_address live_value live_control mdscr : Z) : spz_event :=
  let identity := dt_identity (ds_target state) in
  zero_event
    <| ev_type := if bool_decide (ds_kind state = SPZ_DEBUG_SLOT_BREAKPOINT)
                  then SPZ_EVENT_BREAKPOINT else SPZ_EVENT_WATCHPOINT |>
    <| ev_binding_id := dt_binding_id (ds_target state) |>
    <| ev_breakpoint_id := dr_id (ds_request state) |>
    <| ev_generation := id_generation identity |>
    <| ev_task_cookie := id_task_cookie identity |>
    <| ev_pid := id_pid identity |>
    <| ev_tgid := id_tgid identity |>
    <| ev_uid := id_uid identity |>
    <| ev_start_time := id_start_time identity |>
    <| ev_start_boot_time := id_start_boot_time identity |>
    <| ev_comm := take SPZ_COMM_LEN (id_comm identity) |>
    <| ev_exception_class := Z.land (Z.shiftr (df_esr frame) 26) 0x3f |>
    <| ev_slot_kind := u16 (slot_kind_number (ds_kind state)) |>
    <| ev_slot_index := u16 (ds_slot state) |>
    <| ev_requested_address := dr_address (ds_request state) |>
    <| ev_observed_address := observed_address |>
    <| ev_value := live_value |>
    <| ev_control := ds_programmed_control state |>
    <| ev_observed_control := live_control |>
    <| ev_mdscr := mdscr |>
    <| ev_registers := {| reg_x := take 31 (df_x frame); reg_sp := df_sp frame; reg_pc := df_pc frame;
                          reg_pstate := df_pstate frame |} |>.

(** Result, hardware, state, frame, and the event as left in [*event]. *)
Definition hit_result : Type := Z * hw * spz_debug_cpu_state * spz_debug_frame * spz_event.

Definition spz_debug_handle_hit (h : hw) (cpu : Z) (state : spz_debug_cpu_state)
    (current : option spz_debug_target) (frame : spz_debug_frame) (observed_address : Z)
    (event : spz_event) : hit_result :=
  if negb (spz_debug_target_matches (ds_target state) current)
  then (SPZ_DEBUG_NOT_OWNED, h, state, frame, event)
  else
    match spz_debug_live_image h cpu state with
    | inl result => (result, h, state, frame, event)
    | inr (live_value, live_control, owner) =>
        if negb (owner =? 0) || negb (live_value =? ds_programmed_value state)
           || negb (live_control =? ds_programmed_control state)
        then (- EUCLEAN, h, spz_debug_transition SPZ_DEBUG_QUARANTINED state, frame, event)
        else
          let '(result, mdscr) := op_read_mdscr ops h cpu in
          if negb (result =? 0) then (result, h, state, frame, event)
          else
            let event := spz_debug_fill_event state frame observed_address live_value live_control mdscr in
            let '(result, h) :=
              op_write_control ops h cpu (ds_kind state) (ds_slot state) (ds_disabled_control state) in
            if negb (result =? 0)
            then (result, h, spz_debug_transition SPZ_DEBUG_QUARANTINED state, frame, event)
            else
              let h := op_barrier ops h cpu in
              let state := spz_debug_transition SPZ_DEBUG_HIT_DISABLED state in
              if bool_decide (dr_mode (ds_request state) = SPZ_BREAK_ONCE)
                 || (bool_decide (ds_kind state = SPZ_DEBUG_SLOT_WATCHPOINT) && negb (df_kernel_mode frame =? 0))
              then
                let event :=
                  if negb (df_kernel_mode frame =? 0)
                  then event <| ev_flags ::= fun flags => Z.lor flags SPZ_EVENT_FLAG_KERNEL_UACCESS |>
                  else event in
                (SPZ_DEBUG_CONSUMED, h, spz_debug_transition SPZ_DEBUG_ONE_SHOT_DONE state, frame, event)
              else
                let added_mdscr_ss := if has_bit mdscr SPZ_MDSCR_SS then 0 else 1 in
                let added_pstate_ss := if has_bit (df_pstate frame) SPZ_PSTATE_SS then 0 else 1 in
                let state :=
                  state <| ds_added_mdscr_ss := added_mdscr_ss |> <| ds_added_pstate_ss := added_pstate_ss |>
                        <| ds_forward_single_step :=
                             if (added_mdscr_ss =? 0) || (added_pstate_ss =? 0) then 1 else 0 |> in
                let stepped_mdscr := Z.lor mdscr SPZ_MDSCR_SS in
                let '(result, h) :=
                  if negb (stepped_mdscr =? mdscr) then op_write_mdscr ops h cpu stepped_mdscr else (0, h) in
                if negb (result =? 0)
                then (result, h, spz_debug_transition SPZ_DEBUG_QUARANTINED state, frame, event)
                else
                  (SPZ_DEBUG_CONSUMED, op_barrier ops h cpu, spz_debug_transition SPZ_DEBUG_STEP_PENDING state,
                   frame <| df_pstate ::= fun pstate => Z.lor pstate SPZ_PSTATE_SS |>, event)
    end.

Definition break_cpu (h : hw) (cpu : Z) (state : spz_debug_cpu_state)
    (current : option spz_debug_target) (frame : spz_debug_frame) (event : spz_event) : hit_result :=
  if bool_decide (ds_state state <> SPZ_DEBUG_ARMED) || bool_decide (ds_kind state <> SPZ_DEBUG_SLOT_BREAKPOINT)
     || negb (df_pc frame =? dr_address (ds_request state))
  then (SPZ_DEBUG_NOT_OWNED, h, state, frame, event)
  else spz_debug_handle_hit h cpu state current frame (df_pc frame) event.

Definition watch_cpu (h : hw) (cpu : Z) (state : spz_debug_cpu_state)
    (current : option spz_debug_target) (frame : spz_debug_frame) (event : spz_event) : hit_result :=
  let request := ds_request state in
  if bool_decide (ds_state state <> SPZ_DEBUG_ARMED) || bool_decide (ds_kind state <> SPZ_DEBUG_SLOT_WATCHPOINT)
  then (SPZ_DEBUG_NOT_OWNED, h, state, frame, event)
  else
    let end_ := u64 (dr_address request + dr_length request) in
    if (df_far frame <? dr_address request) || (end_ <=? df_far frame)
    then (SPZ_DEBUG_NOT_OWNED, h, state, frame, event)
    else
      let is_write := has_bit (df_esr frame) SPZ_ESR_WNR in
      if (bool_decide (dr_kind request = SPZ_BREAK_READ) && is_write)
         || (bool_decide (dr_kind request = SPZ_BREAK_WRITE) && negb is_write)
      then (SPZ_DEBUG_NOT_OWNED, h, state, frame, event)
      else spz_debug_handle_hit h cpu state current frame (df_far frame) event.

(** The single step that passes a hit: result, hardware, state, frame. *)
Definition step_cpu (h : hw) (cpu : Z) (state : spz_debug_cpu_state)
    (current : option spz_debug_target) (frame : spz_debug_frame) :
    Z * hw * spz_debug_cpu_state * spz_debug_frame :=
  if bool_decide (ds_state state <> SPZ_DEBUG_STEP_PENDING)
     || negb (spz_debug_target_matches (ds_target state) current)
  then (SPZ_DEBUG_NOT_OWNED, h, state, frame)
  else
    match spz_debug_live_image h cpu state with
    | inl result => (result, h, state, frame)
    | inr (live_value, live_control, owner) =>
        if negb (owner =? 0) || negb (live_value =? ds_programmed_value state)
           || negb (live_control =? ds_disabled_control state)
        then (- EUCLEAN, h, spz_debug_transition SPZ_DEBUG_QUARANTINED state, frame)
        else
          let '(result, mdscr) := op_read_mdscr ops h cpu in
          if negb (result =? 0) then (result, h, state, frame)
          else
            let restored_mdscr :=
              if negb (ds_added_mdscr_ss state =? 0) then clear_bits mdscr SPZ_MDSCR_SS else mdscr in
            let '(result, h) :=
              if negb (restored_mdscr =? mdscr) then op_write_mdscr ops h cpu restored_mdscr else (0, h) in
            if negb (result =? 0)
            then (result, h, spz_debug_transition SPZ_DEBUG_QUARANTINED state, frame)
            else
              let frame :=
                if negb (ds_added_pstate_ss state =? 0)
                then frame <| df_pstate ::= fun pstate => clear_bits pstate SPZ_PSTATE_SS |> else frame in
              let '(result, h) :=
                op_write_control ops h cpu (ds_kind state) (ds_slot state) (ds_programmed_control state) in
              if negb (result =? 0)
              then (result, h, spz_debug_transition SPZ_DEBUG_QUARANTINED state, frame)
              else
                let forward :=
                  if negb (ds_forward_single_step state =? 0) then SPZ_DEBUG_FORWARD_ORIGINAL
                  else SPZ_DEBUG_CONSUMED in
                let state :=
                  state <| ds_added_mdscr_ss := 0 |> <| ds_added_pstate_ss := 0 |>
                        <| ds_forward_single_step := 0 |> in
                (forward, op_barrier ops h cpu, spz_debug_transition SPZ_DEBUG_ARMED state, frame)
    end.

End debug.

(** ** The controller: the same operations on [controller->cpu[cpu]] *)

Section controller.
Context {hw : Type}.
Implicit Types (c : spz_debug_controller hw) (h : hw).

Definition spz_debug_controller_init (ops : option (spz_debug_ops_table hw)) (cpu_count : Z) :
    Z * option (spz_debug_controller hw) :=
  match ops with
  | Some {| ot_brp_count := brp_count; ot_wrp_count := wrp_count; ot_read_value := Some read_value;
            ot_write_value := Some write_value; ot_read_control := Some read_control;
            ot_write_control := Some write_control; ot_read_mdscr := Some read_mdscr;
            ot_write_mdscr := Some write_mdscr; ot_read_owner := Some read_owner;
            ot_barrier := Some barrier |} =>
      if (cpu_count =? 0) || (SPZ_MAX_CPUS <? cpu_count) || (brp_count =? 0)
         || (SPZ_DEBUG_MAX_SLOTS <? brp_count) || (wrp_count =? 0) || (SPZ_DEBUG_MAX_SLOTS <? wrp_count)
      then (- EINVAL, None)
      else
        (0, Some {| dc_ops := {| op_brp_count := brp_count; op_wrp_count := wrp_count;
                                 op_read_value := read_value; op_write_value := write_value;
                                 op_read_control := read_control; op_write_control := write_control;
                                 op_read_mdscr := read_mdscr; op_write_mdscr := write_mdscr;
                                 op_read_owner := read_owner; op_barrier := barrier |};
                    dc_cpu_count := cpu_count;
                    dc_cpu := replicate (Z.to_nat SPZ_MAX_CPUS) zero_debug_cpu_state |})
  | _ => (- EINVAL, None)
  end.

Definition get_state c (cpu : Z) : spz_debug_cpu_state := dc_cpu c !!! Z.to_nat cpu.
Definition set_state c (cpu : Z) (s : spz_debug_cpu_state) : spz_debug_controller hw :=
  {| dc_ops := dc_ops c; dc_cpu_count := dc_cpu_count c; dc_cpu := <[Z.to_nat cpu := s]> (dc_cpu c) |}.

Definition spz_debug_arm_current c h (cpu : Z) (request : option spz_debug_request)
    (target : option spz_debug_target) : Z * hw * spz_debug_controller hw :=
  match target with
  | Some t =>
      if (dc_cpu_count c <=? cpu) || negb (spz_debug_valid_target target) then (- EINVAL, h, c)
      else let '(result, h, s) := arm_cpu (dc_ops c) h cpu (get_state c cpu) request t in
           (result, h, set_state c cpu s)
  | None => (- EINVAL, h, c)
  end.

Definition spz_debug_restore_cpu c h (cpu : Z) : Z * hw * spz_debug_controller hw :=
  if dc_cpu_count c <=? cpu then (- EINVAL, h, c)
  else let '(result, h, s) := restore_cpu (dc_ops c) h cpu (get_state c cpu) in
       (result, h, set_state c cpu s).

Definition spz_debug_handle_break c h (cpu : Z) (current : option spz_debug_target)
    (frame : spz_debug_frame) (event : spz_event) :
    Z * hw * spz_debug_controller hw * spz_debug_frame * spz_event :=
  if dc_cpu_count c <=? cpu then (- EINVAL, h, c, frame, event)
  else let '(result, h, s, frame, event) := break_cpu (dc_ops c) h cpu (get_state c cpu) current frame event in
       (result, h, set_state c cpu s, frame, event).

Definition spz_debug_handle_watch c h (cpu : Z) (current : option spz_debug_target)
    (frame : spz_debug_frame) (event : spz_event) :
    Z * hw * spz_debug_controller hw * spz_debug_frame * spz_event :=
  if dc_cpu_count c <=? cpu then (- EINVAL, h, c, frame, event)
  else let '(result, h, s, frame, event) := watch_cpu (dc_ops c) h cpu (get_state c cpu) current frame event in
       (result, h, set_state c cpu s, frame, event).

Definition spz_debug_handle_step c h (cpu : Z) (current : option spz_debug_target) (frame : spz_debug_frame) :
    Z * hw * spz_debug_controller hw * spz_debug_frame :=
  if dc_cpu_count c <=? cpu then (- EINVAL, h, c, frame)
  else let '(result, h, s, frame) := step_cpu (dc_ops c) h cpu (get_state c cpu) current frame in
       (result, h, set_state c cpu s, frame).

(** [spz_debug_cpu_state] the function; [None] is the NULL it returns. *)
Definition spz_debug_get_cpu_state c (cpu : Z) : option spz_debug_cpu_state :=
  if dc_cpu_count c <=? cpu then None else Some (get_state c cpu).

End controller.
