(* ===== verification/DebugEncode.v ===== *)
(** * The debug register encoding of a request

    What [spz_debug_validate_request] of kpm/core/debug.c accepts, and that the
    value and control words it computes select exactly the bytes requested. *)

From S2P Require Import Prelude Abi DeviceProfiles Profile Task Debug.

(** ** Masks *)

Lemma u64_land z : u64 z = Z.land z (Z.ones 64).
Proof. by rewrite Z.land_ones. Qed.

Lemma u32_land z : u32 z = Z.land z (Z.ones 32).
Proof. by rewrite Z.land_ones. Qed.

(** [word & ~mask] on 64-bit words clears the bits of the mask. *)
Lemma clear_bits_ldiff word mask : is_u64 word -> clear_bits word mask = Z.ldiff word mask.
Proof.
  intros Hw. unfold clear_bits. rewrite u64_land, (Z.land_comm (Z.lnot mask)), Z.land_assoc.
  rewrite Z.land_ones, Z.mod_small by lia. symmetry. apply Z.ldiff_land.
Qed.

Lemma align_down_8 a : is_u64 a -> Z.land a (u64 (Z.lnot 7)) = 8 * (a / 8).
Proof.
  intros Ha. change (Z.land a (u64 (Z.lnot 7))) with (clear_bits a 7). rewrite clear_bits_ldiff by done.
  change 7 with (Z.ones 3). rewrite Z.ldiff_ones_r, Z.shiftl_mul_pow2, Z.shiftr_div_pow2 by lia.
  change (2 ^ 3) with 8. lia.
Qed.

Lemma land_low a n : 0 <= n -> Z.land a (Z.ones n) = a mod 2 ^ n.
Proof. intros. by apply Z.land_ones. Qed.

(** ** Acceptance *)

(** The requests the hardware can carry: an aligned instruction, or 1, 2, 4 or 8
    bytes inside one aligned 8-byte word, below 2^56 and not at 0. *)
Definition encodable (request : spz_debug_request) : Prop :=
  dr_id request <> 0 /\
  (dr_mode request = SPZ_BREAK_ONCE \/ dr_mode request = SPZ_BREAK_REPEAT) /\
  0 < dr_address request < 2 ^ 56 /\
  match dr_kind request with
  | SPZ_BREAK_INVALID => False
  | SPZ_BREAK_EXECUTE => dr_length request = 4 /\ dr_address request mod 4 = 0
  | _ => dr_length request ∈ [1; 2; 4; 8] /\
         dr_address request mod 8 + dr_length request <= 8
  end.

Definition request_widths (request : spz_debug_request) : Prop :=
  is_u64 (dr_address request) /\ is_u8 (dr_length request).

Definition watch_lsc (kind : spz_break_kind) : Z :=
  match kind with
  | SPZ_BREAK_READ => 1 | SPZ_BREAK_WRITE => 2 | SPZ_BREAK_READ_WRITE => 3
  | _ => 0
  end.

(** The byte mask of [length] bytes at offset [r] of the word. *)
Definition watch_mask (r length : Z) : Z := (2 ^ length - 1) * 2 ^ r.

Lemma shiftr_56 a : 0 <= a -> Z.shiftr a 56 = 0 <-> a < 2 ^ 56.
Proof.
  intros Ha. rewrite Z.shiftr_div_pow2 by lia. change (2 ^ 56) with 72057594037927936.
  split; intros H; zlia.
Qed.

Lemma watch_mask_eq r length :
  0 <= r -> length ∈ [1; 2; 4; 8] -> r + length <= 8 ->
  u8 (u32 (Z.shiftl (u32 (u32 (Z.shiftl 1 length) - 1)) r)) = watch_mask r length.
Proof.
  intros Hr Hl Hb. rewrite !elem_of_cons, elem_of_nil in Hl.
  assert (Hr8 : r = 0 \/ r = 1 \/ r = 2 \/ r = 3 \/ r = 4 \/ r = 5 \/ r = 6 \/ r = 7) by lia.
  destruct Hl as [-> | [-> | [-> | [-> | []]]]];
    repeat (destruct Hr8 as [-> | Hr8]; [first [reflexivity|lia]|]); subst; first [reflexivity|lia].
Qed.

(** The encoding, branch by branch. *)
Lemma validate_request_eq request :
  request_widths request -> encodable request ->
  spz_debug_validate_request (Some request) =
  inr (match dr_kind request with
       | SPZ_BREAK_EXECUTE => (dr_address request, debug_control 15 0, 15)
       | _ => (8 * (dr_address request / 8),
               debug_control (watch_mask (dr_address request mod 8) (dr_length request))
                 (Z.shiftl (watch_lsc (dr_kind request)) 3),
               watch_mask (dr_address request mod 8) (dr_length request))
       end).
Proof.
  intros [Ha Hl] (Hid & Hmode & Haddr & Hkind). unfold spz_debug_validate_request.
  rewrite eqb_ne by done.
  replace (bool_decide (dr_mode request <> SPZ_BREAK_ONCE) && _) with false
    by (destruct Hmode as [-> | ->]; done).
  rewrite eqb_ne by lia. rewrite (proj2 (shiftr_56 (dr_address request) ltac:(lia))) by lia. cbn [orb negb Z.eqb].
  destruct (dr_kind request) eqn:Hk; [done| | | | ].
  { destruct Hkind as [-> Hal]. rewrite bool_decide_true by done.
    change 3 with (Z.ones 2). rewrite land_low by lia. change (2 ^ 2) with 4. by rewrite Hal. }
  all: rewrite bool_decide_false by done; destruct Hkind as [Hlen Hin].
  all: replace (bool_decide _ && _ && _) with false by done.
  all: replace (negb (dr_length request =? 1) && _ && _ && _) with false
    by (rewrite !elem_of_cons, elem_of_nil in Hlen;
        destruct Hlen as [-> | [-> | [-> | [-> | []]]]]; done).
  all: assert (0 < dr_length request <= 8)
    by (rewrite !elem_of_cons, elem_of_nil in Hlen; lia).
  all: change (2 ^ 56) with 72057594037927936 in Haddr.
  all: assert (Hlast : u64 (u64 (dr_address request + dr_length request) - 1)
                       = dr_address request + dr_length request - 1) by zlia.
  all: rewrite Hlast, (proj2 (Z.ltb_ge _ _)) by lia.
  all: rewrite !Z.shiftr_div_pow2 by lia; change (2 ^ 3) with 8.
  all: replace ((dr_address request + dr_length request - 1) / 8) with (dr_address request / 8) by zlia.
  all: rewrite Z.eqb_refl; cbn [orb negb].
  all: rewrite align_down_8 by done.
  all: replace (Z.land (dr_address request) 7) with (dr_address request mod 8)
    by (change 7 with (Z.ones 3); by rewrite land_low).
  all: rewrite watch_mask_eq by (done || zlia).
  all: done.
Qed.

(** Only encodable requests are accepted. *)
Lemma validate_request_inr request out :
  request_widths request -> spz_debug_validate_request (Some request) = inr out -> encodable request.
Proof.
  intros [Ha Hl] H. unfold spz_debug_validate_request in H. cbv zeta in H.
  destruct (dr_id request =? 0) eqn:E1; [done|].
  destruct (bool_decide (dr_mode request <> _) && _) eqn:E2; [done|].
  destruct ((dr_address request =? 0) || _) eqn:E3; [done|].
  apply orb_false_iff in E3 as [E3 E3']. apply negb_false_iff, Z.eqb_eq in E3'.
  apply shiftr_56 in E3'; [|lia].
  assert (Hm : dr_mode request = SPZ_BREAK_ONCE \/ dr_mode request = SPZ_BREAK_REPEAT)
    by (destruct (dr_mode request); auto; done).
  unfold encodable. split; [lia|]. split; [done|]. split; [lia|].
  change (2 ^ 56) with 72057594037927936 in E3'.
  destruct (dr_kind request) eqn:Hk; [done| | | | ].
  { rewrite bool_decide_true in H by done. destruct (negb (_ =? 4) || _) eqn:E4; [done|].
    apply orb_false_iff in E4 as [E4 E5]. apply negb_false_iff, Z.eqb_eq in E5.
    change 3 with (Z.ones 2) in E5. rewrite land_low in E5 by lia. change (2 ^ 2) with 4 in E5. split; [lia|done]. }
  all: rewrite bool_decide_false in H by done; cbn [andb] in H.
  all: destruct (bool_decide _ && _ && _); [done|].
  all: destruct (negb (dr_length request =? 1) && _ && _ && _) eqn:E4; [done|].
  all: assert (Hlen : dr_length request ∈ [1; 2; 4; 8]) by (rewrite !elem_of_cons, elem_of_nil; lia).
  all: split; [done|]; rewrite !elem_of_cons, elem_of_nil in Hlen.
  all: assert (Hlast : u64 (u64 (dr_address request + dr_length request) - 1)
                       = dr_address request + dr_length request - 1) by zlia.
  all: rewrite Hlast in H; destruct (_ || _) eqn:E5; [done|].
  all: apply orb_false_iff in E5 as [_ E5]; apply negb_false_iff, Z.eqb_eq in E5.
  all: rewrite !Z.shiftr_div_pow2 in E5 by lia; change (2 ^ 3) with 8 in E5; zlia.
Qed.

(** ** The words select the requested bytes *)

Lemma watch_mask_bits r length i :
  0 <= r -> length ∈ [1; 2; 4; 8] -> r + length <= 8 -> 0 <= i < 8 ->
  Z.testbit (watch_mask r length) i = true <-> r <= i < r + length.
Proof.
  intros Hr Hl Hb Hi. unfold watch_mask. rewrite !elem_of_cons, elem_of_nil in Hl.
  rewrite Z.mul_pow2_bits by lia. replace (2 ^ length - 1) with (Z.ones length) by (rewrite Z.ones_equiv; lia).
  destruct (Z.lt_ge_cases i r).
  - rewrite Z.testbit_neg_r by lia. split; [done|lia].
  - rewrite Z.testbit_ones by lia. rewrite andb_true_iff, Z.leb_le, Z.ltb_lt. lia.
Qed.

Lemma watch_mask_u8 r length :
  0 <= r -> length ∈ [1; 2; 4; 8] -> r + length <= 8 -> is_u8 (watch_mask r length).
Proof.
  intros Hr Hl Hb. rewrite <- watch_mask_eq by done. zlia.
Qed.

(** The fields of the control word. *)
Lemma debug_control_fields mask lsc :
  is_u8 mask -> 0 <= lsc <= 3 ->
  let control := debug_control mask (Z.shiftl lsc 3) in
  Z.shiftr control 5 = mask /\ Z.land (Z.shiftr control 3) 3 = lsc /\
  Z.land (Z.shiftr control 1) 3 = 2 /\ Z.testbit control 0 = true.
Proof.
  intros Hm Hl control.
  assert (Hc : control = mask * 32 + lsc * 8 + 5).
  { unfold control, debug_control, SPZ_DEBUG_PRIVILEGE_EL0, SPZ_DEBUG_CTRL_ENABLE.
    rewrite !Z.shiftl_mul_pow2 by lia. change (2 ^ 5) with 32. change (2 ^ 3) with 8.
    replace (u32 (mask * 32)) with (mask * 32) by zlia.
    assert (Hor : forall a b k, 0 <= b < 2 ^ k -> 0 <= k -> Z.lor (a * 2 ^ k) b = a * 2 ^ k + b).
    { intros a b k Hb Hk. rewrite <- Z.lxor_lor, Z.add_nocarry_lxor; [done| |];
        (apply Z.bits_inj'; intros i Hi; rewrite Z.land_spec, Z.bits_0;
         destruct (Z.lt_ge_cases i k);
         [rewrite Z.mul_pow2_bits_low by lia; done|rewrite (testbit_high k b) by lia; apply andb_false_r]). }
    rewrite <- !Z.lor_assoc. change (Z.lor (2 * 2 ^ 1) 1) with 5.
    change (lsc * 8) with (lsc * 2 ^ 3) at 1. rewrite (Hor lsc 5 3) by lia. change (mask * 32) with (mask * 2 ^ 5). rewrite (Hor mask _ 5) by lia. lia. }
  change 3 with (Z.ones 2) at 2 3. rewrite !Z.land_ones, !Z.shiftr_div_pow2, Z.bit0_odd, Hc by lia.
  change (2 ^ 5) with 32. change (2 ^ 3) with 8. change (2 ^ 2) with 4. change (2 ^ 1) with 2.
  repeat split; try zlia.
  replace (mask * 32 + lsc * 8 + 5) with (1 + 2 * (mask * 16 + lsc * 4 + 2)) by lia.
  by rewrite Z.odd_add_mul_2.
Qed.

(** The bytes a slot watches: bit [i] of the byte mask selects [value + i]. *)
Definition watches (value bas byte : Z) : Prop :=
  exists i, 0 <= i < 8 /\ Z.testbit bas i = true /\ byte = value + i.

(** C4: a request is accepted exactly when it is encodable, every refusal is
    EINVAL, and the words of an accepted request select exactly the requested
    bytes: the byte mask over the register address is [[address, address+length)],
    and the control word carries that mask, the accesses of the request's kind,
    user mode only, and the enable bit. *)
Theorem validate_request_encodes request :
  request_widths request ->
  match spz_debug_validate_request (Some request) with
  | inl r => r = - EINVAL /\ ~ encodable request
  | inr (value, control, bas) =>
      encodable request /\
      (forall byte, watches value bas byte <->
         dr_address request <= byte < dr_address request + dr_length request) /\
      Z.shiftr control 5 = bas /\ Z.land (Z.shiftr control 3) 3 = watch_lsc (dr_kind request) /\
      Z.land (Z.shiftr control 1) 3 = 2 /\ Z.testbit control 0 = true
  end.
Proof.
  intros Hw. destruct (spz_debug_validate_request (Some request)) as [r|[[value control] bas]] eqn:E.
  { split; [|intros He; by rewrite validate_request_eq in E].
    unfold spz_debug_validate_request in E. repeat case_match; by simplify_eq. }
  pose proof (validate_request_inr request _ Hw E) as He. split; [done|].
  rewrite validate_request_eq in E by done. destruct Hw as [Ha _], He as (_ & _ & Haddr & Hkind).
  assert (Hdm := Z.div_mod (dr_address request) 8 ltac:(lia)).
  assert (Hr := Z.mod_pos_bound (dr_address request) 8 ltac:(lia)).
  destruct (dr_kind request); [done| | | | ]; injection E as <- <- <-.
  { destruct Hkind as [-> _]. split; [|by vm_compute]. intros byte. split.
    - intros (i & Hi & Hb & ->). assert (Hi4 : i < 4 \/ i = 4 \/ i = 5 \/ i = 6 \/ i = 7) by lia.
      destruct Hi4 as [?|[-> |[-> |[-> | ->]]]]; [lia|done..].
    - intros Hb. exists (byte - dr_address request). split; [lia|]. split; [|lia].
      assert (Hi : byte - dr_address request = 0 \/ byte - dr_address request = 1 \/
                   byte - dr_address request = 2 \/ byte - dr_address request = 3) by lia.
      by destruct Hi as [-> |[-> |[-> | ->]]]. }
  all: destruct Hkind as [Hlen Hin].
  all: split; [|apply debug_control_fields; [by apply watch_mask_u8; [lia| |]|simpl; lia]].
  all: intros byte; split;
    [intros (i & Hi & Hb & ->); apply watch_mask_bits in Hb; [lia|lia|done|done|done]|].
  all: intros Hb; exists (byte - 8 * (dr_address request / 8)); rewrite watch_mask_bits; [lia|lia|done|done|].
  all: rewrite !elem_of_cons, elem_of_nil in Hlen; lia.
Qed.

Definition demo_watch : spz_debug_request :=
  {| dr_id := 7; dr_kind := SPZ_BREAK_WRITE; dr_address := 0x5002; dr_length := 4; dr_mode := SPZ_BREAK_REPEAT |}.

Lemma demo_watch_widths : request_widths demo_watch.
Proof. split; simpl; lia. Qed.

Lemma validate_request_encodes_witness :
  match spz_debug_validate_request (Some demo_watch) with
  | inl r => r = - EINVAL /\ ~ encodable demo_watch
  | inr (value, control, bas) =>
      encodable demo_watch /\
      (forall byte, watches value bas byte <-> 0x5002 <= byte < 0x5002 + 4) /\
      Z.shiftr control 5 = bas /\ Z.land (Z.shiftr control 3) 3 = watch_lsc SPZ_BREAK_WRITE /\
      Z.land (Z.shiftr control 1) 3 = 2 /\ Z.testbit control 0 = true
  end.
Proof. exact (validate_request_encodes demo_watch demo_watch_widths). Defined.

Example demo_watch_words : spz_debug_validate_request (Some demo_watch) = inr (0x5000, 0x795, 0x3c).
Proof. vm_compute. reflexivity. Qed.
