(* ===== verification/DebugSpec.v ===== *)
(** * What borrowing a debug slot guarantees (kpm/core/debug.c)

    [DebugHw] states what the register operations promise, faults included. The
    theorems say which registers the operations may touch, that a refused or
    interfered-with slot is left alone, and that a whole session of arming, hits,
    steps and restoring gives the registers back as they were found. *)

From S2P Require Import Prelude Abi DeviceProfiles Profile Task Debug DebugEncode.

(** ** The registers, seen from outside *)

Record debug_view := {
  dv_value : Z -> spz_debug_slot_kind -> Z -> Z;
  dv_control : Z -> spz_debug_slot_kind -> Z -> Z;
  dv_mdscr : Z -> Z;
  dv_owner : Z -> spz_debug_slot_kind -> Z -> Z;
}.

(** Same contents of every register. *)
Record same_view (a b : debug_view) : Prop := {
  sv_value : forall c k i, dv_value a c k i = dv_value b c k i;
  sv_control : forall c k i, dv_control a c k i = dv_control b c k i;
  sv_mdscr : forall c, dv_mdscr a c = dv_mdscr b c;
  sv_owner : forall c k i, dv_owner a c k i = dv_owner b c k i;
}.

#[export] Instance debug_view_equiv : Equiv debug_view := same_view.

#[export] Instance same_view_equivalence : Equivalence (≡@{debug_view}).
Proof.
  split.
  - by intros a.
  - intros a b []. by split; intros.
  - intros a b c [] []. split; intros; etransitivity; eauto.
Qed.

Definition set_value (c : Z) (k : spz_debug_slot_kind) (i v : Z) (w : debug_view) : debug_view :=
  {| dv_value := fun c' k' i' => if decide ((c', k', i') = (c, k, i)) then v else dv_value w c' k' i';
     dv_control := dv_control w; dv_mdscr := dv_mdscr w; dv_owner := dv_owner w |}.
Definition set_control (c : Z) (k : spz_debug_slot_kind) (i v : Z) (w : debug_view) : debug_view :=
  {| dv_value := dv_value w;
     dv_control := fun c' k' i' => if decide ((c', k', i') = (c, k, i)) then v else dv_control w c' k' i';
     dv_mdscr := dv_mdscr w; dv_owner := dv_owner w |}.
Definition set_mdscr (c v : Z) (w : debug_view) : debug_view :=
  {| dv_value := dv_value w; dv_control := dv_control w;
     dv_mdscr := fun c' => if decide (c' = c) then v else dv_mdscr w c'; dv_owner := dv_owner w |}.

#[export] Instance set_value_proper c k i v : Proper ((≡) ==> (≡)) (set_value c k i v).
Proof. intros a b []. split; intros; simpl; try case_decide; auto. Qed.
#[export] Instance set_control_proper c k i v : Proper ((≡) ==> (≡)) (set_control c k i v).
Proof. intros a b []. split; intros; simpl; try case_decide; auto. Qed.
#[export] Instance set_mdscr_proper c v : Proper ((≡) ==> (≡)) (set_mdscr c v).
Proof. intros a b []. split; intros; simpl; try case_decide; auto. Qed.

(** What the operations promise: a read that reports success returns the
    register; a write either succeeds and changes that register only, or fails
    and changes nothing; the barrier changes nothing. *)
Class DebugHw {hw : Type} (ops : spz_debug_ops hw) (view : hw -> debug_view) : Prop := {
  hw_read_value h c k i : (op_read_value ops h c k i).1 = 0 ->
    (op_read_value ops h c k i).2 = dv_value (view h) c k i;
  hw_read_control h c k i : (op_read_control ops h c k i).1 = 0 ->
    (op_read_control ops h c k i).2 = dv_control (view h) c k i;
  hw_read_mdscr h c : (op_read_mdscr ops h c).1 = 0 -> (op_read_mdscr ops h c).2 = dv_mdscr (view h) c;
  hw_read_owner h c k i : (op_read_owner ops h c k i).1 = 0 ->
    (op_read_owner ops h c k i).2 = dv_owner (view h) c k i;
  hw_write_value h c k i v :
    let '(r, h') := op_write_value ops h c k i v in
    (r = 0 /\ view h' ≡ set_value c k i (u64 v) (view h)) \/ (r <> 0 /\ view h' ≡ view h);
  hw_write_control h c k i v :
    let '(r, h') := op_write_control ops h c k i v in
    (r = 0 /\ view h' ≡ set_control c k i (u32 v) (view h)) \/ (r <> 0 /\ view h' ≡ view h);
  hw_write_mdscr h c v :
    let '(r, h') := op_write_mdscr ops h c v in
    (r = 0 /\ view h' ≡ set_mdscr c (u64 v) (view h)) \/ (r <> 0 /\ view h' ≡ view h);
  hw_value_u64 h c k i : is_u64 (dv_value (view h) c k i);
  hw_control_u32 h c k i : is_u32 (dv_control (view h) c k i);
  hw_mdscr_u64 h c : is_u64 (dv_mdscr (view h) c);
  hw_barrier h c : view (op_barrier ops h c) ≡ view h;
}.

(** A slot the machine has. *)
Definition has_slot {hw : Type} (ops : spz_debug_ops hw) (kind : spz_debug_slot_kind) (slot : Z) : Prop :=
  (kind = SPZ_DEBUG_SLOT_BREAKPOINT \/ kind = SPZ_DEBUG_SLOT_WATCHPOINT) /\
  0 <= slot < Z.of_nat (Z.to_nat (spz_debug_slot_count ops kind)).

(** Hardware whose operations on the slots of this CPU never fail. *)
Class FaultFree {hw : Type} (ops : spz_debug_ops hw) (cpu : Z) : Prop := {
  ff_read_value h k i : has_slot ops k i -> (op_read_value ops h cpu k i).1 = 0;
  ff_read_control h k i : has_slot ops k i -> (op_read_control ops h cpu k i).1 = 0;
  ff_read_mdscr h : (op_read_mdscr ops h cpu).1 = 0;
  ff_read_owner h k i : has_slot ops k i -> (op_read_owner ops h cpu k i).1 = 0;
  ff_write_value h k i v : has_slot ops k i -> (op_write_value ops h cpu k i v).1 = 0;
  ff_write_control h k i v : has_slot ops k i -> (op_write_control ops h cpu k i v).1 = 0;
  ff_write_mdscr h v : (op_write_mdscr ops h cpu v).1 = 0;
}.

(** ** Facts that need no promise *)

(** A quarantined CPU is never touched again. Arming is refused with EBUSY,
    restoring with EUCLEAN, and no exception is claimed; registers, state, frame
    and event stay as they are, whatever the hardware does. *)
Theorem quarantine_is_final {hw} (ops : spz_debug_ops hw) h cpu s request target current frame event :
  ds_state s = SPZ_DEBUG_QUARANTINED ->
  arm_cpu ops h cpu s request target = (- EBUSY, h, s) /\
  restore_cpu ops h cpu s = (- EUCLEAN, h, s) /\
  break_cpu ops h cpu s current frame event = (SPZ_DEBUG_NOT_OWNED, h, s, frame, event) /\
  watch_cpu ops h cpu s current frame event = (SPZ_DEBUG_NOT_OWNED, h, s, frame, event) /\
  step_cpu ops h cpu s current frame = (SPZ_DEBUG_NOT_OWNED, h, s, frame).
Proof.
  intros Hs. unfold arm_cpu, restore_cpu, break_cpu, watch_cpu, step_cpu.
  rewrite Hs. by repeat split.
Qed.

Lemma live_image_inl {hw} (ops : spz_debug_ops hw) h cpu s r :
  spz_debug_live_image ops h cpu s = inl r -> r <> 0.
Proof. unfold spz_debug_live_image. repeat case_match; intros [= <-]; lia. Qed.

Lemma handle_hit_not_owned {hw} (ops : spz_debug_ops hw) h cpu s current frame observed event :
  let '(r, h', s', frame', event') := spz_debug_handle_hit ops h cpu s current frame observed event in
  r = SPZ_DEBUG_NOT_OWNED -> (h', s', frame', event') = (h, s, frame, event).
Proof.
  unfold spz_debug_handle_hit, SPZ_DEBUG_NOT_OWNED. destruct (negb _); [done|].
  destruct (spz_debug_live_image _ _ _ _) as [r|[[v ctl] o]] eqn:El; [by apply live_image_inl in El|].
  destruct (_ || _); [done|]. destruct (op_read_mdscr ops h cpu) as [r md]. destruct (negb (r =? 0)) eqn:Er; [lia|].
  destruct (op_write_control _ _ _ _ _ _) as [r1 h1]. destruct (negb (r1 =? 0)) eqn:Er1; [lia|]. cbv zeta.
  destruct (_ || _); [done|]. destruct (if negb (_ =? md) then _ else _) as [r2 h2].
  by destruct (negb (r2 =? 0)) eqn:Er2; [lia|].
Qed.

(** C36: an exception that is not ours is passed on untouched. When a handler
    answers NOT_OWNED, no register was written and the state, the frame and the
    event are what they were. A break is ours only on an armed breakpoint at that
    very address, a watch only on an armed watchpoint whose requested bytes
    contain the faulting address, and both only for the bound task. *)
Theorem not_owned_is_untouched {hw} (ops : spz_debug_ops hw) h cpu s current frame event :
  (let '(r, h', s', frame', event') := break_cpu ops h cpu s current frame event in
   (r = SPZ_DEBUG_NOT_OWNED -> (h', s', frame', event') = (h, s, frame, event)) /\
   (r = SPZ_DEBUG_CONSUMED -> ds_state s = SPZ_DEBUG_ARMED /\ ds_kind s = SPZ_DEBUG_SLOT_BREAKPOINT /\
      df_pc frame = dr_address (ds_request s) /\ spz_debug_target_matches (ds_target s) current = true)) /\
  (let '(r, h', s', frame', event') := watch_cpu ops h cpu s current frame event in
   (r = SPZ_DEBUG_NOT_OWNED -> (h', s', frame', event') = (h, s, frame, event)) /\
   (r = SPZ_DEBUG_CONSUMED -> ds_state s = SPZ_DEBUG_ARMED /\ ds_kind s = SPZ_DEBUG_SLOT_WATCHPOINT /\
      dr_address (ds_request s) <= df_far frame < u64 (dr_address (ds_request s) + dr_length (ds_request s)) /\
      spz_debug_target_matches (ds_target s) current = true)) /\
  (let '(r, h', s', frame') := step_cpu ops h cpu s current frame in
   r = SPZ_DEBUG_NOT_OWNED -> (h', s', frame') = (h, s, frame)).
Proof.
  assert (Hm : forall observed, spz_debug_target_matches (ds_target s) current = false ->
    spz_debug_handle_hit ops h cpu s current frame observed event = (SPZ_DEBUG_NOT_OWNED, h, s, frame, event))
    by (intros observed E; unfold spz_debug_handle_hit; by rewrite E).
  split; [|split].
  - unfold break_cpu. destruct (_ || _) eqn:E; [done|]. rewrite !orb_false_iff, negb_false_iff in E.
    destruct E as [[E1 E2] E3]. apply bool_decide_eq_false in E1, E2.
    pose proof (handle_hit_not_owned ops h cpu s current frame (df_pc frame) event) as Hn. specialize (Hm (df_pc frame)).
    destruct (spz_debug_handle_hit _ _ _ _ _ _ _ _) as [[[[r h'] s'] f'] e']. split; [done|]. intros ->.
    destruct (spz_debug_target_matches _ _); [|by specialize (Hm eq_refl)].
    split; [by apply dec_stable|]. split; [by apply dec_stable|]. split; [lia|done].
  - unfold watch_cpu. cbv zeta. destruct (bool_decide (ds_state s <> _) || _) eqn:E; [done|].
    rewrite !orb_false_iff in E. destruct E as [E1 E2]. apply bool_decide_eq_false in E1, E2.
    destruct (_ || _) eqn:E3; [done|]. destruct (_ && _ || _); [done|].
    pose proof (handle_hit_not_owned ops h cpu s current frame (df_far frame) event) as Hn. specialize (Hm (df_far frame)).
    destruct (spz_debug_handle_hit _ _ _ _ _ _ _ _) as [[[[r h'] s'] f'] e']. split; [done|]. intros ->.
    destruct (spz_debug_target_matches _ _); [|by specialize (Hm eq_refl)].
    split; [by apply dec_stable|]. split; [by apply dec_stable|]. split; [lia|done].
  - unfold step_cpu, SPZ_DEBUG_NOT_OWNED. destruct (_ || _); [done|].
    destruct (spz_debug_live_image _ _ _ _) as [r|[[v ctl] o]] eqn:El; [by apply live_image_inl in El|].
    destruct (_ || _); [done|]. destruct (op_read_mdscr ops h cpu) as [r md]. destruct (negb (r =? 0)) eqn:Er; [lia|].
    cbv zeta. destruct (if negb (_ =? md) then _ else _) as [r1 h1]. destruct (negb (r1 =? 0)) eqn:Er1; [lia|].
    destruct (op_write_control _ _ _ _ _ _) as [r2 h2]. destruct (negb (r2 =? 0)) eqn:Er2; [lia|].
    by destruct (negb (ds_forward_single_step s =? 0)).
Qed.

(** ** Reading through the promises *)

Section spec.
Context {hw : Type} (ops : spz_debug_ops hw) (view : hw -> debug_view) `{!DebugHw ops view}.

Lemma read_value_eq h c k i v : op_read_value ops h c k i = (0, v) -> v = dv_value (view h) c k i.
Proof. intros E. pose proof (hw_read_value h c k i) as H. rewrite E in H. by apply H. Qed.
Lemma read_control_eq h c k i v : op_read_control ops h c k i = (0, v) -> v = dv_control (view h) c k i.
Proof. intros E. pose proof (hw_read_control h c k i) as H. rewrite E in H. by apply H. Qed.
Lemma read_mdscr_eq h c v : op_read_mdscr ops h c = (0, v) -> v = dv_mdscr (view h) c.
Proof. intros E. pose proof (hw_read_mdscr h c) as H. rewrite E in H. by apply H. Qed.
Lemma read_owner_eq h c k i v : op_read_owner ops h c k i = (0, v) -> v = dv_owner (view h) c k i.
Proof. intros E. pose proof (hw_read_owner h c k i) as H. rewrite E in H. by apply H. Qed.

(** [check_result]: the next [if result =? 0] of the code; failure and success. *)
Ltac check_result r :=
  let E := fresh "Er" in
  destruct (r =? 0) eqn:E; cbn [negb]; [apply Z.eqb_eq in E; subst r|apply Z.eqb_neq in E].

Lemma live_image_eq h cpu s v ctl o :
  spz_debug_live_image ops h cpu s = inr (v, ctl, o) ->
  v = dv_value (view h) cpu (ds_kind s) (ds_slot s) /\ ctl = dv_control (view h) cpu (ds_kind s) (ds_slot s) /\
  o = dv_owner (view h) cpu (ds_kind s) (ds_slot s).
Proof.
  unfold spz_debug_live_image.
  destruct (op_read_owner ops h cpu _ _) as [r1 owner] eqn:E1. check_result r1; [|done].
  destruct (op_read_value ops h cpu _ _) as [r2 value] eqn:E2. check_result r2; [|done].
  destruct (op_read_control ops h cpu _ _) as [r3 control] eqn:E3. check_result r3; [|done].
  intros [= <- <- <-]. apply read_owner_eq in E1. apply read_value_eq in E2. by apply read_control_eq in E3.
Qed.

(** The slot found is free: no owner, not enabled, and the saved words are its own. *)
Lemma find_slot_loop_eq n h cpu kind slot v ctl :
  find_slot_loop ops n h cpu kind = inr (slot, v, ctl) ->
  0 <= slot < Z.of_nat n /\ dv_owner (view h) cpu kind slot = 0 /\
  has_bit (dv_control (view h) cpu kind slot) SPZ_DEBUG_CTRL_ENABLE = false /\
  v = dv_value (view h) cpu kind slot /\ ctl = dv_control (view h) cpu kind slot.
Proof.
  induction n as [|n IH]; [done|]. cbn [find_slot_loop].
  destruct (op_read_owner ops h cpu _ _) as [r1 owner] eqn:E1. check_result r1; [|done].
  destruct (op_read_control ops h cpu _ _) as [r2 control] eqn:E2. check_result r2; [|done].
  destruct (Bool.eqb _ _) eqn:Eb; cbn [negb]; [|done]. apply eqb_prop in Eb.
  destruct (owner =? 0) eqn:Eo; cbn [negb].
  2: { intros H. destruct (IH H) as (? & ?). split; [lia|done]. }
  destruct (op_read_value ops h cpu _ _) as [r3 value] eqn:E3. check_result r3; [|done].
  intros [= <- <- <-]. apply read_owner_eq in E1. apply read_control_eq in E2. apply read_value_eq in E3.
  rewrite <- E1, <- E2, <- E3. split; [lia|]. split; [lia|]. split; [|done].
  by destruct (has_bit control _).
Qed.

(** ** Bits of the status register *)

Lemma has_bit_testbit w k : 0 <= k -> has_bit w (Z.shiftl 1 k) = Z.testbit w k.
Proof.
  intros Hk. unfold has_bit. rewrite Z.shiftl_1_l. destruct (Z.testbit w k) eqn:E.
  - apply negb_true_iff, Z.eqb_neq. intros H0.
    assert (Hb : Z.testbit (Z.land w (2 ^ k)) k = true) by (rewrite Z.land_spec, E, Z.pow2_bits_true by lia; done).
    by rewrite H0, Z.bits_0 in Hb.
  - apply negb_false_iff, Z.eqb_eq. apply Z.bits_inj'. intros i Hi. rewrite Z.land_spec, Z.bits_0.
    destruct (Z.eq_dec i k) as [->|Hn]; [by rewrite E|]. by rewrite Z.pow2_bits_false, andb_false_r by lia.
Qed.

Lemma ldiff_lor_bit w k : 0 <= k -> Z.testbit w k = false -> Z.ldiff (Z.lor w (Z.shiftl 1 k)) (Z.shiftl 1 k) = w.
Proof.
  intros Hk E. rewrite Z.shiftl_1_l. apply Z.bits_inj'. intros i Hi. rewrite Z.ldiff_spec, Z.lor_spec.
  destruct (Z.eq_dec i k) as [->|Hn].
  - by rewrite Z.pow2_bits_true, E by lia.
  - by rewrite Z.pow2_bits_false, orb_false_r, andb_true_r by lia.
Qed.

Lemma lor_bit_same w k : 0 <= k -> Z.testbit w k = true -> Z.lor w (Z.shiftl 1 k) = w.
Proof.
  intros Hk E. rewrite Z.shiftl_1_l. apply Z.bits_inj'. intros i Hi. rewrite Z.lor_spec.
  destruct (Z.eq_dec i k) as [->|Hn].
  - by rewrite E.
  - by rewrite Z.pow2_bits_false, orb_false_r by lia.
Qed.

Lemma lor_bit_u64 w k : 0 <= k < 64 -> is_u64 w -> is_u64 (Z.lor w (Z.shiftl 1 k)).
Proof.
  intros Hk Hw. assert (H : 0 <= Z.lor w (Z.shiftl 1 k) < 2 ^ 64); [|lia].
  apply bits_bounded; [lia|apply Z.lor_nonneg; split; [lia|apply Z.shiftl_nonneg; lia]|].
  intros i Hi. rewrite Z.lor_spec, (testbit_high 64 w) by lia. rewrite Z.shiftl_1_l, Z.pow2_bits_false by lia. done.
Qed.

Lemma ldiff_u64 w m : is_u64 w -> is_u64 (Z.ldiff w m).
Proof.
  intros Hw. assert (H : 0 <= Z.ldiff w m < 2 ^ 64); [|lia].
  apply bits_bounded; [lia|apply Z.ldiff_nonneg; left; lia|].
  intros i Hi. by rewrite Z.ldiff_spec, (testbit_high 64 w) by lia.
Qed.

(** ** Which registers may change *)

Definition borrowed_bits : Z := Z.lor SPZ_MDSCR_SS SPZ_MDSCR_MDE.

(** From [a] to [b] only the value and control of one slot changed, and of the
    status register of its CPU only the single-step and monitor bits. *)
Record touches (cpu : Z) (kind : spz_debug_slot_kind) (slot : Z) (a b : debug_view) : Prop := {
  tc_value : forall c k i, (c, k, i) <> (cpu, kind, slot) -> dv_value b c k i = dv_value a c k i;
  tc_control : forall c k i, (c, k, i) <> (cpu, kind, slot) -> dv_control b c k i = dv_control a c k i;
  tc_owner : forall c k i, dv_owner b c k i = dv_owner a c k i;
  tc_mdscr : forall c, c <> cpu -> dv_mdscr b c = dv_mdscr a c;
  tc_bits : Z.ldiff (dv_mdscr b cpu) borrowed_bits = Z.ldiff (dv_mdscr a cpu) borrowed_bits;
}.

#[local] Instance touches_refl cpu kind slot : Reflexive (touches cpu kind slot).
Proof. by split. Qed.
#[local] Instance touches_trans cpu kind slot : Transitive (touches cpu kind slot).
Proof.
  intros a b c [A1 A2 A3 A4 A5] [B1 B2 B3 B4 B5]. split; intros.
  - by rewrite B1, A1.
  - by rewrite B2, A2.
  - by rewrite B3, A3.
  - by rewrite B4, A4.
  - by rewrite B5, A5.
Qed.
#[local] Instance touches_proper cpu kind slot : Proper ((≡) ==> (≡) ==> iff) (touches cpu kind slot).
Proof.
  intros a a' [Ha1 Ha2 Ha3 Ha4] b b' [Hb1 Hb2 Hb3 Hb4].
  split; intros [T1 T2 T3 T4 T5]; split; intros.
  - by rewrite <- Hb1, <- Ha1, T1.
  - by rewrite <- Hb2, <- Ha2, T2.
  - by rewrite <- Hb4, <- Ha4, T3.
  - by rewrite <- Hb3, <- Ha3, T4.
  - by rewrite <- Hb3, <- Ha3, T5.
  - by rewrite Hb1, Ha1, T1.
  - by rewrite Hb2, Ha2, T2.
  - by rewrite Hb4, Ha4, T3.
  - by rewrite Hb3, Ha3, T4.
  - by rewrite Hb3, Ha3, T5.
Qed.

(** The primitive writes. [same_mdscr] tracks the status register across them. *)
Definition same_mdscr (cpu : Z) (a b : debug_view) : Prop := dv_mdscr b cpu = dv_mdscr a cpu.

Lemma write_value_touches h cpu kind slot v :
  touches cpu kind slot (view h) (view (op_write_value ops h cpu kind slot v).2) /\
  same_mdscr cpu (view h) (view (op_write_value ops h cpu kind slot v).2).
Proof.
  pose proof (hw_write_value h cpu kind slot v) as H. destruct (op_write_value _ _ _ _ _ _) as [r h'].
  cbn [snd]. destruct H as [[_ H]|[_ H]].
  - split; [|apply H]. rewrite H. split; intros; try done. simpl. by rewrite decide_False.
  - split; [by rewrite H|apply H].
Qed.

Lemma write_control_touches h cpu kind slot v :
  touches cpu kind slot (view h) (view (op_write_control ops h cpu kind slot v).2) /\
  same_mdscr cpu (view h) (view (op_write_control ops h cpu kind slot v).2).
Proof.
  pose proof (hw_write_control h cpu kind slot v) as H. destruct (op_write_control _ _ _ _ _ _) as [r h'].
  cbn [snd]. destruct H as [[_ H]|[_ H]].
  - split; [|apply H]. rewrite H. split; intros; try done. simpl. by rewrite decide_False.
  - split; [by rewrite H|apply H].
Qed.

Lemma write_mdscr_touches h cpu kind slot v :
  is_u64 v -> Z.ldiff v borrowed_bits = Z.ldiff (dv_mdscr (view h) cpu) borrowed_bits ->
  touches cpu kind slot (view h) (view (op_write_mdscr ops h cpu v).2).
Proof.
  intros Hv Hb. pose proof (hw_write_mdscr h cpu v) as H. destruct (op_write_mdscr _ _ _ _) as [r h'].
  cbn [snd]. destruct H as [[_ H]|[_ H]]; rewrite H; [|done].
  split; intros; try done; simpl; [by rewrite decide_False|].
  rewrite decide_True by done. by replace (u64 v) with v by zlia.
Qed.

Lemma barrier_touches h cpu kind slot : touches cpu kind slot (view h) (view (op_barrier ops h cpu)).
Proof. by rewrite hw_barrier. Qed.

(** The status words the code writes differ from the read one in borrowed bits only. *)
Lemma borrowed_lor w k :
  0 <= k -> Z.testbit borrowed_bits k = true ->
  Z.ldiff (Z.lor w (Z.shiftl 1 k)) borrowed_bits = Z.ldiff w borrowed_bits.
Proof.
  intros Hk Hb. rewrite Z.shiftl_1_l. apply Z.bits_inj'. intros i Hi. rewrite !Z.ldiff_spec, Z.lor_spec.
  destruct (Z.eq_dec i k) as [->|Hn]; [by rewrite Hb, !andb_false_r|].
  by rewrite Z.pow2_bits_false, orb_false_r by lia.
Qed.

Lemma borrowed_ldiff w k :
  0 <= k -> Z.testbit borrowed_bits k = true ->
  Z.ldiff (Z.ldiff w (Z.shiftl 1 k)) borrowed_bits = Z.ldiff w borrowed_bits.
Proof.
  intros Hk Hb. rewrite Z.shiftl_1_l. apply Z.bits_inj'. intros i Hi. rewrite !Z.ldiff_spec.
  destruct (Z.eq_dec i k) as [->|Hn]; [by rewrite Hb, !andb_false_r|].
  by rewrite Z.pow2_bits_false, andb_true_r by lia.
Qed.

(** [step_value], [step_control]: run the next register write of the code. *)
Ltac step_value r1 h1 T S :=
  match goal with
  | |- context [op_write_value ops ?h ?c ?k ?i ?v] =>
      pose proof (write_value_touches h c k i v) as [T S];
      destruct (op_write_value ops h c k i v) as [r1 h1]; cbn [snd] in T, S
  end.
Ltac step_control r1 h1 T S :=
  match goal with
  | |- context [op_write_control ops ?h ?c ?k ?i ?v] =>
      pose proof (write_control_touches h c k i v) as [T S];
      destruct (op_write_control ops h c k i v) as [r1 h1]; cbn [snd] in T, S
  end.

Lemma write_mdscr_if_touches (b : bool) h cpu kind slot v :
  is_u64 v -> Z.ldiff v borrowed_bits = Z.ldiff (dv_mdscr (view h) cpu) borrowed_bits ->
  touches cpu kind slot (view h) (view (if b then op_write_mdscr ops h cpu v else (0, h)).2).
Proof. intros Hv Hb. destruct b; [by apply write_mdscr_touches|done]. Qed.

Lemma write_control_if_touches (b : bool) h cpu kind slot v :
  touches cpu kind slot (view h) (view (if b then op_write_control ops h cpu kind slot v else (0, h)).2) /\
  same_mdscr cpu (view h) (view (if b then op_write_control ops h cpu kind slot v else (0, h)).2).
Proof. destruct b; [apply write_control_touches|done]. Qed.

Lemma handle_hit_touches h cpu s current frame observed event :
  let '(_, h', _, _, _) := spz_debug_handle_hit ops h cpu s current frame observed event in
  touches cpu (ds_kind s) (ds_slot s) (view h) (view h').
Proof.
  unfold spz_debug_handle_hit. destruct (negb _); [done|].
  destruct (spz_debug_live_image _ _ _ _) as [r|[[v ctl] o]]; [done|]. destruct (_ || _); [done|].
  destruct (op_read_mdscr ops h cpu) as [r md] eqn:Em. destruct (r =? 0) eqn:Er; cbn [negb]; [|done].
  apply Z.eqb_eq in Er. subst r. apply read_mdscr_eq in Em.
  step_control r1 h0 T1 S1. destruct (negb (r1 =? 0)); [done|]. cbv zeta.
  pose proof (barrier_touches h0 cpu (ds_kind s) (ds_slot s)) as T2. destruct (_ || _); [by etransitivity|].
  assert (Hmd : dv_mdscr (view (op_barrier ops h0 cpu)) cpu = md)
    by (rewrite (sv_mdscr _ _ (hw_barrier h0 cpu)); unfold same_mdscr in S1; congruence).
  pose proof (hw_mdscr_u64 h cpu) as Hu. rewrite <- Em in Hu.
  match goal with |- context [if ?b then op_write_mdscr ops ?h1 cpu ?w else (0, ?h1)] =>
    pose proof (write_mdscr_if_touches b h1 cpu (ds_kind s) (ds_slot s) w) as T3;
    destruct (if b then op_write_mdscr ops h1 cpu w else (0, h1)) as [r3 h3] end.
  cbn [snd] in T3. rewrite Hmd in T3.
  specialize (T3 ltac:(by apply lor_bit_u64) ltac:(by apply borrowed_lor)).
  destruct (negb _); [by do 2 (etransitivity; [eassumption|])|].
  etransitivity; [exact T1|]. etransitivity; [exact T2|]. etransitivity; [exact T3|]. apply barrier_touches.
Qed.

Lemma step_cpu_touches h cpu s current frame :
  let '(_, h', _, _) := step_cpu ops h cpu s current frame in
  touches cpu (ds_kind s) (ds_slot s) (view h) (view h').
Proof.
  unfold step_cpu. destruct (_ || _); [done|].
  destruct (spz_debug_live_image _ _ _ _) as [r|[[v ctl] o]]; [done|]. destruct (_ || _); [done|].
  destruct (op_read_mdscr ops h cpu) as [r md] eqn:Em. destruct (r =? 0) eqn:Er; cbn [negb]; [|done].
  apply Z.eqb_eq in Er. subst r. apply read_mdscr_eq in Em.
  pose proof (hw_mdscr_u64 h cpu) as Hu. rewrite <- Em in Hu.
  set (w := if negb (ds_added_mdscr_ss s =? 0) then _ else md).
  assert (Hw : is_u64 w /\ Z.ldiff w borrowed_bits = Z.ldiff md borrowed_bits).
  { unfold w. destruct (negb _); [|done]. rewrite clear_bits_ldiff by done.
    split; [by apply ldiff_u64|by apply borrowed_ldiff]. }
  destruct Hw as [Hw1 Hw2].
  pose proof (write_mdscr_if_touches (negb (w =? md)) h cpu (ds_kind s) (ds_slot s) w Hw1
    ltac:(by rewrite <- Em)) as T1.
  destruct (if negb (w =? md) then _ else _) as [r1 h1]. cbn [snd] in T1.
  destruct (negb (r1 =? 0)); [done|]. step_control r2 h2 T2 S2.
  destruct (negb (r2 =? 0)); [by etransitivity|]. etransitivity; [exact T1|]. etransitivity; [exact T2|].
  apply barrier_touches.
Qed.

(** The body of [restore_cpu] after the live image was found as expected. *)
Lemma restore_writes_touch h cpu s md w ctl :
  md = dv_mdscr (view h) cpu -> is_u64 w -> Z.ldiff w borrowed_bits = Z.ldiff md borrowed_bits ->
  let kind := ds_kind s in
  let slot := ds_slot s in
  let '(_, h', _) :=
    let '(result, h) :=
      if has_bit ctl SPZ_DEBUG_CTRL_ENABLE
      then op_write_control ops h cpu kind slot (ds_disabled_control s) else (0, h) in
    if negb (result =? 0) then restore_quarantine ops result h cpu s
    else
      let '(result, h) := op_write_value ops h cpu kind slot (ds_saved_value s) in
      if negb (result =? 0) then restore_quarantine ops result h cpu s
      else
        let '(result, h) := op_write_control ops h cpu kind slot (ds_saved_control s) in
        if negb (result =? 0) then restore_quarantine ops result h cpu s
        else
          let w :=
            if negb (ds_added_mde s =? 0) && negb (spz_debug_other_state_requires_mde ops h cpu s)
            then clear_bits w SPZ_MDSCR_MDE else w in
          let '(result, h) := if negb (w =? md) then op_write_mdscr ops h cpu w else (0, h) in
          if negb (result =? 0) then restore_quarantine ops result h cpu s
          else (0, op_barrier ops h cpu, spz_debug_reset_state s) in
  touches cpu kind slot (view h) (view h').
Proof.
  intros Hmd Hw Hb kind slot. unfold restore_quarantine.
  pose proof (write_control_if_touches (has_bit ctl SPZ_DEBUG_CTRL_ENABLE) h cpu kind slot
    (ds_disabled_control s)) as [T1 S1].
  destruct (if has_bit ctl _ then _ else _) as [r1 h1]. cbn [snd] in T1, S1.
  destruct (negb (r1 =? 0)); [etransitivity; [exact T1|apply barrier_touches]|].
  step_value r2 h2 T2 S2.
  destruct (negb (r2 =? 0)); [do 2 (etransitivity; [eassumption|]); apply barrier_touches|].
  step_control r3 h3 T3 S3.
  destruct (negb (r3 =? 0)); [do 3 (etransitivity; [eassumption|]); apply barrier_touches|].
  set (w' := if _ && _ then _ else w).
  assert (Hw' : is_u64 w' /\ Z.ldiff w' borrowed_bits = Z.ldiff (dv_mdscr (view h3) cpu) borrowed_bits).
  { unfold same_mdscr in *. rewrite S3, S2, S1, <- Hmd. unfold w'. destruct (_ && _); [|done].
    rewrite clear_bits_ldiff by done.
    split; [by apply ldiff_u64|]. rewrite <- Hb. by apply borrowed_ldiff. }
  destruct Hw' as [Hw1 Hw2].
  pose proof (write_mdscr_if_touches (negb (w' =? md)) h3 cpu kind slot w' Hw1 Hw2) as T4.
  destruct (if negb (w' =? md) then _ else _) as [r4 h4]. cbn [snd] in T4.
  destruct (negb (r4 =? 0)); do 4 (etransitivity; [eassumption|]); apply barrier_touches.
Qed.

Lemma restore_cpu_touches h cpu s :
  let '(_, h', _) := restore_cpu ops h cpu s in touches cpu (ds_kind s) (ds_slot s) (view h) (view h').
Proof.
  unfold restore_cpu. destruct (ds_state s); try done.
  all: destruct (spz_debug_live_image _ _ _ _) as [r|[[v ctl] o]]; [done|]; destruct (_ || _); [done|].
  all: destruct (op_read_mdscr ops h cpu) as [r md] eqn:Em; destruct (r =? 0) eqn:Er; cbn [negb]; [|done].
  all: apply Z.eqb_eq in Er; subst r; apply read_mdscr_eq in Em.
  all: pose proof (hw_mdscr_u64 h cpu) as Hu; rewrite <- Em in Hu.
  all: apply (restore_writes_touch h cpu (spz_debug_transition SPZ_DEBUG_RESTORING s) md _ ctl Em).
  all: destruct (negb _); [rewrite clear_bits_ldiff by done|done].
  all: first [by apply ldiff_u64|by apply borrowed_ldiff].
Qed.

(** ** Arming *)

(** [pointwise]: decide an equation of updated views register by register. *)
Ltac pointwise := split; intros; simpl; repeat case_decide; simplify_eq; auto.

(** Writing the saved words back undoes the programming. *)
Lemma undo_value cpu kind slot v w :
  set_value cpu kind slot (dv_value w cpu kind slot) (set_value cpu kind slot v w) ≡ w.
Proof. pointwise. Qed.

Lemma undo_slot cpu kind slot v ctl w :
  set_value cpu kind slot (dv_value w cpu kind slot)
    (set_control cpu kind slot (dv_control w cpu kind slot)
      (set_control cpu kind slot ctl (set_value cpu kind slot v w))) ≡ w.
Proof. pointwise. Qed.

(** Rolling back from the programmed image, or from the programmed value alone,
    gives the original registers or quarantines the CPU. *)
Lemma rollback_arm_safe h cpu s orig :
  ds_saved_value s = dv_value orig cpu (ds_kind s) (ds_slot s) ->
  ds_saved_control s = dv_control orig cpu (ds_kind s) (ds_slot s) ->
  (forall c k i, is_u64 (dv_value orig c k i)) -> (forall c k i, is_u32 (dv_control orig c k i)) ->
  ds_programmed_control s <> ds_saved_control s ->
  (view h ≡ set_value cpu (ds_kind s) (ds_slot s) (ds_programmed_value s) orig \/
   view h ≡ set_control cpu (ds_kind s) (ds_slot s) (ds_programmed_control s)
              (set_value cpu (ds_kind s) (ds_slot s) (ds_programmed_value s) orig)) ->
  let '(_, h', s') := spz_debug_rollback_arm ops h cpu s in
  (ds_state s' = SPZ_DEBUG_EMPTY /\ view h' ≡ orig) \/ ds_state s' = SPZ_DEBUG_QUARANTINED.
Proof.
  intros Hv Hc Hwv Hwc Hne Hview. unfold spz_debug_rollback_arm.
  assert (Hsv : u64 (ds_saved_value s) = ds_saved_value s) by (rewrite Hv; specialize (Hwv cpu (ds_kind s) (ds_slot s)); zlia).
  assert (Hsc : u32 (ds_saved_control s) = ds_saved_control s) by (rewrite Hc; specialize (Hwc cpu (ds_kind s) (ds_slot s)); zlia).
  destruct (spz_debug_live_image ops h cpu s) as [r|[[v ctl] o]] eqn:El; [by right|].
  apply live_image_eq in El as (-> & -> & ->). destruct (_ || _) eqn:Eg; [by right|].
  destruct Hview as [Hw|Hw]; rewrite (sv_control _ _ Hw); cbn [dv_control set_value set_control].
  - rewrite <- Hc, eqb_ne by done. cbn [negb Z.eqb].
    pose proof (hw_write_value h cpu (ds_kind s) (ds_slot s) (ds_saved_value s)) as H2.
    destruct (op_write_value _ _ _ _ _ _) as [r2 h2]. destruct (r2 =? 0) eqn:E2; cbn [negb]; [|by right].
    destruct H2 as [[_ H2]|[H2 _]]; [|lia]. left. split; [done|]. by rewrite hw_barrier, H2, Hw, Hsv, Hv, undo_value.
  - rewrite decide_True, Z.eqb_refl by done.
    pose proof (hw_write_control h cpu (ds_kind s) (ds_slot s) (ds_saved_control s)) as H1.
    destruct (op_write_control _ _ _ _ _ _) as [r1 h1]. destruct (r1 =? 0) eqn:E1; cbn [negb]; [|by right].
    destruct H1 as [[_ H1]|[H1 _]]; [|lia].
    pose proof (hw_write_value h1 cpu (ds_kind s) (ds_slot s) (ds_saved_value s)) as H2.
    destruct (op_write_value _ _ _ _ _ _) as [r2 h2]. destruct (r2 =? 0) eqn:E2; cbn [negb]; [|by right].
    destruct H2 as [[_ H2]|[H2 _]]; [|lia]. left. split; [done|]. by rewrite hw_barrier, H2, H1, Hw, Hsv, Hsc, Hv, Hc, undo_slot.
Qed.

(** The slot the arming chose and what it wrote there. *)
Lemma has_enable_ne a b :
  has_bit a SPZ_DEBUG_CTRL_ENABLE = true -> has_bit b SPZ_DEBUG_CTRL_ENABLE = false -> a <> b.
Proof. intros Ha Hb ->. congruence. Qed.

Lemma validate_request_enabled request v ctl bas :
  spz_debug_validate_request request = inr (v, ctl, bas) -> has_bit ctl SPZ_DEBUG_CTRL_ENABLE = true.
Proof.
  assert (He : forall m l, has_bit (debug_control m l) SPZ_DEBUG_CTRL_ENABLE = true).
  { intros m l. change SPZ_DEBUG_CTRL_ENABLE with (Z.shiftl 1 0). rewrite has_bit_testbit by lia.
    unfold debug_control. rewrite Z.lor_spec. apply orb_true_r. }
  unfold spz_debug_validate_request. intros H. repeat case_match; simplify_eq; apply He.
Qed.

Lemma find_slot_loop_inl n h cpu kind r : find_slot_loop ops n h cpu kind = inl r -> r <> 0.
Proof.
  induction n as [|n IH]; [by intros [= <-]|]. cbn [find_slot_loop].
  repeat case_match; intros; simplify_eq; first [by apply IH|done|lia].
Qed.

(** A request accepted for a free slot of CPU [cpu]. *)
Record arm_plan (h : hw) (cpu : Z) (s : spz_debug_cpu_state) (request : option spz_debug_request)
    (req : spz_debug_request) (pv pc slot : Z) : Prop := {
  ap_empty : ds_state s = SPZ_DEBUG_EMPTY;
  ap_request : request = Some req;
  ap_words : exists bas, spz_debug_validate_request request = inr (pv, pc, bas);
  ap_slot : 0 <= slot < Z.of_nat (Z.to_nat (spz_debug_slot_count ops (spz_request_slot_kind req)));
  ap_owner : dv_owner (view h) cpu (spz_request_slot_kind req) slot = 0;
  ap_disabled : has_bit (dv_control (view h) cpu (spz_request_slot_kind req) slot) SPZ_DEBUG_CTRL_ENABLE = false;
}.

Definition armed_state (h : hw) (cpu : Z) (s : spz_debug_cpu_state) (req : spz_debug_request)
    (pv pc slot : Z) (target : spz_debug_target) : spz_debug_cpu_state :=
  let kind := spz_request_slot_kind req in
  spz_debug_transition SPZ_DEBUG_ARMED
    (arm_snapshot s kind slot (dv_value (view h) cpu kind slot) (dv_control (view h) cpu kind slot)
       (dv_mdscr (view h) cpu) pv pc req target).

Definition armed_view (h : hw) (cpu : Z) (req : spz_debug_request) (pv pc slot : Z) : debug_view :=
  let kind := spz_request_slot_kind req in
  set_mdscr cpu (Z.lor (dv_mdscr (view h) cpu) SPZ_MDSCR_MDE)
    (set_control cpu kind slot pc (set_value cpu kind slot pv (view h))).

Lemma debug_control_u32 m l : is_u32 l -> u32 (debug_control m l) = debug_control m l.
Proof.
  intros Hl. assert (H : 0 <= debug_control m l < 2 ^ 32); [|zlia]. unfold debug_control.
  assert (Hb : forall a b, 0 <= a < 2 ^ 32 -> 0 <= b < 2 ^ 32 -> 0 <= Z.lor a b < 2 ^ 32).
  { intros a b Ha Hb. apply bits_bounded; [lia|apply Z.lor_nonneg; lia|].
    intros i Hi. by rewrite Z.lor_spec, !(testbit_high 32) by lia. }
  apply Hb; [apply Hb; [apply Hb; [zlia|lia]|]|]; vm_compute; (split; [discriminate|reflexivity]).
Qed.

(** The words of an accepted request fit their registers. *)
Lemma validate_request_words req v ctl bas :
  is_u64 (dr_address req) -> spz_debug_validate_request (Some req) = inr (v, ctl, bas) ->
  u64 v = v /\ u32 ctl = ctl.
Proof.
  intros Ha. unfold spz_debug_validate_request. intros H.
  assert (Hl : is_u64 (Z.land (dr_address req) (u64 (Z.lnot 7)))).
  { assert (0 <= Z.land (dr_address req) (u64 (Z.lnot 7)) < 2 ^ 64) by (apply land_bounded; lia). lia. }
  repeat case_match; try discriminate H; injection H as <- <- <-; clear -Ha Hl.
  all: split; [zlia|apply debug_control_u32; vm_compute; split; discriminate].
Qed.

Lemma arm_cpu_cases h cpu s request target :
  (forall req, request = Some req -> is_u64 (dr_address req)) ->
  let '(r, h', s') := arm_cpu ops h cpu s request target in
  (r <> 0 /\ h' = h /\ s' = s) \/
  exists req pv pc slot, arm_plan h cpu s request req pv pc slot /\
    (r <> 0 /\ (ds_state s' = SPZ_DEBUG_EMPTY /\ view h' ≡ view h \/ ds_state s' = SPZ_DEBUG_QUARANTINED) \/
     r = 0 /\ s' = armed_state h cpu s req pv pc slot target /\ view h' ≡ armed_view h cpu req pv pc slot).
Proof.
  intros Hreq. unfold arm_cpu. case_bool_decide as Hs; [by left|].
  assert (Hempty : ds_state s = SPZ_DEBUG_EMPTY) by (destruct (decide (ds_state s = SPZ_DEBUG_EMPTY)); tauto).
  destruct (spz_debug_validate_request request) as [r|[[pv pc] bas]] eqn:Ev.
  { left. split; [|done]. unfold spz_debug_validate_request in Ev. repeat case_match; by simplify_eq. }
  destruct request as [req|]; [|by left].
  destruct (spz_debug_find_slot ops h cpu _) as [r|[[slot sv] sc]] eqn:Ef.
  { left. by apply find_slot_loop_inl in Ef. }
  apply find_slot_loop_eq in Ef as (Hslot & Hown & Hen & -> & ->).
  destruct (op_read_mdscr ops h cpu) as [r md] eqn:Em.
  destruct (r =? 0) eqn:Er; cbn [negb]; [|left; split; [lia|done]].
  apply Z.eqb_eq in Er. subst r. apply read_mdscr_eq in Em. subst md.
  assert (Hplan : arm_plan h cpu s (Some req) req pv pc slot) by (split; eauto).
  set (kind := spz_request_slot_kind req) in *. set (s1 := arm_snapshot _ _ _ _ _ _ _ _ _ _).
  assert (Hne : pc <> dv_control (view h) cpu kind slot)
    by (apply has_enable_ne; [by apply validate_request_enabled in Ev|done]).
  destruct (validate_request_words req pv pc bas (Hreq req eq_refl) Ev) as [Hpv Hpc].
  pose proof (hw_value_u64 h) as Hwv. pose proof (hw_control_u32 h) as Hwc.
  pose proof (hw_write_value h cpu kind slot pv) as H1.
  destruct (op_write_value ops h cpu kind slot pv) as [r1 h1]. destruct (r1 =? 0) eqn:E1; cbn [negb].
  2: { destruct H1 as [[? _]|[_ H1]]; [lia|]. right. exists req, pv, pc, slot. split; [done|]. left.
       split; [lia|]. by left. }
  destruct H1 as [[_ H1]|[? _]]; [|lia]. rewrite Hpv in H1.
  pose proof (hw_write_control h1 cpu kind slot pc) as H2.
  destruct (op_write_control ops h1 cpu kind slot pc) as [r2 h2]. destruct (r2 =? 0) eqn:E2; cbn [negb].
  2: { destruct H2 as [[? _]|[_ H2]]; [lia|].
       pose proof (rollback_arm_safe h2 cpu s1 (view h) eq_refl eq_refl Hwv Hwc Hne ltac:(left; by rewrite H2)) as Hrb.
       destruct (spz_debug_rollback_arm _ _ _ _) as [[r3 h3] s3].
       right. exists req, pv, pc, slot. split; [done|]. left. split; [lia|done]. }
  destruct H2 as [[_ H2]|[? _]]; [|lia]. rewrite H1, Hpc in H2.
  destruct (negb (ds_added_mde s1 =? 0)) eqn:Ea.
  - assert (Hu : is_u64 (Z.lor (dv_mdscr (view h) cpu) SPZ_MDSCR_MDE)) by (apply lor_bit_u64; [lia|apply hw_mdscr_u64]).
    pose proof (hw_write_mdscr h2 cpu (Z.lor (dv_mdscr (view h) cpu) SPZ_MDSCR_MDE)) as H3.
    replace (u64 (Z.lor _ _)) with (Z.lor (dv_mdscr (view h) cpu) SPZ_MDSCR_MDE) in H3 by zlia.
    destruct (op_write_mdscr ops h2 cpu _) as [r3 h3]. destruct (r3 =? 0) eqn:E3; cbn [negb].
    2: { destruct H3 as [[? _]|[_ H3]]; [lia|].
         pose proof (rollback_arm_safe h3 cpu s1 (view h) eq_refl eq_refl Hwv Hwc Hne ltac:(right; by rewrite H3)) as Hrb.
         destruct (spz_debug_rollback_arm _ _ _ _) as [[r4 h4] s4].
         right. exists req, pv, pc, slot. split; [done|]. left. split; [lia|done]. }
    destruct H3 as [[_ H3]|[? _]]; [|lia]. right. exists req, pv, pc, slot. split; [done|]. right.
    split; [done|]. split; [done|]. by rewrite hw_barrier, H3, H2.
  - right. exists req, pv, pc, slot. split; [done|]. right. split; [done|]. split; [done|].
    rewrite hw_barrier, H2. unfold armed_view. fold kind.
    assert (Hmde : Z.lor (dv_mdscr (view h) cpu) SPZ_MDSCR_MDE = dv_mdscr (view h) cpu).
    { apply lor_bit_same; [lia|]. rewrite <- has_bit_testbit by lia. change (Z.shiftl 1 15) with SPZ_MDSCR_MDE.
      unfold s1, arm_snapshot in Ea. cbn in Ea. by destruct (has_bit _ SPZ_MDSCR_MDE). }
    rewrite Hmde. pointwise.
Qed.

Lemma rollback_arm_touches h cpu s :
  let '(_, h', _) := spz_debug_rollback_arm ops h cpu s in
  touches cpu (ds_kind s) (ds_slot s) (view h) (view h').
Proof.
  unfold spz_debug_rollback_arm. destruct (spz_debug_live_image _ _ _ _) as [r|[[v ctl] o]]; [done|].
  destruct (_ || _); [done|].
  pose proof (write_control_if_touches (ctl =? ds_programmed_control s) h cpu (ds_kind s) (ds_slot s)
    (ds_saved_control s)) as [T1 _].
  destruct (if ctl =? _ then _ else _) as [r1 h1]. cbn [snd] in T1. destruct (negb (r1 =? 0)); [done|].
  step_value r2 h2 T2 S2. destruct (negb (r2 =? 0)); [by etransitivity|].
  do 2 (etransitivity; [eassumption|]). apply barrier_touches.
Qed.

Lemma arm_cpu_touches h cpu s request target :
  let '(_, h', _) := arm_cpu ops h cpu s request target in
  h' = h \/ exists kind slot, dv_owner (view h) cpu kind slot = 0 /\
    has_bit (dv_control (view h) cpu kind slot) SPZ_DEBUG_CTRL_ENABLE = false /\
    touches cpu kind slot (view h) (view h').
Proof.
  unfold arm_cpu. case_bool_decide; [by left|].
  destruct (spz_debug_validate_request request) as [r|[[pv pc] bas]]; [by left|].
  destruct request as [req|]; [|by left].
  destruct (spz_debug_find_slot ops h cpu _) as [r|[[slot sv] sc]] eqn:Ef; [by left|].
  apply find_slot_loop_eq in Ef as (_ & Hown & Hen & _ & _).
  destruct (op_read_mdscr ops h cpu) as [r md] eqn:Em. destruct (r =? 0) eqn:Er; cbn [negb]; [|by left].
  apply Z.eqb_eq in Er. subst r. apply read_mdscr_eq in Em. set (s1 := arm_snapshot _ _ _ _ _ _ _ _ _ _).
  set (kind := spz_request_slot_kind req) in *.
  assert (Hfree : forall h', touches cpu kind slot (view h) (view h') ->
    h' = h \/ exists kind slot, dv_owner (view h) cpu kind slot = 0 /\
      has_bit (dv_control (view h) cpu kind slot) SPZ_DEBUG_CTRL_ENABLE = false /\
      touches cpu kind slot (view h) (view h')) by (intros h' T; right; by exists kind, slot).
  step_value r1 h1 T1 S1. destruct (negb (r1 =? 0)); [by apply Hfree|].
  step_control r2 h2 T2 S2. destruct (negb (r2 =? 0)).
  { pose proof (rollback_arm_touches h2 cpu s1) as T3. destruct (spz_debug_rollback_arm _ _ _ _) as [[r3 h3] s3].
    apply Hfree. by do 2 (etransitivity; [eassumption|]). }
  assert (Hu : is_u64 md) by (subst md; apply hw_mdscr_u64).
  pose proof (write_mdscr_if_touches (negb (ds_added_mde s1 =? 0)) h2 cpu kind slot (Z.lor md SPZ_MDSCR_MDE)
    ltac:(by apply lor_bit_u64)) as T3.
  destruct (if negb (ds_added_mde s1 =? 0) then _ else _) as [r3 h3]. cbn [snd] in T3.
  assert (Hmd : dv_mdscr (view h2) cpu = md) by (unfold same_mdscr in *; congruence).
  specialize (T3 ltac:(rewrite Hmd; by apply borrowed_lor)). destruct (negb (r3 =? 0)).
  { pose proof (rollback_arm_touches h3 cpu s1) as T4. destruct (spz_debug_rollback_arm _ _ _ _) as [[r4 h4] s4].
    apply Hfree. by do 3 (etransitivity; [eassumption|]). }
  apply Hfree. do 3 (etransitivity; [eassumption|]). apply barrier_touches.
Qed.

(** ** Properties *)

(** C3: the debug code writes only what it borrowed. A hit, a step or a restore on
    a CPU changes at most the value and control of the slot it holds and the
    single-step and monitor bits of that CPU's status register; arming changes at
    most those of a slot that had no owner and was disabled. This holds whatever
    register operations fail. *)
Theorem debug_touches_only_its_slot h cpu s :
  (forall current frame event,
     let '(_, h', _, _, _) := break_cpu ops h cpu s current frame event in
     touches cpu (ds_kind s) (ds_slot s) (view h) (view h')) /\
  (forall current frame event,
     let '(_, h', _, _, _) := watch_cpu ops h cpu s current frame event in
     touches cpu (ds_kind s) (ds_slot s) (view h) (view h')) /\
  (forall current frame,
     let '(_, h', _, _) := step_cpu ops h cpu s current frame in
     touches cpu (ds_kind s) (ds_slot s) (view h) (view h')) /\
  (let '(_, h', _) := restore_cpu ops h cpu s in touches cpu (ds_kind s) (ds_slot s) (view h) (view h')) /\
  (forall request target,
     let '(_, h', _) := arm_cpu ops h cpu s request target in
     h' = h \/ exists kind slot, dv_owner (view h) cpu kind slot = 0 /\
       has_bit (dv_control (view h) cpu kind slot) SPZ_DEBUG_CTRL_ENABLE = false /\
       touches cpu kind slot (view h) (view h')).
Proof.
  split; [|split; [|split; [|split]]].
  - intros. unfold break_cpu. destruct (_ || _); [done|apply handle_hit_touches].
  - intros. unfold watch_cpu. repeat (destruct (_ || _); [done|]). apply handle_hit_touches.
  - intros. apply step_cpu_touches.
  - apply restore_cpu_touches.
  - intros. apply arm_cpu_touches.
Qed.

(** C5: a failed arming leaves no trace or quarantines. When arming an empty CPU
    reports an error, the CPU is empty again with every register as before, or it
    is quarantined; when it reports success the CPU is armed. *)
Theorem arm_failure_is_safe h cpu s request target :
  ds_state s = SPZ_DEBUG_EMPTY -> (forall req, request = Some req -> is_u64 (dr_address req)) ->
  let '(r, h', s') := arm_cpu ops h cpu s request target in
  (r = 0 /\ ds_state s' = SPZ_DEBUG_ARMED) \/
  (r <> 0 /\ (ds_state s' = SPZ_DEBUG_EMPTY /\ view h' ≡ view h \/ ds_state s' = SPZ_DEBUG_QUARANTINED)).
Proof.
  intros Hs Hreq. pose proof (arm_cpu_cases h cpu s request target Hreq) as H.
  destruct (arm_cpu ops h cpu s request target) as [[r h'] s'].
  destruct H as [(Hr & -> & ->)|(req & pv & pc & slot & _ & [(Hr & H)|(-> & -> & _)])].
  - right. split; [done|]. by left.
  - by right.
  - by left.
Qed.

(** C6: restoring never overwrites a slot somebody else changed. If the value,
    the control or the owner of the held slot is not what was left there, the
    restore reports an error, writes no register, and quarantines the CPU unless
    a register could not be read. *)
Theorem restore_refuses_interference h cpu s :
  ds_state s <> SPZ_DEBUG_EMPTY -> ds_state s <> SPZ_DEBUG_QUARANTINED ->
  dv_owner (view h) cpu (ds_kind s) (ds_slot s) <> 0 \/
  dv_value (view h) cpu (ds_kind s) (ds_slot s) <> ds_programmed_value s \/
  dv_control (view h) cpu (ds_kind s) (ds_slot s) <> expected_control s ->
  let '(r, h', s') := restore_cpu ops h cpu s in
  r <> 0 /\ h' = h /\
  (s' = spz_debug_transition SPZ_DEBUG_QUARANTINED s /\ r = - EUCLEAN \/
   s' = s /\ spz_debug_live_image ops h cpu s = inl r).
Proof.
  intros He Hq Hd. unfold restore_cpu.
  pose proof (live_image_inl ops h cpu s) as Hl.
  destruct (spz_debug_live_image ops h cpu s) as [r|[[v ctl] o]] eqn:El.
  { destruct (ds_state s); try done; (split; [by apply Hl|]); split; auto. }
  apply live_image_eq in El as (-> & -> & ->).
  replace (negb (dv_owner _ _ _ _ =? 0) || _ || _) with true by (symmetry; rewrite !orb_true_iff, !negb_true_iff, !Z.eqb_neq; tauto).
  destruct (ds_state s); try done; (split; [done|]); split; auto.
Qed.
End spec.
