(* ===== verification/DebugSession.v ===== *)
(** * A debugging session on one CPU

    Nobody else reprograms the registers, but any register operation may fail. Any
    sequence of arming, hits, single steps and restores then keeps the registers in a
    known relation to those found, or quarantines the CPU; a restore that reports
    success gives them back, and where nothing fails it always does. *)

From S2P Require Import Prelude Abi DeviceProfiles Profile Task Debug DebugEncode DebugSpec.

Section session.
Context {hw : Type} (ops : spz_debug_ops hw) (view : hw -> debug_view) (cpu : Z) `{!DebugHw ops view}.
Context (orig : debug_view).

(** ** Operations that may fail

    Each either does its work or reports an error, and then the hardware is not free
    of faults. *)

Abbreviation faulty := (~ FaultFree ops cpu).

Lemma try_read_owner h k i : has_slot ops k i ->
  op_read_owner ops h cpu k i = (0, dv_owner (view h) cpu k i) \/ exists r v, op_read_owner ops h cpu k i = (r, v) /\ r <> 0 /\ faulty.
Proof.
  intros Hk. destruct (op_read_owner ops h cpu k i) as [r v] eqn:E. destruct (Z.eq_dec r 0) as [->|Hr].
  - left. by rewrite (read_owner_eq ops view _ _ _ _ _ E).
  - right. exists r, v. split_and!; [done..|]. intros Hff. apply Hr. change r with (r, v).1. rewrite <- E. by apply ff_read_owner.
Qed.
Lemma try_read_control h k i : has_slot ops k i ->
  op_read_control ops h cpu k i = (0, dv_control (view h) cpu k i) \/ exists r v, op_read_control ops h cpu k i = (r, v) /\ r <> 0 /\ faulty.
Proof.
  intros Hk. destruct (op_read_control ops h cpu k i) as [r v] eqn:E. destruct (Z.eq_dec r 0) as [->|Hr].
  - left. by rewrite (read_control_eq ops view _ _ _ _ _ E).
  - right. exists r, v. split_and!; [done..|]. intros Hff. apply Hr. change r with (r, v).1. rewrite <- E. by apply ff_read_control.
Qed.
Lemma try_read_mdscr h :
  op_read_mdscr ops h cpu = (0, dv_mdscr (view h) cpu) \/ exists r v, op_read_mdscr ops h cpu = (r, v) /\ r <> 0 /\ faulty.
Proof.
  destruct (op_read_mdscr ops h cpu) as [r v] eqn:E. destruct (Z.eq_dec r 0) as [->|Hr].
  - left. by rewrite (read_mdscr_eq ops view _ _ _ E).
  - right. exists r, v. split_and!; [done..|]. intros Hff. apply Hr. change r with (r, v).1. rewrite <- E. apply ff_read_mdscr.
Qed.

(** The image of the held slot. *)
Lemma try_live_image h s : has_slot ops (ds_kind s) (ds_slot s) ->
  spz_debug_live_image ops h cpu s =
    inr (dv_value (view h) cpu (ds_kind s) (ds_slot s), dv_control (view h) cpu (ds_kind s) (ds_slot s),
         dv_owner (view h) cpu (ds_kind s) (ds_slot s)) \/
  exists r, spz_debug_live_image ops h cpu s = inl r /\ r <> 0 /\ faulty.
Proof.
  intros Hk. destruct (spz_debug_live_image ops h cpu s) as [r|[[v c] o]] eqn:E.
  - right. exists r. split_and!; [done|by eapply live_image_inl|]. intros Hff. unfold spz_debug_live_image in E.
    pose proof (ff_read_owner h _ _ Hk) as H1. pose proof (ff_read_value h _ _ Hk) as H2. pose proof (ff_read_control h _ _ Hk) as H3.
    destruct (op_read_owner _ _ _ _ _), (op_read_value _ _ _ _ _), (op_read_control _ _ _ _ _). cbn in *. by subst.
  - left. by apply (live_image_eq ops view) in E as (-> & -> & ->).
Qed.

(** A write that worked, or failed and changed nothing. *)
Definition wrote (r : Z) (h' : hw) (after : debug_view) : Prop := (r = 0 /\ view h' ≡ after) \/ (r <> 0 /\ faulty).

Lemma try_write_value h k i v : has_slot ops k i -> u64 v = v ->
  let '(r, h') := op_write_value ops h cpu k i v in wrote r h' (set_value cpu k i v (view h)).
Proof.
  intros Hk Hv. pose proof (hw_write_value h cpu k i v) as H. pose proof (fun Hff : FaultFree ops cpu => ff_write_value h k i v Hk) as F.
  destruct (op_write_value ops h cpu k i v) as [r h']. rewrite Hv in H. destruct H as [?|[Hr _]]; [by left|right].
  split; [done|]. intros Hff. by apply Hr, F.
Qed.
Lemma try_write_control h k i v : has_slot ops k i -> u32 v = v ->
  let '(r, h') := op_write_control ops h cpu k i v in wrote r h' (set_control cpu k i v (view h)).
Proof.
  intros Hk Hv. pose proof (hw_write_control h cpu k i v) as H. pose proof (fun Hff : FaultFree ops cpu => ff_write_control h k i v Hk) as F.
  destruct (op_write_control ops h cpu k i v) as [r h']. rewrite Hv in H. destruct H as [?|[Hr _]]; [by left|right].
  split; [done|]. intros Hff. by apply Hr, F.
Qed.
Lemma try_write_mdscr h v : is_u64 v ->
  let '(r, h') := op_write_mdscr ops h cpu v in wrote r h' (set_mdscr cpu v (view h)).
Proof.
  intros Hv. pose proof (hw_write_mdscr h cpu v) as H. pose proof (fun Hff : FaultFree ops cpu => ff_write_mdscr h v) as F.
  destruct (op_write_mdscr ops h cpu v) as [r h']. replace (u64 v) with v in H by zlia.
  destruct H as [?|[Hr _]]; [by left|right]. split; [done|]. intros Hff. by apply Hr, F.
Qed.

(** A write skipped because the word is already there. *)
Lemma try_write_mdscr_if h v md : is_u64 v -> dv_mdscr (view h) cpu = md ->
  let '(r, h') := if negb (v =? md) then op_write_mdscr ops h cpu v else (0, h) in wrote r h' (set_mdscr cpu v (view h)).
Proof.
  intros Hv <-. destruct (v =? dv_mdscr (view h) cpu) eqn:E; cbn [negb]; [|by apply try_write_mdscr].
  left. split; [done|]. apply Z.eqb_eq in E. split; intros; simpl; try done. by case_decide; subst.
Qed.

(** ** The session invariant *)

Abbreviation orig_mdscr := (dv_mdscr orig cpu).

(** The registers while the slot is held with control [ctl] and status [md]. *)
Definition session_view (s : spz_debug_cpu_state) (ctl md : Z) : debug_view :=
  set_mdscr cpu md (set_control cpu (ds_kind s) (ds_slot s) ctl
    (set_value cpu (ds_kind s) (ds_slot s) (ds_programmed_value s) orig)).

(** What the state remembers of the registers it found. *)
Record remembers (s : spz_debug_cpu_state) : Prop := {
  rm_slot : has_slot ops (ds_kind s) (ds_slot s);
  rm_owner : dv_owner orig cpu (ds_kind s) (ds_slot s) = 0;
  rm_value : ds_saved_value s = dv_value orig cpu (ds_kind s) (ds_slot s);
  rm_control : ds_saved_control s = dv_control orig cpu (ds_kind s) (ds_slot s);
  rm_enabled : has_bit (ds_programmed_control s) SPZ_DEBUG_CTRL_ENABLE = true;
  rm_disabled : has_bit (ds_disabled_control s) SPZ_DEBUG_CTRL_ENABLE = false;
  rm_words : u32 (ds_programmed_control s) = ds_programmed_control s /\
             u32 (ds_disabled_control s) = ds_disabled_control s;
  rm_mde : ds_added_mde s = if has_bit orig_mdscr SPZ_MDSCR_MDE then 0 else 1;
}.

Abbreviation armed_mdscr := (Z.lor orig_mdscr SPZ_MDSCR_MDE).
Abbreviation stepping_mdscr := (Z.lor armed_mdscr SPZ_MDSCR_SS).

Definition session_inv (h : hw) (s : spz_debug_cpu_state) : Prop :=
  match ds_state s with
  | SPZ_DEBUG_EMPTY => view h ≡ orig
  | SPZ_DEBUG_ARMED =>
      remembers s /\ ds_added_mdscr_ss s = 0 /\ view h ≡ session_view s (ds_programmed_control s) armed_mdscr
  | SPZ_DEBUG_ONE_SHOT_DONE =>
      remembers s /\ ds_added_mdscr_ss s = 0 /\ view h ≡ session_view s (ds_disabled_control s) armed_mdscr
  | SPZ_DEBUG_STEP_PENDING =>
      remembers s /\ ds_added_mdscr_ss s = (if has_bit armed_mdscr SPZ_MDSCR_SS then 0 else 1) /\
      view h ≡ session_view s (ds_disabled_control s) stepping_mdscr
  | SPZ_DEBUG_QUARANTINED => faulty
  | _ => False
  end.

(** Somebody else may need the debug monitor: a slot of this CPU was in use when the
    session began, or cannot be read. *)
Definition monitor_needed : Prop :=
  exists kind slot, has_slot ops kind slot /\
    (dv_owner orig cpu kind slot <> 0 \/ has_bit (dv_control orig cpu kind slot) SPZ_DEBUG_CTRL_ENABLE = true \/
     exists h, (op_read_owner ops h cpu kind slot).1 <> 0 \/ (op_read_control ops h cpu kind slot).1 <> 0).

(** The registers are as found, but for the monitor bit where the session set it and
    somebody else may need it. *)
Definition given_back (v : debug_view) : Prop :=
  v ≡ orig \/ (has_bit orig_mdscr SPZ_MDSCR_MDE = false /\ v ≡ set_mdscr cpu (Z.lor orig_mdscr SPZ_MDSCR_MDE) orig /\ monitor_needed).

Context (Hmd : is_u64 orig_mdscr)
        (Hvalue : forall k i, is_u64 (dv_value orig cpu k i)) (Hcontrol : forall k i, is_u32 (dv_control orig cpu k i)).

Lemma saved_value_word s : remembers s -> u64 (ds_saved_value s) = ds_saved_value s.
Proof. intros Hr. rewrite (rm_value _ Hr). specialize (Hvalue (ds_kind s) (ds_slot s)). zlia. Qed.
Lemma saved_control_word s : remembers s -> u32 (ds_saved_control s) = ds_saved_control s.
Proof. intros Hr. rewrite (rm_control _ Hr). specialize (Hcontrol (ds_kind s) (ds_slot s)). zlia. Qed.

Lemma armed_mdscr_u64 : is_u64 armed_mdscr.
Proof. apply lor_bit_u64; [lia|exact Hmd]. Qed.
Lemma stepping_mdscr_u64 : is_u64 stepping_mdscr.
Proof. apply lor_bit_u64; [lia|apply armed_mdscr_u64]. Qed.

(** Reading the held slot. *)
Lemma session_view_value s ctl md : dv_value (session_view s ctl md) cpu (ds_kind s) (ds_slot s) = ds_programmed_value s.
Proof. simpl. by rewrite decide_True. Qed.
Lemma session_view_control s ctl md : dv_control (session_view s ctl md) cpu (ds_kind s) (ds_slot s) = ctl.
Proof. simpl. by rewrite decide_True. Qed.
Lemma session_view_mdscr s ctl md : dv_mdscr (session_view s ctl md) cpu = md.
Proof. simpl. by rewrite decide_True. Qed.

(** Later writes replace the held control or the status. *)
Lemma session_set_control s ctl md v :
  set_control cpu (ds_kind s) (ds_slot s) v (session_view s ctl md) ≡ session_view s v md.
Proof. split; intros; simpl; repeat case_decide; done. Qed.
Lemma session_set_mdscr s ctl md v : set_mdscr cpu v (session_view s ctl md) ≡ session_view s ctl v.
Proof. split; intros; simpl; repeat case_decide; done. Qed.

(** Writing the saved words back. *)
Lemma session_restored s ctl ctl' md :
  remembers s ->
  set_control cpu (ds_kind s) (ds_slot s) (ds_saved_control s)
    (set_value cpu (ds_kind s) (ds_slot s) (ds_saved_value s)
       (set_control cpu (ds_kind s) (ds_slot s) ctl' (session_view s ctl md))) ≡ set_mdscr cpu md orig.
Proof.
  intros []. split; intros; simpl; repeat case_decide; simplify_eq; congruence.
Qed.
Lemma session_restored' s ctl md :
  remembers s ->
  set_control cpu (ds_kind s) (ds_slot s) (ds_saved_control s)
    (set_value cpu (ds_kind s) (ds_slot s) (ds_saved_value s) (session_view s ctl md)) ≡ set_mdscr cpu md orig.
Proof.
  intros []. split; intros; simpl; repeat case_decide; simplify_eq; congruence.
Qed.

(** Clearing the single-step bit the hit added, or leaving the one that was there. *)
Lemma unstep_mdscr :
  (if negb ((if has_bit armed_mdscr SPZ_MDSCR_SS then 0 else 1) =? 0)
   then clear_bits stepping_mdscr SPZ_MDSCR_SS else stepping_mdscr) = armed_mdscr.
Proof.
  unfold SPZ_MDSCR_SS. rewrite has_bit_testbit by lia. destruct (Z.testbit armed_mdscr 0) eqn:E; cbn [negb Z.eqb].
  - by apply lor_bit_same.
  - rewrite clear_bits_ldiff by apply stepping_mdscr_u64. by apply ldiff_lor_bit.
Qed.

(** Clearing the monitor bit the arming added. *)
Lemma unarm_mdscr : has_bit orig_mdscr SPZ_MDSCR_MDE = false -> clear_bits armed_mdscr SPZ_MDSCR_MDE = orig_mdscr.
Proof.
  intros E. rewrite clear_bits_ldiff by apply armed_mdscr_u64. apply ldiff_lor_bit; [lia|].
  by rewrite <- has_bit_testbit.
Qed.

Lemma keep_mdscr : has_bit orig_mdscr SPZ_MDSCR_MDE = true -> armed_mdscr = orig_mdscr.
Proof. intros E. apply lor_bit_same; [lia|]. by rewrite <- has_bit_testbit. Qed.

(** A slot that keeps the monitor on, once the slot held was given back. *)
Lemma other_mde h s md :
  has_slot ops (ds_kind s) (ds_slot s) -> view h ≡ set_mdscr cpu md orig ->
  spz_debug_other_state_requires_mde ops h cpu s = true -> monitor_needed.
Proof.
  intros _ Hv Ht. unfold spz_debug_other_state_requires_mde in Ht.
  apply existsb_exists in Ht as (kind & Hk & Ht). apply existsb_exists in Ht as (slot & Hs & Ht).
  apply in_seq in Hs. exists kind, (Z.of_nat slot).
  assert (Hslot : has_slot ops kind (Z.of_nat slot)) by (split; [simpl in Hk; intuition auto|lia]). split; [done|].
  revert Ht. unfold slot_requires_mde. destruct (_ && _); [done|].
  destruct (try_read_owner h kind (Z.of_nat slot) Hslot) as [->|(r & v & E & Hr & _)].
  2: { intros _. right; right. exists h. left. by rewrite E. }
  destruct (try_read_control h kind (Z.of_nat slot) Hslot) as [->|(r & v & E & Hr & _)].
  2: { intros _. right; right. exists h. right. by rewrite E. }
  cbn [negb orb Z.eqb]. rewrite (sv_owner _ _ Hv), (sv_control _ _ Hv). cbn [dv_owner dv_control set_mdscr].
  rewrite orb_true_iff, negb_true_iff, Z.eqb_neq. tauto.
Qed.

(** ** Each operation keeps the invariant *)

Lemma session_quarantined h s : faulty -> session_inv h (spz_debug_transition SPZ_DEBUG_QUARANTINED s).
Proof. done. Qed.

(** [next_write H]: the next write of the code, whose outcome [H] tells; a failure ends the branch. *)
Ltac next_write H :=
  match type of H with wrote ?r ?h' _ =>
    destruct H as [[-> H]|[H ?]];
    [cbn [negb Z.eqb]|rewrite (eqb_ne r 0) by exact H; cbn [negb]; try (by apply session_quarantined)] end.

Lemma remembers_transition x s : remembers s -> remembers (spz_debug_transition x s).
Proof. by intros []. Qed.

Lemma disabled_has_no_enable pc :
  has_bit (Z.land pc (u32 (Z.lnot SPZ_DEBUG_CTRL_ENABLE))) SPZ_DEBUG_CTRL_ENABLE = false.
Proof.
  change SPZ_DEBUG_CTRL_ENABLE with (Z.shiftl 1 0). rewrite has_bit_testbit by lia.
  rewrite Z.land_spec. change (Z.testbit (u32 (Z.lnot (Z.shiftl 1 0))) 0) with false. apply andb_false_r.
Qed.

Lemma disabled_word pc : u32 pc = pc ->
  u32 (Z.land pc (u32 (Z.lnot SPZ_DEBUG_CTRL_ENABLE))) = Z.land pc (u32 (Z.lnot SPZ_DEBUG_CTRL_ENABLE)).
Proof.
  intros Hpc. assert (Hb : 0 <= pc < 2 ^ 32) by zlia.
  assert (0 <= Z.land pc (u32 (Z.lnot SPZ_DEBUG_CTRL_ENABLE)) < 2 ^ 32) by (apply land_bounded; lia). zlia.
Qed.

(** Arming quarantines only where operations fail. *)
Lemma arm_quarantines h s request target :
  (forall req, request = Some req -> is_u64 (dr_address req)) -> ds_state s <> SPZ_DEBUG_QUARANTINED ->
  ds_state (arm_cpu ops h cpu s request target).2 = SPZ_DEBUG_QUARANTINED -> faulty.
Proof.
  intros Hreq Hs Hq Hff. revert Hq. unfold arm_cpu. case_bool_decide; [done|].
  destruct (spz_debug_validate_request request) as [r|[[pv pc] bas]] eqn:Ev; [done|]. destruct request as [req|]; [|done].
  destruct (spz_debug_find_slot ops h cpu _) as [r|[[slot sv] sc]] eqn:Ef; [done|].
  apply (find_slot_loop_eq ops view) in Ef as (Hslot & _).
  assert (has_slot ops (spz_request_slot_kind req) slot) as Hk
    by (split; [unfold spz_request_slot_kind; destruct (dr_kind req); auto|done]).
  destruct (op_read_mdscr ops h cpu) as [r md]. destruct (negb (r =? 0)); [done|]. cbv zeta.
  destruct (validate_request_words req pv pc bas (Hreq req eq_refl) Ev) as [Hpv Hpc].
  pose proof (try_write_value h _ _ _ Hk Hpv) as V1. destruct (op_write_value _ _ _ _ _ _) as [r1 h1].
  destruct V1 as [[-> _]|[_ ?]]; [cbn [negb Z.eqb]|done].
  pose proof (try_write_control h1 _ _ _ Hk Hpc) as V2. destruct (op_write_control _ _ _ _ _ _) as [r2 h2].
  destruct V2 as [[-> _]|[_ ?]]; [cbn [negb Z.eqb]|done].
  destruct (negb (ds_added_mde _ =? 0)); [|done]. pose proof (ff_write_mdscr h2 (Z.lor md SPZ_MDSCR_MDE)) as V3.
  destruct (op_write_mdscr _ _ _ _) as [r3 h3]. cbn in V3. by subst.
Qed.

Lemma arm_session h s request target :
  (forall req, request = Some req -> is_u64 (dr_address req)) -> session_inv h s ->
  let '(_, h', s') := arm_cpu ops h cpu s request target in session_inv h' s'.
Proof.
  intros Hreq Hinv. pose proof (arm_cpu_cases ops view h cpu s request target Hreq) as Hc.
  pose proof (arm_quarantines h s request target Hreq) as Hq.
  destruct (arm_cpu ops h cpu s request target) as [[r h'] s'].
  destruct Hc as [(_ & -> & ->)|(req & pv & pc & slot & Hplan & Hc)]; [done|]. destruct Hplan as [He Hr [bas Ev] Hslot Hown Hen].
  pose proof Hinv as Hv. unfold session_inv in Hv. rewrite He in Hv. cbn [snd] in Hq.
  destruct Hc as [(_ & [[Hs Hv']|Hs])|(_ & -> & Hv')].
  - unfold session_inv. rewrite Hs. by rewrite Hv'.
  - unfold session_inv. rewrite Hs. apply Hq; [by rewrite He|done].
  - assert (is_u64 (dr_address req)) as Ha by auto. rewrite Hr in Ev.
    destruct (validate_request_words req pv pc bas Ha Ev) as [Hpv Hpc].
    set (kind := spz_request_slot_kind req) in *.
    assert (Hkind : has_slot ops kind slot)
      by (split; [|done]; unfold kind, spz_request_slot_kind; destruct (dr_kind req); auto).
    split; [apply remembers_transition|split; [done|]].
    + split; unfold arm_snapshot; cbn -[has_bit Z.land u32]; fold kind; rewrite <- ?(sv_value _ _ Hv), <- ?(sv_control _ _ Hv),
        <- ?(sv_owner _ _ Hv), <- ?(sv_mdscr _ _ Hv); try done.
      * by apply validate_request_enabled in Ev.
      * apply disabled_has_no_enable.
      * split; [done|by apply disabled_word].
    + rewrite Hv'. unfold armed_view. fold kind. rewrite (sv_mdscr _ _ Hv). split; intros; simpl; fold kind; repeat case_decide; try done; apply Hv.
Qed.

(** Reading the slot held: the image expected, or a fault. *)
Lemma held_image h s ctl md : remembers s -> view h ≡ session_view s ctl md ->
  spz_debug_live_image ops h cpu s = inr (ds_programmed_value s, ctl, 0) \/
  exists r, spz_debug_live_image ops h cpu s = inl r /\ r <> 0 /\ faulty.
Proof.
  intros Hr Hv. destruct (try_live_image h s (rm_slot _ Hr)) as [->|?]; [left|by right].
  rewrite (sv_value _ _ Hv), (sv_control _ _ Hv), (sv_owner _ _ Hv), session_view_value, session_view_control.
  cbn [dv_owner session_view set_mdscr set_control set_value]. by rewrite (rm_owner _ Hr).
Qed.

Lemma held_mdscr h s ctl md : view h ≡ session_view s ctl md ->
  op_read_mdscr ops h cpu = (0, md) \/ exists r v, op_read_mdscr ops h cpu = (r, v) /\ r <> 0 /\ faulty.
Proof.
  intros Hv. destruct (try_read_mdscr h) as [->|?]; [left|by right]. by rewrite (sv_mdscr _ _ Hv), session_view_mdscr.
Qed.

Lemma hit_session h s current frame observed event :
  session_inv h s -> ds_state s = SPZ_DEBUG_ARMED ->
  let '(_, h', s', _, _) := spz_debug_handle_hit ops h cpu s current frame observed event in session_inv h' s'.
Proof.
  intros Hinv Hs. unfold spz_debug_handle_hit. destruct (negb _); [done|].
  pose proof Hinv as Hi. unfold session_inv in Hi. rewrite Hs in Hi. destruct Hi as (Hr & Hss & Hv).
  pose proof (rm_slot _ Hr) as Hslot. destruct (rm_words _ Hr) as [Hpc Hdc].
  destruct (held_image h s _ _ Hr Hv) as [->|(r & -> & _)]; [|done]. rewrite !Z.eqb_refl. cbn [negb orb].
  destruct (held_mdscr h s _ _ Hv) as [->|(r & v & -> & Hne & _)]; [|by rewrite (eqb_ne r 0)]. cbn [negb Z.eqb].
  pose proof (try_write_control h (ds_kind s) (ds_slot s) (ds_disabled_control s) Hslot Hdc) as V1.
  destruct (op_write_control _ _ _ _ _ _) as [r1 h1]. next_write V1. rewrite Hv, session_set_control in V1. cbv zeta.
  destruct (_ || _).
  { unfold session_inv. cbn [ds_state spz_debug_transition field_update].
    split; [by do 2 apply remembers_transition|]. split; [done|]. by rewrite hw_barrier, V1. }
  assert (Hmd1 : dv_mdscr (view (op_barrier ops h1 cpu)) cpu = armed_mdscr)
    by (rewrite (sv_mdscr _ _ (hw_barrier h1 cpu)), (sv_mdscr _ _ V1); apply session_view_mdscr).
  pose proof (try_write_mdscr_if (op_barrier ops h1 cpu) stepping_mdscr armed_mdscr stepping_mdscr_u64 Hmd1) as V2.
  destruct (if negb (_ =? armed_mdscr) then _ else _) as [r2 h2]. next_write V2.
  unfold session_inv. cbn [ds_state spz_debug_transition field_update].
  split; [apply remembers_transition; by destruct (remembers_transition SPZ_DEBUG_HIT_DISABLED s Hr)|].
  split; [done|]. by rewrite hw_barrier, V2, hw_barrier, V1, session_set_mdscr.
Qed.

Lemma step_session h s current frame :
  session_inv h s ->
  let '(_, h', s', _) := step_cpu ops h cpu s current frame in session_inv h' s'.
Proof.
  intros Hinv. unfold step_cpu. destruct (_ || _) eqn:Eg; [done|].
  apply orb_false_iff in Eg as [Es _]. apply bool_decide_eq_false in Es.
  assert (Hs : ds_state s = SPZ_DEBUG_STEP_PENDING) by (destruct (decide (ds_state s = SPZ_DEBUG_STEP_PENDING)); tauto).
  pose proof Hinv as Hi. unfold session_inv in Hi. rewrite Hs in Hi. destruct Hi as (Hr & Hss & Hv).
  pose proof (rm_slot _ Hr) as Hslot. destruct (rm_words _ Hr) as [Hpc Hdc].
  destruct (held_image h s _ _ Hr Hv) as [->|(r & -> & _)]; [|done]. rewrite !Z.eqb_refl. cbn [negb orb].
  destruct (held_mdscr h s _ _ Hv) as [->|(r & v & -> & Hne & _)]; [|by rewrite (eqb_ne r 0)]. cbn [negb Z.eqb].
  rewrite Hss, unstep_mdscr.
  assert (Hmd0 : dv_mdscr (view h) cpu = stepping_mdscr) by (rewrite (sv_mdscr _ _ Hv); apply session_view_mdscr).
  pose proof (try_write_mdscr_if h armed_mdscr stepping_mdscr armed_mdscr_u64 Hmd0) as V1.
  destruct (if negb (_ =? stepping_mdscr) then _ else _) as [r1 h1]. next_write V1. rewrite Hv, session_set_mdscr in V1. cbv zeta.
  pose proof (try_write_control h1 (ds_kind s) (ds_slot s) (ds_programmed_control s) Hslot Hpc) as V2.
  destruct (op_write_control _ _ _ _ _ _) as [r2 h2]. next_write V2. rewrite V1, session_set_control in V2.
  unfold session_inv. cbn [ds_state spz_debug_transition field_update].
  split; [apply remembers_transition; by destruct Hr|]. split; [done|]. by rewrite hw_barrier, V2.
Qed.

(** A restore: it gives the slot back, or quarantines the CPU, or could not read. *)
Definition restored (r : Z) (h : hw) (s : spz_debug_cpu_state) (h' : hw) (s' : spz_debug_cpu_state) : Prop :=
  (r = 0 /\ ds_state s' = SPZ_DEBUG_EMPTY /\ given_back (view h')) \/
  (r <> 0 /\ faulty /\ (ds_state s' = SPZ_DEBUG_QUARANTINED \/ h' = h /\ s' = s)).

(** [or_quit V Q]: the next write of a restore; a failure quarantines, as [Q] says. *)
Ltac or_quit V Hquit := destruct V as [[-> V]|[V ?]];
  [cbn [negb Z.eqb]|match goal with |- context [negb (?r =? 0)] => rewrite (eqb_ne r 0) by exact V end; by apply Hquit].

Lemma restore_session h s ctl md :
  ds_state s <> SPZ_DEBUG_EMPTY -> ds_state s <> SPZ_DEBUG_QUARANTINED ->
  remembers s -> view h ≡ session_view s ctl md -> expected_control s = ctl ->
  (if negb (ds_added_mdscr_ss s =? 0) then clear_bits md SPZ_MDSCR_SS else md) = armed_mdscr ->
  let '(r, h', s') := restore_cpu ops h cpu s in restored r h s h' s'.
Proof.
  intros Hne Hnq Hr Hv Hctl Hss. unfold restore_cpu.
  assert (Hm : forall A (a b c : A),
    match ds_state s with SPZ_DEBUG_EMPTY => a | SPZ_DEBUG_QUARANTINED => b | _ => c end = c)
    by (intros; by destruct (ds_state s)).
  pose proof (rm_slot _ Hr) as Hslot. destruct (rm_words _ Hr) as [Hpc Hdc]. rewrite Hm.
  destruct (held_image h s _ _ Hr Hv) as [->|(r & -> & Hr0 & Hf)]; [|right; auto].
  rewrite Hctl, !Z.eqb_refl. cbn [negb orb].
  destruct (held_mdscr h s _ _ Hv) as [->|(r & v & -> & Hr0 & Hf)]; [|rewrite (eqb_ne r 0) by done; right; auto].
  cbn [negb Z.eqb]. rewrite Hss. cbv zeta.
  set (s1 := spz_debug_transition SPZ_DEBUG_RESTORING s).
  change (ds_kind s1) with (ds_kind s). change (ds_slot s1) with (ds_slot s).
  change (ds_disabled_control s1) with (ds_disabled_control s). change (ds_saved_value s1) with (ds_saved_value s).
  change (ds_saved_control s1) with (ds_saved_control s). change (ds_added_mde s1) with (ds_added_mde s).
  assert (Hquit : forall r h', r <> 0 -> faulty -> let '(r, h', s') := restore_quarantine ops r h' cpu s1 in restored r h s h' s')
    by (intros; right; auto).
  assert (exists after, (let '(r1, h1) := if has_bit ctl SPZ_DEBUG_CTRL_ENABLE
      then op_write_control ops h cpu (ds_kind s) (ds_slot s) (ds_disabled_control s) else (0, h) in wrote r1 h1 after) /\
    set_control cpu (ds_kind s) (ds_slot s) (ds_saved_control s)
      (set_value cpu (ds_kind s) (ds_slot s) (ds_saved_value s) after) ≡ set_mdscr cpu md orig) as (after & V1 & Hafter).
  { destruct (has_bit ctl _).
    - exists (set_control cpu (ds_kind s) (ds_slot s) (ds_disabled_control s) (view h)).
      split; [by apply try_write_control|]. by rewrite Hv, session_restored.
    - exists (view h). split; [by left|]. by rewrite Hv, session_restored'. }
  destruct (if has_bit ctl _ then _ else _) as [r1 h1]. or_quit V1 Hquit.
  pose proof (try_write_value h1 _ _ _ Hslot (saved_value_word s Hr)) as V2.
  destruct (op_write_value _ _ _ _ _ _) as [r2 h2]. or_quit V2 Hquit.
  pose proof (try_write_control h2 _ _ _ Hslot (saved_control_word s Hr)) as V3.
  destruct (op_write_control _ _ _ _ _ _) as [r3 h3]. or_quit V3 Hquit.
  assert (V : view h3 ≡ set_mdscr cpu md orig) by (by rewrite V3, V2, V1). clear V1 V2 V3 Hafter.
  assert (Hmd3 : dv_mdscr (view h3) cpu = md) by (rewrite (sv_mdscr _ _ V); simpl; by rewrite decide_True).
  set (w := if _ && _ then _ else _).
  assert (Hw : is_u64 w /\ given_back (set_mdscr cpu w orig)).
  { unfold w. rewrite (rm_mde _ Hr). destruct (has_bit orig_mdscr SPZ_MDSCR_MDE) eqn:E; cbn [negb andb Z.eqb].
    - split; [apply armed_mdscr_u64|left]. rewrite keep_mdscr by done. split; intros; simpl; try done. by case_decide; subst.
    - destruct (spz_debug_other_state_requires_mde ops h3 cpu s1) eqn:Eo; cbn [negb].
      + split; [apply armed_mdscr_u64|right]. split_and!; [done|done|]. by eapply (other_mde h3 s1).
      + rewrite unarm_mdscr by done. split; [done|left]. split; intros; simpl; try done. by case_decide; subst. }
  destruct Hw as [Hw1 Hw2].
  pose proof (try_write_mdscr_if h3 w md Hw1 Hmd3) as V4.
  destruct (if negb (w =? md) then _ else _) as [r4 h4]. or_quit V4 Hquit.
  left. split; [done|]. split; [done|]. assert (view (op_barrier ops h4 cpu) ≡ set_mdscr cpu w orig) as Hfin.
  { rewrite hw_barrier, V4, V. split; intros; simpl; repeat case_decide; by subst. }
  destruct Hw2 as [Hg|(Hg1 & Hg2 & Hg3)]; [left; by rewrite Hfin|right]. split_and!; [done|by rewrite Hfin|done].
Qed.

Lemma restore_inv h s :
  session_inv h s -> ds_state s <> SPZ_DEBUG_QUARANTINED ->
  let '(r, h', s') := restore_cpu ops h cpu s in restored r h s h' s'.
Proof.
  intros Hinv Hq. pose proof Hinv as Hi. unfold session_inv in Hi. destruct (ds_state s) eqn:Hs; try done.
  { unfold restore_cpu. rewrite Hs. left. split_and!; [done|done|by left]. }
  all: destruct Hi as (Hr & Hss & Hv).
  all: eapply (restore_session h s); [by rewrite Hs|by rewrite Hs|exact Hr|exact Hv|by unfold expected_control; rewrite Hs|].
  all: rewrite Hss; first [done|apply unstep_mdscr].
Qed.
End session.

(** ** Sequences of operations *)

Inductive debug_op :=
  | DebugArm (request : option spz_debug_request) (target : spz_debug_target)
  | DebugBreak (current : option spz_debug_target) (frame : spz_debug_frame)
  | DebugWatch (current : option spz_debug_target) (frame : spz_debug_frame)
  | DebugStep (current : option spz_debug_target) (frame : spz_debug_frame)
  | DebugRestore.

Section run.
Context {hw : Type} (ops : spz_debug_ops hw) (cpu : Z).

Definition debug_step (op : debug_op) (hs : hw * spz_debug_cpu_state) : hw * spz_debug_cpu_state :=
  let '(h, s) := hs in
  match op with
  | DebugArm request target => let '(_, h, s) := arm_cpu ops h cpu s request target in (h, s)
  | DebugBreak current frame => let '(_, h, s, _, _) := break_cpu ops h cpu s current frame zero_event in (h, s)
  | DebugWatch current frame => let '(_, h, s, _, _) := watch_cpu ops h cpu s current frame zero_event in (h, s)
  | DebugStep current frame => let '(_, h, s, _) := step_cpu ops h cpu s current frame in (h, s)
  | DebugRestore => let '(_, h, s) := restore_cpu ops h cpu s in (h, s)
  end.

Definition run_debug (l : list debug_op) (hs : hw * spz_debug_cpu_state) : hw * spz_debug_cpu_state :=
  foldl (fun hs op => debug_step op hs) hs l.
End run.

Section outcomes.
Context {hw : Type} (ops : spz_debug_ops hw) (view : hw -> debug_view) (cpu : Z)
  `{!DebugHw ops view}.

(** The widths of the request a caller passes. *)
Definition dop_ok (op : debug_op) : Prop :=
  match op with DebugArm (Some request) _ => is_u64 (dr_address request) | _ => True end.

(** The debug monitor was already on, or no slot of this CPU was in use. *)
Definition monitor_free (orig : debug_view) : Prop :=
  has_bit (dv_mdscr orig cpu) SPZ_MDSCR_MDE = true \/
  forall kind slot, has_slot ops kind slot ->
    dv_owner orig cpu kind slot = 0 /\
    has_bit (dv_control orig cpu kind slot) SPZ_DEBUG_CTRL_ENABLE = false.

Lemma monitor_needed_equiv v w : v ≡ w -> monitor_needed ops cpu v -> monitor_needed ops cpu w.
Proof.
  intros E (kind & slot & Hs & H). exists kind, slot. split; [done|]. by rewrite <- (sv_owner _ _ E), <- (sv_control _ _ E).
Qed.

(** Giving back what was given back before. *)
Lemma given_back_trans orig base v :
  is_u64 (dv_mdscr orig cpu) -> given_back ops cpu orig base -> given_back ops cpu base v -> given_back ops cpu orig v.
Proof.
  intros Hmd [Eb|(Hb1 & Hb2 & Hb3)] [E|(H1 & H2 & H3)].
  - left. by rewrite E.
  - right. pose proof (sv_mdscr _ _ Eb cpu) as Em. rewrite <- Em. split; [done|]. split; [|by eapply monitor_needed_equiv].
    rewrite H2. split; intros; simpl; try case_decide; try done; apply Eb.
  - right. by rewrite E.
  - exfalso. rewrite (sv_mdscr _ _ Hb2) in H1. cbn [dv_mdscr set_mdscr] in H1. rewrite decide_True in H1 by done.
    unfold SPZ_MDSCR_MDE in H1. rewrite has_bit_testbit, Z.lor_spec in H1 by lia.
    change (Z.testbit (Z.shiftl 1 15) 15) with true in H1. by rewrite orb_true_r in H1.
Qed.

Lemma given_back_free orig v : FaultFree ops cpu -> monitor_free orig -> given_back ops cpu orig v -> v ≡ orig.
Proof.
  intros Hff Hf [E|(Hm & _ & kind & slot & Hs & H)]; [done|exfalso]. destruct Hf as [?|Hf]; [congruence|].
  destruct (Hf kind slot Hs) as [Ho Hc]. destruct H as [?|[?|(h & [H|H])]]; [congruence|congruence| |]; apply H.
  - by apply ff_read_owner.
  - by apply ff_read_control.
Qed.

(** The invariant of a run: a session over registers already given back once or more. *)
Definition run_inv (orig : debug_view) (h : hw) (s : spz_debug_cpu_state) : Prop :=
  exists h0, given_back ops cpu orig (view h0) /\ session_inv ops view cpu (view h0) h s.

(** A quarantined CPU stays as it is. *)
Lemma quarantined_step op h s : ds_state s = SPZ_DEBUG_QUARANTINED -> debug_step ops cpu op (h, s) = (h, s).
Proof.
  intros Hq. destruct op as [request target|current frame|current frame|current frame|]; cbn [debug_step];
    unfold arm_cpu, break_cpu, watch_cpu, step_cpu, restore_cpu; by rewrite Hq.
Qed.

Lemma restored_inv h0 r h s h' s' orig :
  is_u64 (dv_mdscr orig cpu) -> given_back ops cpu orig (view h0) -> session_inv ops view cpu (view h0) h s ->
  restored ops view cpu (view h0) r h s h' s' -> run_inv orig h' s'.
Proof.
  intros Hmd Hg Hi [(_ & Hs & Hb)|(_ & Hf & [Hs|[-> ->]])].
  - exists h'. split; [by eapply given_back_trans|]. unfold session_inv. by rewrite Hs.
  - exists h0. split; [done|]. unfold session_inv. by rewrite Hs.
  - by exists h0.
Qed.

Lemma run_restore orig h s : is_u64 (dv_mdscr orig cpu) -> run_inv orig h s -> ds_state s <> SPZ_DEBUG_QUARANTINED ->
  exists h0, given_back ops cpu orig (view h0) /\ session_inv ops view cpu (view h0) h s /\
    let '(r, h', s') := restore_cpu ops h cpu s in restored ops view cpu (view h0) r h s h' s'.
Proof.
  intros Hmd (h0 & Hg & Hi) Hq. exists h0. split_and!; [done..|].
  apply restore_inv; [done|apply (hw_mdscr_u64 (view:=view))|apply (hw_value_u64 (view:=view))|apply (hw_control_u32 (view:=view))|done|done].
Qed.

Lemma debug_step_inv orig op h s :
  is_u64 (dv_mdscr orig cpu) -> dop_ok op -> run_inv orig h s ->
  let '(h', s') := debug_step ops cpu op (h, s) in run_inv orig h' s'.
Proof.
  intros Hmd Hok Hrun. destruct (decide (ds_state s = SPZ_DEBUG_QUARANTINED)) as [Hq|Hq].
  { by rewrite quarantined_step. }
  destruct Hrun as (h0 & Hg & Hinv). pose proof (hw_mdscr_u64 (view:=view) h0 cpu) as Hmd0.
  assert (Hkeep : forall h' s', session_inv ops view cpu (view h0) h' s' -> run_inv orig h' s') by (intros; by exists h0).
  assert (Harmed : forall current frame observed event, ds_state s = SPZ_DEBUG_ARMED ->
    let '(_, h', s', _, _) := spz_debug_handle_hit ops h cpu s current frame observed event in run_inv orig h' s').
  { intros. pose proof (hit_session ops view cpu (view h0) Hmd0 h s current frame observed event Hinv ltac:(done)) as H1.
    destruct (spz_debug_handle_hit _ _ _ _ _ _ _ _) as [[[[? ?] ?] ?] ?]. by apply Hkeep. }
  destruct op as [request target|current frame|current frame|current frame|]; cbn [debug_step].
  - pose proof (arm_session ops view cpu (view h0) h s request target ltac:(by intros req ->) Hinv) as H.
    destruct (arm_cpu ops h cpu s request target) as [[? ?] ?]. by apply Hkeep.
  - unfold break_cpu. destruct (bool_decide (ds_state s <> _) || _ || _) eqn:E; [by apply Hkeep|].
    assert (Hs : ds_state s = SPZ_DEBUG_ARMED).
    { rewrite !orb_false_iff in E. destruct E as [[E _] _]. apply bool_decide_eq_false in E.
      destruct (decide (ds_state s = SPZ_DEBUG_ARMED)); tauto. }
    specialize (Harmed current frame (df_pc frame) zero_event Hs).
    by destruct (spz_debug_handle_hit _ _ _ _ _ _ _ _) as [[[[? ?] ?] ?] ?].
  - unfold watch_cpu. cbv zeta. destruct (bool_decide (ds_state s <> _) || _) eqn:E; [by apply Hkeep|].
    assert (Hs : ds_state s = SPZ_DEBUG_ARMED).
    { rewrite !orb_false_iff in E. destruct E as [E _]. apply bool_decide_eq_false in E.
      destruct (decide (ds_state s = SPZ_DEBUG_ARMED)); tauto. }
    clear E. destruct (_ || _); [by apply Hkeep|]. destruct (_ || _); [by apply Hkeep|].
    specialize (Harmed current frame (df_far frame) zero_event Hs).
    by destruct (spz_debug_handle_hit _ _ _ _ _ _ _ _) as [[[[? ?] ?] ?] ?].
  - pose proof (step_session ops view cpu (view h0) Hmd0 h s current frame Hinv) as H.
    destruct (step_cpu ops h cpu s current frame) as [[[? ?] ?] ?]. by apply Hkeep.
  - destruct (run_restore orig h s Hmd ltac:(by exists h0) Hq) as (h1 & Hg1 & Hi1 & Hr).
    destruct (restore_cpu ops h cpu s) as [[r h'] s']. by eapply restored_inv.
Qed.

Lemma run_debug_inv orig l h s :
  is_u64 (dv_mdscr orig cpu) -> Forall dop_ok l -> run_inv orig h s ->
  let '(h', s') := run_debug ops cpu l (h, s) in run_inv orig h' s'.
Proof.
  intros Hmd Hok. revert h s. induction Hok as [|op l Hop Hok IH]; intros h s Hinv; [done|].
  cbn [run_debug foldl]. pose proof (debug_step_inv orig op h s Hmd Hop Hinv) as H.
  destruct (debug_step ops cpu op (h, s)) as [h1 s1]. by apply IH.
Qed.

(** C2: what a session on one CPU leaves in the debug registers, where nobody else
    reprograms them and any register operation may fail. From an empty CPU, after any
    sequence of armings, break and watch hits, single steps and restores: an empty
    CPU has every register of the machine as found, except that the monitor bit of
    MDSCR_EL1 stays set where the session set it while another slot of the CPU was in
    use or could not be read; one more restore either returns 0 and leaves the CPU empty with the
    registers given back in that sense, or reports an error with the CPU quarantined or
    with nothing changed at all. Where no operation fails the CPU is never quarantined,
    that restore returns 0, and where moreover no other slot was in use (or the monitor was
    already on) every register is exactly as found. *)
Theorem session_gives_registers_back l h s :
  ds_state s = SPZ_DEBUG_EMPTY -> Forall dop_ok l ->
  let '(h1, s1) := run_debug ops cpu l (h, s) in
  let '(r, h2, s2) := restore_cpu ops h1 cpu s1 in
  (ds_state s1 = SPZ_DEBUG_EMPTY -> given_back ops cpu (view h) (view h1)) /\
  ((r = 0 /\ ds_state s2 = SPZ_DEBUG_EMPTY /\ given_back ops cpu (view h) (view h2)) \/
   (r <> 0 /\ (ds_state s2 = SPZ_DEBUG_QUARANTINED \/ h2 = h1 /\ s2 = s1))) /\
  (FaultFree ops cpu ->
   ds_state s1 <> SPZ_DEBUG_QUARANTINED /\ r = 0 /\ ds_state s2 = SPZ_DEBUG_EMPTY /\
   (monitor_free (view h) -> view h2 ≡ view h)).
Proof.
  intros Hs Hok. pose proof (hw_mdscr_u64 (view:=view) h cpu) as Hmd.
  assert (Hrun : run_inv (view h) h s) by (exists h; split; [by left|unfold session_inv; by rewrite Hs]).
  apply (run_debug_inv (view h) l h s Hmd Hok) in Hrun. destruct (run_debug ops cpu l (h, s)) as [h1 s1].
  assert (Hempty : ds_state s1 = SPZ_DEBUG_EMPTY -> given_back ops cpu (view h) (view h1)).
  { intros E. destruct Hrun as (h0 & Hg & Hi). unfold session_inv in Hi. rewrite E in Hi.
    eapply given_back_trans; [done|done|by left]. }
  assert (Hfine : FaultFree ops cpu -> ds_state s1 <> SPZ_DEBUG_QUARANTINED).
  { intros Hff E. destruct Hrun as (h0 & _ & Hi). unfold session_inv in Hi. by rewrite E in Hi. }
  destruct (decide (ds_state s1 = SPZ_DEBUG_QUARANTINED)) as [Hq|Hq].
  { unfold restore_cpu. rewrite Hq. split; [done|]. split; [right; auto|]. intros Hff. by destruct (Hfine Hff). }
  destruct (run_restore _ h1 s1 Hmd Hrun Hq) as (h0 & Hg & _ & Hr).
  destruct (restore_cpu ops h1 cpu s1) as [[r h2] s2]. split; [done|].
  destruct Hr as [(-> & E & Hb)|(Hr & Hf & E)].
  - assert (given_back ops cpu (view h) (view h2)) as Hb' by (by eapply given_back_trans).
    split; [by left|]. intros Hff. split_and!; [auto|done|done|]. intros Hfree. by apply given_back_free.
  - split; [by right|]. done.
Qed.
End outcomes.
