(* ===== verification/Arm64.v ===== *)
(** * The arm64 debug registers (kpm/platform/arm64/debug_regs.c)

    The system registers of every CPU and the accessors that reach those of the
    CPU the code runs on. The accessors discharge [DebugHw], so what DebugSpec.v
    and DebugSession.v prove holds of the real registers; the second half is the
    build for other architectures, whose accessors refuse. *)

From S2P Require Import Prelude Abi DeviceProfiles Profile Task Debug DebugEncode DebugSpec DebugSession.

(** ** Identification registers *)

Definition spz_arm64_num_brps_from_dfr0 (dfr0 : Z) : Z := u32 (Z.land (Z.shiftr dfr0 12) 0xf + 1).
Definition spz_arm64_num_wrps_from_dfr0 (dfr0 : Z) : Z := u32 (Z.land (Z.shiftr dfr0 20) 0xf + 1).

Definition spz_arm64_page_size_from_tcr (tcr : Z) : Z :=
  match Z.land (Z.shiftr tcr 30) 3 with
  | 1 => 16384
  | 2 => 4096
  | 3 => 65536
  | _ => 0
  end.

(** ** The machine *)

(** The banked registers of one CPU; [DBGBVR<n>_EL1] is [sys_bvr n]. *)
Record sysregs := {
  sys_bvr : Z -> Z;
  sys_bcr : Z -> Z;
  sys_wvr : Z -> Z;
  sys_wcr : Z -> Z;
  sys_mdscr : Z;
  sys_dfr0 : Z;
  sys_tcr : Z;
  sys_sp_el0 : Z;
  sys_tpidr_el1 : Z;
}.

#[export] Instance sysregs_shape : Shape sysregs :=
  shape! Build_sysregs < sys_bvr ; sys_bcr ; sys_wvr ; sys_wcr ; sys_mdscr ; sys_dfr0 ; sys_tcr ;
    sys_sp_el0 ; sys_tpidr_el1 >.

Definition machine : Type := Z -> sysregs.

Definition upd {A} (f : Z -> A) (i : Z) (v : A) : Z -> A := fun j => if j =? i then v else f j.

(** [struct spz_arm64_owner_ops]: the callbacks of the runtime. *)
Record spz_arm64_owner_ops := {
  ow_brp_count : Z;
  ow_wrp_count : Z;
  ow_current_cpu : option (machine -> Z * Z);
  ow_read_owner : option (machine -> Z -> spz_debug_slot_kind -> Z -> Z * Z);
}.

(** The cases of [SPZ_FOR_EACH_DEBUG_SLOT]. *)
Definition slot_case (index : Z) : bool := (0 <=? index) && (index <? 16).

Section arm64.
(** The CPU the code runs on; the accessors reach its registers only. *)
Context (me : Z).

Definition spz_arm64_read_bvr (m : machine) (index : Z) : Z * Z :=
  if slot_case index then (0, u64 (sys_bvr (m me) index)) else (- ERANGE, 0).
Definition spz_arm64_write_bvr (m : machine) (index value : Z) : Z * machine :=
  if slot_case index then (0, upd m me ((m me) <| sys_bvr ::= fun f => upd f index (u64 value) |>)) else (- ERANGE, m).
Definition spz_arm64_read_bcr (m : machine) (index : Z) : Z * Z :=
  if slot_case index then (0, u32 (sys_bcr (m me) index)) else (- ERANGE, 0).
Definition spz_arm64_write_bcr (m : machine) (index value : Z) : Z * machine :=
  if slot_case index then (0, upd m me ((m me) <| sys_bcr ::= fun f => upd f index (u32 value) |>)) else (- ERANGE, m).
Definition spz_arm64_read_wvr (m : machine) (index : Z) : Z * Z :=
  if slot_case index then (0, u64 (sys_wvr (m me) index)) else (- ERANGE, 0).
Definition spz_arm64_write_wvr (m : machine) (index value : Z) : Z * machine :=
  if slot_case index then (0, upd m me ((m me) <| sys_wvr ::= fun f => upd f index (u64 value) |>)) else (- ERANGE, m).
Definition spz_arm64_read_wcr (m : machine) (index : Z) : Z * Z :=
  if slot_case index then (0, u32 (sys_wcr (m me) index)) else (- ERANGE, 0).
Definition spz_arm64_write_wcr (m : machine) (index value : Z) : Z * machine :=
  if slot_case index then (0, upd m me ((m me) <| sys_wcr ::= fun f => upd f index (u32 value) |>)) else (- ERANGE, m).

Definition spz_arm64_read_dfr0 (m : machine) : Z := sys_dfr0 (m me).
Definition spz_arm64_page_size (m : machine) : Z := spz_arm64_page_size_from_tcr (sys_tcr (m me)).
Definition spz_arm64_num_brps (m : machine) : Z := spz_arm64_num_brps_from_dfr0 (spz_arm64_read_dfr0 m).
Definition spz_arm64_num_wrps (m : machine) : Z := spz_arm64_num_wrps_from_dfr0 (spz_arm64_read_dfr0 m).
Definition spz_arm64_read_mdscr (m : machine) : Z * Z := (0, u64 (sys_mdscr (m me))).
Definition spz_arm64_write_mdscr (m : machine) (value : Z) : Z * machine :=
  (0, upd m me ((m me) <| sys_mdscr := u64 value |>)).
Definition spz_arm64_current_task (m : machine) : Z := sys_sp_el0 (m me).
Definition spz_arm64_current_cpu_offset (m : machine) : Z := sys_tpidr_el1 (m me).
Definition spz_arm64_barrier (m : machine) : machine := m.

(** ** The operations table *)

Context (owners : spz_arm64_owner_ops).

Definition spz_arm64_check_cpu (m : machine) (cpu : Z) : Z :=
  match ow_current_cpu owners with
  | None => - EINVAL
  | Some current_cpu =>
      let '(result, current) := current_cpu m in
      if negb (result =? 0) then result else if current =? cpu then 0 else - EXDEV
  end.

Definition spz_arm64_ops_read_value (m : machine) (cpu : Z) (kind : spz_debug_slot_kind) (index : Z) : Z * Z :=
  let result := spz_arm64_check_cpu m cpu in
  if negb (result =? 0) then (result, 0)
  else match kind with
       | SPZ_DEBUG_SLOT_BREAKPOINT => spz_arm64_read_bvr m index
       | SPZ_DEBUG_SLOT_WATCHPOINT => spz_arm64_read_wvr m index
       | SPZ_DEBUG_SLOT_ZERO => (- EINVAL, 0)
       end.

Definition spz_arm64_ops_write_value (m : machine) (cpu : Z) (kind : spz_debug_slot_kind) (index value : Z) :
    Z * machine :=
  let result := spz_arm64_check_cpu m cpu in
  if negb (result =? 0) then (result, m)
  else match kind with
       | SPZ_DEBUG_SLOT_BREAKPOINT => spz_arm64_write_bvr m index value
       | SPZ_DEBUG_SLOT_WATCHPOINT => spz_arm64_write_wvr m index value
       | SPZ_DEBUG_SLOT_ZERO => (- EINVAL, m)
       end.

Definition spz_arm64_ops_read_control (m : machine) (cpu : Z) (kind : spz_debug_slot_kind) (index : Z) : Z * Z :=
  let result := spz_arm64_check_cpu m cpu in
  if negb (result =? 0) then (result, 0)
  else match kind with
       | SPZ_DEBUG_SLOT_BREAKPOINT => spz_arm64_read_bcr m index
       | SPZ_DEBUG_SLOT_WATCHPOINT => spz_arm64_read_wcr m index
       | SPZ_DEBUG_SLOT_ZERO => (- EINVAL, 0)
       end.

Definition spz_arm64_ops_write_control (m : machine) (cpu : Z) (kind : spz_debug_slot_kind) (index control : Z) :
    Z * machine :=
  let result := spz_arm64_check_cpu m cpu in
  if negb (result =? 0) then (result, m)
  else match kind with
       | SPZ_DEBUG_SLOT_BREAKPOINT => spz_arm64_write_bcr m index control
       | SPZ_DEBUG_SLOT_WATCHPOINT => spz_arm64_write_wcr m index control
       | SPZ_DEBUG_SLOT_ZERO => (- EINVAL, m)
       end.

Definition spz_arm64_ops_read_mdscr (m : machine) (cpu : Z) : Z * Z :=
  let result := spz_arm64_check_cpu m cpu in
  if result =? 0 then spz_arm64_read_mdscr m else (result, 0).

Definition spz_arm64_ops_write_mdscr (m : machine) (cpu value : Z) : Z * machine :=
  let result := spz_arm64_check_cpu m cpu in
  if result =? 0 then spz_arm64_write_mdscr m value else (result, m).

Definition spz_arm64_ops_read_owner (m : machine) (cpu : Z) (kind : spz_debug_slot_kind) (index : Z) : Z * Z :=
  let result := spz_arm64_check_cpu m cpu in
  if negb (result =? 0) then (result, 0)
  else match ow_read_owner owners with
       | None => (- EINVAL, 0)
       | Some read_owner => read_owner m cpu kind index
       end.

Definition spz_arm64_ops_barrier (m : machine) (cpu : Z) : machine := spz_arm64_barrier m.

Definition arm64_ops : spz_debug_ops machine :=
  {| op_brp_count := ow_brp_count owners; op_wrp_count := ow_wrp_count owners;
     op_read_value := spz_arm64_ops_read_value; op_write_value := spz_arm64_ops_write_value;
     op_read_control := spz_arm64_ops_read_control; op_write_control := spz_arm64_ops_write_control;
     op_read_mdscr := spz_arm64_ops_read_mdscr; op_write_mdscr := spz_arm64_ops_write_mdscr;
     op_read_owner := spz_arm64_ops_read_owner; op_barrier := spz_arm64_ops_barrier |}.

(** Result code, and the table stored through [out]. *)
Definition spz_arm64_make_debug_ops : Z * option (spz_debug_ops machine) :=
  match ow_current_cpu owners, ow_read_owner owners with
  | Some _, Some _ =>
      if (ow_brp_count owners =? 0) || (SPZ_DEBUG_MAX_SLOTS <? ow_brp_count owners)
         || (ow_wrp_count owners =? 0) || (SPZ_DEBUG_MAX_SLOTS <? ow_wrp_count owners)
      then (- EINVAL, None)
      else (0, Some arm64_ops)
  | _, _ => (- EINVAL, None)
  end.

(** ** The accessors keep the promises of [DebugHw]

    [current_cpu] reports the CPU the code runs on; the owner of a slot, which the
    kernel keeps in per-CPU tables, is [owner], and reading it succeeds for the
    slots of this CPU. *)

Context (owner : Z -> spz_debug_slot_kind -> Z -> Z).

Class OwnersOk : Prop := {
  oo_current : ow_current_cpu owners = Some (fun _ => (0, me));
  oo_owner : exists f, ow_read_owner owners = Some f /\
    (forall m c k i, (f m c k i).1 = 0 -> (f m c k i).2 = owner c k i) /\
    (forall m k i, has_slot arm64_ops k i -> (f m me k i).1 = 0);
  oo_counts : 0 < ow_brp_count owners <= SPZ_DEBUG_MAX_SLOTS /\ 0 < ow_wrp_count owners <= SPZ_DEBUG_MAX_SLOTS;
}.

Definition arm64_view (m : machine) : debug_view :=
  {| dv_value := fun c k i =>
       match k with
       | SPZ_DEBUG_SLOT_BREAKPOINT => u64 (sys_bvr (m c) i)
       | SPZ_DEBUG_SLOT_WATCHPOINT => u64 (sys_wvr (m c) i)
       | SPZ_DEBUG_SLOT_ZERO => 0
       end;
     dv_control := fun c k i =>
       match k with
       | SPZ_DEBUG_SLOT_BREAKPOINT => u32 (sys_bcr (m c) i)
       | SPZ_DEBUG_SLOT_WATCHPOINT => u32 (sys_wcr (m c) i)
       | SPZ_DEBUG_SLOT_ZERO => 0
       end;
     dv_mdscr := fun c => u64 (sys_mdscr (m c));
     dv_owner := owner |}.

Context `{!OwnersOk}.

Lemma check_cpu_eq m cpu : spz_arm64_check_cpu m cpu = if me =? cpu then 0 else - EXDEV.
Proof. unfold spz_arm64_check_cpu. by rewrite oo_current. Qed.

(** [arm64_read], [arm64_write]: the two shapes of the promises. *)
Ltac arm64_read :=
  cbn [op_read_value op_read_control op_read_mdscr op_read_owner arm64_ops];
  unfold spz_arm64_ops_read_value, spz_arm64_ops_read_control, spz_arm64_ops_read_mdscr, spz_arm64_ops_read_owner;
  rewrite check_cpu_eq;
  match goal with |- context [me =? ?c] => destruct (me =? c) eqn:E; [apply Z.eqb_eq in E; subst c|done] end;
  cbn [negb Z.eqb].

Ltac arm64_write :=
  cbn [op_write_value op_write_control op_write_mdscr arm64_ops];
  unfold spz_arm64_ops_write_value, spz_arm64_ops_write_control, spz_arm64_ops_write_mdscr;
  rewrite check_cpu_eq;
  match goal with |- context [me =? ?c] => destruct (me =? c) eqn:E; [apply Z.eqb_eq in E; subst c|by right] end;
  cbn [negb Z.eqb].

Lemma u64_u64 v : u64 (u64 v) = u64 v.
Proof. zlia. Qed.
Lemma u32_u32 v : u32 (u32 v) = u32 v.
Proof. zlia. Qed.

(** An update of one register, seen register by register. *)
Ltac arm64_pointwise :=
  split; intros; simpl; unfold upd;
  repeat match goal with
  | |- context [?a =? ?b] => destruct (Z.eqb_spec a b); subst; simpl
  | |- context [decide ?p] => destruct (decide p); simplify_eq; simpl
  | |- context [match ?k with SPZ_DEBUG_SLOT_ZERO => _ | _ => _ end] => is_var k; destruct k; simpl
  end; rewrite ?u64_u64, ?u32_u32; try congruence.

#[export] Instance arm64_debug_hw : DebugHw arm64_ops arm64_view.
Proof.
  split.
  - intros m c k i. arm64_read. destruct k; [done| |];
      unfold spz_arm64_read_bvr, spz_arm64_read_wvr; by destruct (slot_case i).
  - intros m c k i. arm64_read. destruct k; [done| |];
      unfold spz_arm64_read_bcr, spz_arm64_read_wcr; by destruct (slot_case i).
  - intros m c. by arm64_read.
  - intros m c k i. arm64_read. destruct oo_owner as (f & -> & Hf & _). apply Hf.
  - intros m c k i v. arm64_write.
    destruct k; [by right| |]; unfold spz_arm64_write_bvr, spz_arm64_write_wvr;
      (destruct (slot_case i); [left|by right]); (split; [done|]); arm64_pointwise.
  - intros m c k i v. arm64_write.
    destruct k; [by right| |]; unfold spz_arm64_write_bcr, spz_arm64_write_wcr;
      (destruct (slot_case i); [left|by right]); (split; [done|]); arm64_pointwise.
  - intros m c v. arm64_write. left. split; [done|]. unfold spz_arm64_write_mdscr. arm64_pointwise.
  - intros m c k i. simpl. destruct k; zlia.
  - intros m c k i. simpl. destruct k; zlia.
  - intros m c. simpl. zlia.
  - intros m c. reflexivity.
Qed.

Lemma has_slot_case kind slot : has_slot arm64_ops kind slot -> slot_case slot = true.
Proof.
  intros [Hk Hs]. destruct oo_counts as [H1 H2]. unfold slot_case.
  assert (slot < 16); [|lia].
  destruct Hk as [-> | ->]; unfold spz_debug_slot_count in Hs; case_bool_decide; cbn in Hs;
    unfold SPZ_DEBUG_MAX_SLOTS in *; lia.
Qed.

#[export] Instance arm64_fault_free : FaultFree arm64_ops me.
Proof.
  split; intros m; cbn [op_read_value op_read_control op_read_mdscr op_read_owner op_write_value
      op_write_control op_write_mdscr arm64_ops];
    unfold spz_arm64_ops_read_value, spz_arm64_ops_read_control, spz_arm64_ops_read_mdscr,
      spz_arm64_ops_read_owner, spz_arm64_ops_write_value, spz_arm64_ops_write_control,
      spz_arm64_ops_write_mdscr; rewrite check_cpu_eq, Z.eqb_refl; cbn [negb Z.eqb];
    try (by try intros v).
  all: intros k i; intros.
  all: match goal with Hs : has_slot _ _ _ |- _ => rename Hs into Hslot end.
  all: pose proof (has_slot_case _ _ Hslot) as Hc; pose proof Hslot as [[-> | ->] _];
    unfold spz_arm64_read_bvr, spz_arm64_read_wvr, spz_arm64_read_bcr, spz_arm64_read_wcr,
      spz_arm64_write_bvr, spz_arm64_write_wvr, spz_arm64_write_bcr, spz_arm64_write_wcr; rewrite ?Hc; try done;
    destruct oo_owner as (f & -> & _ & Hf); by apply Hf.
Qed.

End arm64.

(** ** A concrete machine *)

Definition idle_regs : sysregs :=
  {| sys_bvr := fun _ => 0; sys_bcr := fun _ => 0; sys_wvr := fun _ => 0; sys_wcr := fun _ => 0;
     sys_mdscr := 0; sys_dfr0 := dp_dfr0 plk110_debug; sys_tcr := Z.shiftl 2 30; sys_sp_el0 := 0;
     sys_tpidr_el1 := 0 |}.

Definition idle_machine : machine := fun _ => idle_regs.

Definition demo_owners : spz_arm64_owner_ops :=
  {| ow_brp_count := 6; ow_wrp_count := 4; ow_current_cpu := Some (fun _ => (0, 3));
     ow_read_owner := Some (fun _ _ _ _ => (0, 0)) |}.

#[export] Instance demo_owners_ok : OwnersOk 3 demo_owners (fun _ _ _ => 0).
Proof. split; [done|by eexists|cbn; unfold SPZ_DEBUG_MAX_SLOTS; lia]. Qed.

Definition demo_debug_ops : spz_debug_ops machine := arm64_ops 3 demo_owners.
Definition demo_debug_view : machine -> debug_view := arm64_view (fun _ _ _ => 0).

Definition demo_target : spz_debug_target :=
  {| dt_binding_id := 1; dt_identity := demo_identity <| id_generation := 1 |> |}.

Definition demo_frame : spz_debug_frame :=
  {| df_x := replicate 31 0; df_sp := 0; df_pc := 0; df_pstate := 0; df_esr := SPZ_ESR_WNR;
     df_far := 0x5003; df_kernel_mode := 0 |}.

(** Arm a watchpoint, take a hit, step over it, take another, restore in between. *)
Definition demo_session : list debug_op :=
  [DebugArm (Some demo_watch) demo_target; DebugWatch (Some demo_target) demo_frame;
   DebugStep (Some demo_target) demo_frame; DebugWatch (Some demo_target) demo_frame].

Lemma demo_session_ok : Forall dop_ok demo_session.
Proof. by repeat constructor. Qed.

Example demo_session_states :
  (fun n => ds_state (run_debug demo_debug_ops 3 (take n demo_session) (idle_machine, zero_debug_cpu_state)).2)
    <$> seq 0 5 =
  [SPZ_DEBUG_EMPTY; SPZ_DEBUG_ARMED; SPZ_DEBUG_STEP_PENDING; SPZ_DEBUG_ARMED; SPZ_DEBUG_STEP_PENDING].
Proof. vm_compute. reflexivity. Qed.

Lemma demo_monitor_free : monitor_free demo_debug_ops 3 (demo_debug_view idle_machine).
Proof. right. intros kind slot _. split; [done|]. by destruct kind. Qed.

Lemma session_gives_registers_back_witness :
  let '(h1, s1) := run_debug demo_debug_ops 3 demo_session (idle_machine, zero_debug_cpu_state) in
  let '(r, h2, s2) := restore_cpu demo_debug_ops h1 3 s1 in
  (ds_state s1 <> SPZ_DEBUG_QUARANTINED) /\ (r = 0) /\ (ds_state s2 = SPZ_DEBUG_EMPTY) /\
  (demo_debug_view h2 ≡ demo_debug_view idle_machine).
Proof.
  pose proof (session_gives_registers_back demo_debug_ops demo_debug_view 3 demo_session idle_machine zero_debug_cpu_state
    eq_refl demo_session_ok) as H.
  destruct (run_debug _ _ _ _) as [h1 s1]. destruct (restore_cpu _ _ _ _) as [[r h2] s2].
  destruct H as (_ & _ & H). destruct (H _) as (H1 & H2 & H3 & H4). split_and!; [done..|]. apply H4, demo_monitor_free.
Defined.

Lemma debug_touches_only_its_slot_witness :
  let '(_, h', _) := restore_cpu demo_debug_ops idle_machine 3 zero_debug_cpu_state in
  touches 3 SPZ_DEBUG_SLOT_ZERO 0 (demo_debug_view idle_machine) (demo_debug_view h').
Proof.
  exact (proj1 (proj2 (proj2 (proj2
    (debug_touches_only_its_slot demo_debug_ops demo_debug_view idle_machine 3 zero_debug_cpu_state))))).
Defined.

Lemma arm_failure_is_safe_witness :
  let '(r, h', s') := arm_cpu demo_debug_ops idle_machine 3 zero_debug_cpu_state (Some demo_watch) demo_target in
  (r = 0 /\ ds_state s' = SPZ_DEBUG_ARMED) \/
  (r <> 0 /\ (ds_state s' = SPZ_DEBUG_EMPTY /\ demo_debug_view h' ≡ demo_debug_view idle_machine \/
              ds_state s' = SPZ_DEBUG_QUARANTINED)).
Proof.
  exact (arm_failure_is_safe demo_debug_ops demo_debug_view idle_machine 3 zero_debug_cpu_state (Some demo_watch)
    demo_target eq_refl ltac:(intros req [= <-]; split; discriminate)).
Defined.

(** The armed state on registers that were never programmed: interference. *)
Definition demo_armed : spz_debug_cpu_state :=
  (arm_cpu demo_debug_ops idle_machine 3 zero_debug_cpu_state (Some demo_watch) demo_target).2.

Lemma demo_armed_state : ds_state demo_armed = SPZ_DEBUG_ARMED.
Proof. vm_compute. reflexivity. Qed.

Lemma demo_armed_interference :
  dv_value (demo_debug_view idle_machine) 3 (ds_kind demo_armed) (ds_slot demo_armed) <>
  ds_programmed_value demo_armed.
Proof. vm_compute. discriminate. Qed.

Lemma restore_refuses_interference_witness :
  let '(r, h', s') := restore_cpu demo_debug_ops idle_machine 3 demo_armed in
  r <> 0 /\ h' = idle_machine /\
  (s' = spz_debug_transition SPZ_DEBUG_QUARANTINED demo_armed /\ r = - EUCLEAN \/
   s' = demo_armed /\ spz_debug_live_image demo_debug_ops idle_machine 3 demo_armed = inl r).
Proof.
  exact (restore_refuses_interference demo_debug_ops demo_debug_view idle_machine 3 demo_armed
    ltac:(rewrite demo_armed_state; discriminate) ltac:(rewrite demo_armed_state; discriminate)
    (or_intror (or_introl demo_armed_interference))).
Defined.

Definition demo_quarantined : spz_debug_cpu_state :=
  spz_debug_transition SPZ_DEBUG_QUARANTINED zero_debug_cpu_state.

Lemma quarantine_is_final_witness :
  arm_cpu demo_debug_ops idle_machine 3 demo_quarantined (Some demo_watch) demo_target
    = (- EBUSY, idle_machine, demo_quarantined) /\
  restore_cpu demo_debug_ops idle_machine 3 demo_quarantined = (- EUCLEAN, idle_machine, demo_quarantined) /\
  break_cpu demo_debug_ops idle_machine 3 demo_quarantined (Some demo_target) demo_frame zero_event
    = (SPZ_DEBUG_NOT_OWNED, idle_machine, demo_quarantined, demo_frame, zero_event) /\
  watch_cpu demo_debug_ops idle_machine 3 demo_quarantined (Some demo_target) demo_frame zero_event
    = (SPZ_DEBUG_NOT_OWNED, idle_machine, demo_quarantined, demo_frame, zero_event) /\
  step_cpu demo_debug_ops idle_machine 3 demo_quarantined (Some demo_target) demo_frame
    = (SPZ_DEBUG_NOT_OWNED, idle_machine, demo_quarantined, demo_frame).
Proof.
  exact (quarantine_is_final demo_debug_ops idle_machine 3 demo_quarantined (Some demo_watch) demo_target
    (Some demo_target) demo_frame zero_event eq_refl).
Defined.

(** ** The build for other architectures *)

Module Host.

Definition refuse (index : Z) : Z := if SPZ_DEBUG_MAX_SLOTS <=? index then - ERANGE else - EOPNOTSUPP.

Definition spz_arm64_read_bvr (m : machine) (index : Z) : Z * Z := (refuse index, 0).
Definition spz_arm64_write_bvr (m : machine) (index value : Z) : Z * machine := (refuse index, m).
Definition spz_arm64_read_bcr (m : machine) (index : Z) : Z * Z := (refuse index, 0).
Definition spz_arm64_write_bcr (m : machine) (index value : Z) : Z * machine := (refuse index, m).
Definition spz_arm64_read_wvr (m : machine) (index : Z) : Z * Z := (refuse index, 0).
Definition spz_arm64_write_wvr (m : machine) (index value : Z) : Z * machine := (refuse index, m).
Definition spz_arm64_read_wcr (m : machine) (index : Z) : Z * Z := (refuse index, 0).
Definition spz_arm64_write_wcr (m : machine) (index value : Z) : Z * machine := (refuse index, m).
Definition spz_arm64_read_dfr0 (m : machine) : Z := 0.
Definition spz_arm64_page_size (m : machine) : Z := 0.
Definition spz_arm64_num_brps (m : machine) : Z := 0.
Definition spz_arm64_num_wrps (m : machine) : Z := 0.
Definition spz_arm64_read_mdscr (m : machine) : Z * Z := (- EOPNOTSUPP, 0).
Definition spz_arm64_write_mdscr (m : machine) (value : Z) : Z * machine := (- EOPNOTSUPP, m).
Definition spz_arm64_current_task (m : machine) : Z := 0.
Definition spz_arm64_current_cpu_offset (m : machine) : Z := 0.
Definition spz_arm64_barrier (m : machine) : machine := m.

(** The host build can never be taken for a supported device: the page size it
    reports is one no consistent profile has, so every validation is refused. *)
Lemma host_page_size_rejected profile m :
  spz_profile_bounds_valid profile = true -> spz_arm64_page_size m <> kp_page_size (profile_kernel profile).
Proof.
  intros Hb Hp. pose proof (pb_page _ (bounds_valid_spec _ Hb)) as Hin. rewrite <- Hp in Hin.
  unfold spz_arm64_page_size in Hin. by rewrite !elem_of_cons, elem_of_nil in Hin; lia.
Qed.
End Host.
