(* ===== verification/Command.v ===== *)
(** * The command language (kpm/core/command.c)

    A control request is one line of printable text, [verb key=value ...]. It is
    cut at single spaces in place, its fields are parsed by name in any order, and
    the command it denotes is handed to the control component. *)

From S2P Require Import Prelude Abi DeviceProfiles Profile Task Debug DebugEncode.

Definition SPZ_MAX_TOKENS : nat := 8.

(** ** Commands (kpm/include/stackplz/core.h) *)

Inductive spz_command_kind :=
  SPZ_COMMAND_INVALID | SPZ_COMMAND_STATUS | SPZ_COMMAND_PROFILE | SPZ_COMMAND_BIND | SPZ_COMMAND_BREAK
| SPZ_COMMAND_ENABLE | SPZ_COMMAND_DISABLE | SPZ_COMMAND_CLEAR | SPZ_COMMAND_POLL | SPZ_COMMAND_AUDIT
| SPZ_COMMAND_MAPS | SPZ_COMMAND_MAPS_READ.

#[export] Instance spz_command_kind_eq : EqDecision spz_command_kind.
Proof. solve_decision. Defined.

Record spz_bind_command := {
  bc_pid : Z;
  bc_mode : spz_bind_mode;
  bc_uid : Z;
  bc_start_boot_time : Z;
  bc_comm : list Z;
  bc_has_uid : Z;
  bc_has_comm : Z;
  bc_has_start_boot_time : Z;
}.

Record spz_break_command := {
  kc_id : Z;
  kc_kind : spz_break_kind;
  kc_address : Z;
  kc_length : Z;
  kc_mode : spz_break_mode;
}.

Record spz_id_command := { ic_id : Z }.

Record spz_poll_command := {
  pc_after : Z;
  pc_has_after : Z;
}.

Record spz_maps_read_command := {
  mc_snapshot : Z;
  mc_offset : Z;
}.

(** The union: the member last written, all of it zero at first. *)
Inductive spz_command_value :=
| value_zero
| value_bind (bind : spz_bind_command)
| value_breakpoint (breakpoint : spz_break_command)
| value_id (id : spz_id_command)
| value_poll (poll : spz_poll_command)
| value_maps_read (maps_read : spz_maps_read_command).

Record spz_command := {
  cm_kind : spz_command_kind;
  cm_value : spz_command_value;
}.

#[export] Instance spz_bind_command_shape : Shape spz_bind_command :=
  shape! Build_spz_bind_command < bc_pid ; bc_mode ; bc_uid ; bc_start_boot_time ; bc_comm ; bc_has_uid ;
    bc_has_comm ; bc_has_start_boot_time >.
#[export] Instance spz_break_command_shape : Shape spz_break_command :=
  shape! Build_spz_break_command < kc_id ; kc_kind ; kc_address ; kc_length ; kc_mode >.
#[export] Instance spz_maps_read_command_shape : Shape spz_maps_read_command :=
  shape! Build_spz_maps_read_command < mc_snapshot ; mc_offset >.

Definition zero_bind : spz_bind_command :=
  {| bc_pid := 0; bc_mode := SPZ_BIND_INVALID; bc_uid := 0; bc_start_boot_time := 0;
     bc_comm := replicate SPZ_COMM_LEN 0; bc_has_uid := 0; bc_has_comm := 0; bc_has_start_boot_time := 0 |}.
Definition zero_break : spz_break_command :=
  {| kc_id := 0; kc_kind := SPZ_BREAK_INVALID; kc_address := 0; kc_length := 0;
     kc_mode := SPZ_BREAK_MODE_INVALID |}.
Definition zero_poll : spz_poll_command := {| pc_after := 0; pc_has_after := 0 |}.
Definition zero_maps_read : spz_maps_read_command := {| mc_snapshot := 0; mc_offset := 0 |}.
Definition zero_command : spz_command := {| cm_kind := SPZ_COMMAND_INVALID; cm_value := value_zero |}.

(** ** Tokens

    [spz_token] locates a token in the line; the parsers read only its bytes, so
    they take those: a [token] is the [length] bytes at [data]. *)

Record spz_token := {
  tk_data : nat;
  tk_length : nat;
}.

Abbreviation token := (list Z).

Definition token_bytes (input : list Z) (t : spz_token) : token :=
  take (tk_length t) (drop (tk_data t) input).

Definition spz_token_equals (t : token) (literal : String.string) : bool := bool_decide (t = str literal).

#[global] Arguments spz_token_equals t literal%_string_scope.

(** ** Numbers *)

(** [byte < '0' || byte > '9'], negated, and the digit. *)
Definition decimal_digit (byte : Z) : option Z :=
  if (byte <? 48) || (57 <? byte) then None else Some (byte - 48).

Definition hex_digit (byte : Z) : option Z :=
  if (48 <=? byte) && (byte <=? 57) then Some (byte - 48)
  else if (97 <=? byte) && (byte <=? 102) then Some (byte - 97 + 10)
  else if (65 <=? byte) && (byte <=? 70) then Some (byte - 65 + 10)
  else None.

(** The loop over the digits, shared by the two bases. *)
Fixpoint digits_loop (digit : Z -> option Z) (base : Z) (bytes : token) (value : Z) : Z + Z :=
  match bytes with
  | [] => inr value
  | byte :: bytes =>
      match digit byte with
      | None => inl (- EINVAL)
      | Some d =>
          if (UINT64_MAX - d) / base <? value then inl (- ERANGE)
          else digits_loop digit base bytes (u64 (value * base + d))
      end
  end.

Definition spz_parse_u64_decimal (t : token) : Z + Z :=
  if bool_decide (length t = 0%nat) then inl (- EINVAL) else digits_loop decimal_digit 10 t 0.

Definition spz_parse_u32_decimal (t : token) : Z + Z :=
  match spz_parse_u64_decimal t with
  | inl result => inl result
  | inr value => if UINT32_MAX <? value then inl (- ERANGE) else inr (u32 value)
  end.

Definition spz_parse_u8_decimal (t : token) : Z + Z :=
  match spz_parse_u64_decimal t with
  | inl result => inl result
  | inr value => if UINT8_MAX <? value then inl (- ERANGE) else inr (u8 value)
  end.

Definition spz_parse_u64_hex (t : token) : Z + Z :=
  match t with
  | b0 :: b1 :: ((_ :: _) as digits) =>
      if negb (b0 =? 48) || negb (b1 =? 120) then inl (- EINVAL)
      else digits_loop hex_digit 16 digits 0
  | _ => inl (- EINVAL)
  end.

(** ** Names and fields *)

Fixpoint comm_loop (bytes : token) : bool :=
  match bytes with
  | [] => true
  | byte :: bytes => if safe_comm_byte byte then comm_loop bytes else false
  end.

Definition spz_safe_comm (value : token) : bool :=
  if bool_decide (length value = 0%nat) || bool_decide (SPZ_COMM_LEN <= length value)%nat then false
  else comm_loop value.

(** The position of the only ['='] from [index] on, [None] for -EINVAL; [total]
    stands for "none yet", as in the code. *)
Fixpoint separator_loop (bytes : token) (index total separator : nat) : option nat :=
  match bytes with
  | [] => Some separator
  | byte :: bytes =>
      if negb (byte =? 61) then separator_loop bytes (S index) total separator
      else if negb (bool_decide (separator = total)) then None
      else separator_loop bytes (S index) total index
  end.

Definition spz_split_key_value (t : token) : Z + (token * token) :=
  match separator_loop t 0 (length t) (length t) with
  | None => inl (- EINVAL)
  | Some separator =>
      if bool_decide (separator = 0%nat) || bool_decide (length t <= separator + 1)%nat then inl (- EINVAL)
      else inr (take separator t, take (length t - separator - 1) (drop (separator + 1) t))
  end.

(** ** Cutting the line

    The tokens found, with the line in which the spaces behind them are now NUL. *)

Fixpoint tokenize_loop (steps : nat) (index start : nat) (tokens : list spz_token) (input : list Z)
  : (Z + (list spz_token * nat)) * list Z :=
  match steps with
  | O => (inr (tokens, start), input)
  | S steps =>
      let byte := input !!! index in
      if (byte <? 32) || (126 <? byte) then (inl (- EINVAL), input)
      else if negb (byte =? 32) then tokenize_loop steps (S index) start tokens input
      else if bool_decide (index = start) then (inl (- EINVAL), input)
      else if bool_decide (SPZ_MAX_TOKENS <= length tokens)%nat then (inl (- E2BIG), input)
      else tokenize_loop steps (S index) (S index)
             (tokens ++ [{| tk_data := start; tk_length := (index - start)%nat |}]) (<[index := 0]> input)
  end.

Definition spz_tokenize (input : list Z) (length : nat) : (Z + list spz_token) * list Z :=
  if (input !!! 0%nat =? 32) || (input !!! (length - 1)%nat =? 32) then (inl (- EINVAL), input)
  else
    let '(result, input) := tokenize_loop length 0 0 [] input in
    (match result with
     | inl result => inl result
     | inr (tokens, start) =>
         if bool_decide (SPZ_MAX_TOKENS <= List.length tokens)%nat then inl (- E2BIG)
         else inr (tokens ++ [{| tk_data := start; tk_length := (length - start)%nat |}])
     end, input).

(** ** The verbs

    A parser gives the command or the error; [tokens] has the verb first. *)

Definition spz_parse_no_args (count : nat) (kind : spz_command_kind) (out : spz_command) : Z + spz_command :=
  if bool_decide (count <> 1%nat) then inl (- EINVAL)
  else inr {| cm_kind := kind; cm_value := cm_value out |}.

(** The loop over the [key=value] tokens of bind, break and maps-read. [field]
    is the chain of comparisons of the key: the bit of the field, the result of
    parsing its value and the record it leaves; [None] for an unknown key. *)
Section fields.
Context {A : Type} (field : token -> token -> A -> option (Z * Z * A)).

Fixpoint fields_loop (tokens : list token) (seen : Z) (out : A) : Z + (Z * A) :=
  match tokens with
  | [] => inr (seen, out)
  | t :: tokens =>
      match spz_split_key_value t with
      | inl result => inl result
      | inr (key, value) =>
          match field key value out with
          | None => inl (- EINVAL)
          | Some (bit, result, out) =>
              if negb (Z.land seen bit =? 0) then inl (- EINVAL)
              else if negb (result =? 0) then inl result
              else fields_loop tokens (Z.lor seen bit) out
          end
      end
  end.
End fields.

Definition SPZ_BIND_SEEN_PID : Z := Z.shiftl 1 0.
Definition SPZ_BIND_SEEN_MODE : Z := Z.shiftl 1 1.
Definition SPZ_BIND_SEEN_UID : Z := Z.shiftl 1 2.
Definition SPZ_BIND_SEEN_COMM : Z := Z.shiftl 1 3.
Definition SPZ_BIND_SEEN_START : Z := Z.shiftl 1 4.

Definition bind_field (key value : token) (out : spz_bind_command) : option (Z * Z * spz_bind_command) :=
  if spz_token_equals key "pid" then
    Some (match spz_parse_u32_decimal value with
          | inl result => (SPZ_BIND_SEEN_PID, result, out)
          | inr pid => (SPZ_BIND_SEEN_PID, (if pid =? 0 then - EINVAL else 0), out <| bc_pid := pid |>)
          end)
  else if spz_token_equals key "mode" then
    Some (if spz_token_equals value "pid" then (SPZ_BIND_SEEN_MODE, 0, out <| bc_mode := SPZ_BIND_PID |>)
          else if spz_token_equals value "tgid" then (SPZ_BIND_SEEN_MODE, 0, out <| bc_mode := SPZ_BIND_TGID |>)
          else if spz_token_equals value "either" then (SPZ_BIND_SEEN_MODE, 0, out <| bc_mode := SPZ_BIND_EITHER |>)
          else (SPZ_BIND_SEEN_MODE, - EINVAL, out))
  else if spz_token_equals key "uid" then
    Some (match spz_parse_u32_decimal value with
          | inl result => (SPZ_BIND_SEEN_UID, result, out)
          | inr uid => (SPZ_BIND_SEEN_UID, 0, out <| bc_uid := uid |> <| bc_has_uid := 1 |>)
          end)
  else if spz_token_equals key "comm" then
    Some (if negb (spz_safe_comm value) then (SPZ_BIND_SEEN_COMM, - EINVAL, out)
          else (SPZ_BIND_SEEN_COMM, 0,
                out <| bc_comm := <[length value := 0]> (value ++ drop (length value) (bc_comm out)) |>
                    <| bc_has_comm := 1 |>))
  else if spz_token_equals key "start" then
    Some (match spz_parse_u64_decimal value with
          | inl result => (SPZ_BIND_SEEN_START, result, out)
          | inr start => (SPZ_BIND_SEEN_START, 0, out <| bc_start_boot_time := start |> <| bc_has_start_boot_time := 1 |>)
          end)
  else None.

Definition spz_parse_bind (tokens : list token) : Z + spz_command :=
  let count := length tokens in
  if bool_decide (count < 3)%nat || bool_decide (6 < count)%nat then inl (- EINVAL)
  else
    match fields_loop bind_field (drop 1 tokens) 0 zero_bind with
    | inl result => inl result
    | inr (seen, out) =>
        if negb (Z.land seen (Z.lor SPZ_BIND_SEEN_PID SPZ_BIND_SEEN_MODE) =? Z.lor SPZ_BIND_SEEN_PID SPZ_BIND_SEEN_MODE)
        then inl (- EINVAL)
        else inr {| cm_kind := SPZ_COMMAND_BIND; cm_value := value_bind out |}
    end.

Definition SPZ_BREAK_SEEN_ID : Z := Z.shiftl 1 0.
Definition SPZ_BREAK_SEEN_KIND : Z := Z.shiftl 1 1.
Definition SPZ_BREAK_SEEN_ADDRESS : Z := Z.shiftl 1 2.
Definition SPZ_BREAK_SEEN_LENGTH : Z := Z.shiftl 1 3.
Definition SPZ_BREAK_SEEN_MODE : Z := Z.shiftl 1 4.
Definition break_required : Z :=
  Z.lor (Z.lor (Z.lor (Z.lor SPZ_BREAK_SEEN_ID SPZ_BREAK_SEEN_KIND) SPZ_BREAK_SEEN_ADDRESS)
    SPZ_BREAK_SEEN_LENGTH) SPZ_BREAK_SEEN_MODE.

Definition break_field (key value : token) (out : spz_break_command) : option (Z * Z * spz_break_command) :=
  if spz_token_equals key "id" then
    Some (match spz_parse_u32_decimal value with
          | inl result => (SPZ_BREAK_SEEN_ID, result, out)
          | inr id => (SPZ_BREAK_SEEN_ID, (if id =? 0 then - EINVAL else 0), out <| kc_id := id |>)
          end)
  else if spz_token_equals key "kind" then
    Some (if spz_token_equals value "x" then (SPZ_BREAK_SEEN_KIND, 0, out <| kc_kind := SPZ_BREAK_EXECUTE |>)
          else if spz_token_equals value "r" then (SPZ_BREAK_SEEN_KIND, 0, out <| kc_kind := SPZ_BREAK_READ |>)
          else if spz_token_equals value "w" then (SPZ_BREAK_SEEN_KIND, 0, out <| kc_kind := SPZ_BREAK_WRITE |>)
          else if spz_token_equals value "rw" then (SPZ_BREAK_SEEN_KIND, 0, out <| kc_kind := SPZ_BREAK_READ_WRITE |>)
          else (SPZ_BREAK_SEEN_KIND, - EINVAL, out))
  else if spz_token_equals key "addr" then
    Some (match spz_parse_u64_hex value with
          | inl result => (SPZ_BREAK_SEEN_ADDRESS, result, out)
          | inr address => (SPZ_BREAK_SEEN_ADDRESS, 0, out <| kc_address := address |>)
          end)
  else if spz_token_equals key "len" then
    Some (match spz_parse_u8_decimal value with
          | inl result => (SPZ_BREAK_SEEN_LENGTH, result, out)
          | inr length => (SPZ_BREAK_SEEN_LENGTH, 0, out <| kc_length := length |>)
          end)
  else if spz_token_equals key "mode" then
    Some (if spz_token_equals value "once" then (SPZ_BREAK_SEEN_MODE, 0, out <| kc_mode := SPZ_BREAK_ONCE |>)
          else if spz_token_equals value "repeat" then (SPZ_BREAK_SEEN_MODE, 0, out <| kc_mode := SPZ_BREAK_REPEAT |>)
          else (SPZ_BREAK_SEEN_MODE, - EINVAL, out))
  else None.

(** The checks on the whole request, after the fields. *)
Definition break_request_ok (out : spz_break_command) : bool :=
  let address := kc_address out in
  let length := kc_length out in
  if (address =? 0) || negb (Z.shiftr address 56 =? 0) then false
  else if bool_decide (kc_kind out = SPZ_BREAK_EXECUTE) then
    (length =? 4) && (Z.land address 3 =? 0)
  else if negb (length =? 1) && negb (length =? 2) && negb (length =? 4) && negb (length =? 8) then false
  else
    let end_ := u64 (u64 (address + length) - 1) in
    negb ((end_ <? address) || negb (Z.shiftr address 3 =? Z.shiftr end_ 3)).

Definition spz_parse_break (tokens : list token) : Z + spz_command :=
  if bool_decide (length tokens <> 6%nat) then inl (- EINVAL)
  else
    match fields_loop break_field (drop 1 tokens) 0 zero_break with
    | inl result => inl result
    | inr (seen, out) =>
        if negb (seen =? break_required) then inl (- EINVAL)
        else if negb (break_request_ok out) then inl (- EINVAL)
        else inr {| cm_kind := SPZ_COMMAND_BREAK; cm_value := value_breakpoint out |}
    end.

Definition spz_parse_id (tokens : list token) (kind : spz_command_kind) : Z + spz_command :=
  match tokens with
  | [_; t] =>
      match spz_split_key_value t with
      | inl _ => inl (- EINVAL)
      | inr (key, value) =>
          if negb (spz_token_equals key "id") then inl (- EINVAL)
          else
            match spz_parse_u32_decimal value with
            | inl result => inl result
            | inr id =>
                if id =? 0 then inl (- EINVAL)
                else inr {| cm_kind := kind; cm_value := value_id {| ic_id := id |} |}
            end
      end
  | _ => inl (- EINVAL)
  end.

Definition spz_parse_poll (tokens : list token) : Z + spz_command :=
  match tokens with
  | [_] => inr {| cm_kind := SPZ_COMMAND_POLL; cm_value := value_zero |}
  | [_; t] =>
      match spz_split_key_value t with
      | inl _ => inl (- EINVAL)
      | inr (key, value) =>
          if negb (spz_token_equals key "after") then inl (- EINVAL)
          else
            match spz_parse_u64_decimal value with
            | inl result => inl result
            | inr after =>
                inr {| cm_kind := SPZ_COMMAND_POLL;
                       cm_value := value_poll {| pc_after := after; pc_has_after := 1 |} |}
            end
      end
  | _ => inl (- EINVAL)
  end.

Definition SPZ_MAPS_READ_SEEN_SNAPSHOT : Z := Z.shiftl 1 0.
Definition SPZ_MAPS_READ_SEEN_OFFSET : Z := Z.shiftl 1 1.

Definition maps_read_field (key value : token) (out : spz_maps_read_command)
  : option (Z * Z * spz_maps_read_command) :=
  if spz_token_equals key "snapshot" then
    Some (match spz_parse_u64_decimal value with
          | inl result => (SPZ_MAPS_READ_SEEN_SNAPSHOT, result, out)
          | inr snapshot =>
              (SPZ_MAPS_READ_SEEN_SNAPSHOT, (if snapshot =? 0 then - EINVAL else 0), out <| mc_snapshot := snapshot |>)
          end)
  else if spz_token_equals key "offset" then
    Some (match spz_parse_u32_decimal value with
          | inl result => (SPZ_MAPS_READ_SEEN_OFFSET, result, out)
          | inr offset => (SPZ_MAPS_READ_SEEN_OFFSET, 0, out <| mc_offset := offset |>)
          end)
  else None.

Definition spz_parse_maps_read (tokens : list token) : Z + spz_command :=
  if bool_decide (length tokens <> 3%nat) then inl (- EINVAL)
  else
    match fields_loop maps_read_field (drop 1 tokens) 0 zero_maps_read with
    | inl result => inl result
    | inr (seen, out) =>
        if seen =? Z.lor SPZ_MAPS_READ_SEEN_SNAPSHOT SPZ_MAPS_READ_SEEN_OFFSET
        then inr {| cm_kind := SPZ_COMMAND_MAPS_READ; cm_value := value_maps_read out |}
        else inl (- EINVAL)
    end.

(** The chain of verbs. *)
Definition parse_verb (tokens : list token) : Z + spz_command :=
  let verb := tokens !!! 0%nat in
  let count := length tokens in
  if spz_token_equals verb "status" then spz_parse_no_args count SPZ_COMMAND_STATUS zero_command
  else if spz_token_equals verb "profile" then spz_parse_no_args count SPZ_COMMAND_PROFILE zero_command
  else if spz_token_equals verb "bind" then spz_parse_bind tokens
  else if spz_token_equals verb "break" then spz_parse_break tokens
  else if spz_token_equals verb "enable" then spz_parse_id tokens SPZ_COMMAND_ENABLE
  else if spz_token_equals verb "disable" then spz_parse_id tokens SPZ_COMMAND_DISABLE
  else if spz_token_equals verb "clear" then spz_parse_no_args count SPZ_COMMAND_CLEAR zero_command
  else if spz_token_equals verb "poll" then spz_parse_poll tokens
  else if spz_token_equals verb "audit" then spz_parse_no_args count SPZ_COMMAND_AUDIT zero_command
  else if spz_token_equals verb "maps" then spz_parse_no_args count SPZ_COMMAND_MAPS zero_command
  else if spz_token_equals verb "maps-read" then spz_parse_maps_read tokens
  else inl (- EINVAL).

(** The result code, the line as it is left and what [*out] holds; [None] for a
    NULL [input] or [out]. *)
Definition spz_parse_command (input : option (list Z)) (length : nat) (out : option spz_command)
  : Z * option (list Z) * option spz_command :=
  match input, out with
  | Some line, Some _ =>
      if bool_decide (length = 0%nat) then (- EINVAL, input, out)
      else if bool_decide (SPZ_MAX_COMMAND < length)%nat then (- E2BIG, input, Some zero_command)
      else
        let '(result, line) := spz_tokenize line length in
        match result with
        | inl result => (result, Some line, Some zero_command)
        | inr tokens =>
            match parse_verb (map (token_bytes line) tokens) with
            | inl result => (result, Some line, Some zero_command)
            | inr parsed => (0, Some line, Some parsed)
            end
        end
  | _, _ => (- EINVAL, input, out)
  end.
