(* ===== verification/CommandNumbers.v ===== *)
(** * The number parsers of the command language

    [spz_parse_u64_decimal] and [spz_parse_u64_hex] of kpm/core/command.c against
    the value of a digit string, with the exact reason of every refusal. *)

From S2P Require Import Prelude Abi DeviceProfiles Profile Task Debug DebugEncode Command.

(** A digit reader for [base]: what it returns is below the base. *)
Class DigitReader (digit : Z -> option Z) (base : Z) := {
  base_range : 2 <= base <= 256;
  digit_range byte d : digit byte = Some d -> 0 <= d < base;
}.

#[export] Instance decimal_reader : DigitReader decimal_digit 10.
Proof. split; [lia|]. intros byte d. unfold decimal_digit. case_match eqn:E; [done|]. intros [= <-]. lia. Qed.

#[export] Instance hex_reader : DigitReader hex_digit 16.
Proof. split; [lia|]. intros byte d. unfold hex_digit. repeat case_match; intros ?; simplify_eq; lia. Qed.

Section digits.
Context (digit : Z -> option Z) (base : Z) {reader : DigitReader digit base}.

Definition is_digit (byte : Z) : Prop := is_Some (digit byte).

(** The number a digit string denotes, most significant digit first. *)
Fixpoint number_from (acc : Z) (bytes : list Z) : Z :=
  match bytes with
  | [] => acc
  | byte :: bytes => number_from (acc * base + default 0 (digit byte)) bytes
  end.

Definition number (bytes : list Z) : Z := number_from 0 bytes.

Lemma number_from_app acc bs1 bs2 : number_from acc (bs1 ++ bs2) = number_from (number_from acc bs1) bs2.
Proof. revert acc. induction bs1 as [|b bs1 IH]; intros acc; [done|]. apply IH. Qed.

Lemma number_snoc bs b : number (bs ++ [b]) = number bs * base + default 0 (digit b).
Proof. unfold number. by rewrite number_from_app. Qed.

Lemma default_digit_range byte : 0 <= default 0 (digit byte) < base.
Proof.
  pose proof base_range. destruct (digit byte) eqn:E; simpl; [|lia]. by eapply digit_range.
Qed.

Lemma number_from_le acc bs : 0 <= acc -> acc <= number_from acc bs.
Proof.
  revert acc. induction bs as [|b bs IH]; intros acc Hacc; simpl; [lia|].
  pose proof (default_digit_range b). pose proof base_range.
  etrans; [|apply IH; nia]. nia.
Qed.

(** Why a digit string is refused, with [acc] already read. *)
Definition refused (acc : Z) (bytes : list Z) (result : Z) : Prop :=
  (result = - ERANGE /\ exists p s, bytes = p ++ s /\ Forall is_digit p /\ UINT64_MAX < number_from acc p) \/
  (result = - EINVAL /\ exists p b s, bytes = p ++ b :: s /\ Forall is_digit p /\ ~ is_digit b /\
    number_from acc p <= UINT64_MAX).

Lemma overflow_guard value d :
  0 <= value -> 0 <= d < base -> ((UINT64_MAX - d) / base <? value) = (UINT64_MAX <? value * base + d).
Proof.
  pose proof base_range. intros Hv Hd. apply Bool.eq_iff_eq_true. rewrite !Z.ltb_lt.
  pose proof (Z.div_mod (UINT64_MAX - d) base ltac:(lia)).
  pose proof (Z.mod_pos_bound (UINT64_MAX - d) base ltac:(lia)). nia.
Qed.

Lemma digits_loop_spec bs acc :
  0 <= acc <= UINT64_MAX ->
  match digits_loop digit base bs acc with
  | inr value => Forall is_digit bs /\ value = number_from acc bs /\ value <= UINT64_MAX
  | inl result => refused acc bs result
  end.
Proof.
  revert acc. induction bs as [|b bs IH]; intros acc Hacc; simpl; [split; [constructor|]; lia|].
  destruct (digit b) as [d|] eqn:Hb.
  2:{ right. split; [done|]. exists [], b, bs. unfold is_digit. rewrite Hb.
      split_and!; [done|constructor|by intros []|simpl; lia]. }
  pose proof (digit_range b d Hb) as Hd.
  assert (is_digit b) as Hdig by (unfold is_digit; eauto).
  rewrite overflow_guard by lia. destruct (_ <? _) eqn:Hover.
  - left. split; [done|]. exists [b], bs. split_and!; [done|by repeat constructor|].
    simpl. rewrite Hb. simpl. lia.
  - assert (u64 (acc * base + d) = acc * base + d) as -> by (pose proof base_range; unfold u64, UINT64_MAX in *; rewrite Z.mod_small; nia).
    specialize (IH (acc * base + d) ltac:(pose proof base_range; nia)).
    destruct (digits_loop _ _ _ _).
    + destruct IH as [(-> & p & s & -> & Hp & Hn)|(-> & p & b' & s & -> & Hp & Hb' & Hn)].
      * left. split; [done|]. exists (b :: p), s. simpl. rewrite Hb. simpl. auto.
      * right. split; [done|]. exists (b :: p), b', s. simpl. rewrite Hb. simpl. auto.
    + destruct IH as (? & -> & ?). split; [by constructor|done].
Qed.

(** The other direction: a digit string in range is read as its value. *)
Lemma digits_loop_accepts bs acc :
  0 <= acc -> Forall is_digit bs -> number_from acc bs <= UINT64_MAX ->
  digits_loop digit base bs acc = inr (number_from acc bs).
Proof.
  intros Hacc Hbs Hle. pose proof (number_from_le acc bs Hacc).
  pose proof (digits_loop_spec bs acc ltac:(lia)) as Hspec.
  destruct (digits_loop digit base bs acc) as [r|v]; [|by destruct Hspec as (_ & -> & _)].
  destruct Hspec as [(_ & p & s & -> & _ & Hn)|(_ & p & b & s & -> & _ & Hb & _)].
  - rewrite number_from_app in Hle. pose proof (number_from_le acc p Hacc).
    pose proof (number_from_le (number_from acc p) s ltac:(lia)). lia.
  - by apply Forall_app in Hbs as [_ [? _]%Forall_cons_1].
Qed.
End digits.

#[global] Arguments is_digit digit byte /.
Abbreviation decimal_number := (number decimal_digit 10).
Abbreviation hex_number := (number hex_digit 16).
Abbreviation is_decimal := (Forall (is_digit decimal_digit)).
Abbreviation is_hexadecimal := (Forall (is_digit hex_digit)).

Lemma parse_u64_decimal_ok t v :
  spz_parse_u64_decimal t = inr v <->
  t <> [] /\ is_decimal t /\ v = decimal_number t /\ v <= UINT64_MAX.
Proof.
  unfold spz_parse_u64_decimal. destruct t as [|b t].
  { split; [done|]. by intros []. }
  rewrite bool_decide_eq_false_2 by done. split.
  - intros H. pose proof (digits_loop_spec decimal_digit 10 (b :: t) 0 ltac:(spz_ints; lia)) as Hs.
    rewrite H in Hs. destruct Hs as (? & -> & ?). done.
  - intros (_ & Hd & -> & Hle). apply digits_loop_accepts; [apply _|lia|done..].
Qed.

Lemma number_nonneg digit base `{!DigitReader digit base} t : 0 <= number digit base t.
Proof. by apply number_from_le. Qed.

(** The narrower parsers: the same, with the range of the width. *)
Lemma parse_narrow_ok max t v :
  0 <= max <= UINT64_MAX ->
  match spz_parse_u64_decimal t with
  | inl result => inl result
  | inr value => if max <? value then inl (- ERANGE) else inr (value mod (max + 1))
  end = inr v <->
  t <> [] /\ is_decimal t /\ v = decimal_number t /\ v <= max.
Proof.
  intros Hmax. pose proof (number_nonneg decimal_digit 10 t).
  pose proof (parse_u64_decimal_ok t) as Hok. destruct (spz_parse_u64_decimal t) as [r|v'].
  - split; [done|]. intros (? & ? & -> & ?). assert (@inl Z Z r = inr (decimal_number t)); [|done].
    apply Hok. split_and!; [done..|lia].
  - destruct (proj1 (Hok v') eq_refl) as (? & ? & -> & ?). case_match eqn:E.
    + split; [done|]. intros (_ & _ & -> & ?). lia.
    + rewrite Z.mod_small by lia.
      split; [intros [= <-]|intros (_ & _ & -> & _)]; [|done]. split_and!; [done..|lia].
Qed.

Lemma parse_u32_decimal_ok t v :
  spz_parse_u32_decimal t = inr v <->
  t <> [] /\ is_decimal t /\ v = decimal_number t /\ v <= UINT32_MAX.
Proof. by apply (parse_narrow_ok UINT32_MAX). Qed.

Lemma parse_u8_decimal_ok t v :
  spz_parse_u8_decimal t = inr v <->
  t <> [] /\ is_decimal t /\ v = decimal_number t /\ v <= UINT8_MAX.
Proof. by apply (parse_narrow_ok UINT8_MAX). Qed.

(** A refusal is one of two codes, in particular not 0. *)
Definition number_error (r : Z) : Prop := r = - EINVAL \/ r = - ERANGE.

Lemma digits_loop_errors digit base bs acc r : digits_loop digit base bs acc = inl r -> number_error r.
Proof.
  unfold number_error. revert acc. induction bs as [|b bs IH]; intros acc; simpl; [done|].
  repeat case_match; naive_solver.
Qed.

Lemma parse_u64_decimal_errors t r : spz_parse_u64_decimal t = inl r -> number_error r.
Proof. unfold spz_parse_u64_decimal. case_match; [intros [= <-]; by left|apply digits_loop_errors]. Qed.

Lemma parse_u32_decimal_errors t r : spz_parse_u32_decimal t = inl r -> number_error r.
Proof.
  unfold spz_parse_u32_decimal. destruct (spz_parse_u64_decimal t) eqn:E.
  - intros [= <-]. by eapply parse_u64_decimal_errors.
  - case_match; [intros [= <-]; by right|done].
Qed.

Lemma parse_u8_decimal_errors t r : spz_parse_u8_decimal t = inl r -> number_error r.
Proof.
  unfold spz_parse_u8_decimal. destruct (spz_parse_u64_decimal t) eqn:E.
  - intros [= <-]. by eapply parse_u64_decimal_errors.
  - case_match; [intros [= <-]; by right|done].
Qed.

Lemma parse_u64_hex_errors t r : spz_parse_u64_hex t = inl r -> number_error r.
Proof.
  unfold spz_parse_u64_hex. destruct t as [|b0 [|b1 [|b t]]]; [intros [= <-]; by left..|].
  case_match; [intros [= <-]; by left|apply digits_loop_errors].
Qed.

#[export] Hint Resolve parse_u64_decimal_errors parse_u32_decimal_errors parse_u8_decimal_errors
  parse_u64_hex_errors : spz.

Lemma parse_u64_hex_ok t v :
  spz_parse_u64_hex t = inr v <->
  exists digits, t = str "0x" ++ digits /\ digits <> [] /\ is_hexadecimal digits /\
    v = hex_number digits /\ v <= UINT64_MAX.
Proof.
  unfold spz_parse_u64_hex. split.
  - destruct t as [|b0 [|b1 [|b t]]]; try done. case_match eqn:E; [done|]. intros H.
    assert (b0 = 48 /\ b1 = 120) as [-> ->] by lia. exists (b :: t).
    pose proof (digits_loop_spec hex_digit 16 (b :: t) 0 ltac:(spz_ints; lia)) as Hs.
    rewrite H in Hs. destruct Hs as (? & -> & ?). done.
  - intros (digits & -> & Hne & Hd & -> & Hle). destruct digits as [|b t]; [done|]. simpl app.
    apply digits_loop_accepts; [apply _|lia|done..].
Qed.

(** The decimal and hexadecimal parsers return exactly the value of their
    digit string; ERANGE is reported when a digit prefix already exceeds 64 bits,
    EINVAL when a byte that is no digit is met before that. *)
Theorem parse_numbers_exact t :
  match spz_parse_u64_decimal t with
  | inr value => t <> [] /\ is_decimal t /\ value = decimal_number t /\ value <= UINT64_MAX
  | inl r => (t = [] /\ r = - EINVAL) \/ refused decimal_digit 10 0 t r
  end /\
  match spz_parse_u64_hex t with
  | inr value => exists digits, t = str "0x" ++ digits /\ digits <> [] /\ is_hexadecimal digits /\
      value = hex_number digits /\ value <= UINT64_MAX
  | inl r =>
      (r = - EINVAL /\ ~ (exists b digits, t = str "0x" ++ b :: digits)) \/
      exists digits, t = str "0x" ++ digits /\ refused hex_digit 16 0 digits r
  end.
Proof.
  split.
  - destruct (spz_parse_u64_decimal t) as [r|v] eqn:E; [|by apply parse_u64_decimal_ok].
    unfold spz_parse_u64_decimal in E. destruct t as [|b t]; [injection E as <-; by left|]. right.
    pose proof (digits_loop_spec decimal_digit 10 (b :: t) 0 ltac:(spz_ints; lia)) as Hs.
    by rewrite bool_decide_eq_false_2, E in * by done.
  - destruct (spz_parse_u64_hex t) as [r|v] eqn:E; [|by apply parse_u64_hex_ok].
    unfold spz_parse_u64_hex in E.
    destruct t as [|b0 [|b1 [|b t]]]; [injection E as <-; left; split; [done|]; by intros (? & ? & ?)..|].
    destruct (negb _ || _) eqn:Hx.
    + injection E as <-. left. split; [done|]. intros (? & ? & [= -> -> _ _]). done.
    + right. exists (b :: t). assert (b0 = 48 /\ b1 = 120) as [-> ->] by lia. split; [done|].
      pose proof (digits_loop_spec hex_digit 16 (b :: t) 0 ltac:(spz_ints; lia)) as Hs. by rewrite E in Hs.
Qed.
