(* ===== verification/CommandSpec.v ===== *)
(** * The language spz_parse_command accepts

    A declarative grammar of command lines and commands, and the proof that
    kpm/core/command.c implements it: a line is accepted exactly when the grammar
    derives it, and the result is the command it denotes. *)

From stdpp Require Import sets.
From S2P Require Import Prelude Abi DeviceProfiles Profile Task Debug DebugEncode Command CommandNumbers.

(** ** key=value *)

Definition equals_sign : Z := 61.

Definition join_field (kv : token * token) : token := kv.1 ++ equals_sign :: kv.2.

(** A key and a value that a token can carry. *)
Definition field_ok (kv : token * token) : Prop :=
  (kv.1 <> []) /\ (kv.2 <> []) /\ (equals_sign ∉ kv.1) /\ (equals_sign ∉ kv.2).

Lemma separator_loop_none bytes rest i total sep :
  equals_sign ∉ bytes ->
  separator_loop (bytes ++ rest) i total sep = separator_loop rest (length bytes + i) total sep.
Proof.
  revert i. induction bytes as [|b bytes IH]; intros i Hb; [done|]. simpl.
  apply not_elem_of_cons in Hb as [Hne Hb].
  rewrite (eqb_ne b 61) by (unfold equals_sign in Hne; done). simpl. rewrite IH by done. f_equal. lia.
Qed.

Lemma separator_loop_second bytes i total sep :
  equals_sign ∈ bytes -> sep <> total -> separator_loop bytes i total sep = None.
Proof.
  intros (l1 & l2 & -> & Hl)%list_elem_of_split_l Hne. rewrite separator_loop_none by done. simpl.
  by rewrite bool_decide_eq_false_2.
Qed.

Lemma separator_loop_only k v :
  equals_sign ∉ k -> equals_sign ∉ v ->
  separator_loop (k ++ equals_sign :: v) 0 (length (k ++ equals_sign :: v)) (length (k ++ equals_sign :: v)) =
  Some (length k).
Proof.
  intros Hk Hv. rewrite separator_loop_none by done. simpl. rewrite bool_decide_eq_true_2 by done. simpl.
  rewrite <- (app_nil_r v) at 1. rewrite separator_loop_none by done. simpl. f_equal. lia.
Qed.

Lemma split_key_value_ok t kv : spz_split_key_value t = inr kv <-> t = join_field kv /\ field_ok kv.
Proof.
  unfold spz_split_key_value, field_ok, join_field. split.
  - intros H. destruct (decide (equals_sign ∈ t)) as [Hin|Hout].
    + apply list_elem_of_split_l in Hin as (k & v & -> & Hk).
      destruct (decide (equals_sign ∈ v)) as [Hv|Hv].
      * rewrite separator_loop_none in H by done. cbn [separator_loop negb Z.eqb Pos.eqb equals_sign] in H.
        rewrite bool_decide_eq_true_2 in H by done. simpl in H.
        rewrite separator_loop_second in H; [done|done|]. rewrite length_app. simpl. lia.
      * rewrite separator_loop_only in H by done. case_match eqn:E; [done|].
        apply orb_false_iff in E as [E1%bool_decide_eq_false E2%bool_decide_eq_false].
        simplify_eq. simpl. rewrite length_app in *. simpl in *.
        rewrite take_app_length, Nat.add_1_r, drop_app_ge by lia.
        replace (S (length k) - length k)%nat with 1%nat by lia. simpl.
        rewrite drop_0, take_ge by lia. split; [done|]. split_and!; [by intros ->|intros ->; simpl in *; lia|done|done].
    + rewrite <- (app_nil_r t) in H at 1. rewrite separator_loop_none in H by done. simpl in H.
      rewrite (bool_decide_eq_true_2 (length t <= length t + 1)%nat), orb_true_r in H by lia. done.
  - destruct kv as [k v]. simpl. intros [-> (Hk & Hv & Hk' & Hv')]. rewrite separator_loop_only by done.
    rewrite length_app. simpl. destruct k as [|b k]; [done|]. destruct v as [|b' v]; [done|].
    rewrite bool_decide_eq_false_2, bool_decide_eq_false_2 by (simpl; lia). simpl orb. cbv iota.
    rewrite take_app_length, Nat.add_1_r, drop_app_ge by lia.
    replace (S (length (b :: k)) - length (b :: k))%nat with 1%nat by lia. simpl drop.
    rewrite take_ge by (simpl; lia). done.
Qed.

Lemma split_key_value_errors t r : spz_split_key_value t = inl r -> r = - EINVAL.
Proof. unfold spz_split_key_value. repeat case_match; naive_solver. Qed.

(** ** Fields by name

    What a verb promises about its chain of key comparisons: [fields_bit] numbers
    the keys, and [fields_spec key value out] says what field [key] of the record
    is when its text is [value], or when it is absent. *)

Class FieldTable {A : Type} (field : token -> token -> A -> option (Z * Z * A)) (zero : A) := {
  fields_index : token -> option nat;
  fields_spec : token -> option token -> A -> Prop;
  fields_index_inj k1 k2 i : fields_index k1 = Some i -> fields_index k2 = Some i -> k1 = k2;
  fields_zero k : fields_spec k None zero;
  fields_known k v out bit result out' :
    field k v out = Some (bit, result, out') -> exists i, fields_index k = Some i /\ bit = 2 ^ Z.of_nat i;
  (** reading one field for the first time sets it, and no other *)
  fields_sound k v out bit out' :
    field k v out = Some (bit, 0, out') -> fields_spec k None out ->
    fields_spec k (Some v) out' /\ (forall k' o, k' <> k -> fields_spec k' o out -> fields_spec k' o out');
  (** a text the specification admits is read *)
  fields_complete k v c i out :
    fields_index k = Some i -> fields_spec k (Some v) c ->
    exists out', field k v out = Some (2 ^ Z.of_nat i, 0, out');
  (** the fields determine the record *)
  fields_unique (text : token -> option token) c1 c2 :
    (forall k, fields_spec k (text k) c1) -> (forall k, fields_spec k (text k) c2) -> c1 = c2;
}.

Fixpoint lookup_field (kvs : list (token * token)) (k : token) : option token :=
  match kvs with
  | [] => None
  | kv :: kvs => if decide (kv.1 = k) then Some kv.2 else lookup_field kvs k
  end.

Lemma lookup_field_in kvs k v :
  NoDup kvs.*1 -> lookup_field kvs k = Some v <-> (k, v) ∈ kvs.
Proof.
  induction kvs as [|[k' v'] kvs IH]; simpl; [set_solver|]. intros [Hk Hnd]%NoDup_cons.
  rewrite elem_of_cons. case_decide as E.
  - subst k'. split; [intros [= ->]; by left|]. intros [[= ->]|Hin]; [done|].
    destruct Hk. apply list_elem_of_fmap. by exists (k, v).
  - rewrite IH by done. split; [by right|]. by intros [[= ? ->]|?].
Qed.

Lemma lookup_field_none kvs k : lookup_field kvs k = None <-> k ∉ kvs.*1.
Proof.
  induction kvs as [|[k' v'] kvs IH]; simpl; [set_solver|]. rewrite not_elem_of_cons.
  case_decide; naive_solver.
Qed.

Lemma lookup_field_perm k kvs1 kvs2 :
  kvs1 ≡ₚ kvs2 -> NoDup kvs1.*1 -> lookup_field kvs1 k = lookup_field kvs2 k.
Proof.
  intros Hp Hnd. apply option_eq. intros v.
  rewrite !lookup_field_in; [by rewrite Hp| |done]. by rewrite <- Hp.
Qed.

Section field_table.
Context {A : Type} (field : token -> token -> A -> option (Z * Z * A)) (zero : A).
Context {table : FieldTable field zero}.

Abbreviation index := (fields_index (FieldTable := table)).
Abbreviation spec := (fields_spec (FieldTable := table)).

(** The bits of the keys read so far. *)
Fixpoint seen_of (kvs : list (token * token)) : Z :=
  match kvs with
  | [] => 0
  | kv :: kvs => Z.lor (seen_of kvs) (2 ^ Z.of_nat (default 0%nat (index kv.1)))
  end.

(** The fields [kvs], each named once, denote the record [out]. *)
Definition record_of (kvs : list (token * token)) (out : A) : Prop :=
  NoDup kvs.*1 /\ Forall field_ok kvs /\ Forall (fun kv => is_Some (index kv.1)) kvs /\
  forall k, spec k (lookup_field kvs k) out.

Lemma land_pow2 x i : 0 <= i -> (Z.land x (2 ^ i) =? 0) = negb (Z.testbit x i).
Proof.
  intros Hi. apply Bool.eq_iff_eq_true. rewrite Z.eqb_eq, negb_true_iff. split.
  - intros H. destruct (Z.testbit x i) eqn:E; [|done].
    assert (Z.testbit (Z.land x (2 ^ i)) i = true) as Hb by (by rewrite Z.land_spec, E, Z.pow2_bits_true).
    by rewrite H, Z.bits_0 in Hb.
  - intros H. apply Z.bits_inj'. intros j Hj. rewrite Z.land_spec, Z.bits_0.
    destruct (decide (i = j)) as [<-|Hne]; [by rewrite H|]. by rewrite Z.pow2_bits_false, andb_false_r.
Qed.

Lemma seen_testbit kvs k i :
  index k = Some i -> Forall (fun kv => is_Some (index kv.1)) kvs ->
  Z.testbit (seen_of kvs) (Z.of_nat i) = bool_decide (k ∈ kvs.*1).
Proof.
  intros Hk. induction 1 as [|[k' v'] kvs [j Hj] _ IH]; simpl; [by rewrite Z.bits_0|]. simpl in Hj.
  rewrite Z.lor_spec, IH, Hj. simpl. destruct (decide (k = k')) as [<-|Hne].
  - simplify_eq. rewrite Z.pow2_bits_true, orb_true_r by lia. symmetry. apply bool_decide_eq_true. set_solver.
  - assert (i <> j) by (intros ->; eauto using fields_index_inj).
    rewrite Z.pow2_bits_false, orb_false_r by lia. apply bool_decide_ext. set_solver.
Qed.

Lemma seen_fresh kvs k i :
  index k = Some i -> Forall (fun kv => is_Some (index kv.1)) kvs ->
  (Z.land (seen_of kvs) (2 ^ Z.of_nat i) =? 0) = bool_decide (k ∉ kvs.*1).
Proof.
  intros Hk Hkvs. rewrite land_pow2, (seen_testbit kvs k) by (done || lia). by rewrite bool_decide_not.
Qed.

#[export] Instance seen_of_perm : Proper ((≡ₚ) ==> eq) seen_of.
Proof.
  induction 1 as [|kv kvs1 kvs2 _ IH|kv1 kv2 kvs|kvs1 kvs2 kvs3 _ IH1 _ IH2]; simpl; [done|by rewrite IH| |congruence].
  by rewrite <- !Z.lor_assoc, (Z.lor_comm (2 ^ _)).
Qed.

#[export] Instance record_of_perm : Proper ((≡ₚ) ==> eq ==> iff) record_of.
Proof.
  assert (forall kvs1 kvs2 out, kvs1 ≡ₚ kvs2 -> record_of kvs1 out -> record_of kvs2 out) as Himp.
  { intros kvs1 kvs2 out Hp (Hnd & Hok & Hix & Hspec).
    split_and!; [by rewrite <- Hp..|]. intros k. rewrite <- (lookup_field_perm k kvs1 kvs2) by done. done. }
  intros kvs1 kvs2 Hp ? out ->. split; by apply Himp.
Qed.

(** One more field. *)
Lemma record_of_step kvs kv bit out out' :
  record_of kvs out -> field_ok kv -> field kv.1 kv.2 out = Some (bit, 0, out') ->
  Z.land (seen_of kvs) bit = 0 ->
  record_of (kv :: kvs) out' /\ Z.lor (seen_of kvs) bit = seen_of (kv :: kvs).
Proof.
  intros (Hnd & Hok & Hix & Hspec) Hkv Hf Hfresh. destruct kv as [k v]; simpl in Hf.
  destruct (fields_known _ _ _ _ _ _ Hf) as (i & Hi & ->).
  assert (k ∉ kvs.*1) as Hk.
  { pose proof (seen_fresh kvs k i Hi Hix) as Hs. rewrite Hfresh in Hs. by apply symmetry, bool_decide_eq_true in Hs. }
  apply lookup_field_none in Hk as Hnone. pose proof (Hspec k) as Hspeck. rewrite Hnone in Hspeck.
  destruct (fields_sound _ _ _ _ _ Hf Hspeck) as [Hset Hother].
  split; [|simpl; by rewrite Hi]. unfold record_of. rewrite fmap_cons. simpl.
  split_and!; [by constructor|by constructor|constructor; [simpl; eauto|done]|].
  intros k'. case_decide; subst; [done|]. by apply Hother.
Qed.

Lemma fields_loop_sound ts kvs0 out seen' out' :
  record_of kvs0 out -> fields_loop field ts (seen_of kvs0) out = inr (seen', out') ->
  exists kvs, ts = map join_field kvs /\ record_of (rev kvs ++ kvs0) out' /\ seen' = seen_of (rev kvs ++ kvs0).
Proof.
  revert kvs0 out. induction ts as [|t ts IH]; intros kvs0 out Hrec; simpl.
  { intros [= <- <-]. by exists []. }
  destruct (spz_split_key_value t) as [|[k v]] eqn:Hsplit; [done|].
  apply split_key_value_ok in Hsplit as [-> Hok].
  destruct (field k v out) as [[[bit result] out1]|] eqn:Hf; [|done].
  destruct (Z.land _ bit =? 0) eqn:Hfresh; [|done]. simpl.
  destruct (result =? 0) eqn:Hr; [|done]. simpl. apply Z.eqb_eq in Hfresh, Hr as ->.
  destruct (record_of_step kvs0 (k, v) bit out out1 Hrec Hok Hf Hfresh) as [Hrec1 ->].
  intros (kvs & -> & ? & ?)%IH; [|done]. exists ((k, v) :: kvs). simpl. rewrite <- app_assoc. done.
Qed.

Lemma fields_loop_complete kvs kvs0 out c :
  record_of kvs0 out -> record_of (rev kvs ++ kvs0) c ->
  fields_loop field (map join_field kvs) (seen_of kvs0) out = inr (seen_of (rev kvs ++ kvs0), c).
Proof.
  revert kvs0 out. induction kvs as [|[k v] kvs IH]; intros kvs0 out Hrec Hc; simpl.
  { do 2 f_equal. eapply fields_unique; [apply Hrec|apply Hc]. }
  simpl in Hc. rewrite <- app_assoc in *. simpl in *.
  assert ((k, v) ∈ rev kvs ++ (k, v) :: kvs0) as Hin by set_solver.
  pose proof Hc as (Hnd & Hok & Hix & Hspec). rewrite !Forall_forall in *.
  pose proof (Hok _ Hin) as Hkv. destruct (Hix _ Hin) as [i Hi]; simpl in Hi.
  rewrite (proj2 (split_key_value_ok _ (k, v)) (conj eq_refl Hkv)).
  pose proof (Hspec k) as Hk. rewrite (proj2 (lookup_field_in _ k v Hnd) Hin) in Hk.
  destruct (fields_complete k v c i out Hi Hk) as [out1 Hf]. rewrite Hf.
  assert (k ∉ kvs0.*1) as Hfresh.
  { rewrite fmap_app, fmap_cons in Hnd. apply NoDup_app in Hnd as (_ & _ & Hnd). by apply NoDup_cons in Hnd as [? _]. }
  pose proof (seen_fresh kvs0 k i Hi (proj1 (proj2 (proj2 Hrec)))) as Hs.
  rewrite bool_decide_eq_true_2 in Hs by done. rewrite Hs. simpl.
  apply Z.eqb_eq in Hs. destruct (record_of_step _ (k, v) _ _ _ Hrec Hkv Hf Hs) as [Hrec1 ->].
  by apply IH.
Qed.

(** The loop reads exactly the field lists that denote a record, in any order. *)
Lemma fields_loop_spec ts seen out :
  fields_loop field ts 0 zero = inr (seen, out) <->
  exists kvs, ts = map join_field kvs /\ record_of kvs out /\ seen = seen_of kvs.
Proof.
  assert (record_of [] zero) as H0 by (split_and!; [constructor..|]; intros; apply fields_zero).
  split.
  - intros (kvs & -> & Hr & ->)%(fields_loop_sound ts [] zero seen out H0).
    exists kvs. rewrite app_nil_r, <- Permutation_rev in Hr.
    split_and!; [done|done|]. by rewrite app_nil_r, <- Permutation_rev.
  - intros (kvs & -> & Hr & ->). etrans; [apply (fields_loop_complete kvs [] zero out H0)|].
    + by rewrite app_nil_r, <- Permutation_rev.
    + by rewrite app_nil_r, <- Permutation_rev.
Qed.
End field_table.
