(* ===== verification/CommandGrammar.v ===== *)
(** * The grammar of the verbs

    What each field of bind, break and maps-read means, as instances of
    [FieldTable], and the grammar of whole commands over their tokens
    (kpm/core/command.c). *)

From stdpp Require Import sets.
From S2P Require Import Prelude Abi DeviceProfiles Profile Task Debug DebugEncode Command CommandNumbers CommandSpec.

(** ** Values *)

Definition denotes_decimal (max : Z) (v : token) (n : Z) : Prop :=
  v <> [] /\ is_decimal v /\ n = decimal_number v /\ n <= max.

Definition denotes_hex (v : token) (n : Z) : Prop :=
  exists digits, v = str "0x" ++ digits /\ digits <> [] /\ is_hexadecimal digits /\
    n = hex_number digits /\ n <= UINT64_MAX.

(** A name of 1 to 15 safe characters, padded with NUL. *)
Definition denotes_comm (v : token) (comm : list Z) : Prop :=
  v <> [] /\ (length v < SPZ_COMM_LEN)%nat /\ Forall (fun b => safe_comm_byte b = true) v /\
  comm = v ++ replicate (SPZ_COMM_LEN - length v) 0.

Lemma denotes_decimal_unique max v n1 n2 : denotes_decimal max v n1 -> denotes_decimal max v n2 -> n1 = n2.
Proof. by intros (_ & _ & -> & _) (_ & _ & -> & _). Qed.

Lemma denotes_hex_unique v n1 n2 : denotes_hex v n1 -> denotes_hex v n2 -> n1 = n2.
Proof. intros (d1 & -> & _ & _ & -> & _) (d2 & E & _ & _ & -> & _). by apply app_inv_head in E as ->. Qed.

Lemma denotes_comm_unique v c1 c2 : denotes_comm v c1 -> denotes_comm v c2 -> c1 = c2.
Proof. by intros (_ & _ & _ & ->) (_ & _ & _ & ->). Qed.

Lemma safe_comm_ok v :
  spz_safe_comm v = true <-> v <> [] /\ (length v < SPZ_COMM_LEN)%nat /\ Forall (fun b => safe_comm_byte b = true) v.
Proof.
  assert (forall v, comm_loop v = true <-> Forall (fun b => safe_comm_byte b = true) v) as Hloop.
  { intros l. induction l as [|b l IH]; simpl; [by split; intros; constructor|]. rewrite Forall_cons.
    destruct (safe_comm_byte b); rewrite ?IH; naive_solver. }
  unfold spz_safe_comm. destruct v as [|b v]; [naive_solver|].
  rewrite bool_decide_eq_false_2 by done. rewrite orb_false_l. rewrite Hloop || idtac.
  case_bool_decide; [split; [done|]; intros (_ & ? & _); lia|]. rewrite Hloop. split; [|naive_solver].
  intros. split_and!; [done|lia|done].
Qed.

(** The copy into a cleared buffer leaves the padded name. *)
Lemma comm_copied v comm :
  v <> [] /\ (length v < SPZ_COMM_LEN)%nat /\ Forall (fun b => safe_comm_byte b = true) v ->
  comm = replicate SPZ_COMM_LEN 0 ->
  denotes_comm v (<[length v := 0]> (v ++ drop (length v) comm)).
Proof.
  intros (? & Hlen & ?) ->. split_and!; [done..|]. rewrite drop_replicate.
  rewrite <- (Nat.add_0_r (length v)) at 1. rewrite insert_app_r. f_equal.
  destruct (SPZ_COMM_LEN - length v)%nat eqn:E; [lia|]. done.
Qed.

(** ** Keys *)

Definition key_index (keys : list token) (k : token) : option nat := fst <$> list_find (fun x => x = k) keys.

Lemma key_index_lookup keys k i : key_index keys k = Some i -> keys !! i = Some k.
Proof. intros ([j x] & Hf & ->)%fmap_Some. by apply list_find_Some in Hf as (? & -> & _). Qed.

Lemma key_index_inj keys k1 k2 i : key_index keys k1 = Some i -> key_index keys k2 = Some i -> k1 = k2.
Proof.
  intros H1%key_index_lookup H2%key_index_lookup. congruence.
Qed.

Definition bind_keys : list token := [str "pid"; str "mode"; str "uid"; str "comm"; str "start"].
Definition break_keys : list token := [str "id"; str "kind"; str "addr"; str "len"; str "mode"].
Definition maps_read_keys : list token := [str "snapshot"; str "offset"].

(** ** What the fields say *)

Definition bind_modes : list (token * spz_bind_mode) :=
  [(str "pid", SPZ_BIND_PID); (str "tgid", SPZ_BIND_TGID); (str "either", SPZ_BIND_EITHER)].

Definition bind_spec (k : token) (text : option token) (c : spz_bind_command) : Prop :=
  (k = str "pid" -> match text with
     | Some v => denotes_decimal UINT32_MAX v (bc_pid c) /\ bc_pid c <> 0
     | None => bc_pid c = 0 end) /\
  (k = str "mode" -> match text with
     | Some v => (v, bc_mode c) ∈ bind_modes
     | None => bc_mode c = SPZ_BIND_INVALID end) /\
  (k = str "uid" -> match text with
     | Some v => denotes_decimal UINT32_MAX v (bc_uid c) /\ bc_has_uid c = 1
     | None => bc_uid c = 0 /\ bc_has_uid c = 0 end) /\
  (k = str "comm" -> match text with
     | Some v => denotes_comm v (bc_comm c) /\ bc_has_comm c = 1
     | None => bc_comm c = replicate SPZ_COMM_LEN 0 /\ bc_has_comm c = 0 end) /\
  (k = str "start" -> match text with
     | Some v => denotes_decimal UINT64_MAX v (bc_start_boot_time c) /\ bc_has_start_boot_time c = 1
     | None => bc_start_boot_time c = 0 /\ bc_has_start_boot_time c = 0 end).

Definition break_kinds : list (token * spz_break_kind) :=
  [(str "x", SPZ_BREAK_EXECUTE); (str "r", SPZ_BREAK_READ); (str "w", SPZ_BREAK_WRITE); (str "rw", SPZ_BREAK_READ_WRITE)].
Definition break_modes : list (token * spz_break_mode) :=
  [(str "once", SPZ_BREAK_ONCE); (str "repeat", SPZ_BREAK_REPEAT)].

Definition break_spec (k : token) (text : option token) (c : spz_break_command) : Prop :=
  (k = str "id" -> match text with
     | Some v => denotes_decimal UINT32_MAX v (kc_id c) /\ kc_id c <> 0
     | None => kc_id c = 0 end) /\
  (k = str "kind" -> match text with
     | Some v => (v, kc_kind c) ∈ break_kinds
     | None => kc_kind c = SPZ_BREAK_INVALID end) /\
  (k = str "addr" -> match text with
     | Some v => denotes_hex v (kc_address c)
     | None => kc_address c = 0 end) /\
  (k = str "len" -> match text with
     | Some v => denotes_decimal UINT8_MAX v (kc_length c)
     | None => kc_length c = 0 end) /\
  (k = str "mode" -> match text with
     | Some v => (v, kc_mode c) ∈ break_modes
     | None => kc_mode c = SPZ_BREAK_MODE_INVALID end).

Definition maps_read_spec (k : token) (text : option token) (c : spz_maps_read_command) : Prop :=
  (k = str "snapshot" -> match text with
     | Some v => denotes_decimal UINT64_MAX v (mc_snapshot c) /\ mc_snapshot c <> 0
     | None => mc_snapshot c = 0 end) /\
  (k = str "offset" -> match text with
     | Some v => denotes_decimal UINT32_MAX v (mc_offset c)
     | None => mc_offset c = 0 end).

(** A table of texts is a function. *)
Lemma table_unique {B : Type} (table : list (token * B)) v x1 x2 :
  NoDup table.*1 -> (v, x1) ∈ table -> (v, x2) ∈ table -> x1 = x2.
Proof.
  intros Hnd. induction table as [|[v' x'] table IH]; [by intros ?%elem_of_nil|].
  apply NoDup_cons in Hnd as [Hv Hnd]. rewrite !elem_of_cons. simpl in Hv.
  assert (forall x, (v', x) ∉ table) as Hout by (intros x Hx; apply Hv, list_elem_of_fmap; by exists (v', x)).
  intros [H1|H1] [H2|H2]; simplify_eq; [done|by destruct (Hout x2)|by destruct (Hout x1)|by apply IH].
Qed.

Lemma bind_modes_nodup : NoDup bind_modes.*1.
Proof. by apply (bool_decide_unpack _). Qed.
Lemma break_kinds_nodup : NoDup break_kinds.*1.
Proof. by apply (bool_decide_unpack _). Qed.
Lemma break_modes_nodup : NoDup break_modes.*1.
Proof. by apply (bool_decide_unpack _). Qed.
#[export] Hint Resolve bind_modes_nodup break_kinds_nodup break_modes_nodup : spz.

(** Case analysis along a chain of comparisons with literals. *)
Ltac token_cases :=
  repeat match goal with
  | H : context [spz_token_equals ?t ?l] |- _ =>
      let E := fresh "Heq" in
      unfold spz_token_equals at 1 in H; destruct (decide (t = str l)) as [E|E];
      [rewrite (bool_decide_eq_true_2 _ E) in H | rewrite (bool_decide_eq_false_2 _ E) in H]; [subst t|]
  end.

Lemma number_error_nonzero r : number_error r -> r <> 0.
Proof. by intros [-> | ->]. Qed.

(** A field whose value is read by one of the number parsers: it succeeded. *)
Ltac parse_case H :=
  match type of H with
  | context [match ?p with inl _ => _ | inr _ => _ end] =>
      let E := fresh "Eparse" in
      destruct p eqn:E;
      [simplify_eq;
       match type of E with _ = inl 0 => exfalso; by apply (number_error_nonzero 0); eauto with spz end|]
  end.

(** The field read is set; the others are as they were. *)
Ltac this_field := split_and!; intros Hkey; try discriminate Hkey.
Ltac other_fields :=
  intros k' o Hne Hspec; hnf in Hspec; repeat match goal with H : _ /\ _ |- _ => destruct H end;
  split_and!; intros Hkey;
  first [exfalso; exact (Hne Hkey) | match goal with H : k' = _ -> _ |- _ => exact (H Hkey) end].

(** The bit of the key that was recognised. *)
Ltac known_field H :=
  token_cases; try discriminate H;
  (eexists; split; [reflexivity|]; repeat case_match; by simplify_eq).

(** The part of a specification about the key at hand. *)
Ltac this_key Hspec :=
  repeat match type of Hspec with
  | (?a = ?a -> _) /\ _ => destruct Hspec as [Hspec _]; specialize (Hspec eq_refl)
  | ?a = ?a -> _ => specialize (Hspec eq_refl)
  | (_ = _ -> _) /\ _ => destruct Hspec as [_ Hspec]
  end.

(** Compare literals. *)
Ltac eval_tokens :=
  repeat match goal with
  | |- context [spz_token_equals (str ?a) ?b] =>
      let r := eval vm_compute in (spz_token_equals (str a) b) in
      change (spz_token_equals (str a) b) with r
  end; cbv iota.

(** The cases of a membership in a table of texts. *)
Ltac table_cases H :=
  repeat (apply elem_of_cons in H as [H|H];
    [let Et := fresh "Et" in let Ev := fresh "Ev" in apply pair_eq in H as [Et Ev]; try subst|]);
  try (by apply elem_of_nil in H).

(** Membership of a literal pair in a table of literals. *)
Ltac in_table := repeat (first [apply list_elem_of_here | apply list_elem_of_further]).

(** The field [key] of two records with the same texts agrees. *)
Ltac fields_agree H1 H2 text key :=
  let A := fresh "A" in let B := fresh "B" in
  pose proof (H1 key) as A; pose proof (H2 key) as B;
  hnf in A, B; this_key A; this_key B;
  destruct (text key);
  repeat match goal with H : _ /\ _ |- _ => destruct H end.

(** Every key of the table, in turn. *)
Ltac key_cases Hi k i :=
  let Hk := fresh "Hk" in
  pose proof (key_index_lookup _ _ _ Hi) as Hk;
  repeat (destruct i as [|i]; [apply Some_inj in Hk; subst k|]); [..|by destruct i].

#[local] Obligation Tactic := idtac.

#[export] Program Instance maps_read_table : FieldTable maps_read_field zero_maps_read := {|
  fields_index := key_index maps_read_keys;
  fields_spec := maps_read_spec;
  fields_index_inj := key_index_inj maps_read_keys;
|}.
Next Obligation. by intros; split_and!. Qed.
Next Obligation.
  intros k v out bit result out' H. unfold maps_read_field in H. known_field H.
Qed.
Next Obligation.
  intros k v out bit out' H Hnone. unfold maps_read_field in H. token_cases; [| |done].
  - parse_case H. case_match eqn:Hz; [done|]. simplify_eq. split; [|other_fields].
    this_field. split; [by apply parse_u64_decimal_ok|]. simpl. lia.
  - parse_case H. simplify_eq. split; [|other_fields]. this_field. by apply parse_u32_decimal_ok.
Qed.
Next Obligation.
  intros k v c i out Hi Hspec. hnf in Hspec. unfold maps_read_field.
  key_cases Hi k i; this_key Hspec; eval_tokens.
  - destruct Hspec as [->%parse_u64_decimal_ok Hz]. rewrite (eqb_ne _ _ Hz). by eexists.
  - apply parse_u32_decimal_ok in Hspec as ->. by eexists.
Qed.
Next Obligation.
  intros text c1 c2 H1 H2.
  assert (mc_snapshot c1 = mc_snapshot c2) as E1
    by (fields_agree H1 H2 text (str "snapshot"); [eauto using denotes_decimal_unique|congruence]).
  assert (mc_offset c1 = mc_offset c2) as E2
    by (fields_agree H1 H2 text (str "offset"); [eauto using denotes_decimal_unique|congruence]).
  destruct c1, c2; simpl in *; congruence.
Qed.

#[export] Program Instance break_table : FieldTable break_field zero_break := {|
  fields_index := key_index break_keys;
  fields_spec := break_spec;
  fields_index_inj := key_index_inj break_keys;
|}.
Next Obligation. by intros; split_and!. Qed.
Next Obligation.
  intros k v out bit result out' H. unfold break_field in H. known_field H.
Qed.
Next Obligation.
  intros k v out bit out' H Hnone. unfold break_field in H.
  token_cases; try done; try parse_case H; try (case_match eqn:Hz; [done|]); simplify_eq;
    (split; [this_field|other_fields]).
  all: try in_table.
  - split; [by apply parse_u32_decimal_ok|]. simpl. lia.
  - by apply parse_u64_hex_ok.
  - by apply parse_u8_decimal_ok.
Qed.
Next Obligation.
  intros k v c i out Hi Hspec. hnf in Hspec. unfold break_field.
  key_cases Hi k i; this_key Hspec; eval_tokens.
  - destruct Hspec as [->%parse_u32_decimal_ok Hz]. rewrite (eqb_ne _ _ Hz). by eexists.
  - table_cases Hspec; eval_tokens; by eexists.
  - apply parse_u64_hex_ok in Hspec as ->. by eexists.
  - apply parse_u8_decimal_ok in Hspec as ->. by eexists.
  - table_cases Hspec; eval_tokens; by eexists.
Qed.
Next Obligation.
  intros text c1 c2 H1 H2.
  assert (kc_id c1 = kc_id c2) as E1
    by (fields_agree H1 H2 text (str "id"); [eauto using denotes_decimal_unique|congruence]).
  assert (kc_kind c1 = kc_kind c2) as E2
    by (fields_agree H1 H2 text (str "kind"); [eauto using table_unique with spz|congruence]).
  assert (kc_address c1 = kc_address c2) as E3
    by (fields_agree H1 H2 text (str "addr"); [eauto using denotes_hex_unique|congruence]).
  assert (kc_length c1 = kc_length c2) as E4
    by (fields_agree H1 H2 text (str "len"); [eauto using denotes_decimal_unique|congruence]).
  assert (kc_mode c1 = kc_mode c2) as E5
    by (fields_agree H1 H2 text (str "mode"); [eauto using table_unique with spz|congruence]).
  destruct c1, c2; simpl in *; congruence.
Qed.

#[export] Program Instance bind_table : FieldTable bind_field zero_bind := {|
  fields_index := key_index bind_keys;
  fields_spec := bind_spec;
  fields_index_inj := key_index_inj bind_keys;
|}.
Next Obligation. by intros; split_and!. Qed.
Next Obligation. intros k v out bit result out' H. unfold bind_field in H. known_field H. Qed.
Next Obligation.
  intros k v out bit out' H Hnone. unfold bind_field in H.
  token_cases; try done; try parse_case H; try (case_match eqn:Hz; [done|]); simplify_eq;
    (split; [this_field|other_fields]).
  all: try in_table.
  - split; [by apply parse_u32_decimal_ok|]. simpl. lia.
  - split; [by apply parse_u32_decimal_ok|done].
  - apply negb_false_iff, safe_comm_ok in Hz. hnf in Hnone. this_key Hnone. destruct Hnone as [Hc _].
    split; [|done]. by apply comm_copied.
  - split; [by apply parse_u64_decimal_ok|done].
Qed.
Next Obligation.
  intros k v c i out Hi Hspec. hnf in Hspec. unfold bind_field.
  key_cases Hi k i; this_key Hspec; eval_tokens.
  - destruct Hspec as [->%parse_u32_decimal_ok Hz]. rewrite (eqb_ne _ _ Hz). by eexists.
  - table_cases Hspec; eval_tokens; by eexists.
  - destruct Hspec as [->%parse_u32_decimal_ok _]. by eexists.
  - destruct Hspec as [(Hne & Hlen & Hsafe & _) _].
    rewrite (proj2 (safe_comm_ok v) (conj Hne (conj Hlen Hsafe))). by eexists.
  - destruct Hspec as [->%parse_u64_decimal_ok _]. by eexists.
Qed.
Next Obligation.
  intros text c1 c2 H1 H2.
  assert (bc_pid c1 = bc_pid c2) as E1
    by (fields_agree H1 H2 text (str "pid"); [eauto using denotes_decimal_unique|congruence]).
  assert (bc_mode c1 = bc_mode c2) as E2
    by (fields_agree H1 H2 text (str "mode"); [eauto using table_unique with spz|congruence]).
  assert (bc_uid c1 = bc_uid c2 /\ bc_has_uid c1 = bc_has_uid c2) as [E3 E4]
    by (fields_agree H1 H2 text (str "uid"); split; [eauto using denotes_decimal_unique|congruence..]).
  assert (bc_comm c1 = bc_comm c2 /\ bc_has_comm c1 = bc_has_comm c2) as [E5 E6]
    by (fields_agree H1 H2 text (str "comm"); split; [eauto using denotes_comm_unique|congruence..]).
  assert (bc_start_boot_time c1 = bc_start_boot_time c2 /\ bc_has_start_boot_time c1 = bc_has_start_boot_time c2)
    as [E7 E8]
    by (fields_agree H1 H2 text (str "start"); split; [eauto using denotes_decimal_unique|congruence..]).
  destruct c1, c2; simpl in *; congruence.
Qed.

(** ** The grammar of commands *)

(** The request spz_control_break builds from the command. *)
Definition break_request (c : spz_break_command) : spz_debug_request :=
  {| dr_id := kc_id c; dr_kind := kc_kind c; dr_address := kc_address c; dr_length := kc_length c;
     dr_mode := kc_mode c |}.

Definition has_keys (keys : list token) (kvs : list (token * token)) : Prop := Forall (fun k => k ∈ kvs.*1) keys.

Inductive command_grammar : list token -> spz_command -> Prop :=
| grammar_no_args verb kind :
    (verb, kind) ∈ [(str "status", SPZ_COMMAND_STATUS); (str "profile", SPZ_COMMAND_PROFILE);
                    (str "clear", SPZ_COMMAND_CLEAR); (str "poll", SPZ_COMMAND_POLL);
                    (str "audit", SPZ_COMMAND_AUDIT); (str "maps", SPZ_COMMAND_MAPS)] ->
    command_grammar [verb] {| cm_kind := kind; cm_value := value_zero |}
| grammar_bind kvs c :
    record_of bind_field zero_bind kvs c -> has_keys [str "pid"; str "mode"] kvs ->
    command_grammar (str "bind" :: map join_field kvs) {| cm_kind := SPZ_COMMAND_BIND; cm_value := value_bind c |}
| grammar_break kvs c :
    record_of break_field zero_break kvs c -> has_keys break_keys kvs ->
    encodable (break_request c) ->
    command_grammar (str "break" :: map join_field kvs) {| cm_kind := SPZ_COMMAND_BREAK; cm_value := value_breakpoint c |}
| grammar_id verb kind v id :
    (verb, kind) ∈ [(str "enable", SPZ_COMMAND_ENABLE); (str "disable", SPZ_COMMAND_DISABLE)] ->
    denotes_decimal UINT32_MAX v id -> id <> 0 ->
    command_grammar [verb; join_field (str "id", v)] {| cm_kind := kind; cm_value := value_id {| ic_id := id |} |}
| grammar_poll v after :
    denotes_decimal UINT64_MAX v after ->
    command_grammar [str "poll"; join_field (str "after", v)]
      {| cm_kind := SPZ_COMMAND_POLL; cm_value := value_poll {| pc_after := after; pc_has_after := 1 |} |}
| grammar_maps_read kvs c :
    record_of maps_read_field zero_maps_read kvs c -> has_keys maps_read_keys kvs ->
    command_grammar (str "maps-read" :: map join_field kvs)
      {| cm_kind := SPZ_COMMAND_MAPS_READ; cm_value := value_maps_read c |}.

(** ** The seen masks *)

Lemma key_index_spec keys i k : NoDup keys -> keys !! i = Some k -> key_index keys k = Some i.
Proof.
  intros Hnd Hk. unfold key_index. rewrite (proj2 (list_find_Some _ keys i k)); [done|].
  split_and!; [done|done|]. intros j y Hj Hlt ->. by assert (j = i) as -> by (eapply NoDup_lookup; eauto); lia.
Qed.

Section masks.
Context {A : Type} (field : token -> token -> A -> option (Z * Z * A)) (zero : A).
Context `{table : !FieldTable field zero} (keys : list token).
Context (keys_index : forall k, fields_index k = key_index keys k) (keys_nodup : NoDup keys).

Lemma record_keys kvs out : record_of field zero kvs out -> kvs.*1 ⊆+ keys.
Proof.
  intros (Hnd & _ & Hix & _). apply NoDup_submseteq; [done|]. intros k (kv & -> & Hin)%list_elem_of_fmap.
  rewrite Forall_forall in Hix. destruct (Hix _ Hin) as [i Hi]. rewrite keys_index in Hi.
  apply list_elem_of_lookup. exists i. by apply key_index_lookup.
Qed.

Lemma record_length kvs out : record_of field zero kvs out -> (length kvs <= length keys)%nat.
Proof. intros H%record_keys. apply submseteq_length in H. by rewrite length_fmap in H. Qed.

Lemma has_keys_length ks kvs : NoDup ks -> has_keys ks kvs -> (length ks <= length kvs)%nat.
Proof.
  intros Hnd Hks. rewrite <- (length_fmap fst kvs). apply submseteq_length, NoDup_submseteq; [done|].
  intros k Hk. by apply (proj1 (Forall_forall _ _) Hks).
Qed.

(** The low [n] bits of the mask are set exactly when the first [n] keys are present. *)
Lemma seen_low_bits kvs out n :
  record_of field zero kvs out -> (n <= length keys)%nat ->
  Z.land (seen_of field zero kvs) (Z.ones (Z.of_nat n)) = Z.ones (Z.of_nat n) <-> has_keys (take n keys) kvs.
Proof.
  intros (_ & _ & Hix & _) Hn.
  assert (forall i k, keys !! i = Some k ->
            Z.testbit (seen_of field zero kvs) (Z.of_nat i) = bool_decide (k ∈ kvs.*1)) as Hbit.
  { intros i k Hk. apply seen_testbit; [|done]. rewrite keys_index. by apply key_index_spec. }
  unfold has_keys. rewrite Forall_lookup. split.
  - intros H i k Hk. apply lookup_take_Some in Hk as [Hk Hi].
    apply (bool_decide_eq_true_1 _). rewrite <- (Hbit i k Hk).
    apply (f_equal (fun z => Z.testbit z (Z.of_nat i))) in H. rewrite Z.land_spec, Z.ones_spec_low in H by lia.
    by rewrite andb_true_r in H.
  - intros H. apply Z.bits_inj'. intros j Hj. rewrite Z.land_spec.
    destruct (Z.lt_ge_cases j (Z.of_nat n)) as [Hlt|Hge].
    + rewrite Z.ones_spec_low, andb_true_r by lia. destruct (lookup_lt_is_Some_2 keys (Z.to_nat j)) as [k Hk]; [lia|].
      rewrite <- (Z2Nat.id j) by lia. rewrite (Hbit _ k Hk). apply bool_decide_eq_true.
      apply (H (Z.to_nat j)). apply lookup_take_Some. split; [done|lia].
    + by rewrite Z.ones_spec_high, andb_false_r by lia.
Qed.

Lemma seen_bounded kvs out :
  record_of field zero kvs out -> Z.land (seen_of field zero kvs) (Z.ones (Z.of_nat (length keys))) = seen_of field zero kvs.
Proof.
  intros (_ & _ & Hix & _). induction Hix as [|kv kvs [i Hi] _ IH]; simpl; [done|].
  rewrite Z.land_lor_distr_l, IH, Hi. f_equal. simpl.
  rewrite keys_index in Hi. apply key_index_lookup, lookup_lt_Some in Hi.
  rewrite Z.land_ones by lia. apply Z.mod_small. split; [lia|]. apply Z.pow_lt_mono_r; lia.
Qed.

(** The loop and its final test on the mask of the first [n] keys. *)
Lemma fields_required ts seen out n :
  (n <= length keys)%nat -> fields_loop field ts 0 zero = inr (seen, out) ->
  Z.land seen (Z.ones (Z.of_nat n)) = Z.ones (Z.of_nat n) ->
  exists kvs, ts = map join_field kvs /\ record_of field zero kvs out /\ has_keys (take n keys) kvs.
Proof.
  intros Hn H Hs. apply (fields_loop_spec field zero) in H as (kvs & -> & Hrec & ->).
  exists kvs. split_and!; [done..|]. by apply (seen_low_bits kvs out).
Qed.

Lemma fields_present kvs out n :
  (n <= length keys)%nat -> record_of field zero kvs out -> has_keys (take n keys) kvs ->
  (n <= length (map join_field kvs) <= length keys)%nat /\
  exists seen, fields_loop field (map join_field kvs) 0 zero = inr (seen, out) /\
    Z.land seen (Z.ones (Z.of_nat n)) = Z.ones (Z.of_nat n) /\
    Z.land seen (Z.ones (Z.of_nat (length keys))) = seen.
Proof.
  intros Hn Hrec Hks. rewrite length_map. split.
  - split; [|by eapply record_length].
    apply has_keys_length in Hks; [by rewrite length_take, Nat.min_l in Hks|].
    eapply sublist_NoDup; [done|apply sublist_take].
  - exists (seen_of field zero kvs). split_and!.
    + apply (fields_loop_spec field zero). by exists kvs.
    + by apply (seen_low_bits kvs out).
    + by eapply seen_bounded.
Qed.
End masks.

(** ** Each verb *)

Lemma bind_keys_nodup : NoDup bind_keys.
Proof. by apply (bool_decide_unpack _). Qed.
Lemma break_keys_nodup : NoDup break_keys.
Proof. by apply (bool_decide_unpack _). Qed.
Lemma maps_read_keys_nodup : NoDup maps_read_keys.
Proof. by apply (bool_decide_unpack _). Qed.
#[export] Hint Resolve bind_keys_nodup break_keys_nodup maps_read_keys_nodup : spz.

Lemma parse_bind_ok verb ts c :
  spz_parse_bind (verb :: ts) = inr c <->
  exists kvs b, ts = map join_field kvs /\ record_of bind_field zero_bind kvs b /\
    has_keys [str "pid"; str "mode"] kvs /\ c = {| cm_kind := SPZ_COMMAND_BIND; cm_value := value_bind b |}.
Proof.
  unfold spz_parse_bind. change (drop 1 (verb :: ts)) with ts. cbn [length]. split.
  - case_match; [done|]. destruct (fields_loop _ _ _ _) as [|[seen b]] eqn:E; [done|].
    destruct (Z.land _ _ =? _) eqn:Hs; [|done]. simpl. intros [= <-]. apply Z.eqb_eq in Hs.
    destruct (fields_required bind_field zero_bind (table := bind_table) bind_keys (fun _ => eq_refl) bind_keys_nodup ts seen b 2)
      as (kvs & ? & ? & ?); [simpl; lia|done|done|]. by exists kvs, b.
  - intros (kvs & b & -> & Hrec & Hks & ->).
    destruct (fields_present bind_field zero_bind (table := bind_table) bind_keys (fun _ => eq_refl) bind_keys_nodup kvs b 2)
      as [[Hlo Hhi] (seen & -> & Hs & _)]; [simpl; lia|done|done|].
    simpl in Hhi. rewrite !bool_decide_eq_false_2 by lia. simpl orb. cbv iota.
    change (Z.lor SPZ_BIND_SEEN_PID SPZ_BIND_SEEN_MODE) with (Z.ones (Z.of_nat 2)). by rewrite Hs.
Qed.

Lemma parse_maps_read_ok verb ts c :
  spz_parse_maps_read (verb :: ts) = inr c <->
  exists kvs m, ts = map join_field kvs /\ record_of maps_read_field zero_maps_read kvs m /\
    has_keys maps_read_keys kvs /\ c = {| cm_kind := SPZ_COMMAND_MAPS_READ; cm_value := value_maps_read m |}.
Proof.
  unfold spz_parse_maps_read. change (drop 1 (verb :: ts)) with ts. cbn [length].
  change (Z.lor _ _) with (Z.ones (Z.of_nat 2)). split.
  - case_match; [done|]. destruct (fields_loop _ _ _ _) as [|[seen m]] eqn:E; [done|].
    destruct (_ =? _) eqn:Hs; [|done]. intros [= <-]. apply Z.eqb_eq in Hs.
    destruct (fields_required maps_read_field zero_maps_read (table := maps_read_table) maps_read_keys (fun _ => eq_refl)
      maps_read_keys_nodup ts seen m 2) as (kvs & ? & ? & ?); [simpl; lia|done|by rewrite Hs|]. by exists kvs, m.
  - intros (kvs & m & -> & Hrec & Hks & ->).
    destruct (fields_present maps_read_field zero_maps_read (table := maps_read_table) maps_read_keys (fun _ => eq_refl)
      maps_read_keys_nodup kvs m 2) as [[Hlo Hhi] (seen & -> & Hs & Hb)]; [simpl; lia|done|done|].
    simpl in Hhi. rewrite bool_decide_eq_false_2 by lia. simpl length in Hb. rewrite Hb in Hs.
    by rewrite (proj2 (Z.eqb_eq _ _) Hs).
Qed.

(** The final checks of a break command are those of the debug component. *)
Lemma break_request_ok_encodable c :
  request_widths (break_request c) -> kc_id c <> 0 ->
  kc_kind c <> SPZ_BREAK_INVALID -> kc_mode c <> SPZ_BREAK_MODE_INVALID ->
  break_request_ok c = true <-> encodable (break_request c).
Proof.
  intros Hw Hid Hkind Hmode.
  transitivity (exists out, spz_debug_validate_request (Some (break_request c)) = inr out).
  2:{ split; [intros [out H]; by eapply validate_request_inr|]. intros H.
      rewrite (validate_request_eq _ Hw H). by eexists. }
  unfold break_request_ok, spz_debug_validate_request. cbv zeta.
  cbn [break_request dr_id dr_kind dr_address dr_length dr_mode]. rewrite (eqb_ne _ _ Hid).
  replace (bool_decide (kc_mode c <> SPZ_BREAK_ONCE) && _) with false by (by destruct (kc_mode c)).
  destruct ((kc_address c =? 0) || _); [split; [done|by intros []]|].
  destruct (kc_kind c); [done| | | |].
  { rewrite !bool_decide_eq_true_2 by done. rewrite <- negb_andb.
    destruct (_ && _); split; first [by eauto | by intros []]. }
  all: rewrite !(bool_decide_eq_false_2 (_ = SPZ_BREAK_EXECUTE)) by done.
  all: replace (bool_decide _ && _ && _) with false by done.
  all: destruct (negb (kc_length c =? 1) && _ && _ && _); [split; [done|by intros []]|].
  all: destruct (_ || _); split; first [by eauto | by intros []].
Qed.

Lemma record_field {A} field (zero : A) `{table : !FieldTable field zero} kvs out k ks :
  record_of field zero kvs out -> has_keys ks kvs -> k ∈ ks -> exists v, fields_spec k (Some v) out.
Proof.
  intros (_ & _ & _ & Hspec) Hks Hk. apply (proj1 (Forall_forall _ _) Hks) in Hk.
  specialize (Hspec k). destruct (lookup_field kvs k) as [v|] eqn:E; [by exists v|].
  by apply lookup_field_none in E.
Qed.

Lemma denotes_decimal_range max v n : denotes_decimal max v n -> 0 <= n <= max.
Proof. intros (_ & _ & -> & ?). pose proof (number_nonneg decimal_digit 10 v). lia. Qed.

Lemma denotes_hex_range v n : denotes_hex v n -> 0 <= n <= UINT64_MAX.
Proof. intros (ds & _ & _ & _ & -> & ?). pose proof (number_nonneg hex_digit 16 ds). lia. Qed.

Lemma break_record_facts kvs c :
  record_of break_field zero_break kvs c -> has_keys break_keys kvs ->
  request_widths (break_request c) /\ kc_id c <> 0 /\
  kc_kind c <> SPZ_BREAK_INVALID /\ kc_mode c <> SPZ_BREAK_MODE_INVALID.
Proof.
  intros Hrec Hks. pose proof (fun k => record_field break_field zero_break kvs c k _ Hrec Hks) as Hf.
  destruct (Hf (str "id")) as [v1 H1]; [in_table|]. destruct (Hf (str "kind")) as [v2 H2]; [in_table|].
  destruct (Hf (str "addr")) as [v3 H3]; [in_table|]. destruct (Hf (str "len")) as [v4 H4]; [in_table|].
  destruct (Hf (str "mode")) as [v5 H5]; [in_table|]. clear Hf.
  hnf in H1, H2, H3, H4, H5. this_key H1; this_key H2; this_key H3; this_key H4; this_key H5.
  apply denotes_hex_range in H3. apply denotes_decimal_range in H4.
  split_and!; [exact (conj H3 H4)|apply H1| |].
  - table_cases H2; congruence.
  - table_cases H5; congruence.
Qed.

Lemma parse_break_ok verb ts c :
  spz_parse_break (verb :: ts) = inr c <->
  exists kvs b, ts = map join_field kvs /\ record_of break_field zero_break kvs b /\
    has_keys break_keys kvs /\ encodable (break_request b) /\
    c = {| cm_kind := SPZ_COMMAND_BREAK; cm_value := value_breakpoint b |}.
Proof.
  unfold spz_parse_break. change (drop 1 (verb :: ts)) with ts. cbn [length].
  change break_required with (Z.ones (Z.of_nat 5)). split.
  - case_match; [done|]. destruct (fields_loop _ _ _ _) as [|[seen b]] eqn:E; [done|].
    destruct (_ =? _) eqn:Hs; [|done]. destruct (break_request_ok b) eqn:Hok; [|done].
    intros [= <-]. apply Z.eqb_eq in Hs.
    destruct (fields_required break_field zero_break (table := break_table) break_keys (fun _ => eq_refl)
      break_keys_nodup ts seen b 5) as (kvs & ? & Hrec & Hks); [simpl; lia|done|by rewrite Hs|].
    destruct (break_record_facts kvs b Hrec Hks) as (? & ? & ? & ?).
    apply break_request_ok_encodable in Hok; [|done..]. by exists kvs, b.
  - intros (kvs & b & -> & Hrec & Hks & Henc & ->).
    destruct (fields_present break_field zero_break (table := break_table) break_keys (fun _ => eq_refl)
      break_keys_nodup kvs b 5) as [[Hlo Hhi] (seen & -> & Hs & Hb)]; [simpl; lia|done|done|].
    destruct (break_record_facts kvs b Hrec Hks) as (? & ? & ? & ?).
    apply break_request_ok_encodable in Henc; [|done..].
    simpl in Hhi. rewrite bool_decide_eq_false_2 by lia. simpl length in Hb. rewrite Hb in Hs.
    by rewrite (proj2 (Z.eqb_eq _ _) Hs), Henc.
Qed.

Lemma decimal_field_ok key max v n :
  key ∈ [str "id"; str "after"] -> denotes_decimal max v n -> field_ok (key, v).
Proof.
  intros Hkey (Hne & Hd & _). split_and!; [|done| |].
  - intros Hn. simpl in Hn. rewrite Hn in Hkey. by apply (bool_decide_eq_true_2 _) in Hkey.
  - apply (proj1 (Forall_forall (fun k => equals_sign ∉ k) [str "id"; str "after"])); [|done].
    by apply (bool_decide_unpack _).
  - intros Hin. apply (proj1 (Forall_forall _ _) Hd) in Hin as [d Hd']. done.
Qed.

Lemma parse_id_ok verb ts kind c :
  spz_parse_id (verb :: ts) kind = inr c <->
  exists v id, ts = [join_field (str "id", v)] /\ denotes_decimal UINT32_MAX v id /\ id <> 0 /\
    c = {| cm_kind := kind; cm_value := value_id {| ic_id := id |} |}.
Proof.
  unfold spz_parse_id. split.
  - destruct ts as [|t [|]]; try done. destruct (spz_split_key_value t) as [|[k v]] eqn:E; [done|].
    apply split_key_value_ok in E as [-> _]. unfold spz_token_equals. case_bool_decide as Hk; [|done].
    destruct (spz_parse_u32_decimal v) as [|id] eqn:Hp; [done|]. simpl. case_match; [done|].
    intros [= <-]. exists v, id. subst k. split_and!; [done|by apply parse_u32_decimal_ok|lia|done].
  - intros (v & id & -> & Hv & Hid & ->).
    rewrite (proj2 (split_key_value_ok _ (str "id", v))).
    + eval_tokens. simpl. apply parse_u32_decimal_ok in Hv as ->. by rewrite (eqb_ne _ _ Hid).
    + split; [done|]. apply decimal_field_ok with UINT32_MAX id; [in_table|done].
Qed.

Lemma parse_poll_ok verb ts c :
  spz_parse_poll (verb :: ts) = inr c <->
  (ts = [] /\ c = {| cm_kind := SPZ_COMMAND_POLL; cm_value := value_zero |}) \/
  exists v after, ts = [join_field (str "after", v)] /\ denotes_decimal UINT64_MAX v after /\
    c = {| cm_kind := SPZ_COMMAND_POLL; cm_value := value_poll {| pc_after := after; pc_has_after := 1 |} |}.
Proof.
  unfold spz_parse_poll. split.
  - destruct ts as [|t [|]]; [intros [= <-]; by left| |done].
    destruct (spz_split_key_value t) as [|[k v]] eqn:E; [done|].
    apply split_key_value_ok in E as [-> _]. unfold spz_token_equals. case_bool_decide as Hk; [|done].
    destruct (spz_parse_u64_decimal v) as [|after] eqn:Hp; [done|]. simpl.
    intros [= <-]. right. exists v, after. subst k. split_and!; [done|by apply parse_u64_decimal_ok|done].
  - intros [[-> ->]|(v & after & -> & Hv & ->)]; [done|].
    rewrite (proj2 (split_key_value_ok _ (str "after", v))).
    + eval_tokens. simpl. by apply parse_u64_decimal_ok in Hv as ->.
    + split; [done|]. apply decimal_field_ok with UINT64_MAX after; [in_table|done].
Qed.
