(* ===== verification/CommandLine.v ===== *)
(** * Whole command lines

    spz_tokenize of kpm/core/command.c cuts a line exactly into its
    space-separated words, although it overwrites the separators while its tokens
    point into the line; with the grammar of the verbs this gives the language of
    spz_parse_command. *)

From stdpp Require Import sets.
From S2P Require Import Prelude Abi DeviceProfiles Profile Task Debug DebugEncode.
From S2P Require Import Command CommandNumbers CommandSpec CommandGrammar.

(** ** Verbs *)

Ltac verb_case H E :=
  match type of H with
  | context [spz_token_equals ?t ?l] =>
      destruct (spz_token_equals t l) eqn:E; [apply bool_decide_eq_true in E|]
  end.

Lemma parse_no_args_ok (ts : list token) kind c :
  spz_parse_no_args (S (length ts)) kind zero_command = inr c <->
  ts = [] /\ c = {| cm_kind := kind; cm_value := value_zero |}.
Proof.
  unfold spz_parse_no_args. destruct ts; simpl.
  - split; [by intros [= <-]|by intros [_ ->]].
  - split; [done|by intros []].
Qed.

Lemma parse_verb_sound tokens c : parse_verb tokens = inr c -> command_grammar tokens c.
Proof.
  destruct tokens as [|verb ts]; [done|]. unfold parse_verb. change ((verb :: ts) !!! 0%nat) with verb.
  cbn [length]. intros H.
  verb_case H E; [subst; apply parse_no_args_ok in H as [-> ->]; constructor; in_table|].
  verb_case H E1; [subst; apply parse_no_args_ok in H as [-> ->]; constructor; in_table|].
  verb_case H E2; [subst; apply parse_bind_ok in H as (kvs & b & -> & ? & ? & ->); by constructor|].
  verb_case H E3; [subst; apply parse_break_ok in H as (kvs & b & -> & ? & ? & ? & ->); by constructor|].
  verb_case H E4; [subst; apply parse_id_ok in H as (v & id & -> & ? & ? & ->); constructor; [in_table|done..]|].
  verb_case H E5; [subst; apply parse_id_ok in H as (v & id & -> & ? & ? & ->); constructor; [in_table|done..]|].
  verb_case H E6; [subst; apply parse_no_args_ok in H as [-> ->]; constructor; in_table|].
  verb_case H E7; [subst; apply parse_poll_ok in H as [[-> ->]|(v & a & -> & ? & ->)]; constructor; [in_table|done]|].
  verb_case H E8; [subst; apply parse_no_args_ok in H as [-> ->]; constructor; in_table|].
  verb_case H E9; [subst; apply parse_no_args_ok in H as [-> ->]; constructor; in_table|].
  verb_case H E10; [subst; apply parse_maps_read_ok in H as (kvs & b & -> & ? & ? & ->); by constructor|].
  done.
Qed.

Lemma parse_verb_complete tokens c : command_grammar tokens c -> parse_verb tokens = inr c.
Proof.
  unfold parse_verb. destruct 1 as [verb kind Hv|kvs b|kvs b|verb kind v id Hv|v after|kvs m].
  - table_cases Hv; change ([?x] !!! 0%nat) with x; eval_tokens; reflexivity.
  - change ((?x :: ?y) !!! 0%nat) with x. eval_tokens. apply parse_bind_ok. by exists kvs, b.
  - change ((?x :: ?y) !!! 0%nat) with x. eval_tokens. apply parse_break_ok. by exists kvs, b.
  - table_cases Hv; change ((?x :: ?y) !!! 0%nat) with x; eval_tokens; apply parse_id_ok; by exists v, id.
  - change ((?x :: ?y) !!! 0%nat) with x. eval_tokens. apply parse_poll_ok. right. by exists v, after.
  - change ((?x :: ?y) !!! 0%nat) with x. eval_tokens. apply parse_maps_read_ok. by exists kvs, m.
Qed.

(** ** Words *)

Definition space : Z := 32.

(** A word: not empty, printable, no space. *)
Definition word_bytes (w : token) : Prop := Forall (fun b => 33 <= b <= 126) w.
Definition is_word (w : token) : Prop := w <> [] /\ word_bytes w.

(** The line of some words. *)
Fixpoint join_line (ws : list token) : list Z :=
  match ws with
  | [] => []
  | [w] => w
  | w :: ws => w ++ space :: join_line ws
  end.

(** Words, each followed by the byte [sep]. *)
Definition closed_by (sep : Z) (ws : list token) : list Z := concat (map (fun w => w ++ [sep]) ws).

Lemma closed_by_snoc sep ws w : closed_by sep (ws ++ [w]) = closed_by sep ws ++ w ++ [sep].
Proof. unfold closed_by. rewrite map_app, concat_app. simpl. by rewrite app_nil_r. Qed.

Lemma join_line_snoc ws w : join_line (ws ++ [w]) = closed_by space ws ++ w.
Proof.
  induction ws as [|w' ws IH]; [done|]. unfold closed_by in *. simpl. rewrite <- !app_assoc. simpl.
  rewrite <- IH. by destruct ws.
Qed.

(** The tokens of words laid out one after the other from [off]. *)
Fixpoint layout (off : nat) (ws : list token) : list spz_token :=
  match ws with
  | [] => []
  | w :: ws => {| tk_data := off; tk_length := length w |} :: layout (off + length w + 1) ws
  end.

Lemma length_layout off ws : length (layout off ws) = length ws.
Proof. revert off. induction ws; intros; simpl; auto. Qed.

Lemma length_closed_by sep ws : length (closed_by sep ws) = sum_list_with (fun w => length w + 1)%nat ws.
Proof.
  induction ws as [|w ws IH]; [done|]. unfold closed_by in *. simpl. rewrite !length_app, IH. simpl. lia.
Qed.

Lemma layout_snoc off ws w :
  layout off (ws ++ [w]) =
  layout off ws ++ [{| tk_data := (off + length (closed_by 0 ws))%nat; tk_length := length w |}].
Proof.
  revert off. induction ws as [|w' ws IH]; intros off; simpl; [by rewrite Nat.add_0_r|].
  rewrite IH. do 4 f_equal. rewrite !length_closed_by. simpl. lia.
Qed.

(** The tokens read back the words from the line they point into. *)
Lemma layout_bytes p ws q : map (token_bytes (p ++ closed_by 0 ws ++ q)) (layout (length p) ws) = ws.
Proof.
  revert p. induction ws as [|w ws IH]; intros p; simpl; [done|]. f_equal.
  - unfold token_bytes, closed_by. simpl. by rewrite drop_app_length, <- !app_assoc, take_app_length.
  - specialize (IH (p ++ w ++ [0])). rewrite !length_app, Nat.add_assoc in IH. simpl in IH.
    rewrite <- !app_assoc in IH. unfold closed_by in *. simpl. by rewrite <- !app_assoc.
Qed.

(** ** The cutting loop as a function on words

    [ws] are the words behind us and [cur] the one being read. *)
Fixpoint split_words (rest : list Z) (ws : list token) (cur : token) : Z + (list token * token) :=
  match rest with
  | [] => inr (ws, cur)
  | byte :: rest =>
      if (byte <? 32) || (126 <? byte) then inl (- EINVAL)
      else if negb (byte =? 32) then split_words rest ws (cur ++ [byte])
      else if bool_decide (cur = []) then inl (- EINVAL)
      else if bool_decide (SPZ_MAX_TOKENS <= length ws)%nat then inl (- E2BIG)
      else split_words rest (ws ++ [cur]) []
  end.

Lemma tokenize_loop_words rest ws cur tail :
  let pre := closed_by 0 ws in
  match split_words rest ws cur with
  | inl r =>
      (tokenize_loop (length rest) (length pre + length cur) (length pre) (layout 0 ws) (pre ++ cur ++ rest ++ tail)).1 = inl r
  | inr (ws', cur') =>
      tokenize_loop (length rest) (length pre + length cur) (length pre) (layout 0 ws) (pre ++ cur ++ rest ++ tail) =
      (inr (layout 0 ws', length (closed_by 0 ws')), closed_by 0 ws' ++ cur' ++ tail)
  end.
Proof.
  revert ws cur. induction rest as [|b rest IH]; intros ws cur pre; simpl.
  { done. }
  assert ((pre ++ cur ++ b :: rest ++ tail) !!! (length pre + length cur)%nat = b) as ->.
  { apply list_lookup_total_correct. rewrite app_assoc, <- length_app. apply list_lookup_middle. done. }
  destruct (_ || _); [done|]. destruct (b =? 32) eqn:Hb; simpl.
  - rewrite length_layout.
    replace (bool_decide ((length pre + length cur)%nat = length pre)) with (bool_decide (cur = []))
      by (apply bool_decide_ext; destruct cur; simpl; split; (done || lia)).
    destruct (bool_decide (cur = [])); [done|]. destruct (bool_decide (_ <= _)%nat); [done|].
    specialize (IH (ws ++ [cur]) []). simpl in IH.
    rewrite closed_by_snoc, layout_snoc, !length_app, Nat.add_0_r in IH. simpl in IH.
    rewrite !Nat.add_1_r, !Nat.add_succ_r in IH.
    replace (length pre + length cur - length pre)%nat with (length cur) by lia.
    replace (<[(length pre + length cur)%nat := 0]> (pre ++ cur ++ b :: rest ++ tail))
      with ((pre ++ cur ++ [0]) ++ rest ++ tail).
    + exact IH.
    + rewrite insert_app_r, <- (Nat.add_0_r (length cur)), insert_app_r. simpl. by rewrite <- !app_assoc.
  - specialize (IH ws (cur ++ [b])). rewrite length_app in IH. simpl in IH.
    rewrite !Nat.add_1_r, !Nat.add_succ_r in IH.
    rewrite <- (app_assoc cur) in IH. exact IH.
Qed.

Lemma split_words_sound rest ws cur ws' cur' :
  split_words rest ws cur = inr (ws', cur') -> Forall is_word ws -> word_bytes cur ->
  closed_by space ws ++ cur ++ rest = closed_by space ws' ++ cur' /\ Forall is_word ws' /\ word_bytes cur'.
Proof.
  revert ws cur. induction rest as [|b rest IH]; intros ws cur; simpl.
  { intros [= <- <-] ??. by rewrite app_nil_r. }
  destruct (_ || _) eqn:Hp; [done|]. destruct (b =? 32) eqn:Hb; simpl.
  - case_bool_decide; [done|]. case_bool_decide; [done|]. intros Hs Hws Hcur.
    destruct (IH _ _ Hs) as (Heq & ? & ?); [by apply Forall_app; repeat constructor|constructor|].
    apply Z.eqb_eq in Hb as ->. rewrite closed_by_snoc, <- !app_assoc in Heq. done.
  - intros Hs Hws Hcur. destruct (IH _ _ Hs) as (Heq & ? & ?); [done|apply Forall_app; repeat constructor; [done|lia..]|].
    rewrite <- (app_assoc cur) in Heq. done.
Qed.

Lemma split_word w rest ws cur :
  word_bytes w -> split_words (w ++ rest) ws cur = split_words rest ws (cur ++ w).
Proof.
  intros Hw. revert cur. induction Hw as [|b w Hb _ IH]; intros cur; simpl; [by rewrite app_nil_r|].
  rewrite (proj2 (Z.ltb_ge b 32)), (proj2 (Z.ltb_ge 126 b)), eqb_ne by lia. simpl.
  by rewrite IH, <- app_assoc.
Qed.

Lemma split_words_complete us ws w :
  Forall is_word us -> word_bytes w -> (length ws + length us <= SPZ_MAX_TOKENS)%nat ->
  split_words (closed_by space us ++ w) ws [] = inr (ws ++ us, w).
Proof.
  intros Hus Hw. revert ws. induction Hus as [|u us [Hne Hu] _ IH]; intros ws Hlen.
  { unfold closed_by. simpl. rewrite <- (app_nil_r w) at 1. rewrite split_word by done. simpl. by rewrite app_nil_r. }
  unfold closed_by in *. simpl. rewrite <- !app_assoc, split_word by done. simpl.
  simpl in Hlen. rewrite bool_decide_eq_false_2 by done. rewrite bool_decide_eq_false_2 by lia.
  rewrite IH by (rewrite length_app; simpl; lia). by rewrite <- app_assoc.
Qed.

Lemma last_of_closed ws x : ws <> [] -> exists l, closed_by x ws = l ++ [x].
Proof.
  intros Hne. destruct (exists_last Hne) as (ws0 & w & ->). exists (closed_by x ws0 ++ w).
  rewrite closed_by_snoc. by rewrite app_assoc.
Qed.

(** The tokens of a line: its words, at most eight, whatever follows the line. *)
Lemma tokenize_sound line tail toks line' :
  line <> [] -> spz_tokenize (line ++ tail) (length line) = (inr toks, line') ->
  line = join_line (map (token_bytes line') toks) /\ Forall is_word (map (token_bytes line') toks) /\
  (1 <= length toks <= SPZ_MAX_TOKENS)%nat.
Proof.
  intros Hne. unfold spz_tokenize. destruct (_ || _) eqn:Hends; [done|].
  pose proof (tokenize_loop_words line [] [] tail) as Hloop. simpl in Hloop.
  destruct (split_words line [] []) as [r|[ws w]] eqn:Hsplit.
  { destruct (tokenize_loop _ _ _ _ _) as [r' ?]. simpl in Hloop. by rewrite Hloop. }
  rewrite Hloop, length_layout. case_bool_decide as Hlen; [done|]. intros [= <- <-].
  destruct (split_words_sound _ _ _ _ _ Hsplit) as (Hline & Hws & Hw); [constructor..|]. simpl in Hline.
  assert (w <> []) as Hwne.
  { intros ->. rewrite app_nil_r in Hline. apply orb_false_iff in Hends as [_ Hlast].
    destruct (last_of_closed ws space) as [l Hl]; [by intros ->|]. rewrite Hl in Hline. subst line.
    rewrite length_app, Nat.add_sub in Hlast. rewrite <- app_assoc in Hlast.
    rewrite (list_lookup_total_middle l (tail) space (length l) eq_refl) in Hlast. done. }
  assert (map (token_bytes (closed_by 0 ws ++ w ++ tail))
            (layout 0 ws ++ [{| tk_data := length (closed_by 0 ws); tk_length := length line - length (closed_by 0 ws) |}])
          = ws ++ [w]) as ->.
  { rewrite map_app. f_equal; [apply (layout_bytes [] ws)|]. simpl. f_equal. unfold token_bytes. simpl.
    rewrite Hline, length_app, !length_closed_by, Nat.add_sub', <- (length_closed_by 0).
    by rewrite drop_app_length, take_app_length. }
  rewrite join_line_snoc, length_app, length_layout. simpl. split_and!; [done| |lia|lia].
  apply Forall_app. split; [done|]. by repeat constructor.
Qed.

Lemma is_word_ends w : is_word w -> exists b l b' l', w = b :: l /\ w = l' ++ [b'] /\ 33 <= b /\ 33 <= b'.
Proof.
  intros [Hne Hw]. destruct (exists_last Hne) as (l' & b' & El). destruct w as [|b l]; [done|].
  exists b, l, b', l'. split_and!; [done|done| |].
  - apply Forall_cons in Hw. lia.
  - rewrite El in Hw. apply Forall_app in Hw as [_ Hw%Forall_cons]. lia.
Qed.

(** A line of words neither starts nor ends with a space. *)
Lemma line_ends us w tail :
  Forall is_word us -> is_word w ->
  let line := closed_by space us ++ w in
  ((line ++ tail) !!! 0%nat =? 32) || ((line ++ tail) !!! (length line - 1)%nat =? 32) = false.
Proof.
  intros Hus Hw line. destruct (is_word_ends w Hw) as (bw & lw & b' & l' & Ew & El & Hb & Hb').
  assert ((line ++ tail) !!! (length line - 1)%nat = b') as ->.
  { subst line. rewrite El, app_assoc, length_app, Nat.add_sub, <- app_assoc. by apply list_lookup_total_middle. }
  assert (exists b l, line ++ tail = b :: l /\ 33 <= b) as (b & l & -> & ?).
  { subst line. destruct Hus as [|u us Hu _]; [rewrite Ew; simpl; eauto|].
    destruct (is_word_ends u Hu) as (b & l & _ & _ & -> & _ & ? & _). unfold closed_by. simpl. eauto. }
  simpl. rewrite !eqb_ne by lia. done.
Qed.

Lemma tokenize_complete ws tail :
  Forall is_word ws -> (1 <= length ws <= SPZ_MAX_TOKENS)%nat ->
  exists toks line', spz_tokenize (join_line ws ++ tail) (length (join_line ws)) = (inr toks, line') /\
    map (token_bytes line') toks = ws.
Proof.
  intros Hws Hlen. destruct (exists_last (l := ws)) as (us & w & ->); [by intros ->; simpl in *; lia|].
  apply Forall_app in Hws as [Hus [Hw _]%Forall_cons]. rewrite length_app in Hlen. simpl in Hlen.
  rewrite join_line_snoc. pose proof (line_ends us w tail Hus Hw) as Hends. simpl in Hends.
  assert (split_words (closed_by space us ++ w) [] [] = inr (us, w)) as Hs
    by (apply (split_words_complete us [] w); [done|apply Hw|simpl; lia]).
  pose proof (tokenize_loop_words (closed_by space us ++ w) [] [] tail) as Hloop. simpl in Hloop.
  rewrite Hs in Hloop. unfold spz_tokenize. rewrite Hends, Hloop, length_layout.
  rewrite bool_decide_eq_false_2 by lia. do 2 eexists. split; [done|].
  rewrite map_app. f_equal; [apply (layout_bytes [] us)|]. simpl. f_equal. unfold token_bytes. simpl.
  rewrite length_app, !length_closed_by, Nat.add_sub', <- (length_closed_by 0).
  by rewrite drop_app_length, take_app_length.
Qed.

(** ** Errors *)

Lemma einval_error : number_error (- EINVAL).
Proof. by left. Qed.
#[export] Hint Resolve einval_error : spz.

(** A chain of comparisons whose results are 0 or a number error. *)
Ltac field_errors :=
  intros; unfold bind_field, break_field, maps_read_field in *; repeat case_match; simplify_eq;
  eauto using number_error_nonzero with spz.

Lemma fields_loop_errors {A} (field : token -> token -> A -> option (Z * Z * A)) ts seen out r :
  (forall k v o bit result o', field k v o = Some (bit, result, o') -> result = 0 \/ number_error result) ->
  fields_loop field ts seen out = inl r -> number_error r.
Proof.
  intros Hf. revert seen out. induction ts as [|t ts IH]; intros seen out; simpl; [done|].
  destruct (spz_split_key_value t) as [e|[k v]] eqn:Es.
  { intros [= <-]. apply split_key_value_errors in Es as ->. apply einval_error. }
  destruct (field k v out) as [[[bit result] out']|] eqn:E; [|intros [= <-]; apply einval_error].
  destruct (negb (Z.land _ _ =? 0)); [intros [= <-]; apply einval_error|].
  destruct (result =? 0) eqn:Hr; simpl; [apply IH|]. intros [= <-]. apply Hf in E as [->|?]; done.
Qed.

Lemma parse_verb_errors tokens r : parse_verb tokens = inl r -> number_error r.
Proof.
  assert (forall ts, fields_loop bind_field ts 0 zero_bind = inl r -> number_error r)
    by (intros ts; apply fields_loop_errors; field_errors).
  assert (forall ts, fields_loop break_field ts 0 zero_break = inl r -> number_error r)
    by (intros ts; apply fields_loop_errors; field_errors).
  assert (forall ts, fields_loop maps_read_field ts 0 zero_maps_read = inl r -> number_error r)
    by (intros ts; apply fields_loop_errors; field_errors).
  unfold parse_verb, spz_parse_no_args, spz_parse_bind, spz_parse_break, spz_parse_id, spz_parse_poll, spz_parse_maps_read.
  intros Hv. cbv zeta in Hv. repeat case_match; simplify_eq; eauto with spz.
Qed.

Lemma tokenize_loop_errors steps index start tokens input r input' :
  tokenize_loop steps index start tokens input = (inl r, input') -> r = - EINVAL \/ r = - E2BIG.
Proof.
  revert index start tokens input. induction steps as [|steps IH]; intros index start tokens input; simpl; [done|].
  repeat case_match; first [apply IH | intros [= <- _]; by (left + right)].
Qed.

Lemma tokenize_errors input n r input' :
  spz_tokenize input n = (inl r, input') -> r = - EINVAL \/ r = - E2BIG.
Proof.
  unfold spz_tokenize. case_match; [intros [= <- _]; by left|].
  destruct (tokenize_loop _ _ _ _ _) as [[?|[]] ?] eqn:E; [intros [= <- _]; by eapply tokenize_loop_errors|].
  case_match; [intros [= <- _]; by right|done].
Qed.

(** ** The language *)

(** A line of at most 512 bytes whose words are a sentence of the grammar. *)
Definition command_line (line : list Z) (c : spz_command) : Prop :=
  (length line <= SPZ_MAX_COMMAND)%nat /\
  exists ws, line = join_line ws /\ Forall is_word ws /\ (1 <= length ws <= SPZ_MAX_TOKENS)%nat /\
    command_grammar ws c.

(** What the parser accepts is a command line. *)
Lemma parse_command_sound line tail out c line' :
  spz_parse_command (Some (line ++ tail)) (length line) (Some out) = (0, Some line', Some c) ->
  line <> [] /\ command_line line c.
Proof.
  unfold spz_parse_command, command_line. intros H. destruct line as [|b line]; [done|]. split; [done|].
  rewrite bool_decide_eq_false_2 in H by done. case_bool_decide as Hlen; [done|]. split; [lia|].
  destruct (spz_tokenize _ _) as [[r|toks] l] eqn:Htok; simplify_eq.
  { by apply tokenize_errors in Htok as [?|?]. }
  destruct (parse_verb _) as [r|parsed] eqn:Hv; simplify_eq; [by apply parse_verb_errors in Hv as [?|?]|].
  apply tokenize_sound in Htok as (Hline & Hws & Hn); [|done]. apply parse_verb_sound in Hv.
  exists (map (token_bytes line') toks). rewrite length_map. exact (conj Hline (conj Hws (conj Hn Hv))).
Qed.

(** C20: the parser accepts exactly the command lines, whatever bytes follow the
    line in its buffer, and leaves the command the line denotes in [*out]. *)
Theorem parse_command_accepts_language line tail out c :
  (exists line', spz_parse_command (Some (line ++ tail)) (length line) (Some out) = (0, Some line', Some c)) <->
  line <> [] /\ command_line line c.
Proof.
  split; [intros [line' H]; by eapply parse_command_sound|].
  intros (Hne & Hlen & ws & -> & Hws & Hn & Hg). unfold spz_parse_command.
  destruct (tokenize_complete ws tail Hws Hn) as (toks & line' & Htok & <-).
  rewrite Htok. rewrite !bool_decide_eq_false_2 by (lia || by rewrite length_zero_iff_nil).
  apply parse_verb_complete in Hg. rewrite Hg. by eexists.
Qed.

(** The line afterwards: some of its spaces are NUL, nothing else changed. *)
Definition cut (a b : Z) : Prop := b = a \/ (a = space /\ b = 0).

Lemma cut_refl l : Forall2 cut l l.
Proof. apply Forall_Forall2_diag, Forall_true. by left. Qed.

Lemma cut_trans l1 l2 l3 : Forall2 cut l1 l2 -> Forall2 cut l2 l3 -> Forall2 cut l1 l3.
Proof. apply Forall2_trans. unfold cut. naive_solver. Qed.

Lemma cut_insert (l : list Z) i : l !!! i = space -> Forall2 cut l (<[i := 0]> l).
Proof.
  intros Hi. destruct (l !! i) as [x|] eqn:Hx.
  - rewrite <- (list_insert_id l i x Hx) at 1. apply Forall2_insert; [apply cut_refl|].
    apply list_lookup_total_correct in Hx. right. split; [congruence|done].
  - rewrite list_insert_ge; [apply cut_refl|]. by apply lookup_ge_None.
Qed.

Lemma tokenize_loop_cuts steps index start tokens input :
  Forall2 cut input (tokenize_loop steps index start tokens input).2.
Proof.
  revert index start tokens input. induction steps as [|steps IH]; intros index start tokens input; simpl.
  { apply cut_refl. }
  repeat case_match; try apply cut_refl; try apply IH.
  eapply cut_trans; [apply cut_insert|apply IH]. unfold space. lia.
Qed.

Lemma tokenize_cuts input n : Forall2 cut input (spz_tokenize input n).2.
Proof.
  unfold spz_tokenize. case_match; [apply cut_refl|].
  pose proof (tokenize_loop_cuts n 0 0 [] input) as H'. by destruct (tokenize_loop _ _ _ _ _) as [? ?].
Qed.

(** A line that is refused leaves a zeroed command and one of three codes;
    accepted or not, parsing only turns spaces of the line into NUL. *)
Theorem parse_command_refusals line n out result line' out' :
  spz_parse_command (Some line) n (Some out) = (result, Some line', Some out') ->
  Forall2 cut line line' /\
  (result <> 0 ->
   (result = - EINVAL \/ result = - ERANGE \/ result = - E2BIG) /\
   (n <> 0%nat -> out' = zero_command) /\
   ((SPZ_MAX_COMMAND < n)%nat -> result = - E2BIG /\ line' = line)).
Proof.
  unfold spz_parse_command. case_bool_decide as Hn.
  { intros [= <- <- <-]. split; [apply cut_refl|]. intros _. split_and!; [by left|done|unfold SPZ_MAX_COMMAND; lia]. }
  case_bool_decide as Hlen; [intros [= <- <- <-]; split; [apply cut_refl|]; tauto|].
  pose proof (tokenize_cuts line n) as Hcuts. destruct (spz_tokenize line n) as [[r|toks] l] eqn:Htok; simpl in Hcuts.
  - intros [= <- <- <-]. apply tokenize_errors in Htok. split; [done|]. intros _. split_and!; [tauto|done|lia].
  - destruct (parse_verb _) eqn:Hv; intros [= <- <- <-]; (split; [done|]); [|done].
    apply parse_verb_errors in Hv. unfold number_error in Hv. intros _. split_and!; [tauto|done|lia].
Qed.

Definition demo_refused : list Z := str "bind pid=77  mode=tgid".
Definition demo_refused_cut : list Z := str "bind" ++ [0] ++ str "pid=77" ++ [0] ++ str " mode=tgid".

Lemma parse_command_refusals_witness :
  Forall2 cut demo_refused demo_refused_cut /\
  (- EINVAL <> 0 ->
   (- EINVAL = - EINVAL \/ - EINVAL = - ERANGE \/ - EINVAL = - E2BIG) /\
   (length demo_refused <> 0%nat -> zero_command = zero_command) /\
   ((SPZ_MAX_COMMAND < length demo_refused)%nat -> - EINVAL = - E2BIG /\ demo_refused_cut = demo_refused)).
Proof.
  apply (parse_command_refusals demo_refused (length demo_refused) zero_command (- EINVAL)).
  vm_compute. reflexivity.
Defined.
