(* ===== verification/Maps.v ===== *)
(** * Memory-map snapshots (kpm/core/maps.c)

    A retained task, a rendered snapshot of its memory map and the chunks it is
    read in. The operations call a backend (kpm/platform/kpatch/maps.c) that
    retains tasks and renders buffers; here it is a table of functions that answer
    from the calls made so far, and the calls are recorded. MapsLock.v treats the
    interleaving of readers and writers. *)

From S2P Require Import Prelude Crc32.

Definition SPZ_MAPS_WRITER_WAIT_ATTEMPTS : nat := Z.to_nat 100000.
Definition SPZ_MAPS_MAX_SNAPSHOT_BYTES : Z := 16 * 1024 * 1024.
Definition SPZ_MAPS_MAX_CHUNK_BYTES : Z := 1536.

(** ** State (kpm/include/stackplz/maps.h) *)

Inductive spz_maps_state := SPZ_MAPS_UNSUPPORTED | SPZ_MAPS_EMPTY | SPZ_MAPS_TASK_CAPTURED | SPZ_MAPS_READY.

#[export] Instance spz_maps_state_eq : EqDecision spz_maps_state.
Proof. solve_decision. Defined.

(** A rendered buffer: its address and its bytes. *)
Record buffer := { buf_address : Z; buf_bytes : list Z }.

#[export] Instance buffer_eq : EqDecision buffer.
Proof. solve_decision. Defined.

(** The calls to the backend, with their answers. *)
Inductive maps_call :=
| call_retain_task (task result : Z)
| call_release_task (task : Z)
| call_render (task result : Z) (data : option buffer) (length : Z)
| call_release_buffer (data : buffer) (length : Z).

(** [None] is a NULL function pointer. The answers may depend on all the calls
    made before, newest first. *)
Record spz_maps_backend := {
  mb_max_snapshot_bytes : Z;
  mb_max_chunk_bytes : Z;
  mb_retain_task : option (list maps_call -> Z -> Z);
  mb_release_task : option unit;
  mb_render : option (list maps_call -> Z -> Z * option buffer * Z);
  mb_release_buffer : option unit;
}.

(** [task] is the address of the task, [None] for NULL. *)
Record spz_maps := {
  ma_backend : spz_maps_backend;
  ma_task : option Z;
  ma_data : option buffer;
  ma_task_generation : Z;
  ma_snapshot : Z;
  ma_length : Z;
  ma_crc32 : Z;
  ma_state : spz_maps_state;
  ma_writer : Z;
  ma_readers : Z;
}.

(** [data] of a chunk is the bytes from its pointer on. *)
Record spz_maps_read := {
  mr_data : list Z;
  mr_snapshot : Z;
  mr_offset : Z;
  mr_total : Z;
  mr_length : Z;
  mr_crc32 : Z;
  mr_eof : Z;
}.

Record spz_maps_info_t := {
  mi_state : spz_maps_state;
  mi_task_generation : Z;
  mi_snapshot : Z;
  mi_length : Z;
  mi_crc32 : Z;
}.

#[export] Instance spz_maps_shape : Shape spz_maps :=
  shape! Build_spz_maps < ma_backend ; ma_task ; ma_data ; ma_task_generation ; ma_snapshot ; ma_length ;
    ma_crc32 ; ma_state ; ma_writer ; ma_readers >.

Definition null_backend : spz_maps_backend :=
  {| mb_max_snapshot_bytes := 0; mb_max_chunk_bytes := 0; mb_retain_task := None; mb_release_task := None;
     mb_render := None; mb_release_buffer := None |}.

Definition zero_read : spz_maps_read :=
  {| mr_data := []; mr_snapshot := 0; mr_offset := 0; mr_total := 0; mr_length := 0; mr_crc32 := 0; mr_eof := 0 |}.

(** ** Operations

    An operation takes the calls made so far and returns its result, the state
    and the calls. Pointers to the state are references. *)

Definition not_null {A} (p : option A) : bool := match p with Some _ => true | None => false end.

Definition spz_maps_backend_supported (backend : option spz_maps_backend) : bool :=
  match backend with
  | None => false
  | Some backend =>
      not_null (mb_retain_task backend) && not_null (mb_release_task backend) &&
      not_null (mb_render backend) && not_null (mb_release_buffer backend) &&
      negb (mb_max_snapshot_bytes backend =? 0) &&
      (mb_max_snapshot_bytes backend <=? SPZ_MAPS_MAX_SNAPSHOT_BYTES) &&
      negb (mb_max_chunk_bytes backend =? 0) && (mb_max_chunk_bytes backend <=? SPZ_MAPS_MAX_CHUNK_BYTES)
  end.

(** The calls through the table, recorded. *)
Definition retain_task (maps : spz_maps) (task : Z) (calls : list maps_call) : Z * list maps_call :=
  match mb_retain_task (ma_backend maps) with
  | Some f => let result := f calls task in (result, call_retain_task task result :: calls)
  | None => (0, calls)
  end.

Definition render (maps : spz_maps) (task : Z) (calls : list maps_call) : Z * option buffer * Z * list maps_call :=
  match mb_render (ma_backend maps) with
  | Some f => let '(result, data, length) := f calls task in
              (result, data, length, call_render task result data length :: calls)
  | None => (0, None, 0, calls)
  end.

Definition release_buffer (data : option buffer) (length : Z) (calls : list maps_call) : list maps_call :=
  match data with Some data => call_release_buffer data length :: calls | None => calls end.

Definition release_task (task : option Z) (calls : list maps_call) : list maps_call :=
  match task with Some task => call_release_task task :: calls | None => calls end.

(** Waiting for the readers; here none of them moves meanwhile. *)
Fixpoint writer_wait (attempts : nat) (maps : spz_maps) : bool :=
  match attempts with
  | O => false
  | S attempts => if ma_readers maps =? 0 then true else writer_wait attempts maps
  end.

Definition spz_maps_write_begin (maps : spz_maps) : Z * spz_maps :=
  if negb (ma_writer maps =? 0) then (- EBUSY, maps)
  else
    let maps := maps <| ma_writer := 1 |> in
    if writer_wait SPZ_MAPS_WRITER_WAIT_ATTEMPTS maps then (0, maps)
    else (- EBUSY, maps <| ma_writer := 0 |>).

Definition spz_maps_write_end (maps : spz_maps) : spz_maps := maps <| ma_writer := 0 |>.

Definition spz_maps_init (backend : option spz_maps_backend) : spz_maps :=
  {| ma_backend := default null_backend backend; ma_task := None; ma_data := None; ma_task_generation := 0;
     ma_snapshot := 0; ma_length := 0; ma_crc32 := 0;
     ma_state := if spz_maps_backend_supported backend then SPZ_MAPS_EMPTY else SPZ_MAPS_UNSUPPORTED;
     ma_writer := 0; ma_readers := 0 |}.

Definition spz_maps_supported (maps : spz_maps) : bool := bool_decide (ma_state maps <> SPZ_MAPS_UNSUPPORTED).

Definition spz_maps_has_task (maps : spz_maps) : bool :=
  if negb (spz_maps_supported maps) then false else not_null (ma_task maps).

Definition spz_maps_capture_task (maps : spz_maps) (task : option Z) (generation : Z) (calls : list maps_call)
  : Z * spz_maps * list maps_call :=
  match task with
  | None => (- EINVAL, maps, calls)
  | Some task =>
      if generation =? 0 then (- EINVAL, maps, calls)
      else if negb (spz_maps_supported maps) then (- EOPNOTSUPP, maps, calls)
      else
        let '(result, maps) := spz_maps_write_begin maps in
        if negb (result =? 0) then (result, maps, calls)
        else
          match ma_task maps with
          | Some current =>
              (if (current =? task) && (ma_task_generation maps =? generation) then 0 else - EBUSY,
               spz_maps_write_end maps, calls)
          | None =>
              let '(result, calls) := retain_task maps task calls in
              let maps :=
                if result =? 0 then
                  maps <| ma_task := Some task |> <| ma_task_generation := generation |>
                       <| ma_state := SPZ_MAPS_TASK_CAPTURED |>
                else maps in
              (result, spz_maps_write_end maps, calls)
          end
  end.

Definition spz_maps_snapshot (maps : spz_maps) (generation snapshot : Z) (calls : list maps_call)
  : Z * spz_maps * list maps_call :=
  if (generation =? 0) || (snapshot =? 0) then (- EINVAL, maps, calls)
  else if negb (spz_maps_supported maps) then (- EOPNOTSUPP, maps, calls)
  else
    let '(result, maps) := spz_maps_write_begin maps in
    if negb (result =? 0) then (result, maps, calls)
    else
      match ma_task maps with
      | Some task =>
          if negb (ma_task_generation maps =? generation) then (- ESTALE, spz_maps_write_end maps, calls)
          else
            let '(result, new_data, new_length, calls) := render maps task calls in
            if negb (result =? 0) then
              (result, spz_maps_write_end maps, release_buffer new_data new_length calls)
            else
              match new_data with
              | Some data =>
                  if (new_length =? 0) || (mb_max_snapshot_bytes (ma_backend maps) <? new_length) then
                    (if mb_max_snapshot_bytes (ma_backend maps) <? new_length then - E2BIG else - EUCLEAN,
                     spz_maps_write_end maps, release_buffer new_data new_length calls)
                  else
                    let old_data := ma_data maps in
                    let old_length := ma_length maps in
                    let maps :=
                      maps <| ma_data := new_data |> <| ma_length := new_length |>
                           <| ma_crc32 := spz_crc32_ieee (Some (buf_bytes data)) (Z.to_nat new_length) |>
                           <| ma_snapshot := snapshot |> <| ma_state := SPZ_MAPS_READY |> in
                    (0, spz_maps_write_end maps, release_buffer old_data old_length calls)
              | None =>
                  (if mb_max_snapshot_bytes (ma_backend maps) <? new_length then - E2BIG else - EUCLEAN,
                   spz_maps_write_end maps, calls)
              end
      | None => (- ESTALE, spz_maps_write_end maps, calls)
      end.

(** The result, the state and the chunk; the reader is counted until [read_end]. *)
Definition spz_maps_read_begin (maps : spz_maps) (snapshot offset : Z) : Z * spz_maps * spz_maps_read :=
  if snapshot =? 0 then (- EINVAL, maps, zero_read)
  else if negb (spz_maps_supported maps) then (- EOPNOTSUPP, maps, zero_read)
  else if negb (ma_writer maps =? 0) then (- EBUSY, maps, zero_read)
  else
    let counted := maps <| ma_readers := u32 (ma_readers maps + 1) |> in
    let uncounted := counted <| ma_readers := u32 (ma_readers counted - 1) |> in
    if negb (ma_writer counted =? 0) then (- EBUSY, uncounted, zero_read)
    else
      let refused := (if negb (ma_snapshot maps =? snapshot) then - ESTALE else - ERANGE, uncounted, zero_read) in
      match ma_data maps with
      | None => refused
      | Some data =>
          if bool_decide (ma_state maps <> SPZ_MAPS_READY) || negb (ma_snapshot maps =? snapshot) ||
             (ma_length maps <=? offset) then refused
          else
            let remaining := u32 (ma_length maps - offset) in
            let length :=
              if remaining <? mb_max_chunk_bytes (ma_backend maps) then remaining
              else mb_max_chunk_bytes (ma_backend maps) in
            (0, counted,
             {| mr_data := drop (Z.to_nat offset) (buf_bytes data); mr_snapshot := ma_snapshot maps;
                mr_offset := offset; mr_total := ma_length maps; mr_length := length; mr_crc32 := ma_crc32 maps;
                mr_eof := if length =? remaining then 1 else 0 |})
      end.

Definition spz_maps_read_end (maps : spz_maps) : spz_maps := maps <| ma_readers := u32 (ma_readers maps - 1) |>.

Definition spz_maps_info (maps : spz_maps) : spz_maps_info_t :=
  {| mi_state := ma_state maps; mi_task_generation := ma_task_generation maps; mi_snapshot := ma_snapshot maps;
     mi_length := ma_length maps; mi_crc32 := ma_crc32 maps |}.

Definition spz_maps_clear (maps : spz_maps) (calls : list maps_call) : Z * spz_maps * list maps_call :=
  if negb (spz_maps_supported maps) then (0, maps, calls)
  else
    let '(result, maps) := spz_maps_write_begin maps in
    if negb (result =? 0) then (result, maps, calls)
    else
      let task := ma_task maps in
      let data := ma_data maps in
      let length := ma_length maps in
      let maps :=
        {| ma_backend := ma_backend maps; ma_task := None; ma_data := None; ma_task_generation := 0;
           ma_snapshot := 0; ma_length := 0; ma_crc32 := 0; ma_state := SPZ_MAPS_EMPTY;
           ma_writer := ma_writer maps; ma_readers := ma_readers maps |} in
      (0, spz_maps_write_end maps, release_task task (release_buffer data length calls)).
