(* ===== verification/MapsSpec.v ===== *)
(** * Snapshots: ownership and reading

    Over any sequence of operations of kpm/core/maps.c every task and buffer the
    backend handed out is given back exactly once, and reading a snapshot chunk by
    chunk yields exactly its bytes. *)

From stdpp Require Import relations.
From S2P Require Import Prelude Crc32 Maps.

(** What the operations rely on from a backend: a rendered buffer holds the
    [length] bytes it is announced with (a 32-bit number,
    as the chunk size is). *)
Class MapsBackend (backend : spz_maps_backend) := {
  chunk_width : is_u32 (mb_max_chunk_bytes backend);
  render_fits f calls task result data length :
    mb_render backend = Some f -> f calls task = (result, data, length) ->
    is_u32 length /\ forall b, data = Some b -> (Z.to_nat length <= List.length (buf_bytes b))%nat;
}.

(** ** Ownership *)

Definition is_retain (t : Z) (c : maps_call) : Z :=
  match c with call_retain_task t' 0 => if t' =? t then 1 else 0 | _ => 0 end.
Definition is_task_release (t : Z) (c : maps_call) : Z :=
  match c with call_release_task t' => if t' =? t then 1 else 0 | _ => 0 end.
Definition is_rendered (b : buffer) (length : Z) (c : maps_call) : Z :=
  match c with
  | call_render _ _ (Some b') length' => if bool_decide (b' = b) && (length' =? length) then 1 else 0
  | _ => 0
  end.
Definition is_buffer_release (b : buffer) (length : Z) (c : maps_call) : Z :=
  match c with
  | call_release_buffer b' length' => if bool_decide (b' = b) && (length' =? length) then 1 else 0
  | _ => 0
  end.

Fixpoint count_calls (f : maps_call -> Z) (calls : list maps_call) : Z :=
  match calls with [] => 0 | c :: calls => f c + count_calls f calls end.

(** Retains minus releases of a task, and renders minus releases of a buffer. *)
Definition task_balance (t : Z) (calls : list maps_call) : Z :=
  count_calls (is_retain t) calls - count_calls (is_task_release t) calls.
Definition buffer_balance (b : buffer) (length : Z) (calls : list maps_call) : Z :=
  count_calls (is_rendered b length) calls - count_calls (is_buffer_release b length) calls.

Definition owns_task (maps : spz_maps) (t : Z) : Z :=
  match ma_task maps with Some t' => if t' =? t then 1 else 0 | None => 0 end.
Definition owns_buffer (maps : spz_maps) (b : buffer) (length : Z) : Z :=
  match ma_data maps with Some b' => if bool_decide (b' = b) && (ma_length maps =? length) then 1 else 0 | None => 0 end.

(** What is handed out and not given back is what the state holds. *)
Definition ledger (maps : spz_maps) (calls : list maps_call) : Prop :=
  (forall t, task_balance t calls = owns_task maps t) /\
  (forall b length, buffer_balance b length calls = owns_buffer maps b length).

(** ** Well-formed states *)

Definition maps_content (maps : spz_maps) : Prop :=
  match ma_state maps with
  | SPZ_MAPS_UNSUPPORTED => ma_task maps = None /\ ma_data maps = None
  | SPZ_MAPS_EMPTY =>
      ma_task maps = None /\ ma_data maps = None /\ ma_task_generation maps = 0 /\ ma_snapshot maps = 0 /\
      ma_length maps = 0 /\ ma_crc32 maps = 0
  | SPZ_MAPS_TASK_CAPTURED =>
      (exists t, ma_task maps = Some t) /\ ma_data maps = None /\ ma_task_generation maps <> 0 /\
      ma_snapshot maps = 0 /\ ma_length maps = 0 /\ ma_crc32 maps = 0
  | SPZ_MAPS_READY =>
      (exists t, ma_task maps = Some t) /\ ma_task_generation maps <> 0 /\ ma_snapshot maps <> 0 /\
      0 < ma_length maps <= mb_max_snapshot_bytes (ma_backend maps) /\
      exists b, ma_data maps = Some b /\ (Z.to_nat (ma_length maps) <= List.length (buf_bytes b))%nat /\
        ma_crc32 maps = crc_of (take (Z.to_nat (ma_length maps)) (buf_bytes b))
  end.

Record maps_wf (backend : spz_maps_backend) (maps : spz_maps) : Prop := {
  mw_backend : ma_backend maps = backend;
  mw_supported : ma_state maps <> SPZ_MAPS_UNSUPPORTED -> spz_maps_backend_supported (Some backend) = true;
  mw_writer : ma_writer maps = 0;
  mw_readers : is_u32 (ma_readers maps);
  mw_content : maps_content maps;
}.

(** ** Runs: any sequence of operations, a read closed only after it was opened *)

Inductive maps_step : spz_maps * list maps_call -> spz_maps * list maps_call -> Prop :=
| step_capture maps calls task generation result maps' calls' :
    spz_maps_capture_task maps task generation calls = (result, maps', calls') ->
    maps_step (maps, calls) (maps', calls')
| step_snapshot maps calls generation snapshot result maps' calls' :
    spz_maps_snapshot maps generation snapshot calls = (result, maps', calls') ->
    maps_step (maps, calls) (maps', calls')
| step_read_begin maps calls snapshot offset result maps' chunk :
    ma_readers maps < UINT32_MAX ->
    spz_maps_read_begin maps snapshot offset = (result, maps', chunk) ->
    maps_step (maps, calls) (maps', calls)
| step_read_end maps calls :
    0 < ma_readers maps -> maps_step (maps, calls) (spz_maps_read_end maps, calls)
| step_clear maps calls result maps' calls' :
    spz_maps_clear maps calls = (result, maps', calls') ->
    maps_step (maps, calls) (maps', calls').

(** ** The writer lock, run alone *)

Lemma writer_wait_eq n maps : writer_wait (S n) maps = (ma_readers maps =? 0).
Proof.
  induction n as [|n IH].
  - cbn [writer_wait]. by destruct (ma_readers maps =? 0).
  - change (writer_wait (S (S n)) maps) with (if ma_readers maps =? 0 then true else writer_wait (S n) maps).
    rewrite IH. by destruct (ma_readers maps =? 0).
Qed.

Lemma write_begin_eq maps :
  ma_writer maps = 0 ->
  spz_maps_write_begin maps =
  if ma_readers maps =? 0 then (0, maps <| ma_writer := 1 |>) else (- EBUSY, maps).
Proof.
  intros Hw. unfold spz_maps_write_begin. rewrite Hw. cbn [negb Z.eqb].
  unfold SPZ_MAPS_WRITER_WAIT_ATTEMPTS.
  destruct (Z.to_nat 100000) as [|n] eqn:E; [apply (f_equal Z.of_nat) in E; rewrite Z2Nat.id in E; lia|].
  rewrite writer_wait_eq. change (ma_readers (maps <| ma_writer := 1 |>)) with (ma_readers maps).
  destruct (ma_readers maps =? 0); [done|]. f_equal. destruct maps; cbn in *. by rewrite Hw.
Qed.

Lemma write_end_begin maps : ma_writer maps = 0 -> spz_maps_write_end (maps <| ma_writer := 1 |>) = maps.
Proof. destruct maps; cbn. by intros ->. Qed.

(** ** Every operation keeps the state well-formed and the ledger balanced *)

Lemma task_balance_cons t c calls :
  task_balance t (c :: calls) = is_retain t c - is_task_release t c + task_balance t calls.
Proof. unfold task_balance. simpl. lia. Qed.

Lemma buffer_balance_cons b n c calls :
  buffer_balance b n (c :: calls) = is_rendered b n c - is_buffer_release b n c + buffer_balance b n calls.
Proof. unfold buffer_balance. simpl. lia. Qed.

Lemma task_balance_release_buffer t data n calls :
  task_balance t (release_buffer data n calls) = task_balance t calls.
Proof. destruct data; [|done]. simpl. rewrite task_balance_cons. simpl. lia. Qed.

Lemma buffer_balance_release_buffer b n data m calls :
  buffer_balance b n (release_buffer data m calls) =
  buffer_balance b n calls -
  match data with Some b' => if bool_decide (b' = b) && (m =? n) then 1 else 0 | None => 0 end.
Proof. destruct data; simpl; [rewrite buffer_balance_cons; simpl|]; lia. Qed.

Lemma task_balance_release_task t task calls :
  task_balance t (release_task task calls) =
  task_balance t calls - match task with Some t' => if t' =? t then 1 else 0 | None => 0 end.
Proof. destruct task; simpl; [rewrite task_balance_cons; simpl|]; lia. Qed.

Lemma buffer_balance_release_task b n task calls :
  buffer_balance b n (release_task task calls) = buffer_balance b n calls.
Proof. destruct task; [|done]. simpl. rewrite buffer_balance_cons. simpl. lia. Qed.

Create Rewrite HintDb maps_ledger.
#[export] Hint Rewrite task_balance_cons buffer_balance_cons task_balance_release_buffer buffer_balance_release_buffer
  task_balance_release_task buffer_balance_release_task : maps_ledger.

#[local] Arguments spz_maps_backend_supported : simpl never.
#[local] Arguments spz_maps_supported : simpl never.

(** The operation returned early. *)
Ltac unchanged H := cbn [negb Z.eqb] in H; injection H as <- <- <-; by split.

Section preservation.
Context (backend : spz_maps_backend) {sound : MapsBackend backend}.

Definition maps_inv (maps : spz_maps) (calls : list maps_call) : Prop := maps_wf backend maps /\ ledger maps calls.

Lemma supported_true maps : spz_maps_supported maps = true -> ma_state maps <> SPZ_MAPS_UNSUPPORTED.
Proof. apply bool_decide_eq_true. Qed.

Lemma supported_state maps :
  maps_wf backend maps -> spz_maps_supported maps = true -> ma_task maps = None -> ma_state maps = SPZ_MAPS_EMPTY.
Proof.
  intros Hwf Hs%bool_decide_eq_true Ht. pose proof (mw_content _ _ Hwf) as Hc. unfold maps_content in Hc.
  destruct (ma_state maps); [done|done|destruct Hc as ((? & ?) & _)..]; congruence.
Qed.

Lemma supported_ops maps :
  maps_wf backend maps -> spz_maps_supported maps = true ->
  exists retain rend, mb_retain_task backend = Some retain /\ mb_render backend = Some rend.
Proof.
  intros Hwf Hs%bool_decide_eq_true. pose proof (mw_supported _ _ Hwf Hs) as Hb. unfold spz_maps_backend_supported in Hb.
  destruct (mb_retain_task backend) as [f|]; [|done]. destruct (mb_render backend) as [g|]; [by exists f, g|].
  cbn in Hb. by destruct (not_null (mb_release_task backend)).
Qed.

Lemma capture_inv maps calls task generation result maps' calls' :
  maps_inv maps calls -> spz_maps_capture_task maps task generation calls = (result, maps', calls') ->
  maps_inv maps' calls'.
Proof.
  intros [Hwf Hl] H. unfold spz_maps_capture_task in H. destruct task as [task|]; [|unchanged H].
  destruct (generation =? 0) eqn:Hg; [unchanged H|].
  destruct (spz_maps_supported maps) eqn:Hs; [|unchanged H]. cbn [negb] in H.
  rewrite write_begin_eq in H by apply Hwf. destruct (ma_readers maps =? 0) eqn:Hr; [|unchanged H].
  cbn [negb Z.eqb] in H. change (ma_task (maps <| ma_writer := 1 |>)) with (ma_task maps) in H.
  destruct (ma_task maps) as [current|] eqn:Ht.
  { rewrite write_end_begin in H by apply Hwf. unchanged H. }
  destruct (supported_ops maps Hwf Hs) as (f & _ & Hf & _).
  unfold retain_task in H. change (ma_backend (maps <| ma_writer := 1 |>)) with (ma_backend maps) in H.
  rewrite (mw_backend _ _ Hwf), Hf in H.
  pose proof (supported_state maps Hwf Hs Ht) as Hstate.
  destruct Hwf as [Hb Hsup Hw Hrd Hc], Hl as [Hlt Hlb]. unfold maps_content in Hc. rewrite Hstate in Hc.
  destruct Hc as (_ & Hd & Hg0 & Hsn & Hle & Hcr).
  destruct maps as [mb mt md mg msn mle mcr mst mwr mrd]. cbn in *. subst.
  destruct (f calls task =? 0) eqn:Hres; injection H as <- <- <-.
  - apply Z.eqb_eq in Hres. rewrite Hres. split.
    + split; cbn; try done; [intros _; by apply Hsup|]. unfold maps_content. cbn. split_and!; [by eexists|done|lia|done..].
    + split; cbn; intros; autorewrite with maps_ledger; cbn; rewrite ?Hlt, ?Hlb; unfold owns_task, owns_buffer; cbn; lia.
  - split.
    + by split; cbn.
    + split; cbn; intros; autorewrite with maps_ledger; cbn; rewrite ?Hlt, ?Hlb; unfold owns_task, owns_buffer; cbn;
        [|lia]. by destruct (f calls task).
Qed.

Lemma snapshot_inv maps calls generation snapshot result maps' calls' :
  maps_inv maps calls -> spz_maps_snapshot maps generation snapshot calls = (result, maps', calls') ->
  maps_inv maps' calls'.
Proof.
  intros [Hwf Hl] H. unfold spz_maps_snapshot in H. destruct (_ || _) eqn:Hg; [unchanged H|].
  destruct (spz_maps_supported maps) eqn:Hs; [|unchanged H]. cbn [negb] in H.
  rewrite write_begin_eq in H by apply Hwf. destruct (ma_readers maps =? 0) eqn:Hr; [|unchanged H].
  cbn [negb Z.eqb] in H. change (ma_task (maps <| ma_writer := 1 |>)) with (ma_task maps) in H.
  destruct (ma_task maps) as [task|] eqn:Ht; [|rewrite write_end_begin in H by apply Hwf; unchanged H].
  destruct (_ =? generation) eqn:Hgen; cbn [negb] in H; [|rewrite write_end_begin in H by apply Hwf; unchanged H].
  destruct (supported_ops maps Hwf Hs) as (_ & f & _ & Hf).
  unfold render in H. change (ma_backend (maps <| ma_writer := 1 |>)) with (ma_backend maps) in H.
  rewrite (mw_backend _ _ Hwf), Hf in H. destruct (f calls task) as [[r data] n] eqn:Hcall.
  destruct (render_fits f calls task r data n Hf Hcall) as [Hn Hfits].
  destruct Hl as [Hlt Hlb].
  assert (forall calls', (forall t, task_balance t calls' = task_balance t calls) ->
            (forall b m, buffer_balance b m calls' = buffer_balance b m calls) -> maps_inv maps calls') as Hsame.
  { intros calls1 H1 H2. split; [done|]. split; intros; by rewrite ?H1, ?H2. }
  destruct (r =? 0) eqn:Hres; cbn [negb] in H.
  2:{ rewrite write_end_begin in H by apply Hwf. injection H as <- <- <-. apply Hsame; intros;
        autorewrite with maps_ledger; cbn; [lia|]. destruct data; lia. }
  destruct data as [b|].
  2:{ rewrite write_end_begin in H by apply Hwf. injection H as <- <- <-. apply Hsame; intros;
        autorewrite with maps_ledger; cbn; lia. }
  destruct ((n =? 0) || _) eqn:Hrange.
  { rewrite write_end_begin in H by apply Hwf. injection H as <- <- <-. apply Hsame; intros;
      autorewrite with maps_ledger; cbn; lia. }
  injection H as <- <- <-. clear Hsame. specialize (Hfits b eq_refl).
  destruct Hwf as [Hb Hsup Hw Hrd Hc].
  assert (ma_task_generation maps <> 0) as Hgen0 by (change ((ma_task_generation maps =? generation) = true) in Hgen; lia).
  destruct maps as [mb mt md mg msn mle mcr mst mwr mrd]. cbn in *. subst. split.
  - split; cbn; try done; [intros _; exact (Hsup (supported_true _ Hs))|]. unfold maps_content. cbn.
    split_and!; [by eexists|done|lia|lia|lia|]. exists b. split_and!; [done|done|].
    unfold crc_of. rewrite length_take, Nat.min_l by done. simpl. by rewrite take_take, Nat.min_id.
  - split; cbn; intros; autorewrite with maps_ledger; cbn; rewrite ?Hlt, ?Hlb; unfold owns_task, owns_buffer; cbn;
      [lia|]. destruct md; lia.
Qed.

Lemma read_begin_inv maps calls snapshot offset result maps' chunk :
  maps_inv maps calls -> ma_readers maps < UINT32_MAX ->
  spz_maps_read_begin maps snapshot offset = (result, maps', chunk) -> maps_inv maps' calls.
Proof.
  intros [Hwf Hl] Hmax H. assert (maps_inv maps calls) as Hinv by done.
  assert (exists rd, maps' = maps <| ma_readers := rd |> /\ is_u32 rd) as (rd & -> & Hrd).
  { pose proof (mw_readers _ _ Hwf). unfold spz_maps_read_begin in H.
    assert (exists rd, maps = maps <| ma_readers := rd |> /\ is_u32 rd) as Hself
      by (exists (ma_readers maps); by destruct maps).
    repeat case_match; simplify_eq; try exact Hself; eexists; (split; [reflexivity|zlia]). }
  destruct Hwf as [Hb Hsup Hw _ Hc], Hl as [Hlt Hlb]. destruct maps. by split; [split|].
Qed.

Lemma read_end_inv maps calls :
  maps_inv maps calls -> 0 < ma_readers maps -> maps_inv (spz_maps_read_end maps) calls.
Proof.
  intros [[Hb Hsup Hw Hrd Hc] [Hlt Hlb]] Hpos. destruct maps; cbn in *. split; [split; cbn; try done; zlia|done].
Qed.

Lemma clear_inv maps calls result maps' calls' :
  maps_inv maps calls -> spz_maps_clear maps calls = (result, maps', calls') -> maps_inv maps' calls'.
Proof.
  intros [Hwf Hl] H. unfold spz_maps_clear in H.
  destruct (spz_maps_supported maps) eqn:Hs; [|unchanged H]. cbn [negb] in H.
  rewrite write_begin_eq in H by apply Hwf. destruct (ma_readers maps =? 0) eqn:Hr; [|unchanged H].
  injection H as <- <- <-. destruct Hwf as [Hb Hsup Hw Hrd Hc], Hl as [Hlt Hlb].
  destruct maps as [mb mt md mg msn mle mcr mst mwr mrd]. cbn in *. subst. split.
  - split; cbn; try done. intros _. exact (Hsup (supported_true _ Hs)).
  - split; cbn; intros; autorewrite with maps_ledger; rewrite ?Hlt, ?Hlb; unfold owns_task, owns_buffer; cbn; lia.
Qed.

Lemma init_inv : maps_inv (spz_maps_init (Some backend)) [].
Proof.
  split; [split; cbn; try done|split; done].
  - by destruct (spz_maps_backend_supported (Some backend)).
  - unfold maps_content. cbn. by destruct (spz_maps_backend_supported (Some backend)).
Qed.

Lemma maps_run_inv maps calls maps' calls' :
  maps_inv maps calls -> rtc maps_step (maps, calls) (maps', calls') -> maps_inv maps' calls'.
Proof.
  intros Hinv Hrun. remember (maps', calls') as s' eqn:Es'. remember (maps, calls) as s eqn:Es.
  revert maps calls Es Hinv. induction Hrun as [s|s s1 s2 Hstep Hrun IH]; intros maps calls -> Hinv.
  - by simplify_eq.
  - destruct s1 as [maps1 calls1]. apply (IH Es' maps1 calls1 eq_refl).
    inversion Hstep; subst; eauto using capture_inv, snapshot_inv, read_begin_inv, read_end_inv, clear_inv.
Qed.
End preservation.

(** ** Reading a snapshot *)

(** The protocol of a client: read from offset 0 on, closing each read, until
    [eof]. [None] when a read fails or [fuel] runs out. *)
Fixpoint read_all (fuel : nat) (maps : spz_maps) (snapshot offset : Z) : option (list Z * spz_maps) :=
  match fuel with
  | O => None
  | S fuel =>
      let '(result, maps, chunk) := spz_maps_read_begin maps snapshot offset in
      if negb (result =? 0) then None
      else
        let bytes := take (Z.to_nat (mr_length chunk)) (mr_data chunk) in
        let maps := spz_maps_read_end maps in
        if mr_eof chunk =? 1 then Some (bytes, maps)
        else
          match read_all fuel maps snapshot (offset + mr_length chunk) with
          | None => None
          | Some (rest, maps) => Some (bytes ++ rest, maps)
          end
  end.

Lemma supported_limits backend :
  spz_maps_backend_supported (Some backend) = true ->
  mb_max_chunk_bytes backend <> 0 /\
  mb_max_snapshot_bytes backend <= SPZ_MAPS_MAX_SNAPSHOT_BYTES.
Proof. unfold spz_maps_backend_supported. intros H. repeat (apply andb_prop in H as [H ?]). lia. Qed.

Lemma read_end_counted maps :
  is_u32 (ma_readers maps) -> ma_readers maps < UINT32_MAX ->
  spz_maps_read_end (maps <| ma_readers := u32 (ma_readers maps + 1) |>) = maps.
Proof.
  destruct maps as [mb mt md mg msn mle mcr mst mwr mrd]. unfold spz_maps_read_end. cbn -[u32].
  intros. assert (u32 (u32 (mrd + 1) - 1) = mrd) as -> by zlia. done.
Qed.

Section reading.
Context (backend : spz_maps_backend) {sound : MapsBackend backend}.

(** A ready snapshot whose bytes are [bytes]. *)
Definition ready (maps : spz_maps) (snapshot : Z) (bytes : list Z) : Prop :=
  maps_wf backend maps /\ ma_state maps = SPZ_MAPS_READY /\ ma_snapshot maps = snapshot /\
  ma_readers maps < UINT32_MAX /\
  exists b, ma_data maps = Some b /\ bytes = take (Z.to_nat (ma_length maps)) (buf_bytes b).

Lemma ready_facts maps snapshot bytes :
  ready maps snapshot bytes ->
  snapshot <> 0 /\ 0 < ma_length maps /\ ma_length maps = Z.of_nat (length bytes) /\
  Z.of_nat (length bytes) <= SPZ_MAPS_MAX_SNAPSHOT_BYTES /\ ma_crc32 maps = crc_of bytes /\
  0 < mb_max_chunk_bytes backend.
Proof.
  intros (Hwf & Hst & Hsn & _ & b & Hd & ->). destruct Hwf as [Hb Hsup _ _ Hc]. unfold maps_content in Hc.
  rewrite Hst, Hd in Hc. destruct Hc as (_ & _ & Hsn0 & Hlen & b' & [= <-] & Hfit & Hcrc).
  destruct (supported_limits backend) as [Hchunk Hmax]; [apply Hsup; by rewrite Hst|].
  pose proof chunk_width. rewrite Hb in Hlen. rewrite length_take, Nat.min_l by done.
  split_and!; [congruence|lia|lia|lia|done|lia].
Qed.

(** One chunk of a ready snapshot. *)
Lemma read_begin_ready maps snapshot bytes offset :
  ready maps snapshot bytes -> 0 <= offset < Z.of_nat (length bytes) ->
  let n := Z.min (Z.of_nat (length bytes) - offset) (mb_max_chunk_bytes backend) in
  exists maps1 chunk, spz_maps_read_begin maps snapshot offset = (0, maps1, chunk) /\
    spz_maps_read_end maps1 = maps /\
    take (Z.to_nat (mr_length chunk)) (mr_data chunk) = take (Z.to_nat n) (drop (Z.to_nat offset) bytes) /\
    mr_length chunk = n /\ mr_eof chunk = (if n =? Z.of_nat (length bytes) - offset then 1 else 0) /\
    mr_crc32 chunk = crc_of bytes /\ mr_total chunk = Z.of_nat (length bytes).
Proof.
  intros Hready Hoff n. destruct (ready_facts maps snapshot bytes Hready) as (Hsn0 & Hpos & Hlen & Hmax & Hcrc & Hchunk).
  destruct Hready as (Hwf & Hst & Hsn & Hrd & b & Hd & Hbytes). destruct Hwf as [Hb _ Hw Hread _].
  unfold SPZ_MAPS_MAX_SNAPSHOT_BYTES in Hmax. subst n.
  assert (Hu : u32 (ma_length maps - offset) = ma_length maps - offset) by zlia.
  assert (Hn : (if ma_length maps - offset <? mb_max_chunk_bytes backend then ma_length maps - offset
                else mb_max_chunk_bytes backend) = Z.min (Z.of_nat (length bytes) - offset) (mb_max_chunk_bytes backend))
    by (destruct (_ <? _) eqn:E; lia).
  unfold spz_maps_read_begin.
  change (ma_writer (maps <| ma_readers := u32 (ma_readers maps + 1) |>)) with (ma_writer maps).
  rewrite Hd, Hst, Hw, Hb, Hu, Hn, Hsn, !Z.eqb_refl, (eqb_ne _ _ Hsn0), (proj2 (Z.leb_gt _ _)) by lia.
  rewrite (bool_decide_eq_false_2 (SPZ_MAPS_READY <> SPZ_MAPS_READY)) by (by intros []).
  replace (spz_maps_supported maps) with true by (unfold spz_maps_supported; by rewrite Hst).
  cbn [negb orb]. do 2 eexists. split; [reflexivity|].
  cbn [mr_length mr_data mr_eof mr_crc32 mr_total]. split_and!; [| |done|by rewrite Hlen|done|done].
  - by apply read_end_counted.
  - subst bytes. rewrite skipn_firstn_comm, take_take. f_equal. rewrite length_take in *. lia.
Qed.

(** The whole snapshot: enough fuel is one unit per byte. *)
Lemma read_all_from fuel maps snapshot bytes offset :
  ready maps snapshot bytes -> 0 <= offset < Z.of_nat (length bytes) ->
  Z.of_nat (length bytes) - offset <= Z.of_nat fuel ->
  read_all fuel maps snapshot offset = Some (drop (Z.to_nat offset) bytes, maps).
Proof.
  intros Hready. revert offset. induction fuel as [|fuel IH]; intros offset Hoff Hfuel; [lia|]. simpl.
  destruct (read_begin_ready maps snapshot bytes offset Hready Hoff) as (maps1 & chunk & -> & -> & -> & -> & -> & _).
  destruct (ready_facts maps snapshot bytes Hready) as (_ & _ & _ & _ & _ & Hchunk). cbn [negb Z.eqb].
  set (n := Z.min _ _). destruct (n =? _) eqn:Heof; cbn [Z.eqb Pos.eqb].
  - rewrite take_ge; [done|]. rewrite length_drop. lia.
  - assert (n = mb_max_chunk_bytes backend) by lia.
    rewrite IH by lia. rewrite Z2Nat.inj_add, <- drop_drop by lia. by rewrite take_drop.
Qed.
End reading.

(** C15: after any run every task and buffer the backend handed out is held by the
    state or was given back, never both and never twice, and the state is well
    formed; after a successful clear nothing is held. *)
Theorem maps_ownership backend maps calls :
  MapsBackend backend -> rtc maps_step (spz_maps_init (Some backend), []) (maps, calls) ->
  maps_wf backend maps /\ ledger maps calls /\
  forall maps' calls', spz_maps_clear maps calls = (0, maps', calls') ->
    forall t b length, task_balance t calls' = 0 /\ buffer_balance b length calls' = 0.
Proof.
  intros Hb Hrun. pose proof (maps_run_inv backend _ _ _ _ (init_inv backend) Hrun) as Hinv.
  split_and!; [apply Hinv..|]. intros maps' calls' Hclear t b length.
  destruct (clear_inv backend _ _ _ _ _ Hinv Hclear) as [Hwf [Ht Hbuf]]. rewrite Ht, Hbuf.
  assert (ma_task maps' = None /\ ma_data maps' = None) as [Et Ed].
  { destruct Hinv as [Hwf0 _]. pose proof (mw_content _ _ Hwf0) as Hc. unfold maps_content in Hc.
    unfold spz_maps_clear, spz_maps_supported in Hclear. case_bool_decide as Hs; cbn [negb] in Hclear.
    - rewrite write_begin_eq in Hclear by apply Hwf0. destruct (ma_readers maps =? 0); [|done].
      by injection Hclear as <- <-.
    - injection Hclear as <- <-. destruct (ma_state maps); [done|first [discriminate | by destruct Hs]..]. }
  unfold owns_task, owns_buffer. by rewrite Et, Ed.
Qed.

(** While a read is open, no operation but its end releases or replaces the
    buffer, or calls the backend at all. *)
Theorem open_read_keeps_buffer backend maps calls maps' calls' :
  maps_wf backend maps -> 0 < ma_readers maps -> maps_step (maps, calls) (maps', calls') ->
  calls' = calls /\ ma_data maps' = ma_data maps /\ ma_task maps' = ma_task maps /\
  ma_length maps' = ma_length maps /\ ma_snapshot maps' = ma_snapshot maps /\ ma_crc32 maps' = ma_crc32 maps.
Proof.
  intros Hwf Hpos Hstep.
  assert (spz_maps_write_begin maps = (- EBUSY, maps)) as Hbusy
    by (rewrite write_begin_eq by apply Hwf; by rewrite (eqb_ne (ma_readers maps) 0) by lia).
  inversion Hstep as [? ? ? ? ? ? ? H|? ? ? ? ? ? ? H|? ? ? ? ? ? ? _ H| |? ? ? ? ? H]; subst.
  - unfold spz_maps_capture_task in H. rewrite Hbusy in H. repeat case_match; by simplify_eq.
  - unfold spz_maps_snapshot in H. rewrite Hbusy in H. repeat case_match; by simplify_eq.
  - unfold spz_maps_read_begin in H. repeat case_match; by simplify_eq.
  - done.
  - unfold spz_maps_clear in H. rewrite Hbusy in H. repeat case_match; by simplify_eq.
Qed.

(** C34: reading a ready snapshot chunk by chunk from offset 0 ends, yields exactly
    its bytes with the CRC-32 every chunk announces, and leaves the state as it was. *)
Theorem reading_yields_snapshot backend maps snapshot bytes :
  MapsBackend backend -> ready backend maps snapshot bytes ->
  read_all (length bytes) maps snapshot 0 = Some (bytes, maps) /\
  forall offset, 0 <= offset < Z.of_nat (length bytes) ->
    exists maps1 chunk, spz_maps_read_begin maps snapshot offset = (0, maps1, chunk) /\
      mr_total chunk = Z.of_nat (length bytes) /\ mr_crc32 chunk = crc_of bytes /\
      0 < mr_length chunk /\ offset + mr_length chunk <= mr_total chunk /\
      (mr_eof chunk = 1 <-> offset + mr_length chunk = mr_total chunk).
Proof.
  intros Hb Hready. destruct (ready_facts backend maps snapshot bytes Hready) as (? & ? & ? & ? & ? & ?). split.
  - rewrite (read_all_from backend (length bytes) maps snapshot bytes 0) by (done || lia). by rewrite drop_0.
  - intros offset Hoff.
    destruct (read_begin_ready backend maps snapshot bytes offset Hready Hoff)
      as (maps1 & chunk & -> & _ & _ & Hlen & Heof & Hcrc & Htot).
    exists maps1, chunk. rewrite Hlen, Htot, Heof. split_and!; [done..|lia|lia|].
    destruct (_ =? _) eqn:E; split; lia.
Qed.

(** ** A concrete backend *)

Definition demo_bytes : list Z := str "7000-8000 r-xp".
Definition demo_buffer : buffer := {| buf_address := 64; buf_bytes := demo_bytes |}.
Definition demo_backend : spz_maps_backend :=
  {| mb_max_snapshot_bytes := 4096; mb_max_chunk_bytes := 5;
     mb_retain_task := Some (fun _ _ => 0); mb_release_task := Some tt;
     mb_render := Some (fun _ _ => (0, Some demo_buffer, 14)); mb_release_buffer := Some tt |}.

#[export] Instance demo_backend_sound : MapsBackend demo_backend.
Proof. split; [cbn; lia|]. intros f calls task result data length [= <-] [= <- <- <-]. split; [lia|]. by intros b [= <-]. Qed.

Definition demo_captured : spz_maps * list maps_call := Eval vm_compute in
  let '(_, maps, calls) := spz_maps_capture_task (spz_maps_init (Some demo_backend)) (Some 100) 1 [] in (maps, calls).
Definition demo_ready : spz_maps * list maps_call := Eval vm_compute in
  let '(_, maps, calls) := spz_maps_snapshot demo_captured.1 1 9 demo_captured.2 in (maps, calls).

Lemma maps_ownership_witness :
  maps_wf demo_backend demo_ready.1 /\ ledger demo_ready.1 demo_ready.2 /\
  forall maps' calls', spz_maps_clear demo_ready.1 demo_ready.2 = (0, maps', calls') ->
    forall t b length, task_balance t calls' = 0 /\ buffer_balance b length calls' = 0.
Proof.
  apply (maps_ownership demo_backend demo_ready.1 demo_ready.2 demo_backend_sound).
  eapply rtc_l; [apply (step_capture _ _ (Some 100) 1 0 demo_captured.1 demo_captured.2); vm_compute; reflexivity|].
  eapply rtc_l; [apply (step_snapshot _ _ 1 9 0 demo_ready.1 demo_ready.2); vm_compute; reflexivity|].
  apply rtc_refl.
Defined.

Definition demo_open : spz_maps := Eval vm_compute in (spz_maps_read_begin demo_ready.1 9 0).1.2.

Lemma demo_ready_wf : maps_wf demo_backend demo_ready.1 /\ maps_wf demo_backend demo_open.
Proof.
  split; (split; [reflexivity|reflexivity|reflexivity|vm_compute; split; discriminate|]);
    (split_and!; [by eexists|done|done|done|done|]; exists demo_buffer; split_and!; [done|by vm_compute|vm_compute; reflexivity]).
Qed.

Lemma open_read_keeps_buffer_witness :
  demo_ready.2 = demo_ready.2 /\ ma_data demo_open = ma_data demo_open /\ ma_task demo_open = ma_task demo_open /\
  ma_length demo_open = ma_length demo_open /\ ma_snapshot demo_open = ma_snapshot demo_open /\
  ma_crc32 demo_open = ma_crc32 demo_open.
Proof.
  apply (open_read_keeps_buffer demo_backend demo_open demo_ready.2 demo_open demo_ready.2);
    [apply demo_ready_wf|reflexivity|].
  apply (step_clear _ _ (- EBUSY)). vm_compute. reflexivity.
Defined.

Lemma reading_yields_snapshot_witness :
  read_all (length demo_bytes) demo_ready.1 9 0 = Some (demo_bytes, demo_ready.1).
Proof.
  apply (reading_yields_snapshot demo_backend demo_ready.1 9 demo_bytes demo_backend_sound).
  split_and!; [apply demo_ready_wf|reflexivity|reflexivity|reflexivity|]. exists demo_buffer. split; vm_compute; reflexivity.
Defined.
