(* ===== verification/MapsLock.v ===== *)
(** * Readers and writers of the snapshot, interleaved

    The two counters of [struct spz_maps] keep the readers of a snapshot and the
    operations that replace it apart (kpm/core/maps.c). Here any number of threads
    run spz_maps_read_begin .. spz_maps_read_end and the writing operations, one
    atomic access at a time, in any order. The accesses are taken to be
    sequentially consistent. *)

From stdpp Require Import relations.
From S2P Require Import Prelude Maps.

(** Where a thread is. [R_] is a reader, [W_] a writer. *)
Inductive thread :=
| Idle
| R_checked                (* saw writer = 0 *)
| R_counted                (* added itself to readers *)
| R_active                 (* saw writer = 0 again: uses the buffer *)
| R_leaving                (* about to subtract itself *)
| W_waiting (attempts : nat)  (* holds writer, polls readers *)
| W_active                 (* saw readers = 0: replaces the buffer *).

Record system := {
  sys_writer : Z;
  sys_readers : Z;
  sys_threads : list thread;
}.

(** One atomic access of one thread: its new position and the two counters. *)
Inductive access : Z * Z * thread -> Z * Z * thread -> Prop :=
(* spz_maps_read_begin *)
| read_first_load w r : w = 0 -> access (w, r, Idle) (w, r, R_checked)
| read_first_busy w r : w <> 0 -> access (w, r, Idle) (w, r, Idle)
| read_count w r : access (w, r, R_checked) (w, u32 (r + 1), R_counted)
| read_second_load w r : w = 0 -> access (w, r, R_counted) (w, r, R_active)
| read_second_busy w r : w <> 0 -> access (w, r, R_counted) (w, r, R_leaving)
(* a refused read, or spz_maps_read_end *)
| read_finish w r : access (w, r, R_active) (w, r, R_leaving)
| read_uncount w r : access (w, r, R_leaving) (w, u32 (r - 1), Idle)
(* spz_maps_write_begin *)
| write_cas w r : w = 0 -> access (w, r, Idle) (1, r, W_waiting SPZ_MAPS_WRITER_WAIT_ATTEMPTS)
| write_cas_busy w r : w <> 0 -> access (w, r, Idle) (w, r, Idle)
| write_poll_free w r n : r = 0 -> access (w, r, W_waiting (S n)) (w, r, W_active)
| write_poll_busy w r n : r <> 0 -> access (w, r, W_waiting (S n)) (w, r, W_waiting n)
| write_give_up w r : access (w, r, W_waiting 0) (0, r, Idle)
(* spz_maps_write_end *)
| write_end w r : access (w, r, W_active) (0, r, Idle).

Inductive system_step : system -> system -> Prop :=
| thread_access s i t w r t' :
    sys_threads s !! i = Some t -> access (sys_writer s, sys_readers s, t) (w, r, t') ->
    system_step s {| sys_writer := w; sys_readers := r; sys_threads := <[i := t']> (sys_threads s) |}.

Definition initial (n : nat) : system :=
  {| sys_writer := 0; sys_readers := 0; sys_threads := replicate n Idle |}.

(** ** The invariant *)

Definition counted (t : thread) : Z := match t with R_counted | R_active | R_leaving => 1 | _ => 0 end.
Definition writes (t : thread) : Z := match t with W_waiting _ | W_active => 1 | _ => 0 end.

Fixpoint total (f : thread -> Z) (ts : list thread) : Z :=
  match ts with [] => 0 | t :: ts => f t + total f ts end.

Lemma total_insert f ts i t t' :
  ts !! i = Some t -> total f (<[i := t']> ts) = total f ts - f t + f t'.
Proof.
  revert i. induction ts as [|x ts IH]; intros [|i] Hi; simplify_eq/=; [lia|]. rewrite (IH _ Hi). lia.
Qed.

Lemma total_bounds f ts : (forall t, 0 <= f t <= 1) -> 0 <= total f ts <= Z.of_nat (length ts).
Proof. intros Hf. induction ts as [|t ts IH]; simpl; [lia|]. pose proof (Hf t). lia. Qed.

Lemma total_pos f ts i t : (forall t, 0 <= f t <= 1) -> ts !! i = Some t -> f t <= total f ts.
Proof.
  intros Hf. revert i. induction ts as [|x ts IH]; intros [|i] Hi; simplify_eq/=.
  - pose proof (total_bounds f ts Hf). lia.
  - pose proof (Hf x). pose proof (IH _ Hi). lia.
Qed.

Lemma counted_range t : 0 <= counted t <= 1.
Proof. destruct t; simpl; lia. Qed.
Lemma writes_range t : 0 <= writes t <= 1.
Proof. destruct t; simpl; lia. Qed.

Record lock_inv (n : nat) (s : system) : Prop := {
  li_threads : length (sys_threads s) = n;
  li_writer : sys_writer s = total writes (sys_threads s) /\ sys_writer s <= 1;
  li_readers : sys_readers s = total counted (sys_threads s);
  li_excluded : W_active ∈ sys_threads s -> R_active ∉ sys_threads s;
}.

Lemma initial_inv n : lock_inv n (initial n).
Proof.
  assert (forall f, f Idle = 0 -> total f (replicate n Idle) = 0) as Ht
    by (intros f Hf; induction n; simpl; lia).
  split; cbn; [apply length_replicate|by rewrite Ht|by rewrite Ht|].
  intros [? _]%elem_of_replicate. done.
Qed.

(** The thread at [i] moves to [t']; what is active afterwards. *)
Lemma active_after (ts : list thread) i t' x : x ∈ <[i := t']> ts -> x = t' \/ x ∈ ts.
Proof.
  intros [j Hj]%list_elem_of_lookup. destruct (decide (i = j)) as [<-|Hne].
  - destruct (decide (i < length ts)%nat).
    + rewrite list_lookup_insert_eq in Hj by done. left. congruence.
    + rewrite list_insert_ge in Hj by lia. right. by eapply list_elem_of_lookup_2.
  - rewrite list_lookup_insert_ne in Hj by done. right. by eapply list_elem_of_lookup_2.
Qed.

Lemma system_step_inv n s s' :
  Z.of_nat n < UINT32_MAX -> lock_inv n s -> system_step s s' -> lock_inv n s'.
Proof.
  intros Hn [Hlen [Hw Hw1] Hr Hex] Hstep. destruct Hstep as [s i t w r t' Hi Hacc].
  pose proof (total_bounds counted (sys_threads s) counted_range) as Hcb.
  pose proof (total_pos counted _ i t counted_range Hi) as Hcp.
  pose proof (total_pos writes _ i t writes_range Hi) as Hwp.
  assert (forall x, x ∈ sys_threads s -> counted x <= sys_readers s /\ writes x <= sys_writer s) as Hin.
  { intros x [j Hj]%list_elem_of_lookup. rewrite Hr, Hw.
    split; eapply total_pos; eauto using counted_range, writes_range. }
  rewrite Hlen in Hcb. set (ts := sys_threads s) in *.
  assert (t ∈ ts) as Hti by (by eapply list_elem_of_lookup_2).
  split; cbn [sys_threads sys_writer sys_readers].
  - by rewrite length_insert.
  - rewrite (total_insert writes _ _ _ _ Hi). inversion Hacc; subst; simpl in *; lia.
  - rewrite (total_insert counted _ _ _ _ Hi). inversion Hacc; subst; simpl in *; zlia.
  - intros Hwa Hra. apply active_after in Hwa. apply active_after in Hra.
    inversion Hacc; subst; simpl in *; destruct Hwa as [Hwa|Hwa], Hra as [Hra|Hra]; try discriminate;
      try (by apply Hex);
      try (apply Hin in Hwa; apply Hin in Hra || idtac; simpl in *; lia);
      try (apply Hin in Hra; simpl in *; lia).
Qed.

(** C22: at no moment of any interleaving does a reader use the buffer while a
    writer may replace it, at most one thread is a writer, and [readers] counts
    the readers in flight. *)
Theorem snapshot_lock_excludes n s :
  Z.of_nat n < UINT32_MAX -> rtc system_step (initial n) s ->
  (forall i j, sys_threads s !! i = Some W_active -> sys_threads s !! j = Some R_active -> False) /\
  total writes (sys_threads s) <= 1 /\ sys_readers s = total counted (sys_threads s).
Proof.
  intros Hn Hrun. assert (lock_inv n s) as [Hlen [Hw Hw1] Hr Hex].
  { revert Hrun. generalize (initial_inv n). generalize (initial n). intros s0 Hinv Hrun.
    induction Hrun; eauto using system_step_inv. }
  split_and!; [|lia|done]. intros i j Hi Hj.
  apply Hex; eapply list_elem_of_lookup_2; [exact Hi|exact Hj].
Qed.

(** A reader overtaken by a writer: the writer has the lock and waits. *)
Definition demo_overtaken : system :=
  {| sys_writer := 1; sys_readers := 1; sys_threads := [R_active; W_waiting SPZ_MAPS_WRITER_WAIT_ATTEMPTS] |}.

Lemma snapshot_lock_excludes_witness :
  (forall i j, sys_threads demo_overtaken !! i = Some W_active -> sys_threads demo_overtaken !! j = Some R_active -> False) /\
  total writes (sys_threads demo_overtaken) <= 1 /\
  sys_readers demo_overtaken = total counted (sys_threads demo_overtaken).
Proof.
  apply (snapshot_lock_excludes 2); [done|].
  eapply rtc_l; [apply (thread_access _ 0 Idle); [done|by apply read_first_load]|].
  eapply rtc_l; [apply (thread_access _ 0 R_checked); [done|apply read_count]|].
  eapply rtc_l; [apply (thread_access _ 0 R_counted); [done|by apply read_second_load]|].
  eapply rtc_l; [apply (thread_access _ 1 Idle); [done|by apply write_cas]|].
  apply rtc_refl.
Defined.
