(* ===== verification/MapsLockWeak.v ===== *)
(** * The snapshot lock under release and acquire (kpm/core/maps.c)

    MapsLock.v lets every load of the two counters see the newest value. The source asks
    for acquire loads and acquire-release exchanges only. Here each counter keeps all its
    values; a load may return an older one than the newest, as long as the thread does not
    know of a newer one, and a thread that reads a value gets to know what the thread
    which wrote it knew of the other counter. Additions, subtractions and exchanges act on
    the newest value. What holds of the counters still does, but a reader and a writer can
    miss each other. *)

From stdpp Require Import relations.
From S2P Require Import Prelude Maps MapsLock.

(** A value of a counter, and how far its writer had seen the values of the other. *)
Definition value : Type := Z * nat.

(** Both counters, oldest value first. *)
Record counters := {
  ct_writer : list value;
  ct_readers : list value;
}.

(** How far a thread has seen the values of [writer] and of [readers]. *)
Record seen := {
  se_writer : nat;
  se_readers : nat;
}.

Definition newest_count (l : list value) : Z := from_option fst 0 (last l).

(** What a thread knows after it has read the value [v] at place [t]. *)
Definition saw_writer (t : nat) (v : value) (e : seen) : seen :=
  {| se_writer := Nat.max t (se_writer e); se_readers := Nat.max v.2 (se_readers e) |}.
Definition saw_readers (t : nat) (v : value) (e : seen) : seen :=
  {| se_writer := Nat.max v.2 (se_writer e); se_readers := Nat.max t (se_readers e) |}.

(** An acquire load of a counter returns [x]. *)
Inductive load_writer (c : counters) (e : seen) : Z -> seen -> Prop :=
| loaded_writer t v : ct_writer c !! t = Some v -> (se_writer e <= t)%nat -> load_writer c e v.1 (saw_writer t v e).
Inductive load_readers (c : counters) (e : seen) : Z -> seen -> Prop :=
| loaded_readers t v : ct_readers c !! t = Some v -> (se_readers e <= t)%nat -> load_readers c e v.1 (saw_readers t v e).

(** A new value, which releases what the thread knows. *)
Definition add_writer (x : Z) (c : counters) (e : seen) : counters * seen :=
  ({| ct_writer := ct_writer c ++ [(x, se_readers e)]; ct_readers := ct_readers c |},
   {| se_writer := length (ct_writer c); se_readers := se_readers e |}).
Definition add_readers (x : Z) (c : counters) (e : seen) : counters * seen :=
  ({| ct_writer := ct_writer c; ct_readers := ct_readers c ++ [(x, se_writer e)] |},
   {| se_writer := se_writer e; se_readers := length (ct_readers c) |}).

(** What a thread knows after it has read the newest value, to replace it. *)
Definition saw_newest_writer (c : counters) (e : seen) : seen :=
  saw_writer (pred (length (ct_writer c))) (default (0, 0%nat) (last (ct_writer c))) e.
Definition saw_newest_readers (c : counters) (e : seen) : seen :=
  saw_readers (pred (length (ct_readers c))) (default (0, 0%nat) (last (ct_readers c))) e.

(** The accesses of [access], with the orders of the source. *)
Inductive weak_access : counters * seen * thread -> counters * seen * thread -> Prop :=
| weak_read_first_load c e e' : load_writer c e 0 e' -> weak_access (c, e, Idle) (c, e', R_checked)
| weak_read_first_busy c e x e' : load_writer c e x e' -> x <> 0 -> weak_access (c, e, Idle) (c, e', Idle)
| weak_read_count c e :
    weak_access (c, e, R_checked) (add_readers (u32 (newest_count (ct_readers c) + 1)) c (saw_newest_readers c e), R_counted)
| weak_read_second_load c e e' : load_writer c e 0 e' -> weak_access (c, e, R_counted) (c, e', R_active)
| weak_read_second_busy c e x e' : load_writer c e x e' -> x <> 0 -> weak_access (c, e, R_counted) (c, e', R_leaving)
| weak_read_finish c e : weak_access (c, e, R_active) (c, e, R_leaving)
| weak_read_uncount c e :
    weak_access (c, e, R_leaving) (add_readers (u32 (newest_count (ct_readers c) - 1)) c (saw_newest_readers c e), Idle)
| weak_write_cas c e :
    newest_count (ct_writer c) = 0 ->
    weak_access (c, e, Idle) (add_writer 1 c (saw_newest_writer c e), W_waiting SPZ_MAPS_WRITER_WAIT_ATTEMPTS)
| weak_write_cas_busy c e x e' : load_writer c e x e' -> x <> 0 -> weak_access (c, e, Idle) (c, e', Idle)
| weak_write_poll_free c e e' n : load_readers c e 0 e' -> weak_access (c, e, W_waiting (S n)) (c, e', W_active)
| weak_write_poll_busy c e x e' n :
    load_readers c e x e' -> x <> 0 -> weak_access (c, e, W_waiting (S n)) (c, e', W_waiting n)
| weak_write_give_up c e : weak_access (c, e, W_waiting 0) (add_writer 0 c e, Idle)
| weak_write_end c e : weak_access (c, e, W_active) (add_writer 0 c e, Idle).

Record weak_system := {
  ws_counters : counters;
  ws_threads : list (seen * thread);
}.

Inductive weak_system_step : weak_system -> weak_system -> Prop :=
| weak_thread_access s i e t c e' t' :
    ws_threads s !! i = Some (e, t) -> weak_access (ws_counters s, e, t) (c, e', t') ->
    weak_system_step s {| ws_counters := c; ws_threads := <[i := (e', t')]> (ws_threads s) |}.

Definition weak_start (n : nat) : weak_system :=
  {| ws_counters := {| ct_writer := [(0, 0%nat)]; ct_readers := [(0, 0%nat)] |};
     ws_threads := replicate n ({| se_writer := 0; se_readers := 0 |}, Idle) |}.

(** ** What still holds *)

Definition positions (s : weak_system) : list thread := snd <$> ws_threads s.

Record weak_lock_inv (n : nat) (s : weak_system) : Prop := {
  wl_threads : length (positions s) = n;
  wl_writer : newest_count (ct_writer (ws_counters s)) = total writes (positions s) /\ total writes (positions s) <= 1;
  wl_readers : newest_count (ct_readers (ws_counters s)) = total counted (positions s);
}.

Lemma newest_count_snoc l v : newest_count (l ++ [v]) = v.1.
Proof. unfold newest_count. by rewrite last_snoc. Qed.

Lemma weak_system_step_inv n s s' :
  Z.of_nat n < UINT32_MAX -> weak_lock_inv n s -> weak_system_step s s' -> weak_lock_inv n s'.
Proof.
  intros Hn [Hlen [Hw Hw1] Hr] Hstep. destruct Hstep as [s i e t c e' t' Hi Hacc].
  assert (positions s !! i = Some t) as Hp by (unfold positions; by rewrite list_lookup_fmap, Hi).
  pose proof (total_bounds counted (positions s) counted_range) as Hcb.
  pose proof (total_pos counted _ i t counted_range Hp) as Hcp. pose proof (total_pos writes _ i t writes_range Hp) as Hwp.
  rewrite Hlen in Hcb.
  assert (positions {| ws_counters := c; ws_threads := <[i := (e', t')]> (ws_threads s) |} = <[i := t']> (positions s)) as E
    by (unfold positions; cbn; by rewrite list_fmap_insert).
  split; rewrite E.
  - by rewrite length_insert.
  - rewrite (total_insert writes _ _ _ _ Hp). cbn. inversion Hacc; subst; simpl in *; rewrite ?newest_count_snoc; simpl; lia.
  - rewrite (total_insert counted _ _ _ _ Hp). cbn. inversion Hacc; subst; simpl in *; rewrite ?newest_count_snoc; simpl; zlia.
Qed.

(** At most one thread holds [writer], and [readers] counts the readers in flight. *)
Lemma weak_counters_count n s :
  Z.of_nat n < UINT32_MAX -> rtc weak_system_step (weak_start n) s ->
  total writes (positions s) <= 1 /\ newest_count (ct_readers (ws_counters s)) = total counted (positions s).
Proof.
  intros Hn Hrun. assert (weak_lock_inv n s) as [? [? ?] ?]; [|done]. revert Hrun.
  assert (weak_lock_inv n (weak_start n)) as H0.
  { assert (forall f, f Idle = 0 -> total f (positions (weak_start n)) = 0) as Ht
      by (intros f Hf; unfold positions; cbn; rewrite fmap_replicate; cbn; clear Hn; induction n; simpl; lia).
    split; [unfold positions; rewrite length_fmap; apply length_replicate|by rewrite Ht|by rewrite Ht]. }
  revert H0. generalize (weak_start n). intros s0 Hinv Hrun. induction Hrun; eauto using weak_system_step_inv.
Qed.

(** ** What does not hold *)

(** A reader that has counted itself and a writer that has announced itself load each
    other's counter as it was before. *)
Definition missed : weak_system :=
  {| ws_counters := {| ct_writer := [(0, 0%nat); (1, 0%nat)]; ct_readers := [(0, 0%nat); (1, 0%nat)] |};
     ws_threads := [({| se_writer := 0; se_readers := 1 |}, R_active); ({| se_writer := 1; se_readers := 0 |}, W_active)] |}.

Lemma weak_lock_misses : rtc weak_system_step (weak_start 2) missed.
Proof.
  eapply rtc_l; [apply (weak_thread_access _ 0 {| se_writer := 0; se_readers := 0 |} Idle); [done|]|].
  { apply weak_read_first_load. by apply (loaded_writer _ _ 0 (0, 0%nat)). }
  eapply rtc_l; [apply (weak_thread_access _ 0 {| se_writer := 0; se_readers := 0 |} R_checked); [done|apply weak_read_count]|].
  eapply rtc_l; [apply (weak_thread_access _ 1 {| se_writer := 0; se_readers := 0 |} Idle); [done|by apply weak_write_cas]|].
  eapply rtc_l; [eapply (weak_thread_access _ 1 {| se_writer := 1; se_readers := 0 |}); [done|]|].
  { apply weak_write_poll_free. by apply (loaded_readers _ _ 0 (0, 0%nat)). }
  eapply rtc_l; [eapply (weak_thread_access _ 0 {| se_writer := 0; se_readers := 1 |} R_counted); [done|]|].
  { apply weak_read_second_load. by apply (loaded_writer _ _ 0 (0, 0%nat)). }
  apply rtc_refl.
Qed.
