(* ===== verification/Text.v ===== *)
(** * Bounded text (kpm/platform/kpatch/control.c)

    The responses are written into a buffer of fixed capacity; the first write
    that does not fit latches an error and later writes do nothing. [tx_data] are
    the bytes written so far, [tx_length] many. *)

From S2P Require Import Prelude Abi DeviceProfiles Profile Task Debug DebugEncode Command CommandNumbers.

Record spz_text := {
  tx_data : list Z;
  tx_capacity : Z;
  tx_length : Z;
  tx_error : Z;
}.

#[export] Instance spz_text_shape : Shape spz_text :=
  shape! Build_spz_text < tx_data ; tx_capacity ; tx_length ; tx_error >.

(** A cleared text over an empty buffer. *)
Definition new_text (capacity : Z) : spz_text :=
  {| tx_data := []; tx_capacity := capacity; tx_length := 0; tx_error := 0 |}.

Definition spz_text_bytes (text : spz_text) (value : list Z) : spz_text :=
  if negb (tx_error text =? 0) then text
  else if u64 (tx_capacity text - tx_length text) <? Z.of_nat (length value)
  then text <| tx_error := - ENOSPC |>
  else text <| tx_data := tx_data text ++ value |>
            <| tx_length := u64 (tx_length text + Z.of_nat (length value)) |>.

(** [None] is a NULL string. *)
Definition spz_text_string (text : spz_text) (value : option (list Z)) : spz_text :=
  match value with
  | None => text <| tx_error := - EINVAL |>
  | Some value => spz_text_bytes text value
  end.

Definition spz_text_char (text : spz_text) (value : Z) : spz_text := spz_text_bytes text [value].

(** The [do ... while] loop that leaves the digits of [value], the last one first;
    [reversed] has 32 places. *)
Fixpoint reverse_digits (places : nat) (value : Z) : list Z :=
  match places with
  | O => []
  | S places =>
      (48 + value mod 10) :: if value / 10 =? 0 then [] else reverse_digits places (value / 10)
  end.

Definition spz_text_u64 (text : spz_text) (value : Z) : spz_text :=
  foldl spz_text_char text (rev (reverse_digits 32 value)).

(** [-(value + 1)] and the conversion to 64 bits, as in the code: the magnitude of
    the most negative number does not overflow. *)
Definition spz_text_i64 (text : spz_text) (value : Z) : spz_text :=
  if value <? 0 then spz_text_u64 (spz_text_char text 45) (u64 (u64 (- (value + 1)) + 1))
  else spz_text_u64 text (u64 value).

Definition hex_char (nibble : Z) : Z := str "0123456789abcdef" !!! Z.to_nat nibble.

Definition encode_hex (byte : Z) : list Z := [hex_char (Z.shiftr byte 4); hex_char (Z.land byte 0x0f)].

(** [None] is a NULL pointer. *)
Definition spz_text_hex (text : spz_text) (value : option (list Z)) (length : nat) : spz_text :=
  match value with
  | None => if bool_decide (length <> 0%nat) then text <| tx_error := - EINVAL |> else text
  | Some bytes => foldl (fun text byte => spz_text_bytes text (encode_hex byte)) text (take length bytes)
  end.

Definition token_prefix (text : spz_text) (key : String.string) : spz_text :=
  spz_text_char (spz_text_string (spz_text_char text 32) (Some (str key))) 61.

Definition spz_text_token_string (text : spz_text) (key : String.string) (value : option (list Z)) : spz_text :=
  spz_text_string (token_prefix text key) value.

Definition spz_text_token_hex (text : spz_text) (key : String.string) (value : option (list Z)) (length : nat)
  : spz_text :=
  spz_text_hex (token_prefix text key) value length.

Definition spz_text_token_u64 (text : spz_text) (key : String.string) (value : Z) : spz_text :=
  spz_text_u64 (token_prefix text key) value.

#[global] Arguments token_prefix text key%_string_scope.
#[global] Arguments spz_text_token_string text key%_string_scope value.
#[global] Arguments spz_text_token_hex text key%_string_scope value length.
#[global] Arguments spz_text_token_u64 text key%_string_scope value.

(** ** The buffer as a bounded append *)

Record text_wf (text : spz_text) : Prop := {
  tw_length : tx_length text = Z.of_nat (length (tx_data text));
  tw_bound : tx_length text <= tx_capacity text;
  tw_capacity : is_u64 (tx_capacity text);
}.

(** Appending [bs]: everything, or the error with some prefix. *)
Definition appended (text : spz_text) (bs : list Z) (text' : spz_text) : Prop :=
  text_wf text' /\ tx_capacity text' = tx_capacity text /\
  (tx_error text <> 0 -> text' = text) /\
  (tx_error text = 0 -> tx_length text + Z.of_nat (length bs) <= tx_capacity text ->
     tx_error text' = 0 /\ tx_data text' = tx_data text ++ bs) /\
  (tx_error text = 0 -> tx_capacity text < tx_length text + Z.of_nat (length bs) ->
     tx_error text' = - ENOSPC /\ exists p, tx_data text' = tx_data text ++ p /\ prefix p bs).

Lemma new_text_wf capacity : is_u64 capacity -> text_wf (new_text capacity).
Proof. intros ?. by split; cbn; lia || done. Qed.

Lemma text_bytes_appended text bs : text_wf text -> appended text bs (spz_text_bytes text bs).
Proof.
  intros [Hl Hb Hc]. unfold spz_text_bytes, appended. destruct text as [d c l e]. cbn in *.
  assert (u64 (c - l) = c - l) as -> by (unfold u64; rewrite Z.mod_small; lia).
  destruct (e =? 0) eqn:He; cbn [negb].
  2:{ split_and!; [by split|done|done|lia|lia]. }
  destruct (c - l <? _) eqn:Hfit; cbn.
  - split_and!; [by split|done|lia|lia|]. intros _ _. split; [done|]. exists []. split; [by rewrite app_nil_r|apply prefix_nil].
  - assert (u64 (l + Z.of_nat (length bs)) = l + Z.of_nat (length bs)) as -> by (unfold u64; rewrite Z.mod_small; lia).
    split_and!; [|done|lia| |lia].
    + split; cbn; [rewrite length_app|..]; lia.
    + done.
Qed.

Lemma appended_nil text : text_wf text -> appended text [] text.
Proof.
  intros Hwf. split_and!; [done|done|done| |].
  - intros ? _. by rewrite app_nil_r.
  - cbn. pose proof (tw_bound _ Hwf). lia.
Qed.

Lemma appended_app text bs1 bs2 text1 text2 :
  text_wf text -> appended text bs1 text1 -> appended text1 bs2 text2 -> appended text (bs1 ++ bs2) text2.
Proof.
  intros Hwf (Hw1 & Hc1 & He1 & Hok1 & Hbad1) (Hw2 & Hc2 & He2 & Hok2 & Hbad2).
  unfold appended. rewrite length_app. split_and!; [done|congruence| | |].
  - intros He. rewrite (He1 He) in *. by apply He2.
  - intros He Hfit. destruct (Hok1 He) as [He1' Hd1]; [lia|].
    pose proof (tw_length _ Hw1) as Hl1. pose proof (tw_length _ Hwf) as Hl. rewrite Hd1, length_app in Hl1.
    destruct (Hok2 He1') as [He2' Hd2]; [lia|]. split; [done|]. by rewrite Hd2, Hd1, app_assoc.
  - intros He Hover. destruct (Z.le_gt_cases (tx_length text + Z.of_nat (length bs1)) (tx_capacity text)) as [Hfit|Hfit].
    + destruct (Hok1 He Hfit) as [He1' Hd1].
      pose proof (tw_length _ Hw1) as Hl1. pose proof (tw_length _ Hwf) as Hl. rewrite Hd1, length_app in Hl1.
      destruct (Hbad2 He1') as (He2' & p & Hd2 & Hp); [lia|]. split; [done|].
      exists (bs1 ++ p). rewrite Hd2, Hd1, app_assoc. split; [done|]. by apply prefix_app.
    + destruct (Hbad1 He) as (He1' & p & Hd1 & Hp); [lia|]. rewrite He2 by (by rewrite He1').
      split; [done|]. exists p. split; [done|]. by apply prefix_app_r.
Qed.

(** A writer of the text [bs]. *)
Definition writes (bs : list Z) (f : spz_text -> spz_text) : Prop :=
  forall text, text_wf text -> appended text bs (f text).

Lemma writes_bytes bs : writes bs (fun text => spz_text_bytes text bs).
Proof. intros text. apply text_bytes_appended. Qed.

Lemma writes_then bs1 bs2 f g : writes bs1 f -> writes bs2 g -> writes (bs1 ++ bs2) (fun text => g (f text)).
Proof.
  intros Hf Hg text Hwf. eapply appended_app; [done|by apply Hf|]. apply Hg. by destruct (Hf text Hwf).
Qed.

Lemma writes_foldl {A} (f : spz_text -> A -> spz_text) (enc : A -> list Z) (xs : list A) :
  (forall x, writes (enc x) (fun text => f text x)) ->
  writes (concat (map enc xs)) (fun text => foldl f text xs).
Proof.
  intros Hf. induction xs as [|x xs IH]; intros text Hwf; simpl; [by apply appended_nil|].
  eapply appended_app; [done|by apply Hf|]. apply IH. by destruct (Hf x text Hwf).
Qed.

Lemma writes_nothing : writes [] (fun text => text).
Proof. intros text. apply appended_nil. Qed.

(** ** What the writers write *)

Definition decimal_text (value : Z) : list Z := rev (reverse_digits 32 value).
Definition signed_text (value : Z) : list Z :=
  if value <? 0 then 45 :: decimal_text (- value) else decimal_text value.
Definition hex_text (bytes : list Z) : list Z := concat (map encode_hex bytes).

Lemma concat_singletons {A} (l : list A) : concat (map (fun x => [x]) l) = l.
Proof. induction l as [|x l IH]; simpl; [done|by rewrite IH]. Qed.

Lemma writes_u64 value : writes (decimal_text value) (fun text => spz_text_u64 text value).
Proof.
  unfold spz_text_u64. rewrite <- (concat_singletons (decimal_text value)).
  apply writes_foldl. intros x. apply writes_bytes.
Qed.

Lemma writes_i64 value :
  - 2 ^ 63 <= value < 2 ^ 63 -> writes (signed_text value) (fun text => spz_text_i64 text value).
Proof.
  intros Hv. unfold spz_text_i64, signed_text. destruct (value <? 0) eqn:E.
  - assert (u64 (u64 (- (value + 1)) + 1) = - value) as -> by (change (2 ^ 63) with 9223372036854775808 in Hv; zlia).
    apply (writes_then [45] (decimal_text (- value)) (fun text => spz_text_char text 45)
      (fun text => spz_text_u64 text (- value))); [apply writes_bytes|apply writes_u64].
  - assert (u64 value = value) as -> by (change (2 ^ 63) with 9223372036854775808 in Hv; zlia).
    apply writes_u64.
Qed.

Lemma writes_hex bytes n : writes (hex_text (take n bytes)) (fun text => spz_text_hex text (Some bytes) n).
Proof. apply writes_foldl. intros b. apply writes_bytes. Qed.

Lemma writes_prefix key : writes (32 :: str key ++ [61]) (fun text => token_prefix text key).
Proof.
  change (32 :: str key ++ [61]) with (([32] ++ str key) ++ [61]) || rewrite app_comm_cons.
  apply (writes_then ([32] ++ str key) [61] (fun text => spz_text_string (spz_text_char text 32) (Some (str key)))
    (fun text => spz_text_char text 61)); [|apply writes_bytes].
  apply (writes_then [32] (str key) (fun text => spz_text_char text 32)
    (fun text => spz_text_bytes text (str key))); apply writes_bytes.
Qed.

(** A field of a response: a space, the key, an equals sign and the value. *)
Definition field_text (key : String.string) (value : list Z) : list Z := (32 :: str key ++ [61]) ++ value.
#[global] Arguments field_text key%_string_scope value.

Lemma writes_token_u64 key value :
  writes (field_text key (decimal_text value)) (fun text => spz_text_token_u64 text key value).
Proof.
  apply (writes_then _ _ (fun text => token_prefix text key) (fun text => spz_text_u64 text value)); [apply writes_prefix|apply writes_u64]. Qed.

Lemma writes_token_string key value :
  writes (field_text key value) (fun text => spz_text_token_string text key (Some value)).
Proof.
  apply (writes_then _ _ (fun text => token_prefix text key) (fun text => spz_text_bytes text value)); [apply writes_prefix|apply writes_bytes]. Qed.

Lemma writes_token_hex key bytes n :
  writes (field_text key (hex_text (take n bytes))) (fun text => spz_text_token_hex text key (Some bytes) n).
Proof.
  apply (writes_then _ _ (fun text => token_prefix text key) (fun text => spz_text_hex text (Some bytes) n)); [apply writes_prefix|apply writes_hex]. Qed.

(** ** Reading numbers and bytes back *)

Lemma reverse_digits_number places value :
  0 <= value < 10 ^ Z.of_nat places -> (0 < places)%nat ->
  reverse_digits places value <> [] /\ is_decimal (reverse_digits places value) /\
  decimal_number (rev (reverse_digits places value)) = value.
Proof.
  revert value. induction places as [|places IH]; intros value Hv Hp; [lia|]. simpl.
  assert (is_digit decimal_digit (48 + value mod 10) /\ decimal_digit (48 + value mod 10) = Some (value mod 10)) as [Hd He].
  { pose proof (Z.mod_pos_bound value 10 ltac:(lia)). unfold is_digit, decimal_digit.
    rewrite (proj2 (Z.ltb_ge _ _)), (proj2 (Z.ltb_ge _ _)) by lia. cbn [orb]. split; [eauto|f_equal; lia]. }
  destruct (value / 10 =? 0) eqn:Hz.
  - split_and!; [done|by repeat constructor|]. simpl rev.
    pose proof (number_snoc decimal_digit 10 [] (48 + value mod 10)) as ->. rewrite He. apply Z.eqb_eq in Hz.
    pose proof (Z.div_mod value 10 ltac:(lia)). unfold number. cbn [number_from default id]. lia.
  - destruct (IH (value / 10)) as (Hne & Hdec & Hnum).
    + rewrite Nat2Z.inj_succ, Z.pow_succ_r in Hv by lia. split; [apply Z.div_pos; lia|apply Z.div_lt_upper_bound; lia].
    + destruct places; [|lia]. change (10 ^ Z.of_nat 1) with 10 in Hv. rewrite Z.div_small in Hz by lia. done.
    + split_and!; [done|by constructor|]. simpl rev. rewrite number_snoc, He, Hnum.
      pose proof (Z.div_mod value 10 ltac:(lia)). simpl. lia.
Qed.

(** A 64-bit number printed into a response is a number the command parser
    reads back as the same value. *)
Theorem decimal_text_roundtrip value :
  is_u64 value -> spz_parse_u64_decimal (decimal_text value) = inr value.
Proof.
  intros Hv. assert (18446744073709551615 < 10 ^ Z.of_nat 32) as Hpow by (vm_compute; reflexivity).
  destruct (reverse_digits_number 32 value ltac:(lia) ltac:(lia)) as (Hne & Hdec & Hnum).
  apply parse_u64_decimal_ok. unfold decimal_text. split_and!; [|by apply Forall_rev|done|apply Hv].
  intros H. apply (f_equal (@rev Z)) in H. by rewrite rev_involutive in H.
Qed.

Lemma decimal_text_roundtrip_witness :
  spz_parse_u64_decimal (decimal_text 18446744073709551615) = inr 18446744073709551615.
Proof. apply (decimal_text_roundtrip 18446744073709551615). lia. Defined.

(** The bytes of a hexadecimal text. *)
Fixpoint decode_hex (text : list Z) : option (list Z) :=
  match text with
  | [] => Some []
  | h :: l :: text =>
      match hex_digit h, hex_digit l, decode_hex text with
      | Some h, Some l, Some bytes => Some (16 * h + l :: bytes)
      | _, _, _ => None
      end
  | _ => None
  end.

Lemma hex_char_digit n : 0 <= n < 16 -> hex_digit (hex_char n) = Some n.
Proof.
  intros Hn. assert (Forall (fun i => hex_digit (hex_char (Z.of_nat i)) = Some (Z.of_nat i)) (seq 0 16)) as Hall
    by (cbn; by repeat constructor).
  rewrite Forall_forall in Hall. specialize (Hall (Z.to_nat n)). rewrite Z2Nat.id in Hall by lia.
  apply Hall, elem_of_seq. lia.
Qed.

Lemma decode_hex_text bytes : is_bytes bytes -> decode_hex (hex_text bytes) = Some bytes.
Proof.
  induction 1 as [|b bytes Hb _ IH]; [done|]. unfold hex_text in *. simpl.
  change 15 with (Z.ones 4). rewrite Z.land_ones, Z.shiftr_div_pow2 by lia. change (2 ^ 4) with 16.
  pose proof (Z.div_mod b 16 ltac:(lia)). pose proof (Z.mod_pos_bound b 16 ltac:(lia)).
  rewrite !hex_char_digit, IH by (try split; try apply Z.div_pos; try apply Z.div_lt_upper_bound; lia).
  do 2 f_equal. lia.
Qed.
