(* ===== verification/Async.v ===== *)
(** * The request slot (kpm/platform/kpatch/async.c)

    Commands that must run in process context are submitted to a slot of one
    request; a worker runs the request and leaves its status. [ctx] is what the
    callbacks work on. The operations run one at a time: the only loops of the
    code retry an exchange another thread disturbed; AsyncThreads.v interleaves them. *)

From stdpp Require Import relations.
From S2P Require Import Prelude.

(** [enum spz_async_state], the values of the [uint32_t] field. *)
Definition SPZ_ASYNC_FREE : Z := 0.
Definition SPZ_ASYNC_PENDING : Z := 1.
Definition SPZ_ASYNC_RUNNING : Z := 2.
Definition SPZ_ASYNC_DONE : Z := 3.

(** [enum spz_async_operation] *)
Definition SPZ_ASYNC_NONE : Z := 0.
Definition SPZ_ASYNC_ENABLE : Z := 1.
Definition SPZ_ASYNC_DISABLE : Z := 2.
Definition SPZ_ASYNC_CLEAR : Z := 3.
Definition SPZ_ASYNC_AUDIT : Z := 4.
Definition SPZ_ASYNC_MAPS : Z := 5.

Record spz_async_request := {
  as_state : Z;
  as_operation : Z;
  as_request_id : Z;
  as_next_request_id : Z;
  as_target_id : Z;
  as_status : Z;
}.

#[export] Instance spz_async_request_shape : Shape spz_async_request :=
  shape! Build_spz_async_request < as_state ; as_operation ; as_request_id ; as_next_request_id ;
    as_target_id ; as_status >.

(** The callbacks, [None] for NULL. [queue] hands the work to the kernel;
    [execute] sees the slot it runs for. *)
Record spz_async_backend (ctx : Type) := {
  ab_queue : option (ctx -> Z * ctx);
  ab_execute : option (spz_async_request -> ctx -> Z -> Z -> Z * ctx);
}.
#[global] Arguments ab_queue {ctx}.
#[global] Arguments ab_execute {ctx}.

Record spz_async_snapshot_t := {
  an_state : Z;
  an_operation : Z;
  an_request_id : Z;
  an_target_id : Z;
  an_status : Z;
}.

Definition zero_async : spz_async_request :=
  {| as_state := SPZ_ASYNC_FREE; as_operation := SPZ_ASYNC_NONE; as_request_id := 0; as_next_request_id := 0;
     as_target_id := 0; as_status := 0 |}.

(** The slot is cleared; the backend is kept beside it. *)
Definition spz_async_init : spz_async_request := zero_async.

Definition spz_async_next_id (request : spz_async_request) : Z * spz_async_request :=
  let next := u64 (as_next_request_id request + 1) in
  let next := if next =? 0 then 1 else next in
  (next, request <| as_next_request_id := next |>).

Definition spz_async_busy (request : spz_async_request) : bool :=
  (as_state request =? SPZ_ASYNC_PENDING) || (as_state request =? SPZ_ASYNC_RUNNING).

Section slot.
Context {ctx : Type} (backend : spz_async_backend ctx).

(** The result, the id stored on success, the slot and the context. *)
Definition spz_async_submit (request : spz_async_request) (c : ctx) (operation target_id : Z)
  : Z * option Z * spz_async_request * ctx :=
  match ab_queue backend, ab_execute backend with
  | Some queue, Some _ =>
      if (operation <=? SPZ_ASYNC_NONE) || (SPZ_ASYNC_MAPS <? operation) then (- EINVAL, None, request, c)
      else
        let observed := as_state request in
        if (observed =? SPZ_ASYNC_PENDING) || (observed =? SPZ_ASYNC_RUNNING) then (- EBUSY, None, request, c)
        else if negb (observed =? SPZ_ASYNC_FREE) && negb (observed =? SPZ_ASYNC_DONE)
        then (- EUCLEAN, None, request, c)
        else
          let request := request <| as_state := SPZ_ASYNC_RUNNING |> <| as_operation := operation |>
                                 <| as_target_id := target_id |> <| as_status := - EINPROGRESS |> in
          let '(id, request) := spz_async_next_id request in
          let request := request <| as_request_id := id |> <| as_state := SPZ_ASYNC_PENDING |> in
          let '(result, c) := queue c in
          if negb (result =? 0) then
            let status := if result <? 0 then result else - EIO in
            (status, None, request <| as_status := status |> <| as_state := SPZ_ASYNC_DONE |>, c)
          else (0, Some (as_request_id request), request, c)
  | _, _ => (- EINVAL, None, request, c)
  end.

Definition spz_async_run (request : spz_async_request) (c : ctx) : Z * spz_async_request * ctx :=
  match ab_execute backend with
  | None => (- EINVAL, request, c)
  | Some execute =>
      if negb (as_state request =? SPZ_ASYNC_PENDING) then
        (if as_state request =? SPZ_ASYNC_DONE then as_status request else - EBUSY, request, c)
      else
        let request := request <| as_state := SPZ_ASYNC_RUNNING |> in
        let '(status, c) := execute request c (as_operation request) (as_target_id request) in
        (status, request <| as_status := status |> <| as_state := SPZ_ASYNC_DONE |>, c)
  end.

(** The loop of the snapshot ends in its first round: nobody moves the state. *)
Fixpoint async_snapshot_loop (attempts : nat) (request : spz_async_request) : option spz_async_snapshot_t :=
  match attempts with
  | O => None
  | S attempts =>
      let before := as_state request in
      let snapshot := {| an_state := before; an_operation := as_operation request;
                         an_request_id := as_request_id request; an_target_id := as_target_id request;
                         an_status := as_status request |} in
      let after := as_state request in
      if before =? after then Some snapshot else async_snapshot_loop attempts request
  end.

(** [None] for -EAGAIN. *)
Definition spz_async_snapshot (request : spz_async_request) : option spz_async_snapshot_t :=
  async_snapshot_loop 16 request.

(** ** Every accepted request runs exactly once

    [accepted] and [executed] are the requests submitted with success and those
    handed to [execute], oldest first, as (id, operation, target). *)

Definition ticket : Type := Z * Z * Z.

Record async_run := {
  ar_request : spz_async_request;
  ar_ctx : ctx;
  ar_accepted : list ticket;
  ar_executed : list (ticket * Z);
}.

Inductive async_step : async_run -> async_run -> Prop :=
| submit_step r operation target result id request c :
    spz_async_submit (ar_request r) (ar_ctx r) operation target = (result, id, request, c) ->
    async_step r
      {| ar_request := request; ar_ctx := c;
         ar_accepted := ar_accepted r ++ match id with Some id => [(id, operation, target)] | None => [] end;
         ar_executed := ar_executed r |}
| run_step r result request c :
    spz_async_run (ar_request r) (ar_ctx r) = (result, request, c) ->
    async_step r
      {| ar_request := request; ar_ctx := c; ar_accepted := ar_accepted r;
         ar_executed := ar_executed r ++
           (if bool_decide (ab_execute backend <> None) && (as_state (ar_request r) =? SPZ_ASYNC_PENDING)
            then [((as_request_id (ar_request r), as_operation (ar_request r), as_target_id (ar_request r)), result)]
            else []) |}.

Definition async_start (c : ctx) : async_run :=
  {| ar_request := spz_async_init; ar_ctx := c; ar_accepted := []; ar_executed := [] |}.
End slot.

Definition ticket_id (t : ticket) : Z := t.1.1.

Section exactly_once.
Context {ctx : Type} (backend : spz_async_backend ctx).

Abbreviation current r := (as_request_id (ar_request r), as_operation (ar_request r), as_target_id (ar_request r)).

(** After [n] steps. *)
Record async_inv (n : nat) (r : async_run (ctx := ctx)) : Prop := {
  ai_state : as_state (ar_request r) ∈ [SPZ_ASYNC_FREE; SPZ_ASYNC_PENDING; SPZ_ASYNC_DONE];
  ai_queue : ar_accepted r = (ar_executed r).*1 ++
    (if as_state (ar_request r) =? SPZ_ASYNC_PENDING then [current r] else []);
  ai_next : 0 <= as_next_request_id (ar_request r) <= Z.of_nat n;
  ai_ids : Forall (fun t => 0 < ticket_id t <= as_next_request_id (ar_request r)) (ar_accepted r);
  ai_distinct : NoDup (ticket_id <$> ar_accepted r);
  ai_request_id : as_request_id (ar_request r) = as_next_request_id (ar_request r);
  ai_status : forall t s, (t, s) ∈ ar_executed r -> as_state (ar_request r) = SPZ_ASYNC_DONE ->
    ticket_id t = as_request_id (ar_request r) -> as_status (ar_request r) = s;
}.

Lemma async_start_inv c : async_inv 0 (async_start c).
Proof. split; cbn; [by left|done|lia|constructor|constructor|done|by intros t s ?%elem_of_nil]. Qed.

Lemma async_inv_mono n r : async_inv n r -> async_inv (S n) r.
Proof. intros [? ? ? ? ? ? ?]. split; try done. lia. Qed.

Lemma executed_ids n r t s :
  async_inv n r -> (t, s) ∈ ar_executed r -> 0 < ticket_id t <= as_next_request_id (ar_request r).
Proof.
  intros Hinv Hin. apply (proj1 (Forall_forall _ _) (ai_ids _ _ Hinv)). rewrite (ai_queue _ _ Hinv).
  apply elem_of_app. left. apply list_elem_of_fmap. by exists (t, s).
Qed.

Lemma submit_inv n r operation target result id request c :
  async_inv n r -> Z.of_nat (S n) <= UINT64_MAX ->
  spz_async_submit backend (ar_request r) (ar_ctx r) operation target = (result, id, request, c) ->
  async_inv (S n)
    {| ar_request := request; ar_ctx := c;
       ar_accepted := ar_accepted r ++ match id with Some id => [(id, operation, target)] | None => [] end;
       ar_executed := ar_executed r |}.
Proof.
  intros Hinv Hn H. unfold spz_async_submit in H.
  assert (forall c', async_inv (S n) {| ar_request := ar_request r; ar_ctx := c'; ar_accepted := ar_accepted r ++ [];
                                        ar_executed := ar_executed r |}) as Hsame.
  { intros c'. rewrite app_nil_r. apply async_inv_mono. by destruct Hinv; split. }
  destruct (ab_queue backend) as [queue|]; [|injection H as <- <- <- <-; apply Hsame].
  destruct (ab_execute backend); [|injection H as <- <- <- <-; apply Hsame].
  destruct (_ || (_ <? operation)); [injection H as <- <- <- <-; apply Hsame|].
  destruct (_ || _) eqn:Hbusy; [injection H as <- <- <- <-; apply Hsame|].
  destruct (_ && _); [injection H as <- <- <- <-; apply Hsame|].
  pose proof (fun t s => executed_ids n r t s Hinv) as Hexec.
  destruct Hinv as [_ Hq Hnext Hids Hnd Hid Hstatus]. apply orb_false_iff in Hbusy as [Hp _].
  rewrite Hp, app_nil_r in Hq.
  assert (u64 (as_next_request_id (ar_request r) + 1) = as_next_request_id (ar_request r) + 1) as Hu
    by (unfold u64, UINT64_MAX in *; rewrite Z.mod_small; lia).
  cbn -[u64] in H. rewrite Hu, (eqb_ne (as_next_request_id (ar_request r) + 1) 0 ltac:(lia)) in H. destruct (queue (ar_ctx r)) as [qr c'].
  assert (forall t, t ∈ ar_accepted r -> 0 < ticket_id t <= as_next_request_id (ar_request r)) as Hids'
    by (by apply Forall_forall).
  destruct (qr =? 0); injection H as <- <- <- <-.
  - split; cbn -[Z.add]; [by right; left|by rewrite Hq|lia| | |done|done].
    + apply Forall_app. split; [|repeat constructor; cbn; lia]. eapply Forall_impl; [exact Hids|]. cbn. lia.
    + rewrite fmap_app. apply NoDup_app. split_and!; [done| |apply NoDup_singleton].
      intros x (t & -> & Ht)%list_elem_of_fmap Hx. cbn in Hx. apply list_elem_of_singleton in Hx.
      apply Hids' in Ht. lia.
  - split; cbn -[Z.add]; [by do 2 right; left|by rewrite !app_nil_r|lia| |by rewrite app_nil_r|done|].
    + rewrite app_nil_r. eapply Forall_impl; [exact Hids|]. cbn. lia.
    + intros t s Hin _ Ht. apply Hexec in Hin. lia.
Qed.

Lemma run_inv n r result request c :
  async_inv n r -> spz_async_run backend (ar_request r) (ar_ctx r) = (result, request, c) ->
  async_inv (S n)
    {| ar_request := request; ar_ctx := c; ar_accepted := ar_accepted r;
       ar_executed := ar_executed r ++
         (if bool_decide (ab_execute backend <> None) && (as_state (ar_request r) =? SPZ_ASYNC_PENDING)
          then [(current r, result)] else []) |}.
Proof.
  intros Hinv H. apply async_inv_mono. unfold spz_async_run in H.
  destruct (ab_execute backend) as [execute|]; cbn [bool_decide andb].
  2:{ injection H as <- <- <-. rewrite bool_decide_eq_false_2 by (by intros []). simpl. rewrite app_nil_r.
      by destruct Hinv; split. }
  rewrite bool_decide_eq_true_2 by done. simpl. destruct (as_state (ar_request r) =? SPZ_ASYNC_PENDING) eqn:Hp.
  2:{ injection H as _ <- <-. rewrite app_nil_r. by destruct Hinv; split. }
  cbn [negb] in H. destruct Hinv as [_ Hq Hnext Hids Hnd Hid Hstatus]. rewrite Hp in Hq.
  destruct (execute _ _ _ _) as [st c']. injection H as <- <- <-.
  split; cbn; [by do 2 right; left| |done|done|done|done|].
  - rewrite fmap_app, app_nil_r. done.
  - intros t s [Hin|Hin%list_elem_of_singleton]%elem_of_app _ Ht; [|by simplify_eq].
    rewrite Hq, fmap_app in Hnd. apply NoDup_app in Hnd as (_ & Hnd & _). destruct (Hnd (ticket_id t)).
    + apply list_elem_of_fmap. exists t. split; [done|]. apply list_elem_of_fmap. by exists (t, s).
    + apply list_elem_of_singleton. done.
Qed.

Lemma async_run_inv n c r :
  Z.of_nat n <= UINT64_MAX -> nsteps (async_step backend) n (async_start c) r -> async_inv n r.
Proof.
  revert r. induction n as [|n IH]; intros r Hn Hrun.
  - inversion Hrun; subst. apply async_start_inv.
  - apply nsteps_inv_r in Hrun as (r1 & Hrun & Hstep). assert (async_inv n r1) as Hinv by (apply IH; [lia|done]).
    inversion Hstep; subst; [by eapply submit_inv|by eapply run_inv].
Qed.
End exactly_once.

(** Whatever is submitted and whenever the worker runs, the executed requests
    are exactly the accepted ones, in order, once each, but for one that is still
    pending; ids are never 0 and never reused, and a finished slot reports the
    status of its own request. *)
Theorem async_exactly_once {ctx} (backend : spz_async_backend ctx) n c r :
  Z.of_nat n <= UINT64_MAX -> nsteps (async_step backend) n (async_start c) r ->
  ar_accepted r = (ar_executed r).*1 ++
    (if spz_async_busy (ar_request r)
     then [(as_request_id (ar_request r), as_operation (ar_request r), as_target_id (ar_request r))] else []) /\
  NoDup (ticket_id <$> ar_accepted r) /\ Forall (fun t => ticket_id t <> 0) (ar_accepted r) /\
  forall t s snapshot, (t, s) ∈ ar_executed r -> spz_async_snapshot (ar_request r) = Some snapshot ->
    an_state snapshot = SPZ_ASYNC_DONE -> ticket_id t = an_request_id snapshot -> an_status snapshot = s.
Proof.
  intros Hn Hrun. destruct (async_run_inv backend n c r Hn Hrun) as [Hst Hq Hnext Hids Hnd _ Hstatus].
  split_and!; [|done| |].
  - rewrite Hq. do 2 f_equal. unfold spz_async_busy. rewrite !elem_of_cons, elem_of_nil in Hst.
    destruct Hst as [-> | [-> | [-> | []]]]; done.
  - eapply Forall_impl; [exact Hids|]. cbn. lia.
  - intros t s sn Hin Hsn. unfold spz_async_snapshot in Hsn. cbn [async_snapshot_loop] in Hsn. rewrite Z.eqb_refl in Hsn.
    injection Hsn as <-. cbn. intros. by apply (Hstatus t).
Qed.

Definition demo_async : spz_async_backend Z :=
  {| ab_queue := Some (fun c => (0, c)); ab_execute := Some (fun _ c op target => (op + target, c + 1)) |}.

Definition demo_after : async_run (ctx := Z) :=
  {| ar_request := {| as_state := 3; as_operation := 1; as_request_id := 1; as_next_request_id := 1;
                      as_target_id := 7; as_status := 8 |};
     ar_ctx := 1; ar_accepted := [(1, 1, 7)]; ar_executed := [((1, 1, 7), 8)] |}.

Lemma async_exactly_once_witness :
  ar_accepted demo_after = (ar_executed demo_after).*1 ++ [] /\ NoDup (ticket_id <$> ar_accepted demo_after) /\
  Forall (fun t => ticket_id t <> 0) (ar_accepted demo_after) /\
  forall t s snapshot, (t, s) ∈ ar_executed demo_after -> spz_async_snapshot (ar_request demo_after) = Some snapshot ->
    an_state snapshot = SPZ_ASYNC_DONE -> ticket_id t = an_request_id snapshot -> an_status snapshot = s.
Proof.
  apply (async_exactly_once demo_async 2 0 demo_after); [done|].
  eapply nsteps_l; [apply (submit_step demo_async _ 1 7 0 (Some 1)); vm_compute; reflexivity|].
  eapply nsteps_l; [apply (run_step demo_async _ 8); vm_compute; reflexivity|].
  apply nsteps_O.
Defined.
