(* ===== verification/Interleave.v ===== *)
(** * Threads of atomic accesses

    A language of programs that access shared cells one at a time, pools of threads
    that run such programs in any interleaving, and a rely-guarantee logic: what it
    proves of each program by itself holds of every pool. The accesses are taken to
    be sequentially consistent. The event ring and the request slot are instances. *)

From stdpp Require Import relations.
From S2P Require Import Prelude.

(** ** Programs *)

Section programs.
Context {cell event : Type} `{!EqDecision cell}.

Definition heap : Type := cell -> Z.

Definition put (c : cell) (v : Z) (m : heap) : heap := fun c' => if decide (c' = c) then v else m c'.

Lemma put_same c v m : put c v m c = v.
Proof. unfold put. by rewrite decide_True. Qed.

Lemma put_other c c' v m : c' <> c -> put c v m c' = m c'.
Proof. intros. unfold put. by rewrite decide_False. Qed.

(** [Rmw c f k] replaces the value [x] of [c] by [v] when [f x = Some v], in one
    access, and goes on with [k x]. [Cas_loop c x d k] is the loop around a
    compare-and-exchange of [c] from the observed value [x]: [d x] is the value
    desired or, with [inl], the reason to leave; an exchange that fails observes the
    value it found. [Emit] makes an event of the program known. *)
Inductive prog (A : Type) : Type :=
| Ret (a : A)
| Load (c : cell) (k : Z -> prog A)
| Store (c : cell) (v : Z) (k : prog A)
| Rmw (c : cell) (f : Z -> option Z) (k : Z -> prog A)
| Cas_loop (c : cell) (x : Z) (d : Z -> Z + Z) (k : Z + Z -> prog A)
| Emit (e : event) (k : prog A).

Definition rmw (f : Z -> option Z) (c : cell) (m : heap) : heap :=
  match f (m c) with Some v => put c v m | None => m end.

(** One step: the rest of the program, the memory, the event made known. *)
Definition exec {A} (p : prog A) (m : heap) : option (prog A * heap * option event) :=
  match p with
  | Ret _ _ => None
  | Load _ c k => Some (k (m c), m, None)
  | Store _ c v k => Some (k, put c v m, None)
  | Rmw _ c f k => Some (k (m c), rmw f c m, None)
  | Cas_loop _ c x d k =>
      match d x with
      | inl r => Some (k (inl r), m, None)
      | inr v => if m c =? x then Some (k (inr x), put c v m, None) else Some (Cas_loop _ c (m c) d k, m, None)
      end
  | Emit _ e k => Some (k, m, Some e)
  end.

End programs.

#[global] Arguments heap : clear implicits.
#[global] Arguments prog : clear implicits.
#[global] Arguments Ret {cell event A} a.
#[global] Arguments Load {cell event A} c k.
#[global] Arguments Store {cell event A} c v k.
#[global] Arguments Rmw {cell event A} c f k.
#[global] Arguments Cas_loop {cell event A} c x d k.
#[global] Arguments Emit {cell event A} e k.

#[export] Instance prog_ret {cell event} : MRet (prog cell event) := @Ret cell event.
#[export] Instance prog_bind {cell event} : MBind (prog cell event) := fun A B f =>
  fix go (p : prog cell event A) : prog cell event B :=
    match p with
    | Ret a => f a
    | Load c k => Load c (fun v => go (k v))
    | Store c v k => Store c v (go k)
    | Rmw c g k => Rmw c g (fun v => go (k v))
    | Cas_loop c x d k => Cas_loop c x d (fun r => go (k r))
    | Emit e k => Emit e (go k)
    end.

Definition load {cell event} (c : cell) : prog cell event Z := Load c Ret.
Definition store {cell event} (c : cell) (v : Z) : prog cell event unit := Store c v (Ret tt).
Definition emit {cell event} (e : event) : prog cell event unit := Emit e (Ret tt).

(** ** Pools of threads *)

Section pools.
Context {cell event call outcome : Type} `{!EqDecision cell}.
Context (program : call -> prog cell event outcome) (may_call : nat -> call -> Prop).

Inductive thread :=
| Outside
| Inside (c : call) (p : prog cell event outcome).

(** What an observer sees of the threads. *)
Inductive note :=
| Called (i : nat) (c : call)
| Emitted (i : nat) (e : event)
| Returned (i : nat) (c : call) (o : outcome).

(** [pl_notes] is a record for the theorems, the oldest first. *)
Record pool := {
  pl_heap : heap cell;
  pl_threads : list thread;
  pl_notes : list note;
}.

Inductive pool_step : pool -> pool -> Prop :=
| pool_call s i c :
    pl_threads s !! i = Some Outside -> may_call i c ->
    pool_step s {| pl_heap := pl_heap s; pl_threads := <[i := Inside c (program c)]> (pl_threads s);
                   pl_notes := pl_notes s ++ [Called i c] |}
| pool_access s i c p p' m e :
    pl_threads s !! i = Some (Inside c p) -> exec p (pl_heap s) = Some (p', m, e) ->
    pool_step s {| pl_heap := m; pl_threads := <[i := Inside c p']> (pl_threads s);
                   pl_notes := pl_notes s ++ match e with Some e => [Emitted i e] | None => [] end |}
| pool_return s i c o :
    pl_threads s !! i = Some (Inside c (Ret o)) ->
    pool_step s {| pl_heap := pl_heap s; pl_threads := <[i := Outside]> (pl_threads s);
                   pl_notes := pl_notes s ++ [Returned i c o] |}.

Definition pool_start (n : nat) (m : heap cell) : pool :=
  {| pl_heap := m; pl_threads := replicate n Outside; pl_notes := [] |}.

(** No thread is inside a call. *)
Definition quiet (s : pool) : Prop := Forall (fun t => t = Outside) (pl_threads s).

Lemma pool_steps_length n s s' :
  nsteps pool_step n s s' -> length (pl_threads s') = length (pl_threads s).
Proof. induction 1 as [|n s s1 s' Hstep _ IH]; [done|]. rewrite IH. destruct Hstep; cbn; by rewrite length_insert. Qed.

End pools.

#[global] Arguments thread : clear implicits.
#[global] Arguments note : clear implicits.
#[global] Arguments pool : clear implicits.
#[global] Arguments Outside {cell event call outcome}.
#[global] Arguments Inside {cell event call outcome} c p.
#[global] Arguments Called {event call outcome} i c.
#[global] Arguments Emitted {event call outcome} i e.
#[global] Arguments Returned {event call outcome} i c o.

(** ** Rely and guarantee

    [W] is what the proofs track beside the memory; [I n w m h] ties it to the
    memory and the notes after [n] steps. [rely i w w'] is what the steps of other
    threads may do to the part of [w] that thread [i] depends on. Runs of at most
    [limit] steps are considered, so that counters do not wrap around. *)

Section logic.
Context {cell event call outcome W : Type} `{!EqDecision cell}.
Context (limit : nat) (I : nat -> W -> heap cell -> list (note event call outcome) -> Prop).
Context (rely : nat -> W -> W -> Prop) `{rely_preorder : forall i, PreOrder (rely i)}.

(** A step of thread [i] is one the others can bear. *)
Definition guarantee (i : nat) (w w' : W) : Prop := forall j, j <> i -> rely j w w'.

(** Thread [i] takes a step to the memory [m'] and the notes [h'], after which [K]
    holds, whatever has happened since it knew [w]. *)
Definition takes (i : nat) (w : W) (m' : heap cell -> heap cell) (h' : list (note event call outcome))
    (K : heap cell -> W -> Prop) : Prop :=
  forall n w1 m h, rely i w w1 -> (n < limit)%nat -> I n w1 m h ->
  exists w2, guarantee i w1 w2 /\ I (S n) w2 (m' m) (h ++ h') /\ K m w2.

Fixpoint wp {A} (i : nat) (p : prog cell event A) (w : W) (Φ : A -> W -> Prop) : Prop :=
  match p with
  | Ret a => Φ a w
  | Load c k => takes i w (fun m => m) [] (fun m w2 => wp i (k (m c)) w2 Φ)
  | Store c v k => takes i w (put c v) [] (fun m w2 => wp i k w2 Φ)
  | Rmw c f k => takes i w (rmw f c) [] (fun m w2 => wp i (k (m c)) w2 Φ)
  | Emit e k => takes i w (fun m => m) [Emitted i e] (fun m w2 => wp i k w2 Φ)
  | Cas_loop c x d k =>
      exists J : Z -> W -> Prop, J x w /\
      forall x w, J x w ->
        match d x with
        | inl r => takes i w (fun m => m) [] (fun m w2 => wp i (k (inl r)) w2 Φ)
        | inr v =>
            takes i w (rmw (fun y => if y =? x then Some v else None) c) []
              (fun m w2 => if m c =? x then wp i (k (inr x)) w2 Φ else J (m c) w2)
        end
  end.

Lemma takes_mono i w m' h' (K K' : heap cell -> W -> Prop) :
  takes i w m' h' K -> (forall m w2, K m w2 -> K' m w2) -> takes i w m' h' K'.
Proof.
  intros Ht HK n w1 m h Hr Hn HI. destruct (Ht n w1 m h Hr Hn HI) as (w2 & ? & ? & ?). exists w2. auto.
Qed.

Lemma prog_wp_mono {A} i (p : prog cell event A) w (Φ Ψ : A -> W -> Prop) :
  wp i p w Φ -> (forall a w', Φ a w' -> Ψ a w') -> wp i p w Ψ.
Proof.
  intros Hp HΦ. revert w Hp. induction p as [a|c k IH|c v k IH|c f k IH|c x d k IH|e k IH]; intros w Hp; cbn in *.
  - by apply HΦ.
  - eapply takes_mono; [exact Hp|]. intros; by apply IH.
  - eapply takes_mono; [exact Hp|]. intros; by apply IH.
  - eapply takes_mono; [exact Hp|]. intros; by apply IH.
  - destruct Hp as (J & HJ & Hl). exists J. split; [done|]. intros y w1 Hy. specialize (Hl y w1 Hy).
    destruct (d y); (eapply takes_mono; [exact Hl|]); [intros; by apply IH|]. intros m w2.
    cbn. destruct (m c =? y); [apply IH|done].
  - eapply takes_mono; [exact Hp|]. intros; by apply IH.
Qed.

Lemma prog_wp_bind {A B} i (p : prog cell event A) (f : A -> prog cell event B) w Φ :
  wp i p w (fun a w' => wp i (f a) w' Φ) -> wp i (p ≫= f) w Φ.
Proof.
  revert w. induction p as [a|c k IH|c v k IH|c g k IH|c x d k IH|e k IH]; intros w Hp; cbn in *.
  - done.
  - eapply takes_mono; [exact Hp|]. intros; by apply IH.
  - eapply takes_mono; [exact Hp|]. intros; by apply IH.
  - eapply takes_mono; [exact Hp|]. intros; by apply IH.
  - destruct Hp as (J & HJ & Hl). exists J. split; [done|]. intros y w1 Hy. specialize (Hl y w1 Hy).
    destruct (d y); (eapply takes_mono; [exact Hl|]); [intros; by apply IH|]. intros m w2.
    cbn. destruct (m c =? y); [apply IH|done].
  - eapply takes_mono; [exact Hp|]. intros; by apply IH.
Qed.

(** The specification of a program, then its continuation. *)
Lemma prog_wp_call {A B} i (p : prog cell event A) (f : A -> prog cell event B) w (Φ : A -> W -> Prop) Ψ :
  wp i p w Φ -> (forall a w', Φ a w' -> wp i (f a) w' Ψ) -> wp i (p ≫= f) w Ψ.
Proof. intros Hp Hf. by apply prog_wp_bind, (prog_wp_mono i p w Φ). Qed.

(** What is known stays known. *)
Lemma takes_later i w w' m' h' K : rely i w w' -> takes i w m' h' K -> takes i w' m' h' K.
Proof. intros Hr Ht n w1 m h Hr' Hn HI. apply (Ht n w1); [by etrans|done..]. Qed.

(** A thread that may step in [w] steps from a world that [w] has become. *)
Lemma exec_wp {A} i (p p' : prog cell event A) w0 w m m' e n h Φ :
  rely i w0 w -> wp i p w0 Φ -> (n < limit)%nat -> I n w m h -> exec p m = Some (p', m', e) ->
  exists w', guarantee i w w' /\
    I (S n) w' m' (h ++ match e with Some e => [Emitted i e] | None => [] end) /\ wp i p' w' Φ.
Proof.
  intros Hr Hp Hn HI Hx. destruct p as [a|c k|c v k|c f k|c x d k|e' k]; cbn in Hp, Hx; simplify_eq.
  - exact (Hp n w m' h Hr Hn HI).
  - exact (Hp n w m h Hr Hn HI).
  - exact (Hp n w m h Hr Hn HI).
  - destruct Hp as (J & HJ & Hl). pose proof (Hl x w0 HJ) as Hs.
    destruct (d x) as [r|v] eqn:Hd; simplify_eq; [exact (Hs n w m' h Hr Hn HI)|].
    destruct (Hs n w m h Hr Hn HI) as (w2 & Hg & HI2 & HK). unfold rmw in HI2.
    destruct (m c =? x) eqn:E; simplify_eq; exists w2; [done|].
    split_and!; [done|done|]. exists J. done.
  - exact (Hp n w m' h Hr Hn HI).
Qed.

(** ** Pools *)

Context (program : call -> prog cell event outcome) (may_call : nat -> call -> Prop).
Context (idle : nat -> W -> Prop).

(** The end of a call. *)
Definition finishes (i : nat) (c : call) (o : outcome) (w : W) : Prop :=
  takes i w (fun m => m) [Returned i c o] (fun _ w2 => idle i w2).

Record threads_ok : Prop := {
  to_stable : forall i w w', idle i w -> rely i w w' -> idle i w';
  to_call : forall i c w, may_call i c -> idle i w ->
    takes i w (fun m => m) [Called i c] (fun _ w2 => wp i (program c) w2 (finishes i c));
}.

Definition thread_ok (i : nat) (w : W) (t : thread cell event call outcome) : Prop :=
  match t with
  | Outside => idle i w
  | Inside c p => exists w0, rely i w0 w /\ wp i p w0 (finishes i c)
  end.

Definition pool_ok (n : nat) (s : pool cell event call outcome) (w : W) : Prop :=
  I n w (pl_heap s) (pl_notes s) /\ forall i t, pl_threads s !! i = Some t -> thread_ok i w t.

Lemma pool_thread_later i w w' t : threads_ok -> rely i w w' -> thread_ok i w t -> thread_ok i w' t.
Proof.
  intros Hok Hr. destruct t as [|c p]; cbn; [intros; by eapply to_stable|].
  intros (w0 & ? & ?). exists w0. split; [by etrans|done].
Qed.

(** The thread at [i] has moved; the others bear it. *)
Lemma pool_ok_move n s w w' i t m h :
  threads_ok -> pool_ok n s w -> guarantee i w w' -> I (S n) w' m h -> thread_ok i w' t ->
  pool_ok (S n) {| pl_heap := m; pl_threads := <[i := t]> (pl_threads s); pl_notes := h |} w'.
Proof.
  intros Hok [_ Ht] Hg HI Hi. split; [done|]. cbn. intros j t' Hj.
  destruct (decide (j = i)) as [->|Hne].
  - apply list_lookup_insert_Some in Hj as [(_ & -> & _)|[? _]]; done.
  - rewrite list_lookup_insert_ne in Hj by done. apply (pool_thread_later j w); auto.
Qed.

Lemma pool_step_ok n s s' w :
  threads_ok -> pool_ok n s w -> (n < limit)%nat -> pool_step program may_call s s' ->
  exists w', pool_ok (S n) s' w'.
Proof.
  intros Hok Hs Hn Hstep. pose proof Hs as [HI Ht].
  destruct Hstep as [s i c Hi Hc|s i c p p' m e Hi Hx|s i c o Hi]; specialize (Ht i _ Hi); cbn in Ht.
  - destruct (to_call Hok i c w Hc Ht n w _ _ ltac:(reflexivity) Hn HI) as (w2 & ? & ? & ?).
    exists w2. apply (pool_ok_move n s w); try done. exists w2. by split.
  - destruct Ht as (w0 & Hr & Hp). destruct (exec_wp i p p' w0 w _ m e n _ _ Hr Hp Hn HI Hx) as (w2 & ? & ? & ?).
    exists w2. apply (pool_ok_move n s w); try done. exists w2. by split.
  - destruct Ht as (w0 & Hr & Hf). destruct (Hf n w _ _ Hr Hn HI) as (w2 & ? & ? & ?).
    exists w2. by apply (pool_ok_move n s w).
Qed.

(** Every run of a pool keeps the invariant. *)
Lemma pool_run_ok k m w steps s :
  threads_ok -> I 0 w m [] -> (forall i, (i < k)%nat -> idle i w) ->
  nsteps (pool_step program may_call) steps (pool_start k m) s -> (steps <= limit)%nat ->
  exists w', pool_ok steps s w'.
Proof.
  intros Hok HI Hidle. revert s. induction steps as [|steps IH]; intros s Hrun Hn.
  - inversion Hrun; subst. exists w. split; [done|]. cbn. intros i t [-> Hi]%lookup_replicate. by apply Hidle.
  - apply nsteps_inv_r in Hrun as (s1 & Hrun & Hstep). destruct (IH s1 Hrun) as [w1 Hw1]; [lia|].
    apply (pool_step_ok steps s1 s w1); auto with lia.
Qed.

End logic.

(** ** Schedules

    A run by a list of actions, for concrete examples. *)

Section schedules.
Context {cell event call outcome : Type} `{!EqDecision cell}.
Context (program : call -> prog cell event outcome) (may_call : nat -> call -> Prop).

Inductive action := Call (i : nat) (c : call) | Access (i : nat) (times : nat) | Return (i : nat).

Fixpoint access (i : nat) (times : nat) (s : pool cell event call outcome) : option (pool cell event call outcome) :=
  match times with
  | O => Some s
  | S times =>
      match pl_threads s !! i with
      | Some (Inside c p) =>
          match exec p (pl_heap s) with
          | Some (p', m, e) =>
              access i times {| pl_heap := m; pl_threads := <[i := Inside c p']> (pl_threads s);
                pl_notes := pl_notes s ++ match e with Some e => [Emitted i e] | None => [] end |}
          | None => None
          end
      | _ => None
      end
  end.

Definition act (a : action) (s : pool cell event call outcome) : option (pool cell event call outcome) :=
  match a with
  | Call i c =>
      match pl_threads s !! i with
      | Some Outside =>
          Some {| pl_heap := pl_heap s; pl_threads := <[i := Inside c (program c)]> (pl_threads s);
                  pl_notes := pl_notes s ++ [Called i c] |}
      | _ => None
      end
  | Access i times => access i times s
  | Return i =>
      match pl_threads s !! i with
      | Some (Inside c (Ret o)) =>
          Some {| pl_heap := pl_heap s; pl_threads := <[i := Outside]> (pl_threads s);
                  pl_notes := pl_notes s ++ [Returned i c o] |}
      | _ => None
      end
  end.

Fixpoint perform (actions : list action) (s : pool cell event call outcome) : option (pool cell event call outcome) :=
  match actions with
  | [] => Some s
  | a :: actions => match act a s with Some s' => perform actions s' | None => None end
  end.

Definition action_ok (a : action) : Prop := match a with Call i c => may_call i c | _ => True end.
Definition action_steps (a : action) : nat := match a with Access _ times => times | _ => 1 end.

Lemma access_steps i times s s' :
  access i times s = Some s' -> nsteps (pool_step program may_call) times s s'.
Proof.
  revert s. induction times as [|times IH]; intros s Ha; cbn in Ha; [simplify_eq; constructor|].
  destruct (pl_threads s !! i) as [[|c p]|] eqn:Hi; try done.
  destruct (exec p (pl_heap s)) as [[[p' m] e]|] eqn:Hx; [|done].
  eapply nsteps_l; [by eapply pool_access|by apply IH].
Qed.

Lemma act_steps a s s' :
  action_ok a -> act a s = Some s' -> nsteps (pool_step program may_call) (action_steps a) s s'.
Proof.
  intros Hok Ha. destruct a as [i c|i times|i]; cbn in Ha |- *; [|by eapply access_steps|].
  - destruct (pl_threads s !! i) as [[]|] eqn:Hi; simplify_eq. by apply nsteps_once, pool_call.
  - destruct (pl_threads s !! i) as [[|c [o| | | | |]]|] eqn:Hi; simplify_eq. by apply nsteps_once, pool_return.
Qed.

Lemma schedule_steps actions s s' :
  Forall action_ok actions -> perform actions s = Some s' ->
  nsteps (pool_step program may_call) (sum_list_with action_steps actions) s s'.
Proof.
  revert s. induction actions as [|a actions IH]; intros s Hok Hp; [simplify_eq/=; constructor|].
  apply Forall_cons in Hok as [Ha Hok]. cbn in Hp |- *. destruct (act a s) as [s1|] eqn:E; [|done].
  apply (nsteps_trans _ _ _ s1); [by eapply act_steps|by apply IH].
Qed.

(** The end of a schedule that can be carried out and makes notes. *)
Definition performed (actions : list action) (s : pool cell event call outcome) : pool cell event call outcome :=
  default s (perform actions s).

Lemma performed_steps actions s :
  Forall action_ok actions -> pl_notes s = [] -> pl_notes (performed actions s) <> [] ->
  nsteps (pool_step program may_call) (sum_list_with action_steps actions) s (performed actions s).
Proof.
  intros Hok Hs Hp. apply schedule_steps; [done|]. unfold performed in *. by destruct (perform actions s).
Qed.

End schedules.
#[global] Arguments action : clear implicits.
#[global] Arguments Call {call} i c.
#[global] Arguments Access {call} i times.
#[global] Arguments Return {call} i.

(** A schedule is only carried out when asked for. *)
#[global] Strategy 1000 [perform access].
