(* ===== verification/AsyncThreads.v ===== *)
(** * The request slot, one memory access at a time (kpm/platform/kpatch/async.c)

    Async.v runs each operation in one step. In the kernel a control call submits a
    request and looks at the slot while a worker of the kernel runs the request. The
    control calls pass the control gate one at a time, so that they are one thread;
    the workers are any number of others. *)

From stdpp Require Import relations.
From S2P Require Import Prelude Async Interleave.

(** ** Programs *)

(** The members of [struct spz_async_request], and how often the work is queued and
    has not been started, which the kernel keeps. *)
Inductive async_cell :=
  A_state | A_operation | A_target_id | A_status | A_request_id | A_next_request_id | Work_queued.

#[export] Instance async_cell_eq : EqDecision async_cell.
Proof. solve_decision. Defined.

(** The call of [backend.execute] begins and returns. *)
Inductive async_event := Begin (operation target_id : Z) | End (status : Z).

Abbreviation aprog := (prog async_cell async_event).

Definition atomic_async_next_id : aprog Z :=
  previous ← load A_next_request_id;
  let next := u64 (previous + 1) in
  let next := if next =? 0 then 1 else next in
  store A_next_request_id next ;;
  mret next.

(** The kernel answers [answer] when the work is queued; with 0 it will run it. *)
Definition atomic_queue (answer : Z) : aprog Z :=
  if answer =? 0 then Rmw Work_queued (fun n => Some (n + 1)) (fun _ => mret 0) else mret answer.

(** The observed states that end the loop of [spz_async_submit], with their errors. *)
Definition submit_exchange (observed : Z) : Z + Z :=
  if (observed =? SPZ_ASYNC_PENDING) || (observed =? SPZ_ASYNC_RUNNING) then inl (- EBUSY)
  else if negb (observed =? SPZ_ASYNC_FREE) && negb (observed =? SPZ_ASYNC_DONE) then inl (- EUCLEAN)
  else inr SPZ_ASYNC_RUNNING.

(** The result, and the id stored on success. *)
Definition atomic_async_submit (operation target_id answer : Z) : aprog (Z * option Z) :=
  if (operation <=? SPZ_ASYNC_NONE) || (SPZ_ASYNC_MAPS <? operation) then mret (- EINVAL, None)
  else
    observed ← load A_state;
    Cas_loop A_state observed submit_exchange (fun r =>
      match r with
      | inl error => mret (error, None)
      | inr _ =>
          store A_operation operation ;;
          store A_target_id target_id ;;
          store A_status (- EINPROGRESS) ;;
          id ← atomic_async_next_id;
          store A_request_id id ;;
          store A_state SPZ_ASYNC_PENDING ;;
          result ← atomic_queue answer;
          if negb (result =? 0) then
            store A_status (if result <? 0 then result else - EIO) ;;
            store A_state SPZ_ASYNC_DONE ;;
            status ← load A_status;
            mret (status, None)
          else
            id ← load A_request_id;
            mret (0, Some id)
      end).

(** [answer] is what the callback returns. *)
Definition atomic_async_run (answer : Z) : aprog Z :=
  Rmw A_state (fun state => if state =? SPZ_ASYNC_PENDING then Some SPZ_ASYNC_RUNNING else None) (fun expected =>
    if negb (expected =? SPZ_ASYNC_PENDING) then
      if expected =? SPZ_ASYNC_DONE then load A_status else mret (- EBUSY)
    else
      operation ← load A_operation;
      target_id ← load A_target_id;
      emit (Begin operation target_id) ;;
      emit (End answer) ;;
      store A_status answer ;;
      store A_state SPZ_ASYNC_DONE ;;
      mret answer).

(** A worker of the kernel: it runs the work once for each time it was queued. *)
Definition atomic_async_worker (answer : Z) : aprog Z :=
  Rmw Work_queued (fun n => if 0 <? n then Some (n - 1) else None) (fun n =>
    if 0 <? n then atomic_async_run answer else mret 0).

Fixpoint atomic_async_snapshot_loop (attempts : nat) : aprog (option spz_async_snapshot_t) :=
  match attempts with
  | O => mret None
  | S attempts =>
      before ← load A_state;
      operation ← load A_operation;
      request_id ← load A_request_id;
      target_id ← load A_target_id;
      status ← load A_status;
      after ← load A_state;
      if before =? after then
        mret (Some {| an_state := before; an_operation := operation; an_request_id := request_id;
                      an_target_id := target_id; an_status := status |})
      else atomic_async_snapshot_loop attempts
  end.

Definition atomic_async_snapshot : aprog (option spz_async_snapshot_t) := atomic_async_snapshot_loop 16.

Definition atomic_async_busy : aprog bool :=
  state ← load A_state;
  mret ((state =? SPZ_ASYNC_PENDING) || (state =? SPZ_ASYNC_RUNNING)).

(** ** Calls *)

Inductive async_call :=
| Submit (operation target_id answer : Z)
| Look
| Ask_busy
| Work (answer : Z).

Inductive async_outcome :=
| Submitted (code : Z) (id : option Z)
| Seen (snapshot : option spz_async_snapshot_t)
| Is_busy (busy : bool)
| Worked (status : Z).

Definition async_program (c : async_call) : aprog async_outcome :=
  match c with
  | Submit operation target_id answer =>
      result ← atomic_async_submit operation target_id answer; mret (Submitted result.1 result.2)
  | Look => snapshot ← atomic_async_snapshot; mret (Seen snapshot)
  | Ask_busy => busy ← atomic_async_busy; mret (Is_busy busy)
  | Work answer => status ← atomic_async_worker answer; mret (Worked status)
  end.

(** Thread 0 makes the control calls, the others are workers. *)
Definition async_may (i : nat) (c : async_call) : Prop :=
  match c with Work _ => i <> 0%nat | _ => i = 0%nat end.

(** A slot after [spz_async_init]. *)
Definition async_zero : heap async_cell := fun _ => 0.

Abbreviation anote := (note async_event async_call async_outcome).
Abbreviation apool := (pool async_cell async_event async_call async_outcome).
Abbreviation async_pool_step := (pool_step async_program async_may).

(** ** What the notes promise *)

(** The requests accepted, with their ids, and the executions, oldest first. *)
Definition accepted_of (n : anote) : list (Z * Z) :=
  match n with Returned _ (Submit operation target_id _) (Submitted _ (Some _)) => [(operation, target_id)] | _ => [] end.
Definition id_of (n : anote) : list Z :=
  match n with Returned _ _ (Submitted _ (Some id)) => [id] | _ => [] end.
Definition begin_of (n : anote) : list (Z * Z) :=
  match n with Emitted _ (Begin operation target_id) => [(operation, target_id)] | _ => [] end.
Definition end_of (n : anote) : list Z :=
  match n with Emitted _ (End status) => [status] | _ => [] end.
Definition control_call_of (n : anote) : list async_call :=
  match n with Called _ (Work _) => [] | Called _ c => [c] | _ => [] end.

Definition accepted (h : list anote) : list (Z * Z) := h ≫= accepted_of.
Definition ids (h : list anote) : list Z := h ≫= id_of.
Definition begins (h : list anote) : list (Z * Z) := h ≫= begin_of.
Definition ends (h : list anote) : list Z := h ≫= end_of.
Definition control_calls (h : list anote) : list async_call := h ≫= control_call_of.

(** Everything accepted has been executed, and no execution is going on. *)
Definition settled (h : list anote) : Prop :=
  begins h = accepted h /\ length (ends h) = length (begins h).

(** A snapshot of a finished request: the last one executed, under the last id given
    out, or one the kernel refused to queue. *)
Definition finished_request (h : list anote) (s : spz_async_snapshot_t) : Prop :=
  (last (begins h) = Some (an_operation s, an_target_id s) /\ last (ends h) = Some (an_status s) /\
   last (ids h) = Some (an_request_id s)) \/
  (exists answer, answer <> 0 /\
     Returned 0 (Submit (an_operation s) (an_target_id s) answer) (Submitted (an_status s) None) ∈ h).

(** What each note says, given those before it. *)
Definition note_sound (h : list anote) (n : anote) : Prop :=
  match n with
  (* an execution begins when none is going on, for the oldest request not executed:
     one already accepted or the one being submitted *)
  | Emitted _ (Begin operation target_id) =>
      length (ends h) = length (begins h) /\
      (accepted h = begins h ++ [(operation, target_id)] \/
       accepted h = begins h /\ exists answer, last (control_calls h) = Some (Submit operation target_id answer))
  | Emitted _ (End _) => length (begins h) = S (length (ends h))
  (* a request is accepted under a new id, when the ones before have been executed *)
  | Returned _ (Submit operation target_id _) (Submitted code (Some id)) =>
      code = 0 /\ Forall (fun id' => id' < id) (ids h) /\
      (begins h = accepted h \/ begins h = accepted h ++ [(operation, target_id)])
  | Returned _ _ (Submitted code None) => code <> 0
  | Returned _ _ (Seen (Some s)) => an_state s = SPZ_ASYNC_DONE -> finished_request h s
  | Returned _ _ (Is_busy false) => settled h
  | _ => True
  end.

Inductive notes_sound : list anote -> Prop :=
| sound_nil : notes_sound []
| sound_snoc h n : notes_sound h -> note_sound h n -> notes_sound (h ++ [n]).
