(* ===== verification/AsyncThreadsSpec.v ===== *)
(** * The request slot under every interleaving

    The proof that the programs of AsyncThreads.v keep what its notes promise: the
    protocol the threads follow, one lemma per step of a program, and the theorem
    for pools of any number of workers. *)

From stdpp Require Import relations.
From S2P Require Import Prelude Async Interleave AsyncThreads.

(** ** The protocol *)

(** Who works on the slot: the control thread (idle, preparing a request, not yet
    queued, refused by the kernel), nobody (queued), or the worker [i]. *)
Inductive stage :=
| S_idle
| S_preparing
| S_pending
| S_refused
| S_queued
| S_taken (i : nat)
| S_claimed (i : nat)
| S_executing (i : nat)
| S_ended (i : nat) (status : Z).

Definition owner (st : stage) : option nat :=
  match st with
  | S_idle | S_preparing | S_pending | S_refused => Some 0%nat
  | S_queued => None
  | S_taken i | S_claimed i | S_executing i | S_ended i _ => Some i
  end.

(** [aw_call] is the newest control call and [aw_given] bounds the ids given out; [aw_queue] are the requests queued so far
    and [aw_inflight] is the newest of them until its submission returns. *)
Record async_world := {
  aw_stage : stage;
  aw_heap : heap async_cell;
  aw_call : option async_call;
  aw_given : Z;
  aw_queue : list (Z * Z);
  aw_inflight : option (Z * Z);
}.

#[export] Instance async_world_shape : Shape async_world :=
  shape! Build_async_world < aw_stage ; aw_heap ; aw_call ; aw_given ; aw_queue ; aw_inflight >.

Definition current (m : heap async_cell) : Z * Z := (m A_operation, m A_target_id).

Definition slot_snapshot (m : heap async_cell) : spz_async_snapshot_t :=
  {| an_state := m A_state; an_operation := m A_operation; an_request_id := m A_request_id;
     an_target_id := m A_target_id; an_status := m A_status |}.

(** The state word, whether the work is queued, whether the newest request has begun
    and whether an execution is going on. *)
Record stage_shape (w : async_world) (h : list anote) (state queued : Z) (begun going : bool) : Prop := {
  ss_state : aw_heap w A_state = state;
  ss_queued : aw_heap w Work_queued = queued;
  ss_begun : aw_queue w = if begun then begins h else begins h ++ [current (aw_heap w)];
  ss_going : length (begins h) = if going then S (length (ends h)) else length (ends h);
}.

(** The id of the newest request has been given out, once its submission returned. *)
Definition id_known (w : async_world) (h : list anote) : Prop :=
  aw_inflight w = None -> last (ids h) = Some (aw_heap w A_request_id).

Definition stage_ok (w : async_world) (h : list anote) : Prop :=
  match aw_stage w with
  | S_idle =>
      stage_shape w h (aw_heap w A_state) 0 true false /\
      (aw_heap w A_state = SPZ_ASYNC_FREE \/
       aw_heap w A_state = SPZ_ASYNC_DONE /\
       ((exists answer, answer <> 0 /\
           Returned 0 (Submit (aw_heap w A_operation) (aw_heap w A_target_id) answer)
                      (Submitted (aw_heap w A_status) None) ∈ h) \/
        last (begins h) = Some (current (aw_heap w)) /\ last (ends h) = Some (aw_heap w A_status) /\ id_known w h))
  | S_preparing => stage_shape w h SPZ_ASYNC_RUNNING 0 true false
  | S_pending => stage_shape w h SPZ_ASYNC_PENDING 0 true false
  | S_refused => stage_shape w h SPZ_ASYNC_DONE 0 true false
  | S_queued => stage_shape w h SPZ_ASYNC_PENDING 1 false false /\ id_known w h
  | S_taken _ => stage_shape w h SPZ_ASYNC_PENDING 0 false false /\ id_known w h
  | S_claimed _ => stage_shape w h SPZ_ASYNC_RUNNING 0 false false /\ id_known w h
  | S_executing _ =>
      stage_shape w h SPZ_ASYNC_RUNNING 0 true true /\ last (begins h) = Some (current (aw_heap w)) /\ id_known w h
  | S_ended _ status =>
      stage_shape w h SPZ_ASYNC_RUNNING 0 true false /\ last (begins h) = Some (current (aw_heap w)) /\
      last (ends h) = Some status /\ id_known w h
  end.

(** The control thread is in the middle of a submission. *)
Definition submitting (st : stage) : Prop :=
  match st with S_preparing | S_pending | S_refused => True | _ => False end.

Record async_inv (n : nat) (w : async_world) (m : heap async_cell) (h : list anote) : Prop := {
  ai_heap : m = aw_heap w;
  ai_notes : notes_sound h;
  ai_ids : 0 <= aw_given w <= aw_heap w A_next_request_id /\ aw_heap w A_next_request_id <= Z.of_nat n;
  ai_given : Forall (fun id => id <= aw_given w) (ids h);
  ai_call : last (control_calls h) = aw_call w;
  ai_queue : aw_queue w = accepted h ++ option_list (aw_inflight w);
  ai_inflight : forall t, aw_inflight w = Some t ->
    t = current (aw_heap w) /\ (exists answer, aw_call w = Some (Submit t.1 t.2 answer)) /\
    aw_given w < aw_heap w A_request_id <= aw_heap w A_next_request_id /\ ~ submitting (aw_stage w);
  ai_stage : stage_ok w h;
}.

(** The cells only the control thread writes. *)
Definition control_cell (c : async_cell) : Prop :=
  match c with A_operation | A_target_id | A_request_id | A_next_request_id => True | _ => False end.

Definition async_rely (i : nat) (w w' : async_world) : Prop :=
  match i with
  | O =>
      (owner (aw_stage w) = Some 0%nat \/ submitting (aw_stage w') -> w' = w) /\
      aw_call w' = aw_call w /\ aw_given w' = aw_given w /\ aw_queue w' = aw_queue w /\ aw_inflight w' = aw_inflight w /\
      (forall c, control_cell c -> aw_heap w' c = aw_heap w c)
  | _ =>
      owner (aw_stage w) = Some i \/ owner (aw_stage w') = Some i ->
      aw_stage w' = aw_stage w /\ aw_heap w' = aw_heap w
  end.

#[export] Instance async_rely_preorder i : PreOrder (async_rely i).
Proof.
  split.
  - intros w. by destruct i.
  - intros u v w. destruct i; cbn.
    + intros (H1 & L1 & G1 & Q1 & F1 & C1) (H2 & L2 & G2 & Q2 & F2 & C2). split_and!; [|congruence..|].
      * intros [Ho|Ho].
        -- assert (v = u) as -> by auto. auto.
        -- assert (w = v) as -> by auto. auto.
      * intros c Hc. rewrite C2, C1; auto.
    + intros H1 H2 [Ho|Ho].
      * destruct H1 as [E1 M1]; [by left|]. destruct H2 as [E2 M2]; [left; congruence|]. split; congruence.
      * destruct H2 as [E2 M2]; [by right|]. destruct H1 as [E1 M1]; [right; congruence|]. split; congruence.
Qed.

(** The control thread between calls. *)
Definition async_idle (i : nat) (w : async_world) : Prop :=
  match i with
  | O => aw_inflight w = None /\ ~ submitting (aw_stage w)
  | _ => owner (aw_stage w) <> Some i
  end.

Lemma async_idle_stable i w w' : async_idle i w -> async_rely i w w' -> async_idle i w'.
Proof.
  destruct i; cbn.
  - intros [Hf Hs] (H & _ & _ & _ & F & _). split; [congruence|]. intros Hs'. by rewrite (H (or_intror Hs')) in Hs'.
  - intros Ho H Ho'. destruct (H (or_intror Ho')) as [E _]. congruence.
Qed.

(** ** Steps *)

(** A note that records nothing else. *)
Definition plain (x : anote) : Prop :=
  accepted_of x = [] /\ id_of x = [] /\ begin_of x = [] /\ end_of x = [] /\ control_call_of x = [].

Lemma notes_app {A} (f : anote -> list A) h x : (h ++ [x]) ≫= f = (h ≫= f) ++ f x.
Proof. by rewrite bind_app, bind_singleton. Qed.

Lemma plain_notes h x :
  plain x -> accepted (h ++ [x]) = accepted h /\ ids (h ++ [x]) = ids h /\ begins (h ++ [x]) = begins h /\
  ends (h ++ [x]) = ends h /\ control_calls (h ++ [x]) = control_calls h.
Proof.
  intros (H1 & H2 & H3 & H4 & H5). unfold accepted, ids, begins, ends, control_calls. rewrite !notes_app.
  rewrite H1, H2, H3, H4, H5. by rewrite !app_nil_r.
Qed.

Lemma stage_shape_same w w' h h' state queued begun going :
  aw_heap w' = aw_heap w -> aw_queue w' = aw_queue w -> begins h' = begins h -> ends h' = ends h ->
  stage_shape w h state queued begun going -> stage_shape w' h' state queued begun going.
Proof. intros Hm Hq Hb He [? ? ? ?]. split; rewrite ?Hm, ?Hq, ?Hb, ?He; done. Qed.

(** The stage does not depend on more notes, nor on what has been returned. *)
Lemma stage_ok_more w w' h h' :
  aw_stage w' = aw_stage w -> aw_heap w' = aw_heap w -> aw_queue w' = aw_queue w ->
  begins h' = begins h -> ends h' = ends h -> (id_known w h -> id_known w' h') -> h ⊆ h' ->
  stage_ok w h -> stage_ok w' h'.
Proof.
  intros Hst Hm Hq Hb He Hi Hsub. unfold stage_ok. rewrite Hst, Hb, He, Hm.
  pose proof (fun state queued begun going => stage_shape_same w w' h h' state queued begun going Hm Hq Hb He) as Hs.
  destruct (aw_stage w); try (by auto); intros [Hsh Hr]; (split; [by auto|]).
  - destruct Hr as [|[? Hr]]; [by left|right]. split; [done|].
    destruct Hr as [(a & ? & ?)|(? & ? & ?)]; [left; exists a; auto|right; auto].
  - auto.
  - auto.
  - auto.
  - destruct Hr as [? ?]. auto.
  - destruct Hr as (? & ? & ?). auto.
Qed.

(** Time passes. *)
Lemma async_inv_S n w m h : async_inv n w m h -> async_inv (S n) w m h.
Proof. intros []. split; try done. lia. Qed.

Lemma async_inv_plain n w m h x :
  async_inv n w m h -> plain x -> note_sound h x -> async_inv (S n) w m (h ++ [x]).
Proof.
  intros [? Hs ? ? ? ? ? ?] Hp Hn. destruct (plain_notes h x Hp) as (Ha & Hi & Hb & He & Hc).
  split; rewrite ?Ha, ?Hi, ?Hc; try done.
  - by apply sound_snoc.
  - lia.
  - apply (stage_ok_more w w h); try done; [unfold id_known; by rewrite Hi|set_solver].
Qed.

Lemma guarantee_control w w' :
  owner (aw_stage w) = Some 0%nat -> owner (aw_stage w') = Some 0%nat \/ owner (aw_stage w') = None ->
  guarantee async_rely 0 w w'.
Proof. intros Ho Ho' [|j] Hj; [done|]. cbn. rewrite Ho. destruct Ho' as [-> | ->]; intros [|]; congruence. Qed.

(** A state word that says neither pending nor running, outside a submission. *)
Lemma idle_stage n w m h :
  async_inv n w m h -> ~ submitting (aw_stage w) ->
  aw_heap w A_state <> SPZ_ASYNC_PENDING -> aw_heap w A_state <> SPZ_ASYNC_RUNNING -> aw_stage w = S_idle.
Proof.
  intros [_ _ _ _ _ _ _ Hst] Hns Hp Hr. unfold stage_ok in Hst.
  destruct (aw_stage w); try done; try (by destruct Hns);
    repeat (match type of Hst with _ /\ _ => destruct Hst as [Hst _] end); by destruct Hst as [S1 _ _ _].
Qed.

Section steps.
Context (limit : nat).
Hypothesis Hlimit : Z.of_nat limit < 2 ^ 62.

Abbreviation takes := (takes limit async_inv async_rely).
Abbreviation wp := (wp limit async_inv async_rely).
Abbreviation finishes := (finishes limit async_inv async_rely async_idle).

(** The control thread works on the slot: nobody else has. *)
Lemma takes_control w m' h' K :
  owner (aw_stage w) = Some 0%nat ->
  (forall n h, (n < limit)%nat -> async_inv n w (aw_heap w) h ->
     exists w2, (owner (aw_stage w2) = Some 0%nat \/ owner (aw_stage w2) = None) /\
       async_inv (S n) w2 (m' (aw_heap w)) (h ++ h') /\ K (aw_heap w) w2) ->
  takes 0 w m' h' K.
Proof.
  intros Ho Hstep n w1 m h Hr Hn HI. destruct Hr as [Hw _]. rewrite (Hw (or_introl Ho)) in *.
  pose proof (ai_heap _ _ _ _ HI) as ->. destruct (Hstep n h Hn HI) as (w2 & Ho2 & HI2 & HK).
  exists w2. split_and!; [|done..]. by apply guarantee_control.
Qed.

(** A worker works on the slot. *)
Lemma takes_worker i w m' h' K :
  i <> 0%nat -> owner (aw_stage w) = Some i ->
  (forall n w1 h, (n < limit)%nat -> aw_stage w1 = aw_stage w -> aw_heap w1 = aw_heap w ->
     async_inv n w1 (aw_heap w) h ->
     exists w2, aw_call w2 = aw_call w1 /\ aw_given w2 = aw_given w1 /\ aw_queue w2 = aw_queue w1 /\ aw_inflight w2 = aw_inflight w1 /\
       (forall c, control_cell c -> aw_heap w2 c = aw_heap w1 c) /\
       (owner (aw_stage w2) = Some i \/ aw_stage w2 = S_idle) /\
       async_inv (S n) w2 (m' (aw_heap w)) (h ++ h') /\ K (aw_heap w) w2) ->
  takes i w m' h' K.
Proof.
  intros Hi Ho Hstep n w1 m h Hr Hn HI. destruct i as [|i]; [done|]. destruct (Hr (or_introl Ho)) as [Hs Hm].
  pose proof (ai_heap _ _ _ _ HI) as ->. rewrite Hm in *.
  destruct (Hstep n w1 h Hn Hs Hm HI) as (w2 & Hc & Hgv & Hq & Hf & Hcells & Hown & HI2 & HK).
  exists w2. split_and!; [|done..]. intros [|j] Hj; cbn; rewrite Hs, Ho.
  - split_and!; try done. intros [|Hsub]; [done|].
    destruct Hown as [Ho2|Hid]; [revert Ho2 Hsub; by destruct (aw_stage w2)|by rewrite Hid in Hsub].
  - intros [|Ho2]; [congruence|]. destruct Hown as [Ho3|Hid]; [congruence|]. by rewrite Hid in Ho2.
Qed.

(** A step that only looks. *)
Lemma takes_look i w K :
  (forall n w1 h, async_rely i w w1 -> async_inv n w1 (aw_heap w1) h -> K (aw_heap w1) w1) ->
  takes i w (fun m => m) [] K.
Proof.
  intros HK n w1 m h Hr Hn HI. pose proof (ai_heap _ _ _ _ HI) as ->. exists w1. split_and!.
  - intros j _. reflexivity.
  - rewrite app_nil_r. by apply async_inv_S.
  - by eapply HK.
Qed.

(** ** Submitting *)

(** The state word in the middle of a submission. *)
Definition submit_word (st : stage) : Z :=
  match st with S_preparing => SPZ_ASYNC_RUNNING | S_pending => SPZ_ASYNC_PENDING | _ => SPZ_ASYNC_DONE end.

Lemma submitting_shape w h :
  submitting (aw_stage w) -> stage_ok w h <-> stage_shape w h (submit_word (aw_stage w)) 0 true false.
Proof. unfold stage_ok. by destruct (aw_stage w). Qed.

(** The submission moves on by a store. *)
Lemma submit_move w st m n h :
  async_inv n w (aw_heap w) h -> submitting (aw_stage w) -> submitting st -> aw_inflight w = None ->
  m A_state = submit_word st -> m Work_queued = aw_heap w Work_queued ->
  aw_heap w A_next_request_id <= m A_next_request_id <= Z.of_nat (S n) ->
  async_inv (S n) (w <| aw_stage := st |> <| aw_heap := m |>) m h.
Proof.
  intros [? ? ? ? ? ? ? Hst] Hs Hs' Hf Hm Hq Hnext. apply submitting_shape in Hst as [S1 S2 S3 S4]; [|done].
  split; try done; cbn.
  - lia.
  - by rewrite Hf.
  - apply submitting_shape; [done|]. split; try done. cbn. congruence.
Qed.

Lemma submitting_owner st : submitting st -> owner st = Some 0%nat.
Proof. by destruct st. Qed.

(** A store of a submission, which moves on to the stage [st]. *)
Lemma wp_submit_store {A} w st c v (p : aprog A) Φ :
  submitting (aw_stage w) -> submitting st -> aw_inflight w = None ->
  match c with
  | A_state => v = submit_word st
  | A_next_request_id => st = aw_stage w /\ v = aw_heap w A_next_request_id + 1
  | Work_queued => False
  | _ => st = aw_stage w
  end ->
  wp 0 p (w <| aw_stage := st |> <| aw_heap := put c v (aw_heap w) |>) Φ -> wp 0 (store c v ;; p) w Φ.
Proof.
  intros Hs Hs' Hf Hc Hp. apply takes_control; [by apply submitting_owner|]. intros n h Hn HI.
  exists (w <| aw_stage := st |> <| aw_heap := put c v (aw_heap w) |>). rewrite app_nil_r.
  split_and!; [left; by apply submitting_owner| |exact Hp].
  pose proof (ai_ids _ _ _ _ HI). pose proof (ai_stage _ _ _ _ HI) as Hst.
  apply submitting_shape in Hst as [S1 S2 _ _]; [|done].
  apply submit_move; try done; destruct c; try done; rewrite ?put_same, ?put_other by done;
    try (destruct Hc); simplify_eq; first [done|lia].
Qed.

Lemma wp_control_load {A} w c (p : Z -> aprog A) Φ :
  owner (aw_stage w) = Some 0%nat -> wp 0 (p (aw_heap w c)) w Φ -> wp 0 (load c ≫= p) w Φ.
Proof.
  intros Ho Hp. apply takes_control; [done|]. intros n h Hn HI. exists w. rewrite app_nil_r.
  split_and!; [by left|by apply async_inv_S|done].
Qed.

(** A submission that is refused leaves the control thread as it was. *)
Lemma finish_refusal w op t a code :
  async_idle 0 w -> code <> 0 -> finishes 0 (Submit op t a) (Submitted code None) w.
Proof.
  intros Hid Hc n w1 m h Hr Hn HI. exists w1. split_and!.
  - intros j _. reflexivity.
  - by apply async_inv_plain.
  - by eapply async_idle_stable.
Qed.

(** One that the kernel did not queue. *)
Lemma finish_refused w op t a :
  aw_stage w = S_refused -> aw_inflight w = None -> current (aw_heap w) = (op, t) -> a <> 0 ->
  aw_heap w A_status <> 0 -> finishes 0 (Submit op t a) (Submitted (aw_heap w A_status) None) w.
Proof.
  intros Hs Hf Hcur Ha Hc. apply takes_control; [by rewrite Hs|]. intros n h Hn HI.
  exists (w <| aw_stage := S_idle |>). split_and!; [by left| |split; [exact Hf|by intros []]].
  set (x := Returned 0 (Submit op t a) (Submitted (aw_heap w A_status) None)).
  destruct (async_inv_plain n w _ h x HI) as [? ? ? ? ? ? ? Hst]; [done|done|].
  split; try done; [intros ? E; cbn in E; congruence|]. unfold stage_ok in *. rewrite Hs in Hst. cbn.
  destruct Hst as [S1 S2 S3 S4].
  split; [by split|]. right. split; [done|]. left. exists a. unfold current in Hcur. simplify_eq.
  split; [done|]. set_solver.
Qed.

(** One that was accepted. *)
Lemma finish_accepted w op t a id :
  aw_inflight w = Some (op, t) -> aw_heap w A_request_id = id ->
  finishes 0 (Submit op t a) (Submitted 0 (Some id)) w.
Proof.
  intros Hf Hid n w1 m h Hr Hn HI. destruct Hr as (_ & Hca & Hgv & Hq & Hfl & Hcell).
  pose proof HI as [-> Hs Hids Hg Hcall Hqu Hin Hst].
  assert (aw_inflight w1 = Some (op, t)) as Hf1 by congruence.
  destruct (Hin _ Hf1) as (Hcur & Hsub & Hnew & Hns).
  assert (aw_heap w1 A_request_id = id) as Hid1 by (rewrite Hcell; done).
  exists (w1 <| aw_inflight := None |> <| aw_given := id |>).
  set (x := Returned 0 (Submit op t a) (Submitted 0 (Some id))).
  assert (accepted (h ++ [x]) = accepted h ++ [(op, t)]) as Hacc by exact (notes_app accepted_of h x).
  assert (ids (h ++ [x]) = ids h ++ [id]) as Hi by exact (notes_app id_of h x).
  assert (begins (h ++ [x]) = begins h) as Hb by (unfold begins; by rewrite notes_app, app_nil_r).
  assert (ends (h ++ [x]) = ends h) as He by (unfold ends; by rewrite notes_app, app_nil_r).
  rewrite Hf1 in Hqu. cbn in Hqu.
  assert (begins h = accepted h \/ begins h = accepted h ++ [(op, t)]) as Hbeg.
  { rewrite <- Hqu. unfold stage_ok in Hst.
    destruct (aw_stage w1); try done; destruct Hst as [[_ _ Hq1 _] _]; try (by right);
      left; rewrite Hqu in Hq1; by apply app_inj_tail in Hq1 as [-> _]. }
  split_and!.
  - intros [|j] Hj; [done|]. cbn. done.
  - split; try done; cbn; rewrite ?Hacc, ?Hi.
    + apply sound_snoc; [done|]. split_and!; [done| |done]. eapply Forall_impl; [exact Hg|]. cbn. lia.
    + lia.
    + apply Forall_app. split; [|by apply Forall_singleton]. eapply Forall_impl; [exact Hg|]. cbn. lia.
    + unfold control_calls. by rewrite notes_app, app_nil_r.
    + by rewrite app_nil_r.
    + apply (stage_ok_more w1 _ h); try done; [|set_solver]. intros _ _. rewrite Hi, last_snoc. by f_equal.
  - by split.
Qed.

(** The kernel queues the request. *)
Lemma submit_queue w t n h :
  async_inv n w (aw_heap w) h -> aw_stage w = S_pending -> aw_inflight w = None ->
  current (aw_heap w) = t -> (exists answer, aw_call w = Some (Submit t.1 t.2 answer)) ->
  aw_given w < aw_heap w A_request_id <= aw_heap w A_next_request_id ->
  async_inv (S n)
    (w <| aw_stage := S_queued |> <| aw_heap := put Work_queued 1 (aw_heap w) |>
       <| aw_queue ::= fun q => q ++ [t] |> <| aw_inflight := Some t |>)
    (rmw (fun n => Some (n + 1)) Work_queued (aw_heap w)) h.
Proof.
  intros HI Hs Hf Hcur Hca Hid. destruct HI as [? ? ? ? ? Hq ? Hst]. unfold stage_ok in Hst. rewrite Hs in Hst.
  destruct Hst as [S1 S2 S3 S4]. split; try done.
  - unfold rmw. by rewrite S2.
  - cbn. rewrite put_other by done. lia.
  - cbn. by rewrite Hq, Hf, app_nil_r.
  - intros t0 [= <-]. cbn. split; [done|]. split; [done|]. split; [|by intros []]. rewrite !put_other by done. lia.
  - split; [|done]. split; try done. cbn. by rewrite S3, <- Hcur.
Qed.

(** The end of the submission of a prepared request. *)
Lemma wp_publish op t a w :
  aw_stage w = S_pending -> aw_inflight w = None -> aw_call w = Some (Submit op t a) ->
  current (aw_heap w) = (op, t) -> aw_given w < aw_heap w A_request_id <= aw_heap w A_next_request_id ->
  wp 0 (result ← atomic_queue a;
        if negb (result =? 0) then
          store A_status (if result <? 0 then result else - EIO) ;;
          store A_state SPZ_ASYNC_DONE ;;
          status ← load A_status;
          mret (status, None)
        else
          id ← load A_request_id;
          mret (0, Some id)) w
    (fun r w' => finishes 0 (Submit op t a) (Submitted r.1 r.2) w').
Proof.
  intros Hs Hf Hca Hcur Hid. unfold atomic_queue. destruct (Z.eqb_spec a 0) as [->|Ha].
  - apply takes_control; [by rewrite Hs|]. intros n h Hn HI. eexists. rewrite app_nil_r.
    split_and!; [|by apply (submit_queue w (op, t)); [..|by exists 0|]|]; [by right|]. cbn.
    apply takes_look. intros n1 w1 h1 (_ & _ & _ & _ & Hf1 & Hc1) HI1. by apply finish_accepted.
  - change (wp 0 (if negb (a =? 0) then
          store A_status (if a <? 0 then a else - EIO) ;;
          store A_state SPZ_ASYNC_DONE ;; status ← load A_status; mret (status, None)
        else id ← load A_request_id; mret (0, Some id)) w
      (fun r w' => finishes 0 (Submit op t a) (Submitted r.1 r.2) w')).
    rewrite (eqb_ne _ _ Ha). cbn [negb].
    apply (wp_submit_store w S_pending); [by rewrite Hs|done|done|done|].
    apply (wp_submit_store _ S_refused); [done..|]. apply wp_control_load; [done|].
    apply finish_refused; try done. cbn. rewrite put_other, put_same by done. destruct (Z.ltb_spec a 0); [lia|done].
Qed.

Lemma wp_next_id w :
  aw_stage w = S_preparing -> aw_inflight w = None ->
  wp 0 atomic_async_next_id w (fun id w' => id = aw_heap w A_next_request_id + 1 /\
    w' = w <| aw_stage := S_preparing |> <| aw_heap := put A_next_request_id id (aw_heap w) |>).
Proof.
  intros Hs Hf. apply takes_control; [by rewrite Hs|]. intros n h Hn HI. exists w. rewrite app_nil_r.
  split_and!; [left; by rewrite Hs|by apply async_inv_S|]. pose proof (ai_ids _ _ _ _ HI) as Hids.
  assert (u64 (aw_heap w A_next_request_id + 1) = aw_heap w A_next_request_id + 1) as -> by zlia.
  cbv zeta. rewrite eqb_ne by lia. apply (wp_submit_store w S_preparing); try done; by rewrite Hs.
Qed.

(** The exchange that takes a free slot. *)
Lemma submit_start w n h :
  async_inv n w (aw_heap w) h -> aw_stage w = S_idle -> aw_inflight w = None ->
  async_inv (S n) (w <| aw_stage := S_preparing |> <| aw_heap := put A_state SPZ_ASYNC_RUNNING (aw_heap w) |>)
    (put A_state SPZ_ASYNC_RUNNING (aw_heap w)) h.
Proof.
  intros [? ? ? ? ? ? ? Hst] Hs Hf. unfold stage_ok in Hst. rewrite Hs in Hst. destruct Hst as [[S1 S2 S3 S4] _].
  split; try done; cbn.
  - rewrite put_other by done. lia.
  - by rewrite Hf.
Qed.

Lemma wp_submit op t a w :
  async_idle 0 w -> aw_call w = Some (Submit op t a) ->
  wp 0 (async_program (Submit op t a)) w (finishes 0 (Submit op t a)).
Proof.
  intros Hidle Hca. cbn [async_program].
  eapply prog_wp_call with (Φ := fun r w' => finishes 0 (Submit op t a) (Submitted r.1 r.2) w'); [|intros r w' Hr; exact Hr].
  unfold atomic_async_submit. destruct (_ || _); [by apply finish_refusal|].
  apply takes_look. intros n1 w1 h1 Hr1 _.
  assert (Hmine : forall w2, async_rely 0 w w2 -> async_idle 0 w2 /\ aw_call w2 = Some (Submit op t a)).
  { intros w2 Hr. split; [by eapply async_idle_stable|]. destruct Hr as (_ & -> & _). done. }
  exists (fun _ w' => async_rely 0 w w'). split; [done|]. intros x w2 Hr2.
  destruct (submit_exchange x) as [error|v] eqn:Hx.
  - apply takes_look. intros n3 w3 h3 Hr3 _. apply finish_refusal; [by apply Hmine; etrans|].
    unfold submit_exchange in Hx. by repeat case_match; simplify_eq.
  - intros n3 w3 m h3 Hr3 Hn3 HI3. pose proof (ai_heap _ _ _ _ HI3) as ->. rewrite app_nil_r.
    assert (async_rely 0 w w3) as Hr by (by etrans). destruct (Hmine w3 Hr) as [[Hf Hns] Hc]. unfold rmw.
    destruct (aw_heap w3 A_state =? x) eqn:Ex; [|exists w3; split_and!; [intros ? ?; reflexivity|by apply async_inv_S|done]].
    apply Z.eqb_eq in Ex.
    assert (aw_stage w3 = S_idle /\ v = SPZ_ASYNC_RUNNING) as [Hst ->].
    { unfold submit_exchange in Hx. destruct (_ || _) eqn:Hb; [done|]. split; [|by case_match; simplify_eq].
      rewrite orb_false_iff, !Z.eqb_neq in Hb. destruct Hb. by apply (idle_stage _ _ _ _ HI3 Hns); rewrite Ex. }
    exists (w3 <| aw_stage := S_preparing |> <| aw_heap := put A_state SPZ_ASYNC_RUNNING (aw_heap w3) |>). split_and!.
    + apply guarantee_control; [by rewrite Hst|by left].
    + by apply submit_start.
    + apply (wp_submit_store _ S_preparing); [done..|]. apply (wp_submit_store _ S_preparing); [done..|].
      apply (wp_submit_store _ S_preparing); [done..|].
      eapply prog_wp_call; [by apply wp_next_id|]. intros id w4 [-> ->].
      apply (wp_submit_store _ S_preparing); [done..|]. apply (wp_submit_store _ S_pending); [done..|].
      apply wp_publish; try done. cbn. repeat (rewrite put_same || rewrite put_other by done).
      pose proof (ai_ids _ _ _ _ HI3). lia.
Qed.

(** ** Working *)

Lemma finish_worker i w a status :
  i <> 0%nat -> async_idle i w -> finishes i (Work a) (Worked status) w.
Proof.
  intros Hi Hid n w1 m h Hr Hn HI. exists w1. split_and!.
  - intros j _. reflexivity.
  - by apply async_inv_plain.
  - by eapply async_idle_stable.
Qed.

(** A worker looks at a member of the slot it works on. *)
Lemma wp_worker_load {A} i w c (p : Z -> aprog A) Φ :
  i <> 0%nat -> owner (aw_stage w) = Some i ->
  (forall w', aw_stage w' = aw_stage w -> aw_heap w' = aw_heap w -> wp i (p (aw_heap w c)) w' Φ) ->
  wp i (load c ≫= p) w Φ.
Proof.
  intros Hi Ho Hp. apply takes_worker; [done|done|]. intros n w1 h Hn Hs Hm HI. exists w1. rewrite app_nil_r.
  split_and!; try done; [left; by rewrite Hs|by apply async_inv_S|by apply Hp].
Qed.

(** The worker moves its stage on without touching what the others know. *)
Lemma worker_move w st m n h h' :
  async_inv n w (aw_heap w) h -> ~ submitting st -> (forall c, control_cell c -> m c = aw_heap w c) ->
  notes_sound (h ++ h') -> accepted (h ++ h') = accepted h -> ids (h ++ h') = ids h ->
  control_calls (h ++ h') = control_calls h ->
  stage_ok (w <| aw_stage := st |> <| aw_heap := m |>) (h ++ h') ->
  async_inv (S n) (w <| aw_stage := st |> <| aw_heap := m |>) m (h ++ h').
Proof.
  intros [? ? ? ? ? ? Hin ?] Hst Hm Hs Ha Hi Hc Hok. split; rewrite ?Ha, ?Hi, ?Hc; try done; cbn.
  - rewrite Hm by done. lia.
  - intros t Ht. destruct (Hin t Ht) as (-> & ? & ? & ?). unfold current. rewrite !Hm by done. auto.
Qed.

(** The shape of a stage under a new stage and memory. *)
Lemma shape_move w st m h state queued begun going state' queued' :
  stage_shape w h state queued begun going -> m A_state = state' -> m Work_queued = queued' ->
  current m = current (aw_heap w) ->
  stage_shape (w <| aw_stage := st |> <| aw_heap := m |>) h state' queued' begun going.
Proof. intros [? ? Hq ?] Hs Hk Hc. split; try done. cbn. by rewrite Hc. Qed.

Lemma id_known_move w st m h :
  id_known w h -> m A_request_id = aw_heap w A_request_id ->
  id_known (w <| aw_stage := st |> <| aw_heap := m |>) h.
Proof. intros Hi Hm Hf. cbn. rewrite Hm. by apply Hi. Qed.

(** The notes an event of a worker changes. *)
Lemma emitted_notes i e h :
  accepted (h ++ [Emitted i e]) = accepted h /\ ids (h ++ [Emitted i e]) = ids h /\
  control_calls (h ++ [Emitted i e]) = control_calls h.
Proof. unfold accepted, ids, control_calls. rewrite !notes_app. by rewrite !app_nil_r. Qed.

Lemma worker_take w i n h :
  async_inv n w (aw_heap w) h -> aw_stage w = S_queued ->
  async_inv (S n) (w <| aw_stage := S_taken i |> <| aw_heap := put Work_queued 0 (aw_heap w) |>)
    (put Work_queued 0 (aw_heap w)) h.
Proof.
  intros HI Hs. pose proof (ai_stage _ _ _ _ HI) as Hst. unfold stage_ok in Hst. rewrite Hs in Hst.
  destruct Hst as [Hsh Hid]. rewrite <- (app_nil_r h). apply worker_move; rewrite ?app_nil_r; try done.
  - by intros [].
  - by intros [].
  - by destruct HI.
  - split; [|by apply id_known_move]. by eapply shape_move; [exact Hsh|destruct Hsh..|].
Qed.

Lemma worker_claim w i n h :
  async_inv n w (aw_heap w) h -> aw_stage w = S_taken i ->
  async_inv (S n) (w <| aw_stage := S_claimed i |> <| aw_heap := put A_state SPZ_ASYNC_RUNNING (aw_heap w) |>)
    (put A_state SPZ_ASYNC_RUNNING (aw_heap w)) h.
Proof.
  intros HI Hs. pose proof (ai_stage _ _ _ _ HI) as Hst. unfold stage_ok in Hst. rewrite Hs in Hst.
  destruct Hst as [Hsh Hid]. rewrite <- (app_nil_r h). apply worker_move; rewrite ?app_nil_r; try done.
  - by intros [].
  - by intros [].
  - by destruct HI.
  - split; [|by apply id_known_move]. by eapply shape_move; [exact Hsh|destruct Hsh..|].
Qed.

Lemma worker_begin w i n h :
  async_inv n w (aw_heap w) h -> aw_stage w = S_claimed i ->
  async_inv (S n) (w <| aw_stage := S_executing i |> <| aw_heap := aw_heap w |>) (aw_heap w)
    (h ++ [Emitted i (Begin (aw_heap w A_operation) (aw_heap w A_target_id))]).
Proof.
  intros HI Hs. pose proof (ai_stage _ _ _ _ HI) as Hst. unfold stage_ok in Hst. rewrite Hs in Hst.
  destruct Hst as [[S1 S2 S3 S4] Hid]. set (x := Emitted i (Begin _ _)).
  assert (begins (h ++ [x]) = begins h ++ [current (aw_heap w)]) as Hb by exact (notes_app begin_of h x).
  assert (ends (h ++ [x]) = ends h) as He by (unfold ends; by rewrite notes_app, app_nil_r).
  destruct (emitted_notes i (Begin (aw_heap w A_operation) (aw_heap w A_target_id)) h) as (Ha & Hi & Hc). fold x in Ha, Hi, Hc.
  apply worker_move; try done; [by intros []| |].
  - apply sound_snoc; [by destruct HI|]. split; [done|]. destruct HI as [_ _ _ _ Hca Hq Hin _]. rewrite Hq in S3.
    destruct (aw_inflight w) as [t|]; cbn in S3; [right|left; by rewrite app_nil_r in S3].
    destruct (Hin t eq_refl) as (-> & (answer & Hcall) & _). apply app_inj_tail in S3 as [-> _].
    split; [done|]. exists answer. by rewrite Hca.
  - unfold stage_ok. cbn. rewrite Hb, last_snoc. split; [|split; [done|]].
    + split; try done; [by rewrite Hb|]. rewrite Hb, He, length_app, S4. cbn. lia.
    + intros Hf. rewrite Hi. by apply Hid.
Qed.

Lemma worker_end w i status n h :
  async_inv n w (aw_heap w) h -> aw_stage w = S_executing i ->
  async_inv (S n) (w <| aw_stage := S_ended i status |> <| aw_heap := aw_heap w |>) (aw_heap w)
    (h ++ [Emitted i (End status)]).
Proof.
  intros HI Hs. pose proof (ai_stage _ _ _ _ HI) as Hst. unfold stage_ok in Hst. rewrite Hs in Hst.
  destruct Hst as ([S1 S2 S3 S4] & Hlast & Hid). set (x := Emitted i (End status)).
  assert (begins (h ++ [x]) = begins h) as Hb by (unfold begins; by rewrite notes_app, app_nil_r).
  assert (ends (h ++ [x]) = ends h ++ [status]) as He by exact (notes_app end_of h x).
  destruct (emitted_notes i (End status) h) as (Ha & Hi & Hc). fold x in Ha, Hi, Hc.
  apply worker_move; try done; [by intros []| |].
  - apply sound_snoc; [by destruct HI|done].
  - unfold stage_ok. cbn. rewrite Hb, He, last_snoc. split_and!; try done.
    + split; try done; [by rewrite Hb|]. rewrite Hb, He, length_app, S4. cbn. lia.
    + intros Hf. rewrite Hi. by apply Hid.
Qed.

Lemma worker_status w i status n h :
  async_inv n w (aw_heap w) h -> aw_stage w = S_ended i status ->
  async_inv (S n) (w <| aw_stage := S_ended i status |> <| aw_heap := put A_status status (aw_heap w) |>)
    (put A_status status (aw_heap w)) h.
Proof.
  intros HI Hs. pose proof (ai_stage _ _ _ _ HI) as Hst. unfold stage_ok in Hst. rewrite Hs in Hst.
  destruct Hst as (Hsh & Hlast & Hend & Hid). rewrite <- (app_nil_r h). apply worker_move; rewrite ?app_nil_r; try done.
  - by intros [].
  - by intros [].
  - by destruct HI.
  - split_and!; try done. by eapply shape_move; [exact Hsh|destruct Hsh..|].
Qed.

Lemma worker_done w i n h :
  async_inv n w (aw_heap w) h -> aw_stage w = S_ended i (aw_heap w A_status) ->
  async_inv (S n) (w <| aw_stage := S_idle |> <| aw_heap := put A_state SPZ_ASYNC_DONE (aw_heap w) |>)
    (put A_state SPZ_ASYNC_DONE (aw_heap w)) h.
Proof.
  intros HI Hs. pose proof (ai_stage _ _ _ _ HI) as Hst. unfold stage_ok in Hst. rewrite Hs in Hst.
  destruct Hst as (Hsh & Hlast & Hend & Hid). rewrite <- (app_nil_r h). apply worker_move; rewrite ?app_nil_r; try done.
  - by intros [].
  - by intros [].
  - by destruct HI.
  - split; [by eapply shape_move; [exact Hsh|destruct Hsh..|]|]. right. split; [done|]. right.
    split_and!; try done.
Qed.

(** The worker moves on by a step with these effects. *)
Lemma takes_move i w st m' h' K :
  i <> 0%nat -> owner (aw_stage w) = Some i -> owner st = Some i \/ st = S_idle ->
  (forall c, control_cell c -> m' (aw_heap w) c = aw_heap w c) ->
  (forall n w1 h, aw_stage w1 = aw_stage w -> aw_heap w1 = aw_heap w -> async_inv n w1 (aw_heap w1) h ->
     async_inv (S n) (w1 <| aw_stage := st |> <| aw_heap := m' (aw_heap w) |>) (m' (aw_heap w)) (h ++ h')) ->
  (forall w2, aw_stage w2 = st -> aw_heap w2 = m' (aw_heap w) -> K (aw_heap w) w2) -> takes i w m' h' K.
Proof.
  intros Hi Ho Hst Hc Hstep HK. apply takes_worker; [done|done|]. intros n w1 h Hn Hs Hm HI.
  exists (w1 <| aw_stage := st |> <| aw_heap := m' (aw_heap w) |>). split_and!; try done.
  - intros c Hcc. rewrite Hm. by apply Hc.
  - rewrite <- Hm in HI. by apply Hstep.
  - by apply HK.
Qed.

(** From the claimed request to the end of its execution. *)
Lemma wp_execute i a w :
  i <> 0%nat -> aw_stage w = S_claimed i ->
  wp i (operation ← load A_operation;
        target_id ← load A_target_id;
        emit (Begin operation target_id) ;;
        emit (End a) ;;
        store A_status a ;;
        store A_state SPZ_ASYNC_DONE ;;
        mret a) w (fun status w' => finishes i (Work a) (Worked status) w').
Proof.
  intros Hi Hs. apply wp_worker_load; [done|by rewrite Hs|]. intros w1 Hs1 Hm1. rewrite Hs in Hs1.
  apply wp_worker_load; [done|by rewrite Hs1|]. intros w2 Hs2 Hm2. rewrite Hs1 in Hs2. rewrite <- Hm1, <- Hm2.
  apply (takes_move i w2 (S_executing i)); [done|by rewrite Hs2|by left|done| |].
  { intros n w3 h E <- HI. apply worker_begin; congruence. }
  intros w3 Hs3 _. apply (takes_move i w3 (S_ended i a)); [done|by rewrite Hs3|by left|done| |].
  { intros n w4 h E <- HI. apply worker_end; congruence. }
  intros w4 Hs4 _. apply (takes_move i w4 (S_ended i a)); [done|by rewrite Hs4|by left|by intros []| |].
  { intros n w5 h E <- HI. rewrite app_nil_r. apply worker_status; congruence. }
  intros w5 Hs5 Hm5. apply (takes_move i w5 S_idle); [done|by rewrite Hs5|by right|by intros []| |].
  { intros n w6 h E Em HI. rewrite app_nil_r, <- Em. apply (worker_done _ i); [done|]. rewrite E, Hs5, Em, Hm5.
    by rewrite put_same. }
  intros w6 Hs6 _. apply finish_worker; [done|]. destruct i; [done|]. cbn. by rewrite Hs6.
Qed.

Lemma wp_work i a w :
  i <> 0%nat -> async_idle i w -> wp i (async_program (Work a)) w (finishes i (Work a)).
Proof.
  intros Hi Hidle. cbn [async_program].
  eapply prog_wp_call with (Φ := fun r w' => finishes i (Work a) (Worked r) w'); [|intros r w' Hr; exact Hr].
  intros n w1 m h Hr Hn HI. pose proof (ai_heap _ _ _ _ HI) as ->. rewrite app_nil_r.
  assert (async_idle i w1) as Hid1 by (by eapply async_idle_stable). unfold rmw.
  destruct (0 <? aw_heap w1 Work_queued) eqn:Hq.
  2: { exists w1. split_and!; [intros ? ?; reflexivity|by apply async_inv_S|by apply finish_worker]. }
  apply Z.ltb_lt in Hq.
  assert (aw_stage w1 = S_queued /\ aw_heap w1 Work_queued = 1) as [Hs H1].
  { pose proof (ai_stage _ _ _ _ HI) as Hst. unfold stage_ok in Hst.
    destruct (aw_stage w1); repeat (match type of Hst with _ /\ _ => destruct Hst as [Hst _] end); destruct Hst; lia || done. }
  rewrite H1. exists (w1 <| aw_stage := S_taken i |> <| aw_heap := put Work_queued 0 (aw_heap w1) |>). split_and!.
  - intros [|j] Hj; cbn; rewrite Hs; [split_and!; try done; [by intros [|]|by intros []]|]. intros [?|?]; simplify_eq/=.
  - by apply worker_take.
  - set (w2 := w1 <| aw_stage := S_taken i |> <| aw_heap := put Work_queued 0 (aw_heap w1) |>).
    assert (aw_heap w2 A_state = SPZ_ASYNC_PENDING) as Hp.
    { pose proof (ai_stage _ _ _ _ HI) as Hst. unfold stage_ok in Hst. rewrite Hs in Hst. by destruct Hst as [[] _]. }
    unfold atomic_async_run. cbn [Interleave.wp]. set (f := fun state => if state =? SPZ_ASYNC_PENDING then _ else _).
    assert (rmw f A_state (aw_heap w2) = put A_state SPZ_ASYNC_RUNNING (aw_heap w2)) as Hrmw
      by (unfold rmw, f; by rewrite Hp).
    apply (takes_move i w2 (S_claimed i)); [done|done|by left|rewrite Hrmw; by intros []| |].
    + intros n2 w3 h2 E Em HI2. rewrite app_nil_r, Hrmw, <- Em. apply worker_claim; [done|by rewrite E].
    + intros w3 Hs3 _. rewrite Hp. by apply wp_execute.
Qed.

(** ** Looking *)

(** A load of the control thread between submissions. *)
Lemma wp_look_load {A} w c (p : Z -> aprog A) Φ :
  (forall n w' h, async_rely 0 w w' -> async_inv n w' (aw_heap w') h -> wp 0 (p (aw_heap w' c)) w' Φ) ->
  wp 0 (load c ≫= p) w Φ.
Proof. intros Hp. by apply takes_look. Qed.

(** What a snapshot in the final state says: nobody but the reader may change the
    slot any more. *)
Definition seen_done (s : option spz_async_snapshot_t) (w : async_world) : Prop :=
  forall s', s = Some s' -> an_state s' = SPZ_ASYNC_DONE -> aw_stage w = S_idle /\ s' = slot_snapshot (aw_heap w).

Lemma wp_snapshot_loop attempts w :
  async_idle 0 w -> wp 0 (atomic_async_snapshot_loop attempts) w (fun s w' => async_idle 0 w' /\ seen_done s w').
Proof.
  revert w. induction attempts as [|attempts IH]; intros w Hid; cbn [atomic_async_snapshot_loop]; [by split|].
  apply wp_look_load. intros n w1 h Hr1 HI. assert (async_idle 0 w1) as Hid1 by (by eapply async_idle_stable).
  apply wp_look_load. intros ? w2 ? Hr2 _. apply wp_look_load. intros ? w3 ? Hr3 _.
  apply wp_look_load. intros ? w4 ? Hr4 _. apply wp_look_load. intros ? w5 ? Hr5 _.
  apply wp_look_load. intros ? w6 ? Hr6 _.
  assert (Hr : async_rely 0 w1 w6) by (do 4 (etrans; [eassumption|]); done).
  assert (async_idle 0 w6) as Hid6 by (by eapply async_idle_stable).
  destruct (_ =? _); [|by apply IH]. split; [done|]. intros s' [= <-] Hdone. cbn in Hdone.
  assert (aw_stage w1 = S_idle) as Hs.
  { by apply (idle_stage _ _ _ _ HI); [apply Hid1|rewrite Hdone..]. }
  assert (Hown : owner (aw_stage w1) = Some 0%nat) by (by rewrite Hs).
  assert (w2 = w1) as -> by (apply Hr2; by left). assert (w3 = w1) as -> by (apply Hr3; by left).
  assert (w4 = w1) as -> by (apply Hr4; by left). assert (w5 = w1) as -> by (apply Hr5; by left).
  assert (w6 = w1) as -> by (apply Hr6; by left). done.
Qed.

Lemma wp_look w : async_idle 0 w -> wp 0 (async_program Look) w (finishes 0 Look).
Proof.
  intros Hid. cbn [async_program]. eapply prog_wp_call; [by apply wp_snapshot_loop|]. intros s w1 [Hid1 Hseen].
  intros n w2 m h Hr Hn HI. exists w2. split_and!; [intros ? ?; reflexivity| |by eapply async_idle_stable].
  apply async_inv_plain; [done|done|]. destruct s as [s|]; [|done]. intros Hd.
  destruct (Hseen s eq_refl Hd) as [Hs ->]. assert (w2 = w1) as -> by (apply Hr; left; by rewrite Hs).
  pose proof (ai_stage _ _ _ _ HI) as Hst. unfold stage_ok in Hst. rewrite Hs in Hst. destruct Hst as [_ Hst].
  cbn in Hd. destruct Hst as [Hf|[_ [Hr'|(? & ? & Hk)]]]; [by rewrite Hf in Hd|by right|].
  left. split_and!; [done|done|]. apply Hk, Hid1.
Qed.

Lemma wp_busy w : async_idle 0 w -> wp 0 (async_program Ask_busy) w (finishes 0 Ask_busy).
Proof.
  intros Hid. apply takes_look. intros n w1 h Hr1 HI1. assert (async_idle 0 w1) as Hid1 by (by eapply async_idle_stable).
  intros n2 w2 m2 h2 Hr2 Hn2 HI2. exists w2. split_and!; [intros ? ?; reflexivity| |by eapply async_idle_stable].
  apply async_inv_plain; [done|done|]. cbn. destruct (_ || _) eqn:Hb; [done|].
  assert (aw_stage w1 = S_idle) as Hs.
  { rewrite orb_false_iff, !Z.eqb_neq in Hb. apply (idle_stage _ _ _ _ HI1); [apply Hid1|apply Hb..]. }
  assert (w2 = w1) as -> by (apply Hr2; left; by rewrite Hs).
  pose proof HI2 as [_ _ _ _ _ Hq _ Hst]. unfold stage_ok in Hst. rewrite Hs in Hst. destruct Hst as [[_ _ S3 S4] _].
  destruct Hid1 as [Hf _]. rewrite Hf, app_nil_r in Hq. split; [congruence|done].
Qed.

End steps.

(** ** Every interleaving *)

(** The control thread makes a call. *)
Lemma async_inv_called n w m h c :
  async_inv n w m h -> aw_inflight w = None -> control_call_of (Called 0 c) = [c] ->
  async_inv (S n) (w <| aw_call := Some c |>) m (h ++ [Called 0 c]).
Proof.
  intros [? ? ? ? ? Hq ? Hst] Hf Hc. set (x := Called 0 c) in *.
  assert (accepted (h ++ [x]) = accepted h) as Ha by (unfold accepted; by rewrite notes_app, app_nil_r).
  assert (ids (h ++ [x]) = ids h) as Hi by (unfold ids; by rewrite notes_app, app_nil_r).
  assert (begins (h ++ [x]) = begins h) as Hb by (unfold begins; by rewrite notes_app, app_nil_r).
  assert (ends (h ++ [x]) = ends h) as He by (unfold ends; by rewrite notes_app, app_nil_r).
  split; rewrite ?Ha, ?Hi; try done; cbn.
  - by apply sound_snoc.
  - lia.
  - unfold control_calls. rewrite notes_app, Hc. apply last_snoc.
  - by rewrite Hf.
  - apply (stage_ok_more w _ h); try done; [|set_solver]. intros Hk Hf'. rewrite Hi. by apply Hk.
Qed.

Lemma async_call_starts limit i c w :
  Z.of_nat limit < 2 ^ 62 -> async_may i c -> async_idle i w ->
  takes limit async_inv async_rely i w (fun m => m) [Called i c]
    (fun _ w2 => wp limit async_inv async_rely i (async_program c) w2
                   (finishes limit async_inv async_rely async_idle i c)).
Proof.
  intros Hl Hm Hid n w1 m h Hr Hn HI. assert (async_idle i w1) as Hid1 by (by eapply async_idle_stable).
  destruct (decide (i = 0%nat)) as [->|Hi].
  - assert (Hcall : control_call_of (Called 0 c) = [c]) by (by destruct c).
    exists (w1 <| aw_call := Some c |>). split_and!.
    + intros [|j] Hj; [done|]. cbn. done.
    + by apply async_inv_called; [|apply Hid1|].
    + destruct c; [apply wp_submit|apply wp_look|apply wp_busy|]; done.
  - destruct c; try done. exists w1. split_and!; [intros ? ?; reflexivity|by apply async_inv_plain|by apply wp_work].
Qed.

Definition async_world_start : async_world :=
  {| aw_stage := S_idle; aw_heap := async_zero; aw_call := None; aw_given := 0; aw_queue := []; aw_inflight := None |}.

Lemma async_threads_start : async_inv 0 async_world_start async_zero [].
Proof. split; try done; [apply sound_nil|]. split; [done|by left]. Qed.

(** C13: in every interleaving of control calls and workers, access by access: a
    request is executed exactly once, with its own operation and target, before the
    next one is accepted; no two executions overlap; ids only grow; a snapshot of a
    finished request shows the status of its execution under its id; and when, between
    control calls, the slot is free or done, everything accepted has been executed
    and nothing is queued or being executed. *)
Theorem async_threads_sound k steps s :
  nsteps async_pool_step steps (pool_start k async_zero) s -> Z.of_nat steps < 2 ^ 62 ->
  notes_sound (pl_notes s) /\
  (pl_threads s !! 0%nat = Some Outside ->
   pl_heap s A_state = SPZ_ASYNC_FREE \/ pl_heap s A_state = SPZ_ASYNC_DONE ->
   settled (pl_notes s) /\ pl_heap s Work_queued = 0).
Proof.
  intros Hrun Hn.
  destruct (pool_run_ok steps async_inv async_rely async_program async_may async_idle k async_zero async_world_start
              steps s) as (w & HI & Ht); try done.
  - split; [exact async_idle_stable|]. intros. by apply async_call_starts.
  - apply async_threads_start.
  - intros [|i] _; cbn; [split; [done|by intros []]|congruence].
  - split; [by destruct HI|]. intros H0 Hst. destruct (Ht 0%nat _ H0) as [Hf Hns].
    pose proof HI as [Hm _ _ _ _ Hq _ Hok]. rewrite Hm in *.
    assert (aw_stage w = S_idle) as Hs by (apply (idle_stage _ _ _ _ HI Hns); by destruct Hst as [-> | ->]).
    unfold stage_ok in Hok. rewrite Hs in Hok. destruct Hok as [[_ S2 S3 S4] _].
    rewrite Hf, app_nil_r in Hq. split; [|done]. split; [congruence|done].
Qed.

(** ** A schedule

    A request is submitted; its worker begins before the submission returns; the
    control thread looks while it runs and again when it is done; a second request is
    not queued by the kernel, after which the slot is not busy. *)
Definition async_demo : list (action async_call) :=
  [Call 0 (Submit SPZ_ASYNC_ENABLE 7 0); Access 0 10; Call 1 (Work 0); Access 1 5; Access 0 1; Return 0;
   Call 0 Look; Access 0 3; Access 1 1; Access 0 3; Return 0; Access 1 2; Return 1; Call 0 Look; Access 0 6; Return 0;
   Call 0 (Submit SPZ_ASYNC_MAPS 9 (- EBUSY)); Access 0 12; Return 0; Call 0 Ask_busy; Access 0 1; Return 0].

Definition async_demo_end : apool := performed async_program async_demo (pool_start 2 async_zero).

Strategy expand [async_demo_end].

Lemma async_demo_ok : Forall (action_ok async_may) async_demo.
Proof. repeat (apply Forall_cons; split; [done|]). by apply Forall_nil. Qed.

Lemma async_demo_notes : begins (pl_notes async_demo_end) = [(SPZ_ASYNC_ENABLE, 7)].
Proof. vm_compute. reflexivity. Qed.

Lemma async_demo_steps :
  nsteps async_pool_step (sum_list_with action_steps async_demo) (pool_start 2 async_zero) async_demo_end.
Proof.
  apply performed_steps; [apply async_demo_ok|done|]. intros Hn. pose proof async_demo_notes as H.
  unfold async_demo_end in H. rewrite Hn in H. discriminate H.
Qed.

Lemma async_threads_sound_witness :
  notes_sound (pl_notes async_demo_end) /\
  (pl_threads async_demo_end !! 0%nat = Some Outside ->
   pl_heap async_demo_end A_state = SPZ_ASYNC_FREE \/ pl_heap async_demo_end A_state = SPZ_ASYNC_DONE ->
   settled (pl_notes async_demo_end) /\ pl_heap async_demo_end Work_queued = 0).
Proof.
  apply (async_threads_sound 2 (sum_list_with action_steps async_demo)); [exact async_demo_steps|].
  vm_compute. reflexivity.
Defined.
