(* ===== verification/RingThreads.v ===== *)
(** * The event ring, one memory access at a time (kpm/core/ring.c)

    Ring.v runs each operation in one step. In the kernel the hooks of up to eight
    CPUs push while the poll command pops. Here the operations are programs of single
    accesses, the copies of an event byte by byte. Each CPU pushes into its own ring
    (the hooks of one CPU do not interrupt each other) and is one thread; the polls
    pass the control gate one at a time and are another. The audit, which pushes from
    a worker, is left out here; RingThreadsSpec.v shows what it does to a push of its
    CPU. *)

From stdpp Require Import relations.
From S2P Require Import Prelude Crc32 Abi Ring Interleave.

(** ** Programs *)

(** The words of [struct spz_ring] and the bytes of the events in its slots. *)
Inductive ring_cell :=
| Next_sequence
| Consumer_after
| Head (cpu : nat)
| Tail (cpu : nat)
| Lost (cpu : nat)
| Loss_pending (cpu : nat)
| Commit (cpu slot : nat)
| Byte (cpu slot k : nat).

#[export] Instance ring_cell_eq : EqDecision ring_cell.
Proof. solve_decision. Defined.

Abbreviation rprog := (prog ring_cell Empty_set).

(** The loop of [spz_next_sequence] leaves when the counter is at its end. *)
Definition sequence_exchange (previous : Z) : Z + Z :=
  if previous =? UINT64_MAX then inl (- EOVERFLOW) else inr (u64 (previous + 1)).

(** The error, or the sequence number. *)
Definition atomic_next_sequence : rprog (Z + Z) :=
  previous ← load Next_sequence;
  Cas_loop Next_sequence previous sequence_exchange (fun r =>
    match r with
    | inl error => mret (inl error)
    | inr previous => mret (inr (u64 (previous + 1)))
    end).

Definition atomic_cpu_used (cpu : nat) : rprog Z :=
  head ← load (Head cpu);
  tail ← load (Tail cpu);
  mret (u64 (head - tail)).

(** [memcpy] into the event of a slot, from its byte [k] on. *)
Fixpoint copy_in (cpu slot k : nat) (bytes : list Z) : rprog unit :=
  match bytes with
  | [] => mret tt
  | b :: bytes => store (Byte cpu slot k) b ;; copy_in cpu slot (S k) bytes
  end.

(** [memcpy] of [n] bytes out of the event of a slot, from its byte [k] on. *)
Fixpoint copy_out (cpu slot k n : nat) : rprog (list Z) :=
  match n with
  | O => mret []
  | S n => b ← load (Byte cpu slot k); bytes ← copy_out cpu slot (S k) n; mret (b :: bytes)
  end.

Definition atomic_publish (cpu : nat) (source : spz_event) : rprog Z :=
  used ← atomic_cpu_used cpu;
  if SPZ_RING_CAPACITY <=? used then mret (- ENOSPC)
  else
    head ← load (Head cpu);
    let slot := slot_index head in
    commit ← load (Commit cpu slot);
    if negb (commit =? 0) then mret (- EBUSY)
    else
      next ← atomic_next_sequence;
      match next with
      | inl error => mret error
      | inr sequence =>
          copy_in cpu slot 0 (event_bytes (stamp_event (Z.of_nat cpu) sequence source)) ;;
          store (Commit cpu slot) sequence ;;
          store (Head cpu) (u64 (head + 1)) ;;
          mret 0
      end.

Definition atomic_count_loss (cpu : nat) : rprog Z :=
  Rmw (Lost cpu) (fun n => Some (u64 (n + 1))) (fun _ =>
  Rmw (Loss_pending cpu) (fun n => Some (u64 (n + 1))) (fun _ => mret (- ENOSPC))).

(** The marker in front of the next event, when a loss is pending and there is room. *)
Definition atomic_report_loss (cpu : nat) (pending free_slots : Z) : rprog Z :=
  if negb (pending =? 0) && (2 <=? free_slots) then
    lost ← load (Lost cpu);
    result ← atomic_publish cpu (loss_event pending lost);
    if negb (result =? 0) then mret result
    else Rmw (Loss_pending cpu) (fun n => Some (u64 (n - pending))) (fun _ => mret 0)
  else mret 0.

Definition atomic_ring_push (cpu : Z) (event : option spz_event) : rprog Z :=
  match event with
  | None => mret (- EINVAL)
  | Some event =>
      if SPZ_MAX_CPUS <=? cpu then mret (- EINVAL)
      else
        let cpu := Z.to_nat cpu in
        used ← atomic_cpu_used cpu;
        let free_slots := u64 (SPZ_RING_CAPACITY - used) in
        if free_slots =? 0 then atomic_count_loss cpu
        else
          pending ← load (Loss_pending cpu);
          result ← atomic_report_loss cpu pending free_slots;
          if negb (result =? 0) then mret result
          else
            result ← atomic_publish cpu event;
            if result =? - ENOSPC then atomic_count_loss cpu else mret result
  end.

(** [fuel] bounds the iterations by the distance of [tail] to [head]. *)
Fixpoint atomic_discard_loop (fuel : nat) (cpu : nat) (tail head after : Z) : rprog unit :=
  match fuel with
  | O => mret tt
  | S fuel =>
      if tail <? head then
        commit ← load (Commit cpu (slot_index tail));
        if (commit =? 0) || (after <? commit) then mret tt
        else
          store (Commit cpu (slot_index tail)) 0 ;;
          let tail := u64 (tail + 1) in
          store (Tail cpu) tail ;;
          atomic_discard_loop fuel cpu tail head after
      else mret tt
  end.

Definition atomic_discard_through (cpu : nat) (after : Z) : rprog unit :=
  tail ← load (Tail cpu);
  head ← load (Head cpu);
  atomic_discard_loop (Z.to_nat (head - tail)) cpu tail head after.

Fixpoint atomic_discard_all (cpus : list nat) (after : Z) : rprog unit :=
  match cpus with
  | [] => mret tt
  | cpu :: cpus => atomic_discard_through cpu after ;; atomic_discard_all cpus after
  end.

(** The CPU whose oldest event is the expected one, with its tail. *)
Fixpoint atomic_select (cpus : list nat) (expected : Z) : rprog (option (nat * Z)) :=
  match cpus with
  | [] => mret None
  | cpu :: cpus =>
      tail ← load (Tail cpu);
      head ← load (Head cpu);
      if head <=? tail then atomic_select cpus expected
      else
        commit ← load (Commit cpu (slot_index tail));
        if negb (commit =? expected) then atomic_select cpus expected else mret (Some (cpu, tail))
  end.

Definition lanes : list nat := seq 0 (Z.to_nat SPZ_MAX_CPUS).

(** The oldest event of a CPU is copied out and removed. *)
Definition atomic_deliver (cpu : nat) (tail expected : Z) : rprog (Z * option (list Z)) :=
  out ← copy_out cpu (slot_index tail) 0 (Z.to_nat SPZ_EVENT_WIRE_SIZE);
  commit ← load (Commit cpu (slot_index tail));
  if negb (commit =? expected) then mret (- EAGAIN, Some out)
  else
    store (Commit cpu (slot_index tail)) 0 ;;
    store (Tail cpu) (u64 (tail + 1)) ;;
    store Consumer_after expected ;;
    mret (1, Some out).

(** The result, and the bytes stored through [out]. *)
Definition atomic_ring_pop_after (after : Z) : rprog (Z * option (list Z)) :=
  consumer_after ← load Consumer_after;
  if after <? consumer_after then mret (- ESTALE, None)
  else
    latest ← load Next_sequence;
    if latest <? after then mret (- ERANGE, None)
    else if after =? UINT64_MAX then mret (- EOVERFLOW, None)
    else
      atomic_discard_all lanes after ;;
      (if consumer_after <? after then store Consumer_after after else mret tt) ;;
      let expected := u64 (after + 1) in
      selected ← atomic_select lanes expected;
      match selected with
      | None => mret (0, None)
      | Some (cpu, tail) => atomic_deliver cpu tail expected
      end.

(** ** Calls *)

Inductive ring_call :=
| Push (cpu : Z) (event : option spz_event)
| Pop_after (after : Z).

Inductive ring_outcome :=
| Pushed (code : Z)
| Popped (code : Z) (out : option (list Z)).

Definition ring_program (c : ring_call) : rprog ring_outcome :=
  match c with
  | Push cpu event => code ← atomic_ring_push cpu event; mret (Pushed code)
  | Pop_after after => result ← atomic_ring_pop_after after; mret (Popped result.1 result.2)
  end.

(** Thread [i] is the CPU [i], and the thread after the last CPU polls. The members of an
    event have the widths of their types. *)
Definition poller : nat := Z.to_nat SPZ_MAX_CPUS.

Definition ring_may (i : nat) (c : ring_call) : Prop :=
  match c with
  | Push cpu event => (i < poller)%nat /\ cpu = Z.of_nat i /\ from_option event_wf True event
  | Pop_after after => i = poller /\ 0 <= after
  end.

(** The ring after [spz_ring_init]. *)
Definition ring_zero : heap ring_cell := fun _ => 0.

Abbreviation rnote := (note Empty_set ring_call ring_outcome).
Abbreviation rpool := (pool ring_cell Empty_set ring_call ring_outcome).
Abbreviation ring_pool_step := (pool_step ring_program ring_may).

(** ** What the notes promise *)

(** A sequence number given out: by which call of which CPU, for which event. The
    number is the position in the list of all, counted from 1. *)
Record issue := {
  is_cpu : nat;
  is_push : nat;
  is_source : spz_event;
}.

Definition issue_bytes (sequence : Z) (x : issue) : list Z :=
  event_bytes (stamp_event (Z.of_nat (is_cpu x)) sequence (is_source x)).

(** The numbered issues of a CPU, oldest first. *)
Definition lane (cpu : nat) (issued : list issue) : list (Z * issue) :=
  filter (fun p => is_cpu p.2 = cpu) (imap (fun k x => (Z.of_nat k + 1, x)) issued).

(** The events of a lane, each with the number of the push that issued it. *)
Definition sources (L : list (Z * issue)) : list (nat * spz_event) := (fun p => (is_push p.2, is_source p.2)) <$> L.

(** The calls of [spz_ring_push] of a CPU that returned, with their results. *)
Definition push_of (cpu : nat) (n : rnote) : list (option spz_event * Z) :=
  match n with
  | Returned i (Push _ event) (Pushed code) => if decide (i = cpu) then [(event, code)] else []
  | _ => []
  end.
Definition pushes (cpu : nat) (h : list rnote) : list (option spz_event * Z) := h ≫= push_of cpu.

(** How the results of a CPU, the events it issued with the number of the push that
    did, the losses counted and those not yet reported belong together: an event is
    accepted or counted as lost, and a marker in front of an accepted event reports
    all losses not yet reported. *)
Inductive lane_log : list (option spz_event * Z) -> list (nat * spz_event) -> Z -> Z -> Prop :=
| log_empty : lane_log [] [] 0 0
| log_invalid p l lost pending :
    lane_log p l lost pending -> lane_log (p ++ [(None, - EINVAL)]) l lost pending
| log_dropped p l lost pending e :
    lane_log p l lost pending -> lane_log (p ++ [(Some e, - ENOSPC)]) l (lost + 1) (pending + 1)
| log_taken p l lost pending e :
    lane_log p l lost pending -> lane_log (p ++ [(Some e, 0)]) (l ++ [(length p, e)]) lost pending
| log_reported p l lost pending e :
    lane_log p l lost pending -> pending <> 0 ->
    lane_log (p ++ [(Some e, 0)]) (l ++ [(length p, loss_event pending lost); (length p, e)]) lost 0.

(** The sequence numbers delivered, and the notes before the newest poll began. *)
Definition delivered_of (n : rnote) : list Z :=
  match n with Returned _ (Pop_after after) (Popped 1 _) => [after + 1] | _ => [] end.
Definition delivered (h : list rnote) : list Z := h ≫= delivered_of.

Definition before_poll_step (s : list rnote * list rnote) (n : rnote) : list rnote * list rnote :=
  (s.1 ++ [n], match n with Called _ (Pop_after _) => s.1 | _ => s.2 end).
Definition before_poll (h : list rnote) : list rnote := (foldl before_poll_step ([], []) h).2.

(** What a poll that returned promises, given the notes before: an event is the one
    issued under the next number, whole, and no number comes twice or out of order;
    without an event, the push that issues the next number had not returned when the
    poll began. *)
Definition poll_sound (issued : list issue) (h : list rnote) (after code : Z) (out : option (list Z)) : Prop :=
  (code = 1 /\ Forall (fun s => s < after + 1) (delivered h) /\
   exists x, issued !! Z.to_nat after = Some x /\ out = Some (issue_bytes (after + 1) x)) \/
  (code = 0 /\ out = None /\
   forall x, issued !! Z.to_nat after = Some x -> (length (pushes (is_cpu x) (before_poll h)) <= is_push x)%nat) \/
  ((code = - ESTALE \/ code = - ERANGE) /\ out = None).

Definition polls_sound (issued : list issue) (h : list rnote) : Prop :=
  forall h1 i after code out h2,
    h = h1 ++ Returned i (Pop_after after) (Popped code out) :: h2 -> poll_sound issued h1 after code out.
