(* ===== verification/RingLane.v ===== *)
(** * What the ring of one CPU holds, at every access

    Facts about the issued events and the notes of RingThreads.v, and the invariant of
    the ring of one CPU: which slots hold which event while its producer is in the
    middle of a push and the poll in the middle of a removal, with one lemma per access. *)

From stdpp Require Import relations functions.
From S2P Require Import Prelude Crc32 Abi Ring Interleave RingThreads.

(** ** Issues *)

Lemma lane_snoc cpu issued x :
  lane cpu (issued ++ [x]) =
  lane cpu issued ++ if decide (is_cpu x = cpu) then [(Z.of_nat (length issued) + 1, x)] else [].
Proof.
  unfold lane. rewrite imap_app, filter_app. f_equal. cbn. rewrite Nat.add_0_r. by repeat case_decide.
Qed.

Lemma lane_lookup cpu issued p s x :
  lane cpu issued !! p = Some (s, x) ->
  is_cpu x = cpu /\ 0 < s <= Z.of_nat (length issued) /\ issued !! Z.to_nat (s - 1) = Some x.
Proof.
  intros Hp. apply list_elem_of_lookup_2 in Hp. unfold lane in Hp. apply list_elem_of_filter in Hp as [Hc Hp].
  apply list_elem_of_lookup in Hp as [k Hk]. rewrite list_lookup_imap in Hk.
  destruct (issued !! k) as [y|] eqn:E; cbn in Hk; simplify_eq. pose proof (lookup_lt_Some _ _ _ E).
  split_and!; [done|lia|lia|]. by replace (Z.to_nat _) with k by lia.
Qed.

Lemma issued_lane issued k x :
  issued !! k = Some x -> exists p, lane (is_cpu x) issued !! p = Some (Z.of_nat k + 1, x).
Proof.
  intros Hk. apply list_elem_of_lookup, list_elem_of_filter. split; [done|]. apply list_elem_of_lookup.
  exists k. by rewrite list_lookup_imap, Hk.
Qed.

(** The numbers of a lane increase. *)
Lemma lane_increasing cpu issued p q s t x y :
  lane cpu issued !! p = Some (s, x) -> lane cpu issued !! q = Some (t, y) -> (p < q)%nat -> s < t.
Proof.
  revert p q s t x y. induction issued as [|z issued IH] using rev_ind; intros p q s t x y; [done|].
  rewrite lane_snoc. intros Hp Hq Hpq.
  apply lookup_app_Some in Hq as [Hq|[Hl Hq]].
  - rewrite lookup_app_l in Hp by (apply lookup_lt_Some in Hq; lia). eauto.
  - case_decide; [|done]. apply list_lookup_singleton_Some in Hq as [Hq ?]. simplify_eq.
    rewrite lookup_app_l in Hp by lia. apply lane_lookup in Hp as (_ & ? & _). lia.
Qed.

Lemma lane_prefix cpu issued issued' : issued `prefix_of` issued' -> lane cpu issued `prefix_of` lane cpu issued'.
Proof. intros [l ->]. unfold lane. rewrite imap_app, filter_app. by eexists. Qed.

(** ** Notes *)

Lemma pushes_snoc cpu h n : pushes cpu (h ++ [n]) = pushes cpu h ++ push_of cpu n.
Proof. unfold pushes. rewrite bind_app. cbn. by rewrite app_nil_r. Qed.

Lemma delivered_snoc h n : delivered (h ++ [n]) = delivered h ++ delivered_of n.
Proof. unfold delivered. rewrite bind_app. cbn. by rewrite app_nil_r. Qed.

Lemma pushes_prefix cpu h h' : h `prefix_of` h' -> (length (pushes cpu h) <= length (pushes cpu h'))%nat.
Proof. intros [l ->]. unfold pushes. rewrite bind_app, length_app. lia. Qed.

Lemma before_poll_fold h : foldl before_poll_step ([], []) h = (h, before_poll h).
Proof.
  induction h as [|n h IH] using rev_ind; [done|]. unfold before_poll. rewrite foldl_app, IH. done.
Qed.

Lemma before_poll_snoc h n :
  before_poll (h ++ [n]) = match n with Called _ (Pop_after _) => h | _ => before_poll h end.
Proof. unfold before_poll at 1. rewrite foldl_app, before_poll_fold. done. Qed.

Lemma before_poll_prefix h : before_poll h `prefix_of` h.
Proof.
  induction h as [|n h IH] using rev_ind; [done|]. rewrite before_poll_snoc.
  assert (before_poll h `prefix_of` h ++ [n]) by (etrans; [exact IH|by eexists]).
  destruct n as [? []| |]; [done| |done..]. by eexists.
Qed.

(** A number issued by a push that has not returned contradicts no poll. *)
Lemma polls_sound_issue issued h x :
  polls_sound issued h -> is_push x = length (pushes (is_cpu x) h) -> polls_sound (issued ++ [x]) h.
Proof.
  intros Hs Hx h1 i after code out h2 ->. destruct (Hs h1 i after code out h2 eq_refl) as [Hp|[Hp|Hp]].
  - left. destruct Hp as (? & ? & y & Hy & ?). split_and!; try done. exists y. split; [by apply lookup_app_l_Some|done].
  - right; left. destruct Hp as (? & ? & Hq). split_and!; try done. intros y Hy.
    apply lookup_app_Some in Hy as [Hy|[_ Hy]]; [by apply Hq|]. apply list_lookup_singleton_Some in Hy as [_ <-].
    rewrite Hx. apply pushes_prefix. etrans; [apply before_poll_prefix|by eexists].
  - by right; right.
Qed.

Lemma polls_sound_snoc issued h n :
  polls_sound issued h ->
  (forall i after code out, n = Returned i (Pop_after after) (Popped code out) -> poll_sound issued h after code out) ->
  polls_sound issued (h ++ [n]).
Proof.
  intros Hs Hn h1 i after code out h2 Hh. destruct h2 as [|n2 h2 _] using rev_ind.
  - apply app_inj_tail in Hh as [-> ->]. by eapply Hn.
  - rewrite app_comm_cons, app_assoc in Hh. apply app_inj_tail in Hh as [-> _]. by eapply Hs.
Qed.

(** ** What the ring of one CPU holds *)

(** The producer has given out no number that its head does not count; or it copies the
    bytes of the event with the newest number; or it has committed it. *)
Inductive phase := Between | Writing (k : nat) | Committed.

Definition in_flight (ph : phase) : Z := match ph with Between => 0 | _ => 1 end.
Definition wire_size : nat := Z.to_nat SPZ_EVENT_WIRE_SIZE.
Definition filled (ph : phase) : nat := match ph with Writing k => k | _ => wire_size end.

Lemma issue_bytes_length s x :
  (is_cpu x < poller)%nat -> is_u64 s -> event_wf (is_source x) -> length (issue_bytes s x) = wire_size.
Proof.
  intros Hc Hs Hw. unfold issue_bytes, wire_size. rewrite <- (length_event_bytes (stamp_event (Z.of_nat (is_cpu x)) s (is_source x))).
  - lia.
  - apply stamp_event_wf; [|done..]. unfold poller, SPZ_MAX_CPUS in *. lia.
Qed.

(** The commit word of the position [p] of the lane [L]; [z] says that the poll has
    cleared the one at the tail. *)
Definition expect_commit (m : heap ring_cell) (cpu : nat) (L : list (Z * issue)) (ph : phase) (z : bool) (p : nat) : Z :=
  match L !! p with
  | Some (s, _) =>
      if Z.of_nat p <? m (Head cpu) then if z && (Z.of_nat p =? m (Tail cpu)) then 0 else s
      else match ph with Committed => s | _ => 0 end
  | None => 0
  end.

Definition bytes_at (m : heap ring_cell) (cpu p k : nat) (bytes : list Z) : Prop :=
  forall j b, (j < k)%nat -> bytes !! j = Some b -> m (Byte cpu (slot_index (Z.of_nat p)) j) = b.

(** Position [p] of the lane [L] is in slot [p mod 64]. All that was removed is numbered
    up to [floor]. *)
Record lane_inv (cpu : nat) (m : heap ring_cell) (L : list (Z * issue)) (ph : phase) (z : bool) (floor : Z) : Prop := {
  li_tail : 0 <= m (Tail cpu) <= m (Head cpu);
  li_length : Z.of_nat (length L) = m (Head cpu) + in_flight ph;
  li_room : Z.of_nat (length L) - m (Tail cpu) <= SPZ_RING_CAPACITY;
  li_commit : forall p, m (Tail cpu) <= Z.of_nat p < m (Tail cpu) + SPZ_RING_CAPACITY ->
    m (Commit cpu (slot_index (Z.of_nat p))) = expect_commit m cpu L ph z p;
  li_bytes : forall p s x, m (Tail cpu) <= Z.of_nat p -> L !! p = Some (s, x) ->
    bytes_at m cpu p (if Z.of_nat p <? m (Head cpu) then wire_size else filled ph) (issue_bytes s x);
  li_gone : forall p s x, L !! p = Some (s, x) -> Z.of_nat p < m (Tail cpu) + Z.b2z z -> s <= floor;
  li_zeroed : z = true -> m (Tail cpu) < m (Head cpu);
}.

Definition cell_cpu (c : ring_cell) : option nat :=
  match c with
  | Head cpu | Tail cpu | Commit cpu _ | Byte cpu _ _ => Some cpu
  | _ => None
  end.

Lemma lane_inv_frame cpu m m' L ph z floor floor' :
  lane_inv cpu m L ph z floor -> (forall c, cell_cpu c = Some cpu -> m' c = m c) -> floor <= floor' ->
  lane_inv cpu m' L ph z floor'.
Proof.
  intros [H1 H2 H3 H4 H5 H6 H7] Hc Hf.
  assert (m' (Head cpu) = m (Head cpu)) as EH by by apply Hc.
  assert (m' (Tail cpu) = m (Tail cpu)) as ET by by apply Hc.
  split; unfold expect_commit, bytes_at in *; rewrite ?EH, ?ET; try done.
  - intros. rewrite Hc by done. auto.
  - intros ????? j b ??. rewrite Hc by done. eauto.
  - intros. etrans; [by eapply H6|done].
Qed.

Lemma slot_other p q :
  p <> q -> Z.abs (p - q) < SPZ_RING_CAPACITY -> slot_index p <> slot_index q.
Proof. intros ?? E%slot_index_inj; lia. Qed.

Lemma lookup_here {A} (L : list A) p n : Z.of_nat (length L) = n -> Z.of_nat p < n -> exists x, L !! p = Some x.
Proof. intros. apply lookup_lt_is_Some. lia. Qed.

Lemma put_commit_other cpu p q v m :
  p <> q -> Z.abs (Z.of_nat p - Z.of_nat q) < SPZ_RING_CAPACITY ->
  put (Commit cpu (slot_index (Z.of_nat q))) v m (Commit cpu (slot_index (Z.of_nat p))) =
  m (Commit cpu (slot_index (Z.of_nat p))).
Proof. intros. apply put_other. intros [= E]. apply slot_index_inj in E; lia. Qed.

Ltac solve_put := repeat first [rewrite put_same | rewrite put_other by done].

(** A number is given out for the lane. *)
Lemma lane_issue cpu m m' L z floor s x :
  lane_inv cpu m L Between z floor -> (forall c, cell_cpu c = Some cpu -> m' c = m c) ->
  m (Head cpu) - m (Tail cpu) < SPZ_RING_CAPACITY ->
  lane_inv cpu m' (L ++ [(s, x)]) (Writing 0) z floor.
Proof.
  intros HI Hc Hroom. apply (lane_inv_frame cpu m m' _ _ _ floor); [|done|lia].
  destruct HI as [H1 H2 H3 H4 H5 H6 H7]. cbn in H2. split; cbn [in_flight filled]; try done.
  - rewrite length_app. cbn. lia.
  - rewrite length_app. cbn. lia.
  - intros p Hp. rewrite H4 by done. unfold expect_commit. destruct (decide (p < length L)%nat).
    + by rewrite lookup_app_l.
    + rewrite (lookup_ge_None_2 L p) by lia. rewrite (proj2 (Z.ltb_ge _ _)) by lia.
      by destruct (_ !! p) as [[]|].
  - intros p s' x' Hp Hl. apply lookup_app_Some in Hl as [Hl|[Hn _]].
    + pose proof (lookup_lt_Some _ _ _ Hl). pose proof (H5 p s' x' Hp Hl) as Hb.
      rewrite (proj2 (Z.ltb_lt _ _)) in * by lia. done.
    + rewrite (proj2 (Z.ltb_ge _ _)) by lia. intros j b Hj. lia.
  - intros p s' x' Hl Hp. apply lookup_app_Some in Hl as [Hl|[Hn _]]; [by eapply H6|].
    destruct z; cbn in Hp; [|lia]. pose proof (H7 eq_refl). lia.
Qed.

(** A byte of it is copied. *)
Lemma lane_byte cpu m L z floor k s x b p :
  lane_inv cpu m L (Writing k) z floor -> m (Head cpu) = Z.of_nat p -> L !! p = Some (s, x) ->
  issue_bytes s x !! k = Some b ->
  lane_inv cpu (put (Byte cpu (slot_index (Z.of_nat p)) k) b m) L (Writing (S k)) z floor.
Proof.
  intros [H1 H2 H3 H4 H5 H6 H7] Hh Hp Hb. cbn in H2. split; cbn [in_flight filled] in *; unfold expect_commit in *;
    solve_put; try done.
  intros q s' x' Hq Hl j b' Hj Hb'. pose proof (lookup_lt_Some _ _ _ Hl). specialize (H5 q s' x' Hq Hl).
  destruct (decide (q = p)) as [->|Hne].
  - simplify_eq. rewrite Hh, Z.ltb_irrefl in *. destruct (decide (j = k)) as [->|]; [rewrite put_same; congruence|].
    rewrite put_other by congruence. apply H5; [lia|done].
  - rewrite put_other by (intros [= E _]; apply slot_index_inj in E; lia).
    rewrite (proj2 (Z.ltb_lt _ _)) in * by lia. by eapply H5.
Qed.

(** The number is committed. *)
Lemma lane_commit cpu m L z floor s x p :
  lane_inv cpu m L (Writing wire_size) z floor -> m (Head cpu) = Z.of_nat p -> L !! p = Some (s, x) ->
  lane_inv cpu (put (Commit cpu (slot_index (Z.of_nat p))) s m) L Committed z floor.
Proof.
  intros [H1 H2 H3 H4 H5 H6 H7] Hh Hp. cbn in H2. split; cbn [in_flight filled] in *; unfold expect_commit in *;
    solve_put; try done.
  - intros q Hq. destruct (decide (q = p)) as [->|Hne].
    + by rewrite put_same, Hp, Hh, Z.ltb_irrefl.
    + rewrite put_commit_other, H4 by lia. destruct (L !! q) as [[s' x']|] eqn:Hl; [|done].
      apply lookup_lt_Some in Hl. by rewrite (proj2 (Z.ltb_lt _ _)) by lia.
Qed.

(** The head counts it. *)
Lemma lane_advance cpu m L z floor :
  lane_inv cpu m L Committed z floor -> lane_inv cpu (put (Head cpu) (m (Head cpu) + 1) m) L Between z floor.
Proof.
  intros [H1 H2 H3 H4 H5 H6 H7]. cbn in H2. split; cbn [in_flight filled] in *; unfold expect_commit in *;
    solve_put; try done; try lia.
  - intros q Hq. rewrite put_other, H4 by done. destruct (L !! q) as [[s x]|] eqn:Hl; [|done].
    apply lookup_lt_Some in Hl. rewrite (proj2 (Z.ltb_lt _ (_ + 1))) by lia.
    destruct (Z.ltb_spec (Z.of_nat q) (m (Head cpu))); [done|]. destruct z; [|done]. specialize (H7 eq_refl).
    by rewrite (proj2 (Z.eqb_neq _ _)) by lia.
  - intros q s x Hq Hl j b Hj Hb. rewrite put_other by done. specialize (H5 q s x Hq Hl).
    apply lookup_lt_Some in Hl. rewrite (proj2 (Z.ltb_lt _ (_ + 1))) in Hj by lia.
    destruct (Z.of_nat q <? m (Head cpu)); by eapply H5.
Qed.

(** The poll clears the number at the tail. *)
Lemma lane_clear cpu m L ph floor floor' s x p :
  lane_inv cpu m L ph false floor -> m (Tail cpu) = Z.of_nat p -> m (Tail cpu) < m (Head cpu) ->
  L !! p = Some (s, x) -> s <= floor' -> floor <= floor' ->
  lane_inv cpu (put (Commit cpu (slot_index (Z.of_nat p))) 0 m) L ph true floor'.
Proof.
  intros [H1 H2 H3 H4 H5 H6 H7] Ht Hh Hp Hs Hf. split; unfold expect_commit in *; solve_put; try done.
  - intros q Hq. destruct (decide (q = p)) as [->|Hne].
    + rewrite put_same, Hp, (proj2 (Z.ltb_lt _ _)) by lia. by rewrite Ht, Z.eqb_refl.
    + rewrite put_commit_other, H4 by (unfold SPZ_RING_CAPACITY in *; lia). cbn.
      rewrite (proj2 (Z.eqb_neq _ _)) by lia. done.
  - intros q s' x' Hl Hq. cbn in Hq. destruct (decide (q = p)) as [->|Hne]; [by simplify_eq|].
    etrans; [eapply H6; [done|cbn; lia]|done].
Qed.

(** The tail moves past it. *)
Lemma lane_remove cpu m L ph floor :
  lane_inv cpu m L ph true floor -> lane_inv cpu (put (Tail cpu) (m (Tail cpu) + 1) m) L ph false floor.
Proof.
  intros [H1 H2 H3 H4 H5 H6 H7]. specialize (H7 eq_refl). split; unfold expect_commit in *; solve_put; try done; try lia.
  - intros q Hq. rewrite put_other by done. cbn. destruct (decide (Z.of_nat q = m (Tail cpu) + SPZ_RING_CAPACITY)) as [E|E].
    + rewrite (lookup_ge_None_2 L q) by lia.
      pose proof (H4 (Z.to_nat (m (Tail cpu))) ltac:(unfold SPZ_RING_CAPACITY; lia)) as Hc.
      rewrite Z2Nat.id in Hc by lia. replace (slot_index (Z.of_nat q)) with (slot_index (m (Tail cpu))).
      2: { rewrite E. unfold slot_index. f_equal. rewrite <- Z.add_mod_idemp_r, Z.mod_same, Z.add_0_r; done. }
      rewrite Hc. destruct (L !! _) as [[]|]; [|done]. by rewrite (proj2 (Z.ltb_lt _ _)), Z.eqb_refl by lia.
    + rewrite H4 by lia. cbn. by rewrite (proj2 (Z.eqb_neq _ _)) by lia.
  - intros q s x Hq Hl j b Hj Hb. rewrite put_other by done. eapply H5; try done. lia.
  - intros q s x Hl Hq. eapply H6; [done|cbn in *; lia].
Qed.
