(* ===== verification/RingPush.v ===== *)
(** * The protocol of the rings, and the pushes

    What the eight producers and the poll may do to what another of them depends on,
    the invariant of all rings together, and the proof that a push keeps both. *)

From stdpp Require Import relations functions.
From S2P Require Import Prelude Crc32 Abi Ring Interleave RingThreads RingLane.

(** ** The protocol *)

(** [rw_zeroed] is the ring in which the poll has cleared a number and not yet moved the
    tail; what it has removed is numbered up to [rw_floor] and what it has returned up to
    [rw_given]; [rw_seen] are the heads when it began. *)
Record ring_world := {
  rw_heap : heap ring_cell;
  rw_issued : list issue;
  rw_phase : nat -> phase;
  rw_pushes : nat -> list (option spz_event * Z);
  rw_zeroed : option nat;
  rw_floor : Z;
  rw_given : Z;
  rw_seen : nat -> Z;
}.

#[export] Instance ring_world_shape : Shape ring_world :=
  shape! Build_ring_world < rw_heap ; rw_issued ; rw_phase ; rw_pushes ; rw_zeroed ; rw_floor ; rw_given ; rw_seen >.

Definition rw_lane (w : ring_world) (cpu : nat) : list (Z * issue) := lane cpu (rw_issued w).
Definition zeroed_in (w : ring_world) (cpu : nat) : bool := bool_decide (rw_zeroed w = Some cpu).

Record ring_inv (n : nat) (w : ring_world) (m : heap ring_cell) (h : list rnote) : Prop := {
  ri_heap : m = rw_heap w;
  ri_next : m Next_sequence = Z.of_nat (length (rw_issued w));
  ri_few : Z.of_nat (length (rw_issued w)) <= Z.of_nat n;
  ri_lanes : forall cpu, (cpu < poller)%nat ->
    lane_inv cpu m (rw_lane w cpu) (rw_phase w cpu) (zeroed_in w cpu) (rw_floor w);
  ri_valid : forall k x, rw_issued w !! k = Some x -> (is_cpu x < poller)%nat /\ event_wf (is_source x);
  ri_losses : forall cpu, 0 <= m (Lost cpu) <= Z.of_nat n /\ 0 <= m (Loss_pending cpu) <= Z.of_nat n;
  ri_pushes : forall cpu, rw_pushes w cpu = pushes cpu h;
  ri_seen : forall cpu, (cpu < poller)%nat -> rw_seen w cpu <= m (Head cpu);
  ri_old : forall cpu p s x, rw_lane w cpu !! p = Some (s, x) -> rw_seen w cpu <= Z.of_nat p ->
    (length (pushes cpu (before_poll h)) <= is_push x)%nat;
  ri_current : forall cpu p s x, rw_lane w cpu !! p = Some (s, x) -> m (Head cpu) <= Z.of_nat p ->
    is_push x = length (pushes cpu h);
  ri_delivered : Forall (fun s => s <= rw_given w) (delivered h);
  ri_after : 0 <= rw_given w /\ rw_given w <= m Consumer_after <= rw_floor w;
  ri_polls : polls_sound (rw_issued w) h;
}.

(** The words only the producer of a CPU writes, and those only the poll writes. *)
Definition producer_cell (i : nat) (c : ring_cell) : Prop := c = Head i \/ c = Lost i \/ c = Loss_pending i.
Definition poll_cell (c : ring_cell) : Prop := match c with Tail _ | Consumer_after => True | _ => False end.

Record producer_rely (i : nat) (w w' : ring_world) : Prop := {
  pr_lane : rw_lane w' i = rw_lane w i;
  pr_phase : rw_phase w' i = rw_phase w i;
  pr_pushes : rw_pushes w' i = rw_pushes w i;
  pr_cells : forall c, producer_cell i c -> rw_heap w' c = rw_heap w c;
  pr_tail : rw_heap w (Tail i) <= rw_heap w' (Tail i);
}.

Record poll_rely (w w' : ring_world) : Prop := {
  lr_cells : forall c, poll_cell c -> rw_heap w' c = rw_heap w c;
  lr_zeroed : rw_zeroed w' = rw_zeroed w;
  lr_floor : rw_floor w' = rw_floor w;
  lr_given : rw_given w' = rw_given w;
  lr_seen : rw_seen w' = rw_seen w;
  lr_issued : rw_issued w `prefix_of` rw_issued w';
  lr_head : forall cpu, rw_heap w (Head cpu) <= rw_heap w' (Head cpu);
}.

Definition ring_rely (i : nat) (w w' : ring_world) : Prop :=
  ((i < poller)%nat -> producer_rely i w w') /\ (i = poller -> poll_rely w w').

#[export] Instance ring_rely_preorder i : PreOrder (ring_rely i).
Proof.
  split.
  - intros w. by split; intros _; split.
  - intros u v w [P1 L1] [P2 L2]. split; intros Hi.
    + destruct (P1 Hi) as [A1 B1 C1 D1 E1], (P2 Hi) as [A2 B2 C2 D2 E2]. split; try (etrans; done).
      intros c Hc. rewrite D2, D1; auto.
    + destruct (L1 Hi) as [A1 B1 C1 G1 D1 E1 F1], (L2 Hi) as [A2 B2 C2 G2 D2 E2 F2]. split; try (etrans; done).
      * intros c Hc. rewrite A2, A1; auto.
      * intros cpu. etrans; auto.
Qed.

(** A thread outside its calls. *)
Definition ring_idle (i : nat) (w : ring_world) : Prop :=
  ((i < poller)%nat -> rw_phase w i = Between /\
     lane_log (rw_pushes w i) (sources (rw_lane w i)) (rw_heap w (Lost i)) (rw_heap w (Loss_pending i))) /\
  (i = poller -> rw_zeroed w = None /\ rw_floor w = rw_heap w Consumer_after).

Lemma ring_idle_stable i w w' : ring_idle i w -> ring_rely i w w' -> ring_idle i w'.
Proof.
  intros [HP HL] [RP RL]. split; intros Hi.
  - destruct (HP Hi) as [H1 H2], (RP Hi) as [A B C D E]. unfold producer_cell in *.
    rewrite A, B, C, !D by auto. done.
  - destruct (HL Hi) as [H1 H2], (RL Hi) as [A B C G D E F]. rewrite B, C, A by done. done.
Qed.

(** ** Steps *)

Definition other_cells (i : nat) (m m' : heap ring_cell) : Prop := forall c, cell_cpu c <> Some i -> m' c = m c.

Lemma other_cells_put i c v m : cell_cpu c = Some i -> other_cells i m (put c v m).
Proof. intros Hc c' Hc'. apply put_other. congruence. Qed.

Lemma ring_inv_S n w m h : ring_inv n w m h -> ring_inv (S n) w m h.
Proof. intros []. split; try done; [lia|]. intros cpu. specialize (ri_losses0 cpu). lia. Qed.

(** A step in the ring of CPU [i]. *)
Lemma ring_inv_lane n w m h i m' ph z floor :
  ring_inv n w m h -> (i < poller)%nat -> other_cells i m m' ->
  lane_inv i m' (rw_lane w i) ph (bool_decide (z = Some i)) floor ->
  m (Head i) <= m' (Head i) -> rw_floor w <= floor ->
  (forall cpu, cpu <> i -> zeroed_in w cpu = bool_decide (z = Some cpu)) ->
  ring_inv (S n) (w <| rw_heap := m' |> <| rw_phase := <[i := ph]> (rw_phase w) |> <| rw_zeroed := z |> <| rw_floor := floor |>) m' h.
Proof.
  intros HI Hi Ho Hl Hh Hf Hz. apply ring_inv_S in HI.
  assert (forall cpu, m (Head cpu) <= m' (Head cpu)) as Hm.
  { intros cpu. destruct (decide (cpu = i)) as [->|]; [done|]. rewrite Ho by (cbn; congruence). done. }
  destruct HI. split; cbn; rewrite ?(Ho Next_sequence), ?(Ho Consumer_after) by done; try done.
  - intros cpu Hc. destruct (decide (cpu = i)) as [->|Hne].
    + rewrite fn_lookup_insert. done.
    + rewrite fn_lookup_insert_ne by done. unfold zeroed_in at 1. cbn. rewrite <- Hz by done.
      apply (lane_inv_frame cpu m m' _ _ _ (rw_floor w)); [by apply ri_lanes0| |done].
      intros c Hcc. apply Ho. congruence.
  - intros cpu. rewrite !Ho by done. done.
  - intros cpu Hc. specialize (ri_seen0 cpu Hc). specialize (Hm cpu). lia.
  - intros cpu p s x Hp Hge. specialize (Hm cpu). eapply ri_current0; [done|lia].
  - lia.
Qed.

(** A step of the producer [i], which leaves what the poll owns. *)
Lemma guarantee_producer i w w' :
  (i < poller)%nat -> rw_issued w `prefix_of` rw_issued w' -> (forall j, j <> i -> rw_lane w' j = rw_lane w j) ->
  (forall j, j <> i -> rw_phase w' j = rw_phase w j) -> (forall j, j <> i -> rw_pushes w' j = rw_pushes w j) ->
  rw_zeroed w' = rw_zeroed w -> rw_floor w' = rw_floor w -> rw_given w' = rw_given w -> rw_seen w' = rw_seen w ->
  (forall c, poll_cell c -> rw_heap w' c = rw_heap w c) ->
  (forall j c, j <> i -> producer_cell j c -> rw_heap w' c = rw_heap w c) ->
  rw_heap w (Head i) <= rw_heap w' (Head i) -> guarantee ring_rely i w w'.
Proof.
  intros Hi Hiss Hl Hp Hq Hz Hf Hv Hs Hpc Hc Hh j Hj. split; intros Hjj.
  - split; eauto. rewrite Hpc; done.
  - split; auto. intros cpu. destruct (decide (cpu = i)) as [->|Hne]; [done|]. rewrite (Hc cpu); [done|done|by left].
Qed.

(** A step of the poll, which leaves what the producers own. *)
Lemma guarantee_poll w w' :
  rw_issued w' = rw_issued w -> (forall j, rw_phase w' j = rw_phase w j) -> rw_pushes w' = rw_pushes w ->
  (forall j c, producer_cell j c -> rw_heap w' c = rw_heap w c) ->
  (forall cpu, rw_heap w (Tail cpu) <= rw_heap w' (Tail cpu)) -> guarantee ring_rely poller w w'.
Proof.
  intros E1 E2 E3 Hc Ht j Hj. split; [|done]. intros Hjj. unfold rw_lane. split; unfold rw_lane; rewrite ?E1, ?E2, ?E3; eauto.
Qed.

Section steps.
Context (limit : nat) (few : Z.of_nat limit < 2 ^ 62).

Abbreviation wp := (wp limit ring_inv ring_rely).
Abbreviation takes := (takes limit ring_inv ring_rely).
Abbreviation finishes := (finishes limit ring_inv ring_rely ring_idle).
Abbreviation guarantee := (guarantee ring_rely).

Lemma wp_load {A} i w c (k : Z -> rprog A) Φ :
  (forall n w1 h, ring_rely i w w1 -> (n < limit)%nat -> ring_inv n w1 (rw_heap w1) h -> wp i (k (rw_heap w1 c)) w1 Φ) ->
  wp i (load c ≫= k) w Φ.
Proof.
  intros Hk. cbn. intros n w1 m h Hr Hn HI. exists w1. pose proof (ri_heap _ _ _ _ HI) as ->. rewrite app_nil_r.
  split_and!; [by intros ??|by apply ring_inv_S|eauto].
Qed.

Lemma wp_store {A} i w c v (k : rprog A) Φ :
  (forall n w1 h, ring_rely i w w1 -> (n < limit)%nat -> ring_inv n w1 (rw_heap w1) h ->
     exists w2, guarantee i w1 w2 /\ ring_inv (S n) w2 (put c v (rw_heap w1)) h /\ wp i k w2 Φ) ->
  wp i (store c v ;; k) w Φ.
Proof.
  intros Hk. cbn. intros n w1 m h Hr Hn HI. pose proof (ri_heap _ _ _ _ HI) as ->. rewrite app_nil_r. by eapply Hk.
Qed.

Lemma wp_rmw {A} i w c f v (k : Z -> rprog A) Φ :
  (forall n w1 h, ring_rely i w w1 -> (n < limit)%nat -> ring_inv n w1 (rw_heap w1) h ->
     exists w2, f (rw_heap w1 c) = Some (v w1) /\ guarantee i w1 w2 /\ ring_inv (S n) w2 (put c (v w1) (rw_heap w1)) h /\
       wp i (k (rw_heap w1 c)) w2 Φ) ->
  wp i (Rmw c f k) w Φ.
Proof.
  intros Hk. cbn. intros n w1 m h Hr Hn HI. pose proof (ri_heap _ _ _ _ HI) as ->. rewrite app_nil_r.
  destruct (Hk n w1 h Hr Hn HI) as (w2 & Hf & ? & ? & ?). exists w2. unfold rmw. by rewrite Hf.
Qed.

(** ** Pushing *)

Record producing (i : nat) (L : list (Z * issue)) (ph : phase) (head lost pending tail : Z)
    (ps : list (option spz_event * Z)) (w : ring_world) : Prop := {
  pd_lane : rw_lane w i = L;
  pd_phase : rw_phase w i = ph;
  pd_head : rw_heap w (Head i) = head;
  pd_lost : rw_heap w (Lost i) = lost;
  pd_pending : rw_heap w (Loss_pending i) = pending;
  pd_tail : tail <= rw_heap w (Tail i);
  pd_pushes : rw_pushes w i = ps;
}.

Lemma producing_stable i L ph head lost pending tail ps w w' :
  (i < poller)%nat -> producing i L ph head lost pending tail ps w -> ring_rely i w w' ->
  producing i L ph head lost pending tail ps w'.
Proof.
  intros Hi [] [Hr _]. destruct (Hr Hi) as [A B C D E]. unfold producer_cell in D.
  split; rewrite ?A, ?B, ?C, ?D by auto; try done. lia.
Qed.

Section producer.
Context (i : nat) (Hi : (i < poller)%nat).

(** What the producer knows, [H], holds in the later world [w]. *)
Ltac still w H := apply (producing_stable _ _ _ _ _ _ _ _ _ w Hi) in H; [|done].

Lemma producing_inv n w h L ph head lost pending tail ps :
  producing i L ph head lost pending tail ps w -> ring_inv n w (rw_heap w) h ->
  lane_inv i (rw_heap w) L ph (zeroed_in w i) (rw_floor w) /\ 0 <= head <= Z.of_nat n.
Proof.
  intros [] HI. pose proof (ri_lanes _ _ _ _ HI i Hi) as Hl. rewrite pd_lane0, pd_phase0 in Hl.
  split; [done|]. destruct Hl. split; [lia|]. pose proof (ri_few _ _ _ _ HI).
  assert (length L <= length (rw_issued w))%nat; [|destruct ph; cbn in *; lia].
  rewrite <- pd_lane0. unfold rw_lane, lane. etrans; [apply length_filter|]. by rewrite length_imap.
Qed.

(** The producer changes its ring. *)
Lemma producer_move n w h L ph head lost pending tail ps ph' c v :
  producing i L ph head lost pending tail ps w -> ring_inv n w (rw_heap w) h -> cell_cpu c = Some i ->
  c <> Tail i -> head <= put c v (rw_heap w) (Head i) ->
  lane_inv i (put c v (rw_heap w)) L ph' (zeroed_in w i) (rw_floor w) ->
  exists w', guarantee i w w' /\ ring_inv (S n) w' (put c v (rw_heap w)) h /\
    producing i L ph' (put c v (rw_heap w) (Head i)) lost pending tail ps w'.
Proof.
  intros HP HI Hc Ht Hh Hl. destruct HP.
  exists (w <| rw_heap := put c v (rw_heap w) |> <| rw_phase := <[i := ph']> (rw_phase w) |>
            <| rw_zeroed := rw_zeroed w |> <| rw_floor := rw_floor w |>).
  split_and!.
  - apply guarantee_producer; cbn; try done.
    + intros. by rewrite fn_lookup_insert_ne.
    + intros c' Hc'. apply put_other. intros ->. destruct c; cbn in *; simplify_eq; done.
    + intros j c' Hj Hc'. apply put_other. intros ->. destruct Hc' as [-> | [-> | ->]]; cbn in *; simplify_eq; done.
    + lia.
  - apply (ring_inv_lane n w (rw_heap w)); try done; [by apply other_cells_put|by rewrite pd_lane0|lia].
  - split; cbn; try done.
    + by rewrite fn_lookup_insert.
    + rewrite put_other; [done|]. by intros <-.
    + rewrite put_other; [done|]. by intros <-.
    + by rewrite put_other.
Qed.

Lemma wp_copy_in k bytes L p s x lost pending tail ps w :
  producing i L (Writing k) (Z.of_nat p) lost pending tail ps w -> L !! p = Some (s, x) ->
  bytes = drop k (issue_bytes s x) -> length (issue_bytes s x) = wire_size -> (k <= wire_size)%nat ->
  wp i (copy_in i (slot_index (Z.of_nat p)) k bytes) w
    (fun _ => producing i L (Writing wire_size) (Z.of_nat p) lost pending tail ps).
Proof.
  intros HP Hl Hb Hs. revert k w HP Hb. induction bytes as [|b bytes IH]; intros k w HP Hb Hk.
  - cbn. apply (f_equal length) in Hb. rewrite length_drop in Hb. cbn in Hb. by replace wire_size with k by lia.
  - apply wp_store. intros n w1 h Hr Hn HI. still w1 HP.
    destruct (producing_inv _ _ _ _ _ _ _ _ _ _ HP HI) as [HL _].
    assert (issue_bytes s x !! k = Some b) as Hkb.
    { pose proof (lookup_drop (issue_bytes s x) k 0) as E. rewrite <- Hb, Nat.add_0_r in E. done. }
    destruct (producer_move _ _ _ _ _ _ _ _ _ _ (Writing (S k)) (Byte i (slot_index (Z.of_nat p)) k) b HP HI)
      as (w2 & ? & ? & HP2); try done.
    { rewrite put_other, (pd_head _ _ _ _ _ _ _ _ _ HP) by done. done. }
    { destruct HP. eapply lane_byte; try done. }
    exists w2. split_and!; try done. apply IH; [|by rewrite (drop_S _ b) in Hb by done; simplify_eq|].
    + by rewrite put_other, (pd_head _ _ _ _ _ _ _ _ _ HP) in HP2.
    + apply lookup_lt_Some in Hkb. lia.
Qed.

(** A number is given out for [source]. *)
Lemma producer_issue n w h L head lost pending tail ps source :
  producing i L Between head lost pending tail ps w -> ring_inv n w (rw_heap w) h -> head - tail < SPZ_RING_CAPACITY ->
  event_wf source ->
  let s := rw_heap w Next_sequence + 1 in
  exists w', guarantee i w w' /\ ring_inv (S n) w' (put Next_sequence s (rw_heap w)) h /\
    producing i (L ++ [(s, {| is_cpu := i; is_push := length ps; is_source := source |})])
      (Writing 0) head lost pending tail ps w'.
Proof.
  intros HP HI Hroom Hsrc s. destruct (producing_inv _ _ _ _ _ _ _ _ _ _ HP HI) as [HL Hh].
  set (x := {| is_cpu := i; is_push := length ps; is_source := source |}). destruct HP, HI.
  assert (length ps = length (pushes i h)) as Hps by congruence.
  assert (forall c, c <> Next_sequence -> put Next_sequence s (rw_heap w) c = rw_heap w c) as Hput by (intros; by apply put_other).
  set (w' := w <| rw_heap := put Next_sequence s (rw_heap w) |> <| rw_issued := rw_issued w ++ [x] |>
               <| rw_phase := <[i := Writing 0]> (rw_phase w) |>).
  assert (forall cpu, rw_lane w' cpu = rw_lane w cpu ++ if decide (i = cpu) then [(s, x)] else []) as EL.
  { intros cpu. unfold rw_lane, s. rewrite ri_next0. apply lane_snoc. }
  exists w'. split_and!.
  - apply guarantee_producer; try done.
    + by eexists.
    + intros j Hj. rewrite EL, decide_False, app_nil_r by done. done.
    + intros. by apply fn_lookup_insert_ne.
    + intros c Hc. apply Hput. by intros ->.
    + intros j c Hj Hc. apply Hput. intros ->. by destruct Hc as [? | [? | ?]].
  - assert (length (rw_issued w') = S (length (rw_issued w))) as Hlen by (cbn; rewrite length_app; cbn; lia).
    split; try done; rewrite ?Hlen.
    + rewrite put_same. lia.
    + lia.
    + intros cpu Hc. rewrite EL. destruct (decide (i = cpu)) as [<-|Hne].
      * change (rw_phase w' i) with (<[i := Writing 0]> (rw_phase w) i).
        rewrite fn_lookup_insert, pd_lane0. apply (lane_issue i (rw_heap w)); [done| |lia].
        intros c Hcc. apply Hput. by intros ->.
      * change (rw_phase w' cpu) with (<[i := Writing 0]> (rw_phase w) cpu).
        rewrite app_nil_r, fn_lookup_insert_ne by done. eapply lane_inv_frame; [by apply ri_lanes0| |done].
        intros c Hcc. apply Hput. by intros ->.
    + intros k y Hy. apply lookup_app_Some in Hy as [Hy|[_ Hy]]; [by eapply ri_valid0|].
      apply list_lookup_singleton_Some in Hy as [_ <-]. done.
    + intros cpu. specialize (ri_losses0 cpu). rewrite !Hput by done. lia.
    + intros cpu p s' y Hp Hge. rewrite EL in Hp.
      apply lookup_app_Some in Hp as [Hp|[_ Hp]]; [by eapply ri_old0|]. case_decide; [|done]. subst cpu.
      apply list_lookup_singleton_Some in Hp as [_ Hp]. simplify_eq. cbn. rewrite Hps.
      apply pushes_prefix, before_poll_prefix.
    + intros cpu p s' y Hp Hge. rewrite EL in Hp. rewrite Hput in Hge by done.
      apply lookup_app_Some in Hp as [Hp|[_ Hp]]; [by eapply ri_current0|]. case_decide; [|done]. subst cpu.
      apply list_lookup_singleton_Some in Hp as [_ Hp]. by simplify_eq.
    + by apply polls_sound_issue.
  - split; try done; [|by apply fn_lookup_insert]. by rewrite EL, decide_True, pd_lane0.
Qed.

Lemma wp_next_sequence L head lost pending tail ps source w :
  producing i L Between head lost pending tail ps w -> head - tail < SPZ_RING_CAPACITY ->
  event_wf source ->
  wp i atomic_next_sequence w (fun r w' => exists s, r = inr s /\ is_u64 s /\
    producing i (L ++ [(s, {| is_cpu := i; is_push := length ps; is_source := source |})])
      (Writing 0) head lost pending tail ps w').
Proof.
  intros HP Hroom Hsrc. apply wp_load. intros n w1 h Hr Hn HI. still w1 HP.
  exists (fun x w => 0 <= x < 2 ^ 62 /\ producing i L Between head lost pending tail ps w).
  split; [pose proof (ri_next _ _ _ _ HI); pose proof (ri_few _ _ _ _ HI); split; [lia|done]|].
  clear dependent w n w1. intros x w [Hx HP]. unfold sequence_exchange. rewrite (proj2 (Z.eqb_neq x UINT64_MAX)) by zlia.
  intros n w1 m h1 Hr Hn HI. pose proof (ri_heap _ _ _ _ HI) as ->. rewrite app_nil_r.
  still w1 HP. unfold rmw.
  destruct (Z.eqb_spec (rw_heap w1 Next_sequence) x) as [E|E].
  - destruct (producer_issue n w1 h1 L head lost pending tail ps source HP HI Hroom Hsrc) as (w2 & ? & ? & HP2).
    exists w2. rewrite E in *. replace (u64 (x + 1)) with (x + 1) by zlia. split_and!; try done.
    cbn. exists (x + 1). split_and!; try done; lia.
  - exists w1. pose proof (ri_next _ _ _ _ HI). pose proof (ri_few _ _ _ _ HI).
    split_and!; [by intros ??|by apply ring_inv_S|lia|lia|done].
Qed.

Lemma wp_cpu_used L ph head lost pending tail ps w :
  producing i L ph head lost pending tail ps w ->
  wp i (atomic_cpu_used i) w (fun used w' => 0 <= used <= SPZ_RING_CAPACITY /\ used <= head - tail /\
    producing i L ph head lost pending (head - used) ps w').
Proof.
  intros HP. apply wp_load. intros n w1 h Hr Hn HI. still w1 HP.
  rewrite (pd_head _ _ _ _ _ _ _ _ _ HP). clear dependent n h w.
  apply wp_load. intros n w2 h Hr Hn HI. still w2 HP.
  destruct (producing_inv _ _ _ _ _ _ _ _ _ _ HP HI) as [[] ?]. destruct HP. cbn.
  replace (u64 (head - rw_heap w2 (Tail i))) with (head - rw_heap w2 (Tail i)).
  2: { unfold SPZ_RING_CAPACITY in *. destruct ph; cbn in *; zlia. }
  assert (0 <= in_flight ph) by by destruct ph.
  split_and!; try lia. split; try done. lia.
Qed.

Lemma wp_commit L p s x lost pending tail ps w :
  producing i L (Writing wire_size) (Z.of_nat p) lost pending tail ps w -> L !! p = Some (s, x) ->
  wp i (store (Commit i (slot_index (Z.of_nat p))) s ;; store (Head i) (u64 (Z.of_nat p + 1)) ;; mret 0) w
    (fun r w' => r = 0 /\ producing i L Between (Z.of_nat p + 1) lost pending tail ps w').
Proof.
  intros HP Hl. apply wp_store. intros n w1 h Hr Hn HI. still w1 HP.
  destruct (producing_inv _ _ _ _ _ _ _ _ _ _ HP HI) as [HL _]. pose proof (pd_head _ _ _ _ _ _ _ _ _ HP) as Hh.
  destruct (producer_move _ _ _ _ _ _ _ _ _ _ Committed (Commit i (slot_index (Z.of_nat p))) s HP HI)
    as (w2 & ? & ? & HP2); try done; [rewrite put_other by done; lia|by eapply lane_commit|].
  exists w2. split_and!; try done. rewrite put_other, Hh in HP2 by done. clear dependent n h w w1. rename HP2 into HP.
  apply wp_store. intros n w1 h Hr Hn HI. still w1 HP.
  destruct (producing_inv _ _ _ _ _ _ _ _ _ _ HP HI) as [HL ?]. pose proof (pd_head _ _ _ _ _ _ _ _ _ HP) as Hh.
  replace (u64 (Z.of_nat p + 1)) with (Z.of_nat p + 1) by zlia.
  destruct (producer_move _ _ _ _ _ _ _ _ _ _ Between (Head i) (Z.of_nat p + 1) HP HI)
    as (w3 & ? & ? & HP3); try done; [rewrite put_same; lia|rewrite <- Hh; by apply lane_advance|].
  exists w3. rewrite put_same in HP3. done.
Qed.

Lemma wp_ring_publish L head lost pending tail ps source w :
  producing i L Between head lost pending tail ps w -> head - tail < SPZ_RING_CAPACITY -> event_wf source ->
  wp i (atomic_publish i source) w (fun r w' => r = 0 /\ exists s,
    producing i (L ++ [(s, {| is_cpu := i; is_push := length ps; is_source := source |})])
      Between (head + 1) lost pending tail ps w').
Proof.
  intros HP Hroom Hsrc. eapply prog_wp_call; [by eapply wp_cpu_used|]. cbn beta. intros used w1 (Hu & Hu2 & HP1).
  rewrite (proj2 (Z.leb_gt _ _)) by lia. clear dependent w.
  assert (forall w, producing i L Between head lost pending (head - used) ps w ->
            producing i L Between head lost pending tail ps w) as Hw by (intros ? []; split; try done; lia).
  apply Hw in HP1 as HP. clear HP1 Hw Hu2.
  apply wp_load. intros n w2 h Hr Hn HI. still w2 HP.
  rewrite (pd_head _ _ _ _ _ _ _ _ _ HP). destruct (producing_inv _ _ _ _ _ _ _ _ _ _ HP HI) as [_ Hh].
  destruct (Z_of_nat_complete head) as [p ->]; [lia|]. clear dependent n h w1.
  apply wp_load. intros n w3 h Hr Hn HI. still w3 HP.
  destruct (producing_inv _ _ _ _ _ _ _ _ _ _ HP HI) as [[] Hh].
  assert (Z.of_nat (length L) = Z.of_nat p) as Hlen by (destruct HP; cbn in *; lia).
  rewrite li_commit; [|destruct HP; lia]. unfold expect_commit at 1. rewrite lookup_ge_None_2 by lia. cbn [negb Z.eqb].
  eapply prog_wp_call; [by eapply (wp_next_sequence _ _ _ _ _ _ source)|]. cbn beta.
  intros r w4 (s & -> & Hs & HP4). set (x := {| is_cpu := i |}) in *.
  assert ((L ++ [(s, x)]) !! p = Some (s, x)) as Hl by (rewrite lookup_app_r, list_lookup_singleton_Some by lia; split; [lia|done]).
  pose proof (issue_bytes_length s x Hi Hs Hsrc) as Hb.
  eapply prog_wp_call; [by eapply (wp_copy_in 0 (issue_bytes s x)); [..|lia]|]. cbn beta. intros _ w5 HP5.
  eapply prog_wp_mono; [by eapply wp_commit|]. intros r w6 [-> HP6]. split; [done|]. by exists s.
Qed.

(** The producer changes one of its counters of losses. *)
Lemma loss_move n w h L ph head lost pending tail ps c v :
  producing i L ph head lost pending tail ps w -> ring_inv n w (rw_heap w) h ->
  c = Lost i \/ c = Loss_pending i -> 0 <= v <= Z.of_nat (S n) ->
  exists w', guarantee i w w' /\ ring_inv (S n) w' (put c v (rw_heap w)) h /\
    producing i L ph head (put c v (rw_heap w) (Lost i)) (put c v (rw_heap w) (Loss_pending i)) tail ps w'.
Proof.
  intros HP HI Hc Hv. exists (w <| rw_heap := put c v (rw_heap w) |>).
  assert (forall c', c' <> Lost i -> c' <> Loss_pending i -> put c v (rw_heap w) c' = rw_heap w c') as Hput
    by (intros; apply put_other; by destruct Hc as [-> | ->]).
  split_and!.
  - apply guarantee_producer; cbn; try done.
    + intros c' Hc'. by apply Hput; intros ->.
    + intros j c' Hj [-> | [-> | ->]]; apply Hput; congruence.
    + by rewrite Hput.
  - apply ring_inv_S in HI. destruct HI. split; cbn; rewrite ?Hput by done; try done.
    + intros cpu Hcpu. eapply lane_inv_frame; [by apply ri_lanes0| |done].
      intros c' Hc'. by apply Hput; intros ->.
    + intros cpu. specialize (ri_losses0 cpu). unfold put. repeat case_decide; lia.
    + intros cpu Hcpu. rewrite Hput by done. auto.
    + intros cpu p s x Hp. rewrite Hput by done. eauto.
  - destruct HP. split; cbn; rewrite ?Hput by done; done.
Qed.

Lemma wp_count_loss L ph head lost pending tail ps w :
  producing i L ph head lost pending tail ps w ->
  wp i (atomic_count_loss i) w (fun r w' => r = - ENOSPC /\ producing i L ph head (lost + 1) (pending + 1) tail ps w').
Proof.
  intros HP. apply (wp_rmw _ _ _ _ (fun w => rw_heap w (Lost i) + 1)). intros n w1 h Hr Hn HI. still w1 HP.
  pose proof (proj1 (ri_losses _ _ _ _ HI i)) as Hl.
  destruct (loss_move n w1 h _ _ _ _ _ _ _ (Lost i) (rw_heap w1 (Lost i) + 1) HP HI) as (w2 & ? & ? & HP2); [by left|lia|].
  exists w2. split_and!; try done; [f_equal; zlia|]. rewrite put_same, put_other in HP2 by done.
  rewrite (pd_lost _ _ _ _ _ _ _ _ _ HP), (pd_pending _ _ _ _ _ _ _ _ _ HP) in HP2. clear dependent w n w1 h.
  apply (wp_rmw _ _ _ _ (fun w => rw_heap w (Loss_pending i) + 1)). intros n w1 h Hr Hn HI. still w1 HP2.
  pose proof (proj2 (ri_losses _ _ _ _ HI i)) as Hp.
  destruct (loss_move n w1 h _ _ _ _ _ _ _ (Loss_pending i) (rw_heap w1 (Loss_pending i) + 1) HP2 HI) as (w3 & ? & ? & HP3); [by right|lia|].
  exists w3. split_and!; try done; [f_equal; zlia|]. rewrite put_same, put_other in HP3 by done.
  rewrite (pd_lost _ _ _ _ _ _ _ _ _ HP2), (pd_pending _ _ _ _ _ _ _ _ _ HP2) in HP3. done.
Qed.

(** With a loss pending and room for two a marker is published, otherwise nothing is. *)
Lemma wp_report_loss L head lost pending tail ps w free :
  producing i L Between head lost pending tail ps w -> free <= SPZ_RING_CAPACITY - (head - tail) -> 1 <= free ->
  wp i (atomic_report_loss i pending free) w (fun r w' => r = 0 /\
    (producing i L Between head lost pending tail ps w' \/
     pending <> 0 /\ 2 <= free /\ exists s, producing i
       (L ++ [(s, {| is_cpu := i; is_push := length ps; is_source := loss_event pending lost |})])
       Between (head + 1) lost 0 tail ps w')).
Proof.
  intros HP Hfree Hone. unfold atomic_report_loss. destruct (Z.eqb_spec pending 0) as [E|E]; cbn [negb andb]; [by split; [|left]|].
  destruct (Z.leb_spec 2 free) as [Hf|Hf]; [|by split; [|left]].
  apply wp_load. intros n w1 h Hr Hn HI. still w1 HP. rewrite (pd_lost _ _ _ _ _ _ _ _ _ HP).
  pose proof (ri_losses _ _ _ _ HI i) as [Hl Hp].
  rewrite (pd_lost _ _ _ _ _ _ _ _ _ HP) in Hl. rewrite (pd_pending _ _ _ _ _ _ _ _ _ HP) in Hp.
  eapply prog_wp_call; [eapply wp_ring_publish; [done|lia|apply loss_event_wf; zlia]|]. cbn beta. intros r w2 (-> & s & HP2).
  cbn [negb Z.eqb]. clear dependent w n h w1.
  apply (wp_rmw _ _ _ _ (fun w => 0)). intros n w1 h Hr Hn HI. still w1 HP2.
  destruct (loss_move n w1 h _ _ _ _ _ _ _ (Loss_pending i) 0 HP2 HI) as (w3 & ? & ? & HP3); [by right|lia|].
  exists w3. split_and!; try done.
  - rewrite (pd_pending _ _ _ _ _ _ _ _ _ HP2). f_equal. zlia.
  - rewrite put_same, put_other, (pd_lost _ _ _ _ _ _ _ _ _ HP2) in HP3 by done. split; [done|]. right. eauto.
Qed.

Lemma finish_push L head lost pending tail ps w event code :
  producing i L Between head lost pending tail ps w ->
  lane_log (ps ++ [(event, code)]) (sources L) lost pending ->
  finishes i (Push (Z.of_nat i) event) (Pushed code) w.
Proof.
  intros HP Hlog n w1 m h Hr Hn HI. pose proof (ri_heap _ _ _ _ HI) as ->. still w1 HP.
  destruct (producing_inv _ _ _ _ _ _ _ _ _ _ HP HI) as [HL _]. apply ring_inv_S in HI. destruct HP, HI.
  assert (forall cpu, <[i := ps ++ [(event, code)]]> (rw_pushes w1) cpu =
            pushes cpu (h ++ [Returned i (Push (Z.of_nat i) event) (Pushed code)])) as Hps.
  { intros cpu. rewrite pushes_snoc. cbn. case_decide; subst.
    - by rewrite fn_lookup_insert, ri_pushes0.
    - by rewrite fn_lookup_insert_ne, app_nil_r. }
  exists (w1 <| rw_pushes := <[i := ps ++ [(event, code)]]> (rw_pushes w1) |>). split_and!.
  - apply guarantee_producer; try done. intros. by apply fn_lookup_insert_ne.
  - split; try done; rewrite ?delivered_snoc, ?before_poll_snoc; cbn -[rw_lane]; rewrite ?app_nil_r; try done.
    + intros cpu p s x Hp Hge. destruct (decide (cpu = i)) as [->|Hne].
      * destruct HL. change (rw_lane w1 i !! p = Some (s, x)) in Hp. rewrite pd_lane0 in Hp.
        apply lookup_lt_Some in Hp. cbn in *. lia.
      * rewrite <- Hps, fn_lookup_insert_ne, ri_pushes0 by done. by eapply ri_current0.
    + apply polls_sound_snoc; [done|]. by intros.
  - split; cbn -[rw_lane]; [|intros E; lia]. intros _. split; [done|]. rewrite fn_lookup_insert.
    by rewrite pd_lost0, pd_pending0, <- pd_lane0 in *.
Qed.

Lemma sources_snoc L s x : sources (L ++ [(s, x)]) = sources L ++ [(is_push x, is_source x)].
Proof. unfold sources. by rewrite fmap_app. Qed.

Lemma wp_push event w :
  from_option event_wf True event -> ring_idle i w ->
  wp i (ring_program (Push (Z.of_nat i) event)) w (finishes i (Push (Z.of_nat i) event)).
Proof.
  intros Hwf [Hidle _]. destruct (Hidle Hi) as [Hph Hlog].
  set (L := rw_lane w i) in *. set (ps := rw_pushes w i) in *.
  set (lost := rw_heap w (Lost i)) in *. set (pending := rw_heap w (Loss_pending i)) in *.
  assert (producing i L Between (rw_heap w (Head i)) lost pending (rw_heap w (Tail i)) ps w) as HP by done.
  revert HP. generalize (rw_heap w (Head i)) (rw_heap w (Tail i)). intros head tail HP.
  clearbody L ps lost pending. apply prog_wp_bind. destruct event as [event|]; cbn [atomic_ring_push].
  2: { eapply finish_push; [done|]. by constructor. }
  rewrite (proj2 (Z.leb_gt _ _)) by (unfold poller in *; lia). rewrite Nat2Z.id.
  eapply prog_wp_call; [by eapply wp_cpu_used|]. cbn beta. clear dependent w. intros used w (Hu & Hu2 & HP).
  replace (u64 (SPZ_RING_CAPACITY - used)) with (SPZ_RING_CAPACITY - used) by (unfold SPZ_RING_CAPACITY in *; zlia).
  destruct (Z.eqb_spec (SPZ_RING_CAPACITY - used) 0) as [E|E].
  { eapply prog_wp_mono; [by eapply wp_count_loss|]. intros r w' [-> HP']. eapply finish_push; [done|]. by constructor. }
  apply wp_load. intros n w1 h Hr Hn HI. still w1 HP. rewrite (pd_pending _ _ _ _ _ _ _ _ _ HP). clear dependent w n h.
  eapply prog_wp_call; [eapply (wp_report_loss _ _ _ _ _ _ _ (SPZ_RING_CAPACITY - used)); [done|lia|lia]|]. cbn beta.
  intros r w [-> [HP'|(Hpend & Htwo & s & HP')]]; cbn [negb Z.eqb].
  - eapply prog_wp_call; [eapply wp_ring_publish; [done|lia|done]|]. cbn beta. intros r w' (-> & s & HP2). cbn.
    eapply finish_push; [done|]. rewrite sources_snoc. by constructor.
  - eapply prog_wp_call; [eapply wp_ring_publish; [done|lia|done]|]. cbn beta. intros r w' (-> & s' & HP2). cbn.
    eapply finish_push; [done|]. rewrite !sources_snoc, <- app_assoc. by constructor.
Qed.

End producer.

End steps.
