(* ===== verification/RingThreadsSpec.v ===== *)
(** * The event ring under every interleaving

    The proof that a poll keeps the protocol of RingPush.v, and the theorem for eight
    producers and a poll in any interleaving. *)

From stdpp Require Import relations functions.
From S2P Require Import Prelude Crc32 Abi Ring Interleave RingThreads RingLane RingPush.

Section steps.
Context (limit : nat) (few : Z.of_nat limit < 2 ^ 62).

Abbreviation wp := (wp limit ring_inv ring_rely).
Abbreviation finishes := (finishes limit ring_inv ring_rely ring_idle).
Abbreviation guarantee := (guarantee ring_rely).

(** ** Polling *)

(** What the poll owns, beside the tails. *)
Record polling (z : option nat) (floor after given : Z) (seen : nat -> Z) (w : ring_world) : Prop := {
  po_zeroed : rw_zeroed w = z;
  po_floor : rw_floor w = floor;
  po_after : rw_heap w Consumer_after = after;
  po_given : rw_given w = given;
  po_seen : rw_seen w = seen;
}.

(** No event numbered up to [after] is left in front in the ring of [cpu], as far as the
    poll saw it. *)
Definition swept (after : Z) (cpu : nat) (w : ring_world) : Prop :=
  rw_heap w (Tail cpu) < rw_seen w cpu ->
  exists p s x, rw_heap w (Tail cpu) = Z.of_nat p /\ rw_lane w cpu !! p = Some (s, x) /\ after < s.

Lemma polling_stable z floor after given seen w w' :
  polling z floor after given seen w -> ring_rely poller w w' -> polling z floor after given seen w'.
Proof. intros [] [_ Hr]. destruct (Hr eq_refl) as [A B C G D E F]. split; rewrite ?B, ?C, ?G, ?D, ?A by done; done. Qed.

Lemma rely_tail w w' cpu : ring_rely poller w w' -> rw_heap w' (Tail cpu) = rw_heap w (Tail cpu).
Proof. intros [_ Hr]. by apply (lr_cells _ _ (Hr eq_refl)). Qed.

Lemma rely_lane w w' cpu p s x :
  ring_rely poller w w' -> rw_lane w cpu !! p = Some (s, x) -> rw_lane w' cpu !! p = Some (s, x).
Proof.
  intros [_ Hr] Hp. pose proof (lane_prefix cpu _ _ (lr_issued _ _ (Hr eq_refl))) as Hl. by eapply prefix_lookup_Some.
Qed.

Lemma rely_head w w' cpu : ring_rely poller w w' -> rw_heap w (Head cpu) <= rw_heap w' (Head cpu).
Proof. intros [_ Hr]. by apply lr_head, Hr. Qed.

Lemma swept_stable after cpu w w' : swept after cpu w -> ring_rely poller w w' -> swept after cpu w'.
Proof.
  intros Hs Hr. unfold swept. rewrite (rely_tail w w') by done. pose proof (lr_seen _ _ (proj2 Hr eq_refl)) as ->.
  intros Ht. destruct (Hs Ht) as (p & s & x & ? & ? & ?). exists p, s, x. split_and!; try done. by eapply rely_lane.
Qed.

(** The poll changes the ring of [cpu]. *)
Lemma poll_move n w h cpu c v z floor :
  ring_inv n w (rw_heap w) h -> (cpu < poller)%nat -> cell_cpu c = Some cpu -> c <> Head cpu ->
  rw_heap w (Tail cpu) <= put c v (rw_heap w) (Tail cpu) ->
  lane_inv cpu (put c v (rw_heap w)) (rw_lane w cpu) (rw_phase w cpu) (bool_decide (z = Some cpu)) floor ->
  rw_floor w <= floor -> (forall j, j <> cpu -> zeroed_in w j = bool_decide (z = Some j)) ->
  let w' := w <| rw_heap := put c v (rw_heap w) |> <| rw_phase := <[cpu := rw_phase w cpu]> (rw_phase w) |>
              <| rw_zeroed := z |> <| rw_floor := floor |> in
  guarantee poller w w' /\ ring_inv (S n) w' (put c v (rw_heap w)) h.
Proof.
  intros HI Hcpu Hc Hh Ht Hl Hf Hz w'. split.
  - apply guarantee_poll; try done; cbn.
    + intros j. destruct (decide (j = cpu)) as [->|]; [by rewrite fn_lookup_insert|by rewrite fn_lookup_insert_ne].
    + intros j c' Hc'. apply put_other. intros ->. destruct Hc' as [-> | [-> | ->]]; cbn in Hc; simplify_eq.
    + intros j. destruct (decide (j = cpu)) as [->|Hne]; [done|]. rewrite put_other; [done|]. intros <-. cbn in Hc. congruence.
  - apply (ring_inv_lane n w (rw_heap w)); try done; [by apply other_cells_put|]. rewrite put_other by done. done.
Qed.

(** What a poll that removed the oldest event of [cpu] knows. *)
Record removed (cpu : nat) (w w' : ring_world) : Prop := {
  rm_tail : rw_heap w' (Tail cpu) = rw_heap w (Tail cpu) + 1;
  rm_others : forall j, j <> cpu -> rw_heap w' (Tail j) = rw_heap w (Tail j);
  rm_issued : rw_issued w `prefix_of` rw_issued w';
  rm_head : forall j, rw_heap w (Head j) <= rw_heap w' (Head j);
}.

Lemma poll_lane n w h cpu z floor after given seen :
  polling z floor after given seen w -> ring_inv n w (rw_heap w) h -> (cpu < poller)%nat ->
  lane_inv cpu (rw_heap w) (rw_lane w cpu) (rw_phase w cpu) (bool_decide (z = Some cpu)) floor /\
  rw_heap w (Head cpu) <= Z.of_nat n.
Proof.
  intros [] HI Hcpu. pose proof (ri_lanes _ _ _ _ HI cpu Hcpu) as Hl. unfold zeroed_in in Hl. subst z floor.
  split; [done|]. pose proof (ri_few _ _ _ _ HI). destruct Hl.
  assert (length (rw_lane w cpu) <= length (rw_issued w))%nat.
  { unfold rw_lane, lane. etrans; [apply length_filter|]. by rewrite length_imap. }
  assert (0 <= in_flight (rw_phase w cpu)) by by destruct (rw_phase w cpu). lia.
Qed.

(** The oldest event of a ring is removed. *)
Lemma wp_remove {A} cpu p s x floor floor' after given seen (k : rprog A) w Φ :
  (cpu < poller)%nat -> polling None floor after given seen w ->
  rw_heap w (Tail cpu) = Z.of_nat p -> Z.of_nat p < rw_heap w (Head cpu) ->
  rw_lane w cpu !! p = Some (s, x) -> s <= floor' -> floor <= floor' ->
  (forall w', polling None floor' after given seen w' -> removed cpu w w' -> wp poller k w' Φ) ->
  wp poller (store (Commit cpu (slot_index (Z.of_nat p))) 0 ;; store (Tail cpu) (u64 (Z.of_nat p + 1)) ;; k) w Φ.
Proof.
  intros Hcpu HQ Ht Hh Hp Hs Hf Hk. apply wp_store. intros n w1 h Hr Hn HI.
  apply (polling_stable _ _ _ _ _ _ w1) in HQ as HQ1; [|done]. destruct (poll_lane _ _ _ cpu _ _ _ _ _ HQ1 HI Hcpu) as [HL Hn1].
  rewrite <- (rely_tail w w1) in Ht by done. pose proof (rely_head w w1 cpu Hr) as Hh1. apply (rely_lane w w1) in Hp; [|done].
  destruct (poll_move n w1 h cpu (Commit cpu (slot_index (Z.of_nat p))) 0 (Some cpu) floor') as [Hg2 HI2]; try done.
  { rewrite bool_decide_true by done. eapply lane_clear; try done. lia. }
  { by rewrite (po_floor _ _ _ _ _ _ HQ1). }
  { intros j Hj. unfold zeroed_in. rewrite (po_zeroed _ _ _ _ _ _ HQ1), !bool_decide_false by congruence. done. }
  eexists. split_and!; [exact Hg2|exact HI2|]. set (w2 := w1 <| rw_heap := _ |> <| rw_phase := _ |> <| rw_zeroed := _ |> <| rw_floor := _ |>) in *.
  assert (polling (Some cpu) floor' after given seen w2) as HQ2 by (destruct HQ1; by split).
  assert (rw_heap w2 (Tail cpu) = Z.of_nat p) as Ht2 by done.
  assert (forall j, rw_heap w2 (Tail j) = rw_heap w (Tail j)) as Htj by (intros j; exact (rely_tail w w1 j Hr)).
  assert (forall j, rw_heap w (Head j) <= rw_heap w2 (Head j)) as Hhj by (intros j; exact (rely_head w w1 j Hr)).
  assert (rw_issued w `prefix_of` rw_issued w2) as Hiss by (by apply (lr_issued _ _ (proj2 Hr eq_refl))).
  clearbody w2. clear dependent h. clear HQ Hg2 Hp Ht. apply wp_store. intros n2 w3 h Hr2 Hn2 HI3.
  apply (polling_stable _ _ _ _ _ _ w3) in HQ2; [|done]. destruct (poll_lane _ _ _ cpu _ _ _ _ _ HQ2 HI3 Hcpu) as [HL3 Hn3].
  rewrite <- (rely_tail w2 w3) in Ht2 by done. pose proof (rely_head w2 w3 cpu Hr2) as Hh2. specialize (Hhj cpu) as Hhc.
  replace (u64 (Z.of_nat p + 1)) with (rw_heap w3 (Tail cpu) + 1) by (rewrite Ht2; zlia).
  destruct (poll_move n2 w3 h cpu (Tail cpu) (rw_heap w3 (Tail cpu) + 1) None floor') as [Hg4 HI4]; try done.
  { rewrite put_same. lia. }
  { apply lane_remove. by rewrite bool_decide_true in HL3. }
  { by rewrite (po_floor _ _ _ _ _ _ HQ2). }
  { intros j Hj. unfold zeroed_in. rewrite (po_zeroed _ _ _ _ _ _ HQ2), !bool_decide_false by congruence. done. }
  eexists. split_and!; [exact Hg4|exact HI4|]. apply Hk; [destruct HQ2; by split|].
  split; cbn -[put].
  - by rewrite put_same, (rely_tail w2 w3), Htj.
  - intros j Hj. rewrite put_other by congruence. by rewrite (rely_tail w2 w3).
  - etrans; [exact Hiss|]. by apply (lr_issued _ _ (proj2 Hr2 eq_refl)).
  - intros j. etrans; [exact (Hhj j)|]. rewrite put_other by done. by apply rely_head.
Qed.

Lemma swept_removed after cpu j w w' :
  swept after j w -> j <> cpu -> rw_seen w' = rw_seen w -> removed cpu w w' -> swept after j w'.
Proof.
  intros Hs Hj He [_ Ho Hi _]. unfold swept. rewrite He, Ho by done. intros Ht.
  destruct (Hs Ht) as (p & s & x & ? & ? & ?). exists p, s, x. split_and!; try done.
  eapply prefix_lookup_Some; [done|by apply lane_prefix].
Qed.

(** The oldest event of a ring that is not empty is there with its number. *)
Lemma oldest_commit n w h cpu floor after given seen p :
  polling None floor after given seen w -> ring_inv n w (rw_heap w) h -> (cpu < poller)%nat ->
  rw_heap w (Tail cpu) = Z.of_nat p -> Z.of_nat p < rw_heap w (Head cpu) ->
  exists s x, rw_lane w cpu !! p = Some (s, x) /\ rw_heap w (Commit cpu (slot_index (Z.of_nat p))) = s /\ 0 < s.
Proof.
  intros HQ HI Hcpu Ht Hh. destruct (poll_lane _ _ _ cpu _ _ _ _ _ HQ HI Hcpu) as [[] _].
  assert (0 <= in_flight (rw_phase w cpu)) by by destruct (rw_phase w cpu).
  destruct (lookup_here (rw_lane w cpu) p _ eq_refl) as [[s x] Hp]; [lia|]. exists s, x.
  split_and!; [done| |by apply lane_lookup in Hp as (_ & ? & _); lia].
  rewrite li_commit by (unfold SPZ_RING_CAPACITY; lia). unfold expect_commit.
  rewrite Hp, (proj2 (Z.ltb_lt _ _)), bool_decide_false by done. done.
Qed.

Lemma wp_discard_loop fuel cpu p head after ca given seen cpus w :
  (cpu < poller)%nat -> cpu ∉ cpus -> polling None after ca given seen w -> Forall (fun j => swept after j w) cpus ->
  rw_heap w (Tail cpu) = Z.of_nat p -> head <= rw_heap w (Head cpu) -> seen cpu <= head ->
  head - Z.of_nat p <= Z.of_nat fuel ->
  wp poller (atomic_discard_loop fuel cpu (Z.of_nat p) head after) w
    (fun _ w' => polling None after ca given seen w' /\ Forall (fun j => swept after j w') (cpu :: cpus)).
Proof.
  intros Hcpu Hnot. revert p w. induction fuel as [|fuel IH]; intros p w HQ Hs Ht Hh Hseen Hfuel.
  { cbn. split; [done|]. constructor; [|done]. intros Hlt. destruct HQ. simplify_eq. lia. }
  cbn [atomic_discard_loop]. destruct (Z.ltb_spec (Z.of_nat p) head) as [Hlt|Hge].
  2: { cbn. split; [done|]. constructor; [|done]. intros Hlt. destruct HQ. simplify_eq. lia. }
  apply wp_load. intros n w1 h Hr Hn HI. apply (polling_stable _ _ _ _ _ _ w1) in HQ; [|done].
  apply (Forall_impl _ (fun j => swept after j w1)) in Hs; [|intros; by eapply swept_stable].
  rewrite <- (rely_tail w w1) in Ht by done. pose proof (rely_head w w1 cpu Hr).
  destruct (oldest_commit n w1 h cpu _ _ _ _ p HQ HI Hcpu Ht) as (s & x & Hp & -> & Hpos); [lia|].
  rewrite (proj2 (Z.eqb_neq s 0)) by lia. cbn [orb]. destruct (Z.ltb_spec after s) as [Hgt|Hle].
  { split; [done|]. constructor; [|done]. intros _. by exists p, s, x. }
  pose proof (proj2 (poll_lane _ _ _ cpu _ _ _ _ _ HQ HI Hcpu)) as Hn1.
  apply (wp_remove cpu p s x after after ca given seen); try done; [lia|]. intros w2 HQ2 Hrm.
  replace (u64 (Z.of_nat p + 1)) with (Z.of_nat (S p)) by zlia. apply IH; try done.
  - rewrite Forall_forall in Hs |- *. intros j Hj. apply (swept_removed after cpu j w1); [by apply Hs|by intros ->| |done].
    destruct HQ, HQ2. congruence.
  - destruct Hrm. lia.
  - destruct Hrm. specialize (rm_head0 cpu). lia.
  - lia.
Qed.

Lemma wp_discard_through cpu after ca given seen cpus w :
  (cpu < poller)%nat -> cpu ∉ cpus -> polling None after ca given seen w -> Forall (fun j => swept after j w) cpus ->
  wp poller (atomic_discard_through cpu after) w
    (fun _ w' => polling None after ca given seen w' /\ Forall (fun j => swept after j w') (cpu :: cpus)).
Proof.
  intros Hcpu Hnot HQ Hs. apply wp_load. intros n w1 h Hr Hn HI. apply (polling_stable _ _ _ _ _ _ w1) in HQ; [|done].
  apply (Forall_impl _ (fun j => swept after j w1)) in Hs; [|intros; by eapply swept_stable].
  destruct (poll_lane _ _ _ cpu _ _ _ _ _ HQ HI Hcpu) as [HL _]. destruct (Z_of_nat_complete (rw_heap w1 (Tail cpu))) as [p Ht];
    [destruct HL; lia|]. rewrite Ht. clear dependent w n h.
  apply wp_load. intros n w2 h Hr Hn HI. apply (polling_stable _ _ _ _ _ _ w2) in HQ; [|done].
  apply (Forall_impl _ (fun j => swept after j w2)) in Hs; [|intros; by eapply swept_stable].
  rewrite <- (rely_tail w1 w2) in Ht by done. apply wp_discard_loop; try done; [|lia].
  destruct HQ. subst seen. by apply (ri_seen _ _ _ _ HI).
Qed.

Lemma wp_discard_all todo cpus after ca given seen w :
  Forall (fun cpu => (cpu < poller)%nat) todo -> NoDup (todo ++ cpus) -> polling None after ca given seen w ->
  Forall (fun j => swept after j w) cpus ->
  wp poller (atomic_discard_all todo after) w
    (fun _ w' => polling None after ca given seen w' /\ forall j, j ∈ todo ++ cpus -> swept after j w').
Proof.
  revert cpus w. induction todo as [|cpu todo IH]; intros cpus w Hlt Hnd HQ Hs; cbn [atomic_discard_all].
  { cbn. split; [done|]. by apply Forall_forall. }
  apply Forall_cons in Hlt as [Hcpu Hlt]. cbn in Hnd. apply NoDup_cons in Hnd as [Hnot Hnd].
  eapply prog_wp_call; [apply (wp_discard_through cpu after ca given seen cpus); try done; set_solver|]. cbn beta.
  intros _ w1 [HQ1 Hs1]. eapply prog_wp_mono; [apply (IH (cpu :: cpus)); try done|].
  - rewrite <- Permutation_middle. by constructor.
  - intros _ w2 [HQ2 Hs2]. split; [done|]. intros j Hj. apply Hs2. set_solver.
Qed.

(** The expected number is in no ring, as far as the poll saw it. *)
Definition missing (expected : Z) (cpu : nat) (w : ring_world) : Prop :=
  rw_seen w cpu <= Z.of_nat (length (rw_lane w cpu)) /\
  forall p x, rw_lane w cpu !! p = Some (expected, x) -> rw_seen w cpu <= Z.of_nat p.

Lemma missing_stable expected cpu w w' : missing expected cpu w -> ring_rely poller w w' -> missing expected cpu w'.
Proof.
  intros [Hl Hm] [_ Hr]. pose proof (lane_prefix cpu _ _ (lr_issued _ _ (Hr eq_refl))) as [l El].
  unfold missing. rewrite (lr_seen _ _ (Hr eq_refl)). unfold rw_lane in *. rewrite El. split.
  - rewrite length_app. lia.
  - intros p x Hp. apply lookup_app_Some in Hp as [Hp|[Hp _]]; [by eapply Hm|lia].
Qed.

(** A swept ring whose oldest event is not the expected one does not have it. *)
Lemma swept_missing n w h cpu after ca given seen :
  polling None after ca given seen w -> ring_inv n w (rw_heap w) h -> (cpu < poller)%nat -> swept after cpu w ->
  (forall p x, rw_heap w (Tail cpu) = Z.of_nat p -> Z.of_nat p < rw_heap w (Head cpu) ->
     rw_lane w cpu !! p <> Some (after + 1, x)) ->
  missing (after + 1) cpu w.
Proof.
  intros HQ HI Hcpu Hs Hne. destruct (poll_lane _ _ _ cpu _ _ _ _ _ HQ HI Hcpu) as [HL _].
  pose proof (ri_seen _ _ _ _ HI cpu Hcpu) as Hseen. split.
  { destruct HL. assert (0 <= in_flight (rw_phase w cpu)) by by destruct (rw_phase w cpu). lia. }
  intros p x Hp. apply Z.le_ngt. intros Hlt.
  assert (rw_heap w (Tail cpu) <= Z.of_nat p) as Ht.
  { apply Z.le_ngt. intros Ht. assert (after + 1 <= after); [|lia]. eapply (li_gone _ _ _ _ _ _ HL); [done|destruct (bool_decide _); cbn; lia]. }
  destruct Hs as (q & s & y & Hq & Hlq & Hgt); [lia|].
  destruct (decide (q = p)) as [->|Hqp]; [eapply Hne; [done|lia|done]|].
  assert (s < after + 1); [|lia]. apply (lane_increasing _ _ _ _ _ _ _ _ Hlq Hp). lia.
Qed.

(** The ring whose oldest event is the expected one. *)
Definition found (expected : Z) (cpu p : nat) (x : issue) (w : ring_world) : Prop :=
  (cpu < poller)%nat /\ rw_heap w (Tail cpu) = Z.of_nat p /\ Z.of_nat p < rw_heap w (Head cpu) /\
  rw_lane w cpu !! p = Some (expected, x) /\ length (issue_bytes expected x) = wire_size.

Lemma lane_bytes n w h cpu p s x :
  ring_inv n w (rw_heap w) h -> (n < limit)%nat -> rw_lane w cpu !! p = Some (s, x) -> length (issue_bytes s x) = wire_size.
Proof.
  intros HI Hn Hp. apply lane_lookup in Hp as (_ & Hs & Hx). pose proof (ri_few _ _ _ _ HI).
  apply (ri_valid _ _ _ _ HI) in Hx as [? ?]. apply issue_bytes_length; [done|lia|done].
Qed.

Lemma found_stable expected cpu p x w w' : found expected cpu p x w -> ring_rely poller w w' -> found expected cpu p x w'.
Proof.
  intros (H1 & H2 & H3 & H4 & H5) Hr. pose proof (rely_head w w' cpu Hr).
  split_and!; [done|by rewrite (rely_tail w w')|lia|by eapply rely_lane|done].
Qed.

Definition selected (after ca given : Z) (seen : nat -> Z) (r : option (nat * Z)) (w : ring_world) : Prop :=
  polling None after ca given seen w /\
  match r with
  | None => forall j, (j < poller)%nat -> missing (after + 1) j w
  | Some (cpu, tail) => exists p x, tail = Z.of_nat p /\ found (after + 1) cpu p x w
  end.

Lemma wp_select todo after ca given seen w :
  Forall (fun cpu => (cpu < poller)%nat) todo -> polling None after ca given seen w ->
  (forall j, j ∈ todo -> swept after j w) -> (forall j, (j < poller)%nat -> j ∉ todo -> missing (after + 1) j w) ->
  wp poller (atomic_select todo (after + 1)) w (selected after ca given seen).
Proof.
  revert w. induction todo as [|cpu todo IH]; intros w Hlt HQ Hs Hm; cbn [atomic_select].
  { split; [done|]. intros j Hj. apply Hm; [done|]. set_solver. }
  apply Forall_cons in Hlt as [Hcpu Hlt].
  assert (forall n w' h, ring_rely poller w w' -> ring_inv n w' (rw_heap w') h ->
            (forall p x, rw_heap w' (Tail cpu) = Z.of_nat p -> Z.of_nat p < rw_heap w' (Head cpu) ->
               rw_lane w' cpu !! p <> Some (after + 1, x)) ->
            wp poller (atomic_select todo (after + 1)) w' (selected after ca given seen)) as Hskip.
  { intros n w' h Hr HI Hne. apply (polling_stable _ _ _ _ _ _ w') in HQ; [|done]. apply IH; try done.
    - intros j Hj. eapply swept_stable; [|done]. apply Hs. set_solver.
    - intros j Hj Hnot. destruct (decide (j = cpu)) as [->|Hjc].
      + eapply swept_missing; try done. eapply swept_stable; [|done]. apply Hs. set_solver.
      + eapply missing_stable; [|done]. apply Hm; [done|]. set_solver. }
  apply wp_load. intros n w1 h Hr Hn HI. apply (polling_stable _ _ _ _ _ _ w1) in HQ as HQ1; [|done].
  destruct (poll_lane _ _ _ cpu _ _ _ _ _ HQ1 HI Hcpu) as [HL _].
  destruct (Z_of_nat_complete (rw_heap w1 (Tail cpu))) as [p Ht]; [destruct HL; lia|]. rewrite Ht. clear dependent n h HL.
  apply wp_load. intros n w2 h Hr2 Hn HI. apply (polling_stable _ _ _ _ _ _ w2) in HQ1 as HQ2; [|done].
  rewrite <- (rely_tail w1 w2) in Ht by done. assert (ring_rely poller w w2) as Hr02 by (by etrans).
  destruct (Z.leb_spec (rw_heap w2 (Head cpu)) (Z.of_nat p)) as [Hge|Hlt2].
  { eapply Hskip; try done. intros q x Hq Hlq. lia. }
  clear dependent n h. apply wp_load. intros n w3 h Hr3 Hn HI. apply (polling_stable _ _ _ _ _ _ w3) in HQ2; [|done].
  rewrite <- (rely_tail w2 w3) in Ht by done. assert (ring_rely poller w w3) as Hr03 by (by etrans).
  pose proof (rely_head w2 w3 cpu Hr3).
  destruct (oldest_commit n w3 h cpu _ _ _ _ p HQ2 HI Hcpu Ht) as (s & x & Hp & -> & _); [lia|].
  destruct (Z.eqb_spec s (after + 1)) as [->|Hne]; cbn [negb].
  - split; [done|]. exists p, x. split; [done|]. split_and!; try done; [lia|by eapply lane_bytes].
  - eapply Hskip; try done. intros q y Hq _ Hl. assert (q = p) as -> by lia. congruence.
Qed.

Lemma wp_copy_out n k cpu p x expected floor ca given seen w :
  polling None floor ca given seen w -> found expected cpu p x w ->
  (k + n = wire_size)%nat ->
  wp poller (copy_out cpu (slot_index (Z.of_nat p)) k n) w
    (fun bytes w' => bytes = drop k (issue_bytes expected x) /\ polling None floor ca given seen w' /\ found expected cpu p x w').
Proof.
  revert k w. induction n as [|n IH]; intros k w HQ HF Hk; pose proof (proj2 (proj2 (proj2 (proj2 HF)))) as Hlen.
  { split; [|done]. symmetry. apply drop_ge. lia. }
  apply wp_load. intros steps w1 h Hr Hn HI. apply (polling_stable _ _ _ _ _ _ w1) in HQ; [|done].
  apply (found_stable _ _ _ _ _ w1) in HF; [|done]. destruct (lookup_lt_is_Some_2 (issue_bytes expected x) k) as [b Hb]; [lia|].
  assert (rw_heap w1 (Byte cpu (slot_index (Z.of_nat p)) k) = b) as ->.
  { destruct HF as (Hcpu & Ht & Hh & Hp & _). destruct (poll_lane _ _ _ cpu _ _ _ _ _ HQ HI Hcpu) as [HL _].
    pose proof (li_bytes _ _ _ _ _ _ HL p expected x ltac:(lia) Hp) as Hbytes.
    rewrite (proj2 (Z.ltb_lt _ _)) in Hbytes by lia. apply Hbytes; [lia|done]. }
  eapply prog_wp_call; [apply (IH (S k)); [done..|lia]|]. cbn beta. intros bytes w2 (-> & HQ2 & HF2).
  split; [|done]. by rewrite <- (drop_S _ b).
Qed.

Lemma finish_poll w after ca given seen code out :
  polling None ca ca given seen w -> 0 <= given ->
  (forall n w1 h, ring_rely poller w w1 -> ring_inv n w1 (rw_heap w1) h -> poll_sound (rw_issued w1) h after code out) ->
  (code = 1 -> given <= after /\ after + 1 <= ca) -> finishes poller (Pop_after after) (Popped code out) w.
Proof.
  intros HQ Hg Hsound Hle n w1 m h Hr Hn HI. pose proof (ri_heap _ _ _ _ HI) as ->.
  apply (polling_stable _ _ _ _ _ _ w1) in HQ; [|done]. specialize (Hsound n w1 h Hr HI).
  set (g := if decide (code = 1) then after + 1 else given).
  assert (given <= g) as Hgg by (unfold g; case_decide; lia).
  exists (w1 <| rw_given := g |>). apply ring_inv_S in HI. destruct HI, HQ. split.
  { by apply guarantee_poll. }
  split; [|by split; cbn; [intros; lia|split; congruence]].
  split; try done; rewrite ?before_poll_snoc; try done.
  - intros cpu. rewrite pushes_snoc, app_nil_r. apply ri_pushes.
  - intros cpu p s x Hp Hge. rewrite pushes_snoc, app_nil_r. by eapply ri_current.
  - rewrite delivered_snoc. apply Forall_app. cbn. split.
    + eapply Forall_impl; [done|]. cbn. intros. lia.
    + unfold g. case_decide; [subst code; by constructor|]. unfold delivered_of. by repeat case_match.
  - cbn. unfold g in *. case_decide; split; try lia.
  - apply polls_sound_snoc; [done|]. intros; by simplify_eq.
Qed.

(** The poll stores how far the events have been consumed. *)
Lemma wp_store_after {A} w floor ca given seen v (k : rprog A) Φ :
  polling None floor ca given seen w -> ca <= v <= floor ->
  (forall w', polling None floor v given seen w' -> rw_issued w `prefix_of` rw_issued w' ->
     (forall after j, swept after j w -> swept after j w') -> wp poller k w' Φ) ->
  wp poller (store Consumer_after v ;; k) w Φ.
Proof.
  intros HQ Hv Hk. apply wp_store. intros n w1 h Hr Hn HI. apply (polling_stable _ _ _ _ _ _ w1) in HQ; [|done].
  exists (w1 <| rw_heap := put Consumer_after v (rw_heap w1) |>).
  assert (forall c, c <> Consumer_after -> put Consumer_after v (rw_heap w1) c = rw_heap w1 c) as Hput by (intros; by apply put_other).
  split_and!.
  - apply guarantee_poll; try done. cbn. intros j c Hc. apply Hput. destruct Hc as [-> | [-> | ->]]; done.
  - destruct HQ. apply ring_inv_S in HI. destruct HI. split; try done; cbn -[rw_lane put].
    + intros cpu Hcpu. eapply lane_inv_frame; [by apply ri_lanes| |done]. intros c Hc. apply Hput. by intros ->.
    + rewrite put_same. lia.
  - apply Hk; [destruct HQ; by split|by apply (lr_issued _ _ (proj2 Hr eq_refl))|].
    intros after j Hs. exact (swept_stable after j w w1 Hs Hr).
Qed.

(** The poll passes the checks of its argument. *)
Lemma wp_load_latest {A} w ca given seen after (k : Z -> rprog A) Φ :
  polling None ca ca given seen w -> ca <= after ->
  (forall w1 latest, polling None ca ca given seen w1 -> latest < after -> wp poller (k latest) w1 Φ) ->
  (forall w1 latest, polling None after ca given seen w1 -> after <= latest < 2 ^ 62 -> wp poller (k latest) w1 Φ) ->
  wp poller (load Next_sequence ≫= k) w Φ.
Proof.
  intros HQ Ha Hlow Hhigh. cbn. intros n w1 m h Hr Hn HI. pose proof (ri_heap _ _ _ _ HI) as ->. rewrite app_nil_r.
  apply (polling_stable _ _ _ _ _ _ w1) in HQ; [|done]. apply ring_inv_S in HI.
  pose proof (ri_next _ _ _ _ HI). pose proof (ri_few _ _ _ _ HI).
  destruct (Z.lt_ge_cases (rw_heap w1 Next_sequence) after) as [Hlt|Hge].
  - exists w1. split_and!; [by intros ??|done|by apply Hlow].
  - exists (w1 <| rw_floor := after |>). destruct HQ. split_and!.
    + by apply guarantee_poll.
    + destruct HI. split; try done; cbn -[rw_lane].
      * intros cpu Hcpu. eapply lane_inv_frame; [by apply ri_lanes|done|lia].
      * lia.
    + apply Hhigh; [by split|lia].
Qed.

(** The expected event is delivered. *)
Lemma wp_deliver cpu p x after given seen w :
  polling None after after given seen w -> found (after + 1) cpu p x w -> 0 <= given <= after -> after < 2 ^ 62 ->
  wp poller (atomic_deliver cpu (Z.of_nat p) (after + 1)) w
    (fun r => finishes poller (Pop_after after) (Popped r.1 r.2)).
Proof.
  intros HQ HF Hg Ha. eapply prog_wp_call; [by eapply (wp_copy_out _ 0)|]. cbn beta. clear HQ HF w. intros out w (-> & HQ & HF).
  apply wp_load. intros n w1 h Hr Hn HI. apply (polling_stable _ _ _ _ _ _ w1) in HQ; [|done].
  apply (found_stable _ _ _ _ _ w1) in HF; [|done]. destruct HF as (Hcpu & Ht & Hh & Hp & _).
  destruct (oldest_commit n w1 h cpu _ _ _ _ p HQ HI Hcpu Ht Hh) as (s & y & Hp' & -> & _).
  simplify_eq. rewrite Z.eqb_refl. cbn [negb].
  apply (wp_remove cpu p (after + 1) x after (after + 1) after given seen); try done; [lia|]. intros w2 HQ2 Hrm.
  eapply wp_store_after; [done|lia|]. intros w3 HQ3 Hiss _. cbn.
  apply (finish_poll w3 after (after + 1) given seen); [done|lia| |lia].
  intros n' w4 h' Hr4 HI4. left. split; [done|]. split.
  - eapply Forall_impl; [apply (ri_delivered _ _ _ _ HI4)|]. cbn. intros s Hs.
    apply (polling_stable _ _ _ _ _ _ w4) in HQ3; [|done]. destruct HQ3. lia.
  - exists x. apply lane_lookup in Hp as (_ & _ & Hx). rewrite Z.add_simpl_r in Hx. split; [|done].
    assert (rw_issued w1 `prefix_of` rw_issued w4) as Hpre.
    { etrans; [by apply (rm_issued _ _ _ Hrm)|]. etrans; [done|]. apply (lr_issued _ _ (proj2 Hr4 eq_refl)). }
    by eapply prefix_lookup_Some.
Qed.

(** The scan of the swept rings, then the delivery. *)
Lemma wp_poll_rest after given seen w :
  polling None after after given seen w -> (forall j, j ∈ lanes -> swept after j w) -> 0 <= given <= after -> after < 2 ^ 62 ->
  wp poller (selected ← atomic_select lanes (after + 1);
             match selected with
             | None => mret (0, None)
             | Some (cpu, tail) => atomic_deliver cpu tail (after + 1)
             end) w (fun r => finishes poller (Pop_after after) (Popped r.1 r.2)).
Proof.
  intros HQ Hs Hg Ha. eapply prog_wp_call; [eapply (wp_select lanes); [|done|done|]|].
  { apply Forall_forall. intros j Hj. apply elem_of_seq in Hj. unfold poller. lia. }
  { intros j Hj Hnot. destruct Hnot. apply elem_of_seq. unfold poller in Hj. lia. }
  clear HQ Hs w. intros [[cpu tail]|] w [HQ Hsel].
  { destruct Hsel as (p & x & -> & HF). by eapply wp_deliver. }
  apply (finish_poll w after after given seen); [done|lia| |done]. intros n w1 h Hr HI. right; left. split_and!; [done..|].
  intros x Hx. destruct (ri_valid _ _ _ _ HI _ _ Hx) as [Hcpu _]. destruct (issued_lane _ _ _ Hx) as [p Hp].
  eapply (ri_old _ _ _ _ HI _ p); [exact Hp|]. eapply (missing_stable _ _ w); [by apply Hsel|done|].
  rewrite Z2Nat.id in Hp by lia. exact Hp.
Qed.

Lemma wp_poll after ca given seen w :
  polling None ca ca given seen w -> 0 <= given <= ca -> 0 <= after ->
  wp poller (ring_program (Pop_after after)) w (finishes poller (Pop_after after)).
Proof.
  intros HQ Hg Ha. apply prog_wp_bind. unfold atomic_ring_pop_after.
  apply wp_load. intros n w1 h Hr Hn HI. apply (polling_stable _ _ _ _ _ _ w1) in HQ; [|done].
  rewrite (po_after _ _ _ _ _ _ HQ). clear dependent w n h. destruct (Z.ltb_spec after ca) as [Hlt|Hge].
  { apply (finish_poll w1 after ca given seen); [done|lia| |done]. intros. right; right. auto. }
  apply (wp_load_latest w1 ca given seen after); [done|done| |]; clear dependent w1; intros w latest HQ Hl.
  { rewrite (proj2 (Z.ltb_lt _ _)) by lia. apply (finish_poll w after ca given seen); [done|lia| |done]. intros. right; right. auto. }
  rewrite (proj2 (Z.ltb_ge _ _)), (proj2 (Z.eqb_neq _ UINT64_MAX)) by zlia.
  eapply prog_wp_call; [apply (wp_discard_all lanes [] after ca given seen); [|rewrite app_nil_r; apply NoDup_seq|done|done]|].
  { apply Forall_forall. intros j Hj. apply elem_of_seq in Hj. unfold poller. lia. }
  cbn beta. clear HQ w. intros _ w [HQ Hs]. replace (u64 (after + 1)) with (after + 1) by zlia.
  rewrite app_nil_r in Hs. destruct (Z.ltb_spec ca after) as [Hlt|Hle].
  - eapply wp_store_after; [done|lia|]. intros w' HQ' _ Hsw. apply (wp_poll_rest after given seen); try done; [|lia|lia].
    intros j Hj. by apply Hsw, Hs.
  - assert (ca = after) as -> by lia. apply (wp_poll_rest after given seen); try done; lia.
Qed.

End steps.

(** ** Every interleaving *)

Lemma ring_call_starts limit i c w :
  Z.of_nat limit < 2 ^ 62 -> ring_may i c -> ring_idle i w ->
  takes limit ring_inv ring_rely i w (fun m => m) [Called i c]
    (fun _ w2 => wp limit ring_inv ring_rely i (ring_program c) w2 (finishes limit ring_inv ring_rely ring_idle i c)).
Proof.
  intros Hlim Hmay Hidle n w1 m h Hr Hn HI. apply (ring_idle_stable i w w1) in Hidle; [|done].
  pose proof (ri_heap _ _ _ _ HI) as ->. apply ring_inv_S in HI. destruct c as [cpu event|after]; cbn in Hmay.
  - destruct Hmay as (Hi & -> & Hwf). exists w1. split_and!; [by intros ??| |by apply wp_push].
    destruct HI. split; try done; rewrite ?before_poll_snoc, ?delivered_snoc, ?app_nil_r; try done.
    + intros j. rewrite pushes_snoc, app_nil_r. apply ri_pushes.
    + intros j p s x Hp Hge. rewrite pushes_snoc, app_nil_r. by eapply ri_current.
    + by apply polls_sound_snoc.
  - destruct Hmay as (-> & Ha). destruct (proj2 Hidle eq_refl) as [Hz Hf]. pose proof (ri_after _ _ _ _ HI) as Hg.
    exists (w1 <| rw_seen := fun cpu => rw_heap w1 (Head cpu) |>). split; [by apply guarantee_poll|]. split.
    + destruct HI. split; try done; rewrite ?before_poll_snoc, ?delivered_snoc, ?app_nil_r; try done.
      * intros j. rewrite pushes_snoc, app_nil_r. apply ri_pushes.
      * intros j p s x Hp Hge. by rewrite (ri_current j p s x).
      * intros j p s x Hp Hge. rewrite pushes_snoc, app_nil_r. by eapply ri_current.
      * by apply polls_sound_snoc.
    + eapply (wp_poll limit Hlim after (rw_heap w1 Consumer_after) (rw_given w1)); [by split|lia|done].
Qed.

Definition ring_world_start : ring_world :=
  {| rw_heap := ring_zero; rw_issued := []; rw_phase := fun _ => Between; rw_pushes := fun _ => [];
     rw_zeroed := None; rw_floor := 0; rw_given := 0; rw_seen := fun _ => 0 |}.

Lemma ring_threads_start : ring_inv 0 ring_world_start ring_zero [].
Proof.
  split; try done; cbn; try lia.
  intros [] *; discriminate.
Qed.

(** C21: Eight CPUs push, each in one thread, and a poll pops, one access of the memory at a
    time in any interleaving, from an empty ring (an audit would be a second producer of
    its CPU, for which [audit_overwrites_event] shows that this fails). There is a list of issued events, as long as the
    sequence counter says, such that: a poll that returns an event returns the whole
    event issued under the next number, and no number twice or out of order; a poll that
    finds nothing found the push of the next number unfinished when it began; a poll
    never sees a torn event and never answers -EAGAIN or -EOVERFLOW; and for a CPU outside
    its pushes each push was accepted, in order, or refused as full and counted, every
    loss being reported once by a marker in front of an accepted event or still pending. *)
Theorem ring_threads_sound steps s :
  nsteps ring_pool_step steps (pool_start (S poller) ring_zero) s -> Z.of_nat steps < 2 ^ 62 ->
  exists issued,
    pl_heap s Next_sequence = Z.of_nat (length issued) /\
    polls_sound issued (pl_notes s) /\
    forall cpu, (cpu < poller)%nat -> pl_threads s !! cpu = Some Outside ->
      lane_log (pushes cpu (pl_notes s)) (sources (lane cpu issued)) (pl_heap s (Lost cpu)) (pl_heap s (Loss_pending cpu)).
Proof.
  intros Hrun Hn.
  destruct (pool_run_ok steps ring_inv ring_rely ring_program ring_may ring_idle (S poller) ring_zero ring_world_start
              steps s) as (w & HI & Ht); try done.
  - split; [exact ring_idle_stable|]. intros. by apply ring_call_starts.
  - apply ring_threads_start.
  - intros i Hi. split; intros Hc; [|done]. split; [done|constructor].
  - exists (rw_issued w). destruct HI. split_and!; [done..|]. intros cpu Hcpu Hout.
    destruct (Ht cpu _ Hout) as [Hidle _]. destruct (Hidle Hcpu) as [_ Hlog]. by rewrite ri_heap, <- ri_pushes.
Qed.

(** ** A schedule

    CPU 0 takes the number 1 and is overtaken by CPU 3, which pushes number 2. A poll
    finds nothing until CPU 0 is done; the next two polls return both events. *)
Definition ring_demo : list (action ring_call) :=
  [Call 0 (Push 0 (Some sample_event)); Access 0 9; Call 3 (Push 3 (Some sample_event)); Access 3 443; Return 3;
   Call 8 (Pop_after 0); Access 8 36; Return 8; Access 0 434; Return 0;
   Call 8 (Pop_after 0); Access 8 459; Return 8; Call 8 (Pop_after 1); Access 8 464; Return 8].

Definition ring_demo_end : rpool := performed ring_program ring_demo (pool_start (S poller) ring_zero).

Strategy expand [ring_demo_end].

Lemma ring_demo_ok : Forall (action_ok ring_may) ring_demo.
Proof. repeat (apply Forall_cons; split; [first [done | split_and!; [vm_compute; lia|done|exact sample_event_wf]]|]). by apply Forall_nil. Qed.

Lemma ring_demo_delivered : delivered (pl_notes ring_demo_end) = [1; 2].
Proof. vm_compute. reflexivity. Qed.

Lemma ring_demo_steps :
  nsteps ring_pool_step (sum_list_with action_steps ring_demo) (pool_start (S poller) ring_zero) ring_demo_end.
Proof.
  apply performed_steps; [apply ring_demo_ok|done|]. intros Hn. pose proof ring_demo_delivered as H.
  unfold ring_demo_end in H. rewrite Hn in H. discriminate H.
Qed.

Lemma ring_threads_sound_witness :
  exists issued,
    pl_heap ring_demo_end Next_sequence = Z.of_nat (length issued) /\
    polls_sound issued (pl_notes ring_demo_end) /\
    forall cpu, (cpu < poller)%nat -> pl_threads ring_demo_end !! cpu = Some Outside ->
      lane_log (pushes cpu (pl_notes ring_demo_end)) (sources (lane cpu issued))
        (pl_heap ring_demo_end (Lost cpu)) (pl_heap ring_demo_end (Loss_pending cpu)).
Proof.
  apply (ring_threads_sound (sum_list_with action_steps ring_demo)); [exact ring_demo_steps|].
  vm_compute. reflexivity.
Defined.

(** ** A second producer on a CPU

    The audit (spz_module_audit_cpu of kpm/platform/kpatch/runtime.c) pushes from a
    worker, which a hook of the same CPU can interrupt: then the CPU has two producers.
    Here thread 1 is the worker of CPU 0. *)
Definition audit_may (i : nat) (c : ring_call) : Prop :=
  ring_may i c \/ i = 1%nat /\ exists event, c = Push 0 (Some event) /\ event_wf event.

(** The worker has looked at the next slot when the hook pushes; then it goes on. *)
Definition audit_demo : list (action ring_call) :=
  [Call 1 (Push 0 (Some zero_event)); Access 1 7; Call 0 (Push 0 (Some sample_event)); Access 0 443; Return 0;
   Access 1 436; Return 1; Call 8 (Pop_after 0); Access 8 36; Return 8].

Definition audit_demo_end : rpool := performed ring_program audit_demo (pool_start (S poller) ring_zero).

Strategy expand [audit_demo_end].

(** Both pushes are accepted, under the numbers 1 and 2, but the worker's event goes to
    the slot of the hook's, and the head counts one of them. The event with the number
    1 is gone without being counted as lost: with nobody inside a call, a poll for it
    answers that there is nothing new. *)
Lemma audit_overwrites_event :
  nsteps (pool_step ring_program audit_may) (sum_list_with action_steps audit_demo)
    (pool_start (S poller) ring_zero) audit_demo_end /\
  pl_notes audit_demo_end =
    [Called 1 (Push 0 (Some zero_event)); Called 0 (Push 0 (Some sample_event));
     Returned 0 (Push 0 (Some sample_event)) (Pushed 0); Returned 1 (Push 0 (Some zero_event)) (Pushed 0);
     Called 8 (Pop_after 0); Returned 8 (Pop_after 0) (Popped 0 None)] /\
  quiet audit_demo_end /\
  pl_heap audit_demo_end Next_sequence = 2 /\ pl_heap audit_demo_end (Head 0) = 1 /\ pl_heap audit_demo_end (Lost 0) = 0.
Proof.
  assert (pl_notes audit_demo_end <> []) as Hne by (vm_compute; discriminate).
  split; [|vm_compute; split_and!; [reflexivity|repeat constructor|reflexivity..]].
  apply performed_steps; [|done|exact Hne].
  assert (action_ok audit_may (Call 1 (Push 0 (Some zero_event)))) as Haudit.
  { right. split; [done|]. exists zero_event. split; [done|apply zero_event_wf]. }
  assert (action_ok audit_may (Call 0 (Push 0 (Some sample_event)))) as Hhook.
  { left. split_and!; [vm_compute; lia|done|exact sample_event_wf]. }
  assert (action_ok audit_may (Call 8 (Pop_after 0))) as Hpoll by by left.
  repeat (apply Forall_cons; split; [by first [apply Haudit | apply Hhook | apply Hpoll | idtac]|]). by apply Forall_nil.
Qed.
