(* ===== verification/Runtime.v ===== *)
(** * The module: hooks, requests and unloading (kpm/platform/kpatch/runtime.c)

    The scheduler and exception hooks, the operations the request slot executes and
    the unload protocol, over the binding, debug, ring and snapshot components. A
    call from the kernel comes with what the platform answers during it: the CPU,
    the current task and the time. *)

From S2P Require Import Prelude Crc32 Abi Ring DeviceProfiles Profile Task Debug Maps Async.

Definition SPZ_GATE_CLOSED : Z := 0x80000000.
Definition SPZ_GATE_COUNT_MASK : Z := 0x7fffffff.
Definition SPZ_EVENT_FLAG_INTERFERENCE : Z := 2.
Definition SPZ_CONTROL_RESPONSE_MAX : Z := 4096.

Inductive spz_exception_kind := SPZ_EXCEPTION_BREAKPOINT | SPZ_EXCEPTION_WATCHPOINT | SPZ_EXCEPTION_SINGLE_STEP.

#[export] Instance spz_exception_kind_eq : EqDecision spz_exception_kind.
Proof. solve_decision. Defined.

(** The arguments and the outcome of a hooked exception handler. *)
Record spz_hook_fargs := {
  fa_args : list Z;
  fa_ret : Z;
  fa_skip_origin : Z;
}.

#[export] Instance spz_hook_fargs_shape : Shape spz_hook_fargs :=
  shape! Build_spz_hook_fargs < fa_args ; fa_ret ; fa_skip_origin >.

(** [struct spz_module_state] over the debug hardware [hw], without the tables of
    callbacks, which are parameters below, and the hooks, which are a component of
    their own. *)
Record spz_module_state (hw : Type) := {
  mo_profile : option spz_device_profile;
  mo_runtime : spz_profile_runtime;
  mo_binding : spz_binding;
  mo_debug : spz_debug_controller hw;
  mo_ring : spz_ring;
  mo_maps : spz_maps;
  mo_breakpoint : spz_debug_request;
  mo_async : spz_async_request;
  mo_breakpoint_configured : Z;
  mo_breakpoint_enabled : Z;
  mo_accepting_commands : Z;
  mo_ready : Z;
  mo_active_handlers : Z;
  mo_binding_counter : Z;
  mo_control_busy : Z;
  mo_audit_events : Z;
  mo_control_scratch : list Z;
}.
#[global] Arguments mo_profile {hw}.
#[global] Arguments mo_runtime {hw}.
#[global] Arguments mo_binding {hw}.
#[global] Arguments mo_debug {hw}.
#[global] Arguments mo_ring {hw}.
#[global] Arguments mo_maps {hw}.
#[global] Arguments mo_breakpoint {hw}.
#[global] Arguments mo_async {hw}.
#[global] Arguments mo_breakpoint_configured {hw}.
#[global] Arguments mo_breakpoint_enabled {hw}.
#[global] Arguments mo_accepting_commands {hw}.
#[global] Arguments mo_ready {hw}.
#[global] Arguments mo_active_handlers {hw}.
#[global] Arguments mo_binding_counter {hw}.
#[global] Arguments mo_control_busy {hw}.
#[global] Arguments mo_audit_events {hw}.
#[global] Arguments mo_control_scratch {hw}.

#[export] Instance spz_module_state_shape {hw} : Shape (spz_module_state hw) :=
  shape! (Build_spz_module_state hw) < mo_profile ; mo_runtime ; mo_binding ; mo_debug ; mo_ring ; mo_maps ;
    mo_breakpoint ; mo_async ; mo_breakpoint_configured ; mo_breakpoint_enabled ; mo_accepting_commands ;
    mo_ready ; mo_active_handlers ; mo_binding_counter ; mo_control_busy ; mo_audit_events ; mo_control_scratch >.

(** What a call works on: the module, the debug hardware and the calls made to the
    snapshot backend. *)
Record world (hw : Type) := {
  wd_module : spz_module_state hw;
  wd_hw : hw;
  wd_calls : list maps_call;
}.
#[global] Arguments wd_module {hw}.
#[global] Arguments wd_hw {hw}.
#[global] Arguments wd_calls {hw}.

#[export] Instance world_shape {hw} : Shape (world hw) :=
  shape! (Build_world hw) < wd_module ; wd_hw ; wd_calls >.

(** What the platform answers during one call: [current_cpu] with its result,
    [current_task] with the bytes of the task, [timestamp_ns]. *)
Record platform_view := {
  pv_current_cpu : Z * Z;
  pv_current_task : option (Z * list Z);
  pv_timestamp : Z;
}.

(** ** Addresses of per-CPU slots *)

Definition spz_kpatch_per_cpu_address (base per_cpu_offset stride slot : Z) : Z + Z :=
  if (base =? 0) || (stride =? 0) then inl (- ERANGE)
  else
    let per_cpu_base := u64 (base + per_cpu_offset) in
    if (per_cpu_base =? 0) || ((UINT64_MAX - per_cpu_base) / stride <? slot) then inl (- ERANGE)
    else
      let address := u64 (per_cpu_base + u64 (slot * stride)) in
      if address =? 0 then inl (- ERANGE) else inr address.

(** ** The gate of the handlers

    [active_handlers] counts the handlers inside; its top bit closes it. The
    exchange of [spz_handler_enter] succeeds at once when nobody interferes. *)

Definition spz_handler_enter {hw} (module : spz_module_state hw) : option (spz_module_state hw) :=
  let observed := mo_active_handlers module in
  if negb (Z.land observed SPZ_GATE_CLOSED =? 0) || (Z.land observed SPZ_GATE_COUNT_MASK =? SPZ_GATE_COUNT_MASK)
  then None
  else Some (module <| mo_active_handlers := u32 (observed + 1) |>).

Definition spz_handler_leave {hw} (module : spz_module_state hw) : spz_module_state hw :=
  module <| mo_active_handlers := u32 (mo_active_handlers module - 1) |>.

(** ** Unloading *)

(** The loop over the CPUs, [count] of them left from [cpu] on. *)
Fixpoint all_empty_loop {hw} (count : nat) (cpu : Z) (c : spz_debug_controller hw) : bool :=
  match count with
  | O => true
  | S count =>
      match spz_debug_get_cpu_state c cpu with
      | Some s => if bool_decide (ds_state s <> SPZ_DEBUG_EMPTY) then false else all_empty_loop count (cpu + 1) c
      | None => false
      end
  end.

Definition spz_all_debug_empty {hw} (module : spz_module_state hw) : bool :=
  all_empty_loop (Z.to_nat (dc_cpu_count (mo_debug module))) 0 (mo_debug module).

Definition spz_module_can_exit {hw} (module : spz_module_state hw) : Z :=
  if spz_async_busy (mo_async module) || negb (Z.land (mo_active_handlers module) SPZ_GATE_COUNT_MASK =? 0)
     || negb (Z.land (mo_control_busy module) SPZ_GATE_COUNT_MASK =? 0)
     || negb (mo_breakpoint_enabled module =? 0) || negb (mo_breakpoint_configured module =? 0)
     || negb (spz_all_debug_empty module) then - EBUSY
  else
    match spz_binding_snapshot (mo_binding module) with
    | None => - EBUSY
    | Some binding =>
        let maps := spz_maps_info (mo_maps module) in
        if bool_decide (mi_state maps <> SPZ_MAPS_UNSUPPORTED) && bool_decide (mi_state maps <> SPZ_MAPS_EMPTY)
        then - EBUSY
        else if bool_decide (sn_state binding = SPZ_BINDING_EMPTY) then 0 else - EBUSY
    end.

Definition spz_module_abort_exit {hw} (module : spz_module_state hw) : spz_module_state hw :=
  let module := module <| mo_active_handlers := 0 |> <| mo_control_busy := 0 |> in
  if negb (mo_ready module =? 0) then module <| mo_accepting_commands := 1 |> else module.

(** [quiesce] is the backend's callback, [None] for NULL. *)
Definition spz_module_begin_exit {hw} (quiesce : option Z) (module : spz_module_state hw) : Z * spz_module_state hw :=
  let module := module <| mo_accepting_commands := 0 |> in
  if negb (mo_control_busy module =? 0) then (- EBUSY, module <| mo_accepting_commands := 1 |>)
  else
    let module := module <| mo_control_busy := SPZ_GATE_CLOSED |> in
    if negb (mo_active_handlers module =? 0) then (- EBUSY, spz_module_abort_exit module)
    else
      let module := module <| mo_active_handlers := SPZ_GATE_CLOSED |> in
      let result := spz_module_can_exit module in
      let result := if result =? 0 then default 0 quiesce else result in
      if negb (result =? 0) then (result, spz_module_abort_exit module) else (result, module).

(** ** Handlers *)

Section handlers.
Context {hw : Type} (kmem : Z -> nat -> list Z).
Implicit Types (w : world hw) (m : spz_module_state hw).

(** Kernel memory behind [task] is as large as the profile says. *)
Definition task_size m : Z :=
  match mo_profile m with Some profile => kp_task_struct_size (profile_kernel profile) | None => 0 end.

Definition spz_module_publish_integrity m (view : platform_view) (cpu status flags : Z) : spz_module_state hw :=
  if (pr_initial_cpu_count (mo_runtime m) <=? cpu) || (SPZ_MAX_CPUS <=? cpu) then m
  else
    let event := zero_event <| ev_type := SPZ_EVENT_INTEGRITY |> <| ev_flags := flags |>
                   <| ev_timestamp := pv_timestamp view |> <| ev_value := u64 status |> in
    m <| mo_ring := (spz_ring_push (mo_ring m) cpu (Some event)).2 |>.

(** The CPU, or the error. *)
Definition spz_module_current_cpu m (view : platform_view) : Z + Z :=
  let '(result, cpu) := pv_current_cpu view in
  if negb (result =? 0) then inl result
  else if (pr_initial_cpu_count (mo_runtime m) <=? cpu) || (dc_cpu_count (mo_debug m) <=? cpu) then inl (- ERANGE)
  else inr cpu.

(** Result code, the target when it is 1, and the module: a match may find the
    binding stale. *)
Definition spz_module_current_target m (view : platform_view) : Z * option spz_debug_target * spz_module_state hw :=
  match spz_binding_snapshot (mo_binding m) with
  | None => (- EAGAIN, None, m)
  | Some snapshot =>
      if bool_decide (sn_state snapshot <> SPZ_BINDING_BOUND) then (0, None, m)
      else
        match pv_current_task view with
        | None => (- EFAULT, None, m)
        | Some _ =>
            let '(result, found, binding) :=
              spz_binding_matches_current kmem (mo_profile m) (pv_current_task view) (task_size m)
                (mo_binding m) (sn_generation snapshot) in
            let m := m <| mo_binding := binding |> in
            if negb (result =? 1) then (result, None, m)
            else (1, Some {| dt_binding_id := rq_binding_id (sn_request snapshot);
                             dt_identity := default empty_identity found |}, m)
        end
  end.

Definition spz_module_arm_live_current w (view : platform_view) (cpu : Z) : Z * world hw :=
  let m := wd_module w in
  if (mo_breakpoint_enabled m =? 0) || (mo_breakpoint_configured m =? 0) then (0, w)
  else
    let '(result, target, m) := spz_module_current_target m view in
    let w := w <| wd_module := m |> in
    if negb (result =? 1) then (if result <? 0 then result else 0, w)
    else
      let '(result, h, c) := spz_debug_arm_current (mo_debug m) (wd_hw w) cpu (Some (mo_breakpoint m)) target in
      (result, {| wd_module := m <| mo_debug := c |>; wd_hw := h; wd_calls := wd_calls w |}).

(** The module is ready and the gate lets the handler in: its body runs. *)
Definition handler w (body : world hw -> world hw) : world hw :=
  if mo_ready (wd_module w) =? 0 then w
  else
    match spz_handler_enter (wd_module w) with
    | None => w
    | Some m =>
        let w := body (w <| wd_module := m |>) in
        w <| wd_module := spz_handler_leave (wd_module w) |>
    end.

Definition finish_before_body (view : platform_view) w : world hw :=
  let m := wd_module w in
  match spz_module_current_cpu m view with
  | inl _ => w
  | inr cpu =>
      let '(result, h, c) := spz_debug_restore_cpu (mo_debug m) (wd_hw w) cpu in
      let m := m <| mo_debug := c |> in
      let m := if negb (result =? 0) then spz_module_publish_integrity m view cpu result SPZ_EVENT_FLAG_INTERFERENCE
               else m in
      {| wd_module := m; wd_hw := h; wd_calls := wd_calls w |}
  end.

Definition spz_module_finish_before (view : platform_view) w : world hw := handler w (finish_before_body view).

(** The task the binding was just given is retained for its memory map. *)
Definition finish_capture (view : platform_view) (cpu : Z) (found : option spz_task_identity) w : world hw :=
  let m := wd_module w in
  if spz_maps_has_task (mo_maps m) then w
  else
    let '(result, maps, calls) :=
      spz_maps_capture_task (mo_maps m) (fst <$> pv_current_task view)
        (id_generation (default empty_identity found)) (wd_calls w) in
    let m := m <| mo_maps := maps |> in
    let m := if negb (result =? 0) && negb (result =? - EOPNOTSUPP) && negb (result =? - EBUSY)
             then spz_module_publish_integrity m view cpu result 0 else m in
    {| wd_module := m; wd_hw := wd_hw w; wd_calls := calls |}.

Definition finish_after_body (view : platform_view) w : world hw :=
  let m := wd_module w in
  match spz_module_current_cpu m view, pv_current_task view with
  | inr cpu, Some _ =>
      let '(observed, found, binding) :=
        spz_binding_observe_current kmem (mo_profile m) (pv_current_task view) (task_size m) (mo_binding m) in
      let m := m <| mo_binding := binding |> in
      let w := w <| wd_module := m |> in
      if observed <? 0 then w <| wd_module := spz_module_publish_integrity m view cpu observed 0 |>
      else
        let w := if observed =? 1 then finish_capture view cpu found w else w in
        let '(result, w) := spz_module_arm_live_current w view cpu in
        if negb (result =? 0) && negb (result =? - EBUSY)
        then w <| wd_module := spz_module_publish_integrity (wd_module w) view cpu result SPZ_EVENT_FLAG_INTERFERENCE |>
        else w
  | _, _ => w
  end.

Definition spz_module_finish_after (view : platform_view) w : world hw := handler w (finish_after_body view).

Definition exit_before_body (view : platform_view) w : world hw :=
  match pv_current_task view with
  | None => w
  | Some _ =>
      let m := wd_module w in
      w <| wd_module := m <| mo_binding :=
        (spz_binding_mark_exit kmem (mo_profile m) (pv_current_task view) (task_size m) (mo_binding m)).2 |> |>
  end.

Definition spz_module_exit_before (view : platform_view) w : world hw := handler w (exit_before_body view).

(** ** Exceptions

    [regs] is the memory of the saved registers, [None] for a NULL address. *)

Definition spz_frame_from_regs (profile : option spz_device_profile) (regs : option (list Z)) (far esr : Z)
  : Z + spz_debug_frame :=
  match profile, regs with
  | Some profile, Some regs =>
      let layout := profile_layout profile in
      let pstate := read_u64 regs (lp_pt_regs_pstate layout) in
      inr {| df_x := (fun index => read_u64 regs (lp_pt_regs_regs layout + 8 * Z.of_nat index)) <$> seq 0 31;
             df_sp := read_u64 regs (lp_pt_regs_sp layout); df_pc := read_u64 regs (lp_pt_regs_pc layout);
             df_pstate := pstate; df_esr := esr; df_far := far;
             df_kernel_mode := if Z.land pstate 0xf =? 0 then 0 else 1 |}
  | _, _ => inl (- EINVAL)
  end.

Definition spz_frame_writeback (profile : option spz_device_profile) (regs : option (list Z)) (frame : spz_debug_frame)
  : option (list Z) :=
  match profile, regs with
  | Some profile, Some regs => Some (write_at regs (lp_pt_regs_pstate (profile_layout profile)) (le_bytes 8 (df_pstate frame)))
  | _, _ => regs
  end.

(** The three handlers behind one result; single steps make no event. *)
Definition dispatch_exception w (kind : spz_exception_kind) (cpu : Z) (target : option spz_debug_target)
    (frame : spz_debug_frame) : Z * hw * spz_debug_controller hw * spz_debug_frame * spz_event :=
  let c := mo_debug (wd_module w) in
  match kind with
  | SPZ_EXCEPTION_BREAKPOINT => spz_debug_handle_break c (wd_hw w) cpu target frame zero_event
  | SPZ_EXCEPTION_WATCHPOINT => spz_debug_handle_watch c (wd_hw w) cpu target frame zero_event
  | SPZ_EXCEPTION_SINGLE_STEP =>
      let '(result, h, c, frame) := spz_debug_handle_step c (wd_hw w) cpu target frame in
      (result, h, c, frame, zero_event)
  end.

(** The world, the saved registers and the arguments as the handler leaves them. *)
Definition exception_body (kind : spz_exception_kind) (view : platform_view) w (regs : option (list Z))
    (fargs : spz_hook_fargs) : world hw * option (list Z) * spz_hook_fargs :=
  let m := wd_module w in
  match spz_module_current_cpu m view with
  | inl _ => (w, regs, fargs)
  | inr cpu =>
      let '(result, target, m) := spz_module_current_target m view in
      let w := w <| wd_module := m |> in
      if negb (result =? 1) then (w, regs, fargs)
      else
        match spz_frame_from_regs (mo_profile m) regs (fa_args fargs !!! 0%nat) (fa_args fargs !!! 1%nat) with
        | inl _ => (w, regs, fargs)
        | inr frame =>
            let '(result, h, c, frame, event) := dispatch_exception w kind cpu target frame in
            let m := m <| mo_debug := c |> in
            let consumed := result =? SPZ_DEBUG_CONSUMED in
            let regs := if consumed || (result =? SPZ_DEBUG_FORWARD_ORIGINAL)
                        then spz_frame_writeback (mo_profile m) regs frame else regs in
            let m :=
              if bool_decide (kind <> SPZ_EXCEPTION_SINGLE_STEP) && consumed then
                let event := event <| ev_timestamp := pv_timestamp view |> in
                let m := m <| mo_ring := (spz_ring_push (mo_ring m) cpu (Some event)).2 |> in
                if bool_decide (dr_mode (mo_breakpoint m) = SPZ_BREAK_ONCE)
                then m <| mo_breakpoint_enabled := 0 |> else m
              else m in
            let m := if negb consumed && (result <? 0)
                     then spz_module_publish_integrity m view cpu result SPZ_EVENT_FLAG_INTERFERENCE else m in
            let fargs := if consumed then fargs <| fa_skip_origin := 1 |> <| fa_ret := 0 |> else fargs in
            ({| wd_module := m; wd_hw := h; wd_calls := wd_calls w |}, regs, fargs)
        end
  end.

Definition spz_module_exception_before (kind : spz_exception_kind) (view : platform_view) w
    (regs : option (list Z)) (fargs : spz_hook_fargs) : world hw * option (list Z) * spz_hook_fargs :=
  if (mo_ready (wd_module w) =? 0) || (mo_breakpoint_enabled (wd_module w) =? 0) then (w, regs, fargs)
  else
    match spz_handler_enter (wd_module w) with
    | None => (w, regs, fargs)
    | Some m =>
        let '(w, regs, fargs) := exception_body kind view (w <| wd_module := m |>) regs fargs in
        (w <| wd_module := spz_handler_leave (wd_module w) |>, regs, fargs)
    end.

(** ** Work on every CPU (kpm/platform/kpatch/async.c)

    [schedule_on_each_cpu] of the kernel answers a code and runs the worker once
    per CPU, in some order; a [schedule] is that code and what the platform
    answers in each run. *)

Definition schedule : Type := Z * list platform_view.

(** The first failure is kept in [each_cpu_status]. *)
Definition each_cpu_work (callback : platform_view -> Z -> world hw -> Z * world hw)
    (ws : world hw * Z) (view : platform_view) : world hw * Z :=
  let '(w, status) := ws in
  let '(result, cpu) := pv_current_cpu view in
  let '(result, w) := if result =? 0 then callback view cpu w else (result, w) in
  (w, if negb (result =? 0) && (status =? 0) then (if result <? 0 then result else - EIO) else status).

Definition each_cpu_round (s : schedule) (callback : platform_view -> Z -> world hw -> Z * world hw) w
  : Z * world hw :=
  let '(result, views) := s in
  let '(w, status) := foldl (each_cpu_work callback) (w, 0) views in
  let result := if 0 <? result then - EIO else result in
  (if result =? 0 then status else result, w).

Definition spz_restore_cpu_callback (view : platform_view) (cpu : Z) w : Z * world hw :=
  let m := wd_module w in
  let '(result, h, c) := spz_debug_restore_cpu (mo_debug m) (wd_hw w) cpu in
  (result, {| wd_module := m <| mo_debug := c |>; wd_hw := h; wd_calls := wd_calls w |}).

Definition spz_enable_cpu_callback (view : platform_view) (cpu : Z) w : Z * world hw :=
  match spz_module_current_cpu (wd_module w) view with
  | inl result => (result, w)
  | inr current_cpu => if negb (current_cpu =? cpu) then (- EXDEV, w) else spz_module_arm_live_current w view cpu
  end.

(** ** The audit *)

Section audit.
Context (audit_owner : option (Z -> spz_event -> Z * spz_event)).

Definition audit_event (view : platform_view) (kind : spz_debug_slot_kind) (slot owner value control : Z) : spz_event :=
  let event := zero_event <| ev_type := SPZ_EVENT_INTEGRITY |> <| ev_timestamp := pv_timestamp view |>
    <| ev_slot_kind := slot_kind_number kind |> <| ev_slot_index := u16 slot |> <| ev_value := value |>
    <| ev_observed_control := control |> <| ev_control := if owner =? 0 then 0 else 1 |> in
  let flagged e := e <| ev_flags := Z.lor (ev_flags e) SPZ_EVENT_FLAG_INTERFERENCE |> in
  let event := if Bool.eqb (owner =? 0) (Z.land control SPZ_DEBUG_CTRL_ENABLE =? 0) then event else flagged event in
  match audit_owner with
  | Some f =>
      if owner =? 0 then event
      else let '(result, event) := f owner event in if result =? 0 then event else flagged event
  | None => event
  end.

(** [count] slots from [slot] on. *)
Fixpoint audit_slots (count : nat) (slot : Z) (view : platform_view) (cpu : Z) (kind : spz_debug_slot_kind) w
  : Z * world hw :=
  match count with
  | O => (0, w)
  | S count =>
      let ops := dc_ops (mo_debug (wd_module w)) in
      let '(result, owner) := op_read_owner ops (wd_hw w) cpu kind slot in
      let '(result, value) := if result =? 0 then op_read_value ops (wd_hw w) cpu kind slot else (result, 0) in
      let '(result, control) := if result =? 0 then op_read_control ops (wd_hw w) cpu kind slot else (result, 0) in
      if negb (result =? 0) then (result, w)
      else if (owner =? 0) && (Z.land control SPZ_DEBUG_CTRL_ENABLE =? 0) then audit_slots count (slot + 1) view cpu kind w
      else
        let m := wd_module w in
        let '(pushed, ring) := spz_ring_push (mo_ring m) cpu (Some (audit_event view kind slot owner value control)) in
        let m := m <| mo_ring := ring |> in
        let m := if pushed =? 0 then m <| mo_audit_events := u32 (mo_audit_events m + 1) |> else m in
        audit_slots count (slot + 1) view cpu kind (w <| wd_module := m |>)
  end.

Definition spz_module_audit_cpu (view : platform_view) (cpu : Z) w : Z * world hw :=
  let c := mo_debug (wd_module w) in
  if dc_cpu_count c <=? cpu then (- EINVAL, w)
  else
    let '(result, w) :=
      audit_slots (Z.to_nat (op_brp_count (dc_ops c))) 0 view cpu SPZ_DEBUG_SLOT_BREAKPOINT w in
    if negb (result =? 0) then (result, w)
    else audit_slots (Z.to_nat (op_wrp_count (dc_ops c))) 0 view cpu SPZ_DEBUG_SLOT_WATCHPOINT w.

(** ** The operations of the request slot

    [each1] and [each2] are the schedules of the first and the second round of
    work on every CPU; waiting for the handlers changes nothing here. *)
Definition spz_module_async_execute (profile_ops : option spz_profile_runtime_ops) (each1 each2 : schedule) w
    (operation target_id : Z) : Z * world hw :=
  let m := wd_module w in
  if mo_ready m =? 0 then (- EINVAL, w)
  else if operation =? SPZ_ASYNC_MAPS then
    match spz_binding_snapshot (mo_binding m) with
    | None => (- EAGAIN, w)
    | Some binding =>
        if bool_decide (sn_state binding <> SPZ_BINDING_BOUND) then (- EAGAIN, w)
        else
          let '(result, maps, calls) :=
            spz_maps_snapshot (mo_maps m) (sn_generation binding) (as_request_id (mo_async m)) (wd_calls w) in
          (result, {| wd_module := m <| mo_maps := maps |>; wd_hw := wd_hw w; wd_calls := calls |})
    end
  else if operation =? SPZ_ASYNC_ENABLE then
    if (mo_breakpoint_configured m =? 0) || negb (dr_id (mo_breakpoint m) =? target_id) then (- ENOENT, w)
    else
      match spz_binding_snapshot (mo_binding m) with
      | None => (- EAGAIN, w)
      | Some binding =>
          if bool_decide (sn_state binding <> SPZ_BINDING_BOUND) then (- EAGAIN, w)
          else
            let '(result, _) := spz_profile_cpu_topology_unchanged (Some (mo_runtime m)) profile_ops None 0 in
            if negb (result =? 0) then (result, w)
            else
              let '(result, w) :=
                each_cpu_round each1 spz_enable_cpu_callback
                  (w <| wd_module := m <| mo_breakpoint_enabled := 1 |> |>) in
              if negb (result =? 0) then
                let w := w <| wd_module := (wd_module w) <| mo_breakpoint_enabled := 0 |> |> in
                (result, (each_cpu_round each2 spz_restore_cpu_callback w).2)
              else (result, w)
      end
  else if (operation =? SPZ_ASYNC_DISABLE) || (operation =? SPZ_ASYNC_CLEAR) then
    if (operation =? SPZ_ASYNC_DISABLE) && negb (mo_breakpoint_configured m =? 0)
       && negb (dr_id (mo_breakpoint m) =? target_id) then (- ENOENT, w)
    else
      let '(result, w) :=
        each_cpu_round each1 spz_restore_cpu_callback
          (w <| wd_module := m <| mo_breakpoint_enabled := 0 |> |>) in
      if negb (result =? 0) then (result, w)
      else if operation =? SPZ_ASYNC_DISABLE then (0, w)
      else
        let m := wd_module w in
        if negb (mo_active_handlers m =? 0) then (- EBUSY, w)
        else if negb (spz_all_debug_empty m) then (- EUCLEAN, w)
        else
          let '(result, maps, calls) := spz_maps_clear (mo_maps m) (wd_calls w) in
          let m := m <| mo_maps := maps |> in
          let w := {| wd_module := m; wd_hw := wd_hw w; wd_calls := calls |} in
          if negb (result =? 0) then (result, w)
          else
            let '(result, binding) := spz_binding_clear (mo_binding m) in
            let m := m <| mo_binding := binding |> in
            if negb (result =? 0) then (result, w <| wd_module := m |>)
            else
              (0, w <| wd_module :=
                    m <| mo_breakpoint := zero_debug_request |> <| mo_breakpoint_configured := 0 |>
                      <| mo_ring := spz_ring_init |> |>)
  else if operation =? SPZ_ASYNC_AUDIT then
    each_cpu_round each1 spz_module_audit_cpu (w <| wd_module := m <| mo_audit_events := 0 |> |>)
  else (- EINVAL, w).
End audit.
End handlers.

(** ** Start

    [same_profile] is the comparison of the two profile pointers and
    [callbacks_present] that no required pointer of the tables is NULL; the module
    is [None] when it is left zeroed. *)
Definition spz_module_core_init {hw} (profile : option spz_device_profile) (runtime : option spz_profile_runtime)
    (same_profile callbacks_present : bool) (debug_ops : option (spz_debug_ops_table hw))
    (maps_backend : option spz_maps_backend) : Z * option (spz_module_state hw) :=
  match profile, runtime, debug_ops with
  | Some _, Some runtime, Some _ =>
      if negb callbacks_present || negb same_profile || bool_decide (pr_state runtime <> SPZ_PROFILE_READY)
         || (pr_hooks_allowed runtime =? 0) || (pr_initial_cpu_count runtime =? 0)
         || (SPZ_MAX_CPUS <? pr_initial_cpu_count runtime)
      then (- EINVAL, None)
      else
        match spz_debug_controller_init debug_ops (pr_initial_cpu_count runtime) with
        | (result, Some debug) =>
            (result, Some
              {| mo_profile := profile; mo_runtime := runtime; mo_binding := spz_binding_init; mo_debug := debug;
                 mo_ring := spz_ring_init; mo_maps := spz_maps_init maps_backend; mo_breakpoint := zero_debug_request;
                 mo_async := spz_async_init; mo_breakpoint_configured := 0; mo_breakpoint_enabled := 0;
                 mo_accepting_commands := 1; mo_ready := 1; mo_active_handlers := 0; mo_binding_counter := 0;
                 mo_control_busy := 0; mo_audit_events := 0;
                 mo_control_scratch := replicate (Z.to_nat SPZ_CONTROL_RESPONSE_MAX) 0 |})
        | (result, None) => (result, None)
        end
  | _, _, _ => (- EINVAL, None)
  end.
