(* ===== verification/RuntimeSpec.v ===== *)
(** * Unloading and the gate of the handlers

    What kpm/platform/kpatch/runtime.c guarantees when the module may be removed,
    that the hooks balance their gate, and where the unload protocol loses count. *)

From S2P Require Import Prelude Crc32 Abi Ring DeviceProfiles Profile Task Debug Maps Async Runtime.

Section gate.
Context {hw : Type}.
Implicit Types (m : spz_module_state hw) (w : world hw).

(** The gate is open and not full. *)
Definition gate_open m : Prop := 0 <= mo_active_handlers m < SPZ_GATE_COUNT_MASK.

Lemma land_mask x : 0 <= x -> Z.land x SPZ_GATE_COUNT_MASK = x mod 2147483648.
Proof. intros. change SPZ_GATE_COUNT_MASK with (Z.ones 31). by apply Z.land_ones. Qed.

Lemma land_closed x : 0 <= x < 2147483648 -> Z.land x SPZ_GATE_CLOSED = 0.
Proof.
  intros Hx. apply Z.bits_inj'. intros i Hi. rewrite Z.land_spec, Z.bits_0.
  change SPZ_GATE_CLOSED with (2 ^ 31). destruct (decide (i = 31)) as [->|Hne].
  - by rewrite (testbit_high 31) by lia.
  - rewrite Z.pow2_bits_false by lia. apply andb_false_r.
Qed.

Lemma handler_enter_open m :
  gate_open m -> spz_handler_enter m = Some (m <| mo_active_handlers := mo_active_handlers m + 1 |>).
Proof.
  intros Hg. unfold gate_open, SPZ_GATE_COUNT_MASK in Hg. unfold spz_handler_enter.
  rewrite land_closed, land_mask, Z.mod_small by lia. rewrite (eqb_ne _ SPZ_GATE_COUNT_MASK) by (unfold SPZ_GATE_COUNT_MASK; lia).
  cbn [Z.eqb negb orb]. unfold u32. by rewrite Z.mod_small by lia.
Qed.

(** What the handlers leave alone: the counters of the gates, and the flags and the
    scratch buffer of the control component. *)
Definition same_gates m m' : Prop :=
  mo_active_handlers m' = mo_active_handlers m /\ mo_control_busy m' = mo_control_busy m /\
  mo_accepting_commands m' = mo_accepting_commands m /\ mo_ready m' = mo_ready m /\
  mo_binding_counter m' = mo_binding_counter m /\ mo_async m' = mo_async m /\
  mo_control_scratch m' = mo_control_scratch m.

#[export] Instance same_gates_preorder : PreOrder same_gates.
Proof. split; [by intros m|]. unfold same_gates. intros m1 m2 m3 H1 H2. naive_solver congruence. Qed.

Lemma publish_gates m view cpu status flags : same_gates m (spz_module_publish_integrity m view cpu status flags).
Proof. unfold spz_module_publish_integrity. by case_match. Qed.

Lemma target_gates kmem m view : same_gates m (spz_module_current_target kmem m view).2.
Proof.
  unfold spz_module_current_target. destruct (spz_binding_snapshot _); [|done]. case_match; [done|].
  destruct (pv_current_task view); [|done]. destruct (spz_binding_matches_current _ _ _ _ _ _) as [[r i] b].
  by destruct (negb _).
Qed.

Lemma arm_gates kmem w view cpu :
  same_gates (wd_module w) (wd_module (spz_module_arm_live_current kmem w view cpu).2).
Proof.
  unfold spz_module_arm_live_current. case_match; [done|].
  pose proof (target_gates kmem (wd_module w) view) as Ht.
  destruct (spz_module_current_target _ _ _) as [[r t] m]. cbn in Ht. case_match; [done|].
  destruct (spz_debug_arm_current _ _ _ _ _) as [[r' h] c]. cbn. etrans; [exact Ht|done].
Qed.

Lemma finish_before_gates view w : same_gates (wd_module w) (wd_module (finish_before_body view w)).
Proof.
  unfold finish_before_body. destruct (spz_module_current_cpu _ _) as [|cpu]; [done|].
  destruct (spz_debug_restore_cpu _ _ _) as [[r h] c]. cbn [wd_module]. case_match; [|done].
  etrans; [|apply publish_gates]. done.
Qed.

Lemma capture_gates view cpu found w : same_gates (wd_module w) (wd_module (finish_capture view cpu found w)).
Proof.
  unfold finish_capture. case_match; [done|]. destruct (spz_maps_capture_task _ _ _ _) as [[r maps] calls].
  cbn [wd_module]. case_match; [|done]. etrans; [|apply publish_gates]. done.
Qed.

Lemma finish_after_gates kmem view w : same_gates (wd_module w) (wd_module (finish_after_body kmem view w)).
Proof.
  unfold finish_after_body. destruct (spz_module_current_cpu _ _) as [|cpu]; [done|].
  destruct (pv_current_task view) as [task|]; [|done].
  destruct (spz_binding_observe_current _ _ _ _ _) as [[observed found] b].
  set (w1 := w <| wd_module := _ |>). assert (same_gates (wd_module w) (wd_module w1)) as H1 by done. clearbody w1.
  case_match; [etrans; [|apply publish_gates]; done|].
  set (w2 := if observed =? 1 then _ else _).
  assert (same_gates (wd_module w) (wd_module w2)) as H2
    by (subst w2; case_match; [etrans; [exact H1|apply capture_gates]|done]). clearbody w2.
  pose proof (arm_gates kmem w2 view cpu) as H3. destruct (spz_module_arm_live_current _ _ _ _) as [r w3]. cbn in H3.
  case_match; [etrans; [etrans; [exact H2|exact H3]|apply publish_gates]|by etrans].
Qed.

Lemma exit_before_gates kmem view w : same_gates (wd_module w) (wd_module (exit_before_body kmem view w)).
Proof. unfold exit_before_body. by destruct (pv_current_task view). Qed.

Lemma exception_gates kmem kind view w regs fargs :
  same_gates (wd_module w) (wd_module (exception_body kmem kind view w regs fargs).1.1).
Proof.
  unfold exception_body. destruct (spz_module_current_cpu _ _) as [|cpu]; [done|].
  pose proof (target_gates kmem (wd_module w) view) as Ht.
  destruct (spz_module_current_target _ _ _) as [[r t] m]. cbn [fst snd] in *. case_match; [done|].
  destruct (spz_frame_from_regs _ _ _ _) as [|frame]; [done|].
  destruct (dispatch_exception _ _ _ _ _) as [[[[r' h] c] frame'] event]. cbn [fst snd wd_module].
  set (m1 := if bool_decide _ && _ then _ else _).
  assert (same_gates m m1) as H1 by (subst m1; by repeat case_match).
  clearbody m1. case_match; [etrans; [etrans; [exact Ht|exact H1]|apply publish_gates]|by etrans].
Qed.

(** A handler that ran has left the gate as it found it. *)
Lemma handler_gates w body :
  (forall w, same_gates (wd_module w) (wd_module (body w))) ->
  gate_open (wd_module w) -> same_gates (wd_module w) (wd_module (handler w body)).
Proof.
  intros Hbody Hg. unfold handler. case_match; [done|]. rewrite handler_enter_open by done.
  set (w1 := w <| wd_module := _ |>). destruct (Hbody w1) as (Ha & Hrest). cbn [wd_module] in *.
  unfold spz_handler_leave. split; [|exact Hrest].
  transitivity (u32 (mo_active_handlers (wd_module (body w1)) - 1)); [done|]. rewrite Ha.
  transitivity (u32 (mo_active_handlers (wd_module w) + 1 - 1)); [done|].
  unfold gate_open, SPZ_GATE_COUNT_MASK in Hg. zlia.
Qed.
End gate.

(** ** Hooks *)

(** The calls the kernel makes into the module. *)
Inductive hook_call :=
| hook_finish_before (view : platform_view)
| hook_finish_after (view : platform_view)
| hook_exit_before (view : platform_view)
| hook_exception (kind : spz_exception_kind) (view : platform_view) (regs : option (list Z)) (fargs : spz_hook_fargs).

Definition run_hook {hw} (kmem : Z -> nat -> list Z) (w : world hw) (call : hook_call) : world hw :=
  match call with
  | hook_finish_before view => spz_module_finish_before view w
  | hook_finish_after view => spz_module_finish_after kmem view w
  | hook_exit_before view => spz_module_exit_before kmem view w
  | hook_exception kind view regs fargs => (spz_module_exception_before kmem kind view w regs fargs).1.1
  end.

(** Every hook leaves the gate as it found it, and does not touch the request
    slot, the control gate or the flags that admit commands. *)
Theorem hooks_balance_gate {hw} kmem (w : world hw) call :
  gate_open (wd_module w) -> same_gates (wd_module w) (wd_module (run_hook kmem w call)).
Proof.
  intros Hg. destruct call as [view|view|view|kind view regs fargs]; cbn [run_hook].
  - apply handler_gates; [apply finish_before_gates|done].
  - apply handler_gates; [apply finish_after_gates|done].
  - apply handler_gates; [apply exit_before_gates|done].
  - unfold spz_module_exception_before. case_match eqn:Hr; [done|]. rewrite handler_enter_open by done.
    pose proof (handler_gates w (fun w => (exception_body kmem kind view w regs fargs).1.1)) as H.
    unfold handler in H. apply orb_false_iff in Hr as [Hr _]. rewrite Hr, handler_enter_open in H by done.
    destruct (exception_body _ _ _ _ _ _) as [[w1 regs1] fargs1] eqn:E. cbn [fst] in *.
    apply H; [|done]. intros w2. apply exception_gates.
Qed.

(** ** Unloading *)

Lemma all_empty_loop_spec {hw} count cpu (c : spz_debug_controller hw) :
  all_empty_loop count cpu c = true ->
  forall i, cpu <= i < cpu + Z.of_nat count ->
    exists s, spz_debug_get_cpu_state c i = Some s /\ ds_state s = SPZ_DEBUG_EMPTY.
Proof.
  revert cpu. induction count as [|count IH]; intros cpu H i Hi; [lia|]. cbn [all_empty_loop] in H.
  destruct (spz_debug_get_cpu_state c cpu) as [s|] eqn:Es; [|done]. case_bool_decide as Hs; [done|].
  destruct (decide (i = cpu)) as [->|Hne]; [|apply (IH (cpu + 1) H); lia].
  exists s. split; [done|]. destruct (ds_state s); [done|by destruct Hs..].
Qed.

(** Nothing of a session is left: no breakpoint, no slot, no task, no snapshot. *)
Record quiet {hw} (m : spz_module_state hw) : Prop := {
  qu_async : spz_async_busy (mo_async m) = false;
  qu_breakpoint : mo_breakpoint_enabled m = 0 /\ mo_breakpoint_configured m = 0;
  qu_debug cpu : 0 <= cpu < dc_cpu_count (mo_debug m) ->
    exists s, spz_debug_get_cpu_state (mo_debug m) cpu = Some s /\ ds_state s = SPZ_DEBUG_EMPTY;
  qu_binding : exists snapshot, spz_binding_snapshot (mo_binding m) = Some snapshot /\
    sn_state snapshot = SPZ_BINDING_EMPTY;
  qu_maps : ma_state (mo_maps m) = SPZ_MAPS_UNSUPPORTED \/ ma_state (mo_maps m) = SPZ_MAPS_EMPTY;
}.

Lemma can_exit_quiet {hw} (m : spz_module_state hw) : spz_module_can_exit m = 0 -> quiet m.
Proof.
  unfold spz_module_can_exit. intros H.
  destruct (_ || _) eqn:E; [done|]. repeat (apply orb_false_iff in E as [E ?]).
  destruct (spz_binding_snapshot (mo_binding m)) as [s|] eqn:Es; [|done].
  destruct (bool_decide _ && _) eqn:Em; [done|]. case_bool_decide as Hs; [|done]. split.
  - unfold spz_async_busy. by apply orb_false_iff.
  - lia.
  - intros cpu Hcpu. eapply all_empty_loop_spec; [by apply negb_false_iff|lia].
  - by exists s.
  - cbn in Em. destruct (ma_state (mo_maps m)); [by left|by right|done..].
Qed.

(** A closed gate admits no handler. *)
Lemma closed_gate_hooks {hw} kmem (w : world hw) call :
  mo_active_handlers (wd_module w) = SPZ_GATE_CLOSED -> run_hook kmem w call = w.
Proof.
  intros Hc. assert (spz_handler_enter (wd_module w) = None) as He by (unfold spz_handler_enter; by rewrite Hc).
  destruct call; cbn [run_hook];
    unfold spz_module_finish_before, spz_module_finish_after, spz_module_exit_before, spz_module_exception_before, handler;
    rewrite He; by case_match.
Qed.

(** C8: an unload is admitted only where it found both gate counters at 0 - no handler
    and no command was counted inside -, no request in flight, no slot held, no task
    bound and no snapshot kept, and every hook that comes later does nothing, the
    command gate being taken. An earlier unload that was refused may have lost count
    of a handler, which [refused_unload_forgets_handler] shows. *)
Theorem unload_is_quiet {hw} kmem quiesce (m m' : spz_module_state hw) :
  spz_module_begin_exit quiesce m = (0, m') ->
  mo_active_handlers m = 0 /\ mo_control_busy m = 0 /\ quiet m' /\
  mo_control_busy m' <> 0 /\ mo_accepting_commands m' = 0 /\
  forall w call, wd_module w = m' -> run_hook kmem w call = w.
Proof.
  unfold spz_module_begin_exit. change (mo_control_busy (m <| mo_accepting_commands := 0 |>)) with (mo_control_busy m).
  destruct (mo_control_busy m =? 0) eqn:Ec; [|done]. cbn [negb]. set (m1 := m <| mo_accepting_commands := 0 |>).
  set (m2 := m1 <| mo_control_busy := SPZ_GATE_CLOSED |>).
  change (mo_active_handlers m2) with (mo_active_handlers m).
  destruct (mo_active_handlers m =? 0) eqn:Ea; [|done]. cbn [negb].
  set (m3 := m2 <| mo_active_handlers := SPZ_GATE_CLOSED |>).
  destruct (spz_module_can_exit m3 =? 0) eqn:Eq.
  - destruct (default 0 quiesce =? 0) eqn:Ed; [|intros [= H _]; lia]. intros [= _ <-].
    split_and!; [lia|lia|apply can_exit_quiet; lia|done|done|]. intros w call Hw. apply closed_gate_hooks. by rewrite Hw.
  - rewrite Eq. intros [= H _]. lia.
Qed.

Lemma begin_exit_admits {hw} quiesce (m : spz_module_state hw) :
  mo_control_busy m = 0 -> mo_active_handlers m = 0 -> spz_module_can_exit m = 0 -> default 0 quiesce = 0 ->
  exists m', spz_module_begin_exit quiesce m = (0, m').
Proof.
  intros E2 E1 Hexit Hq. unfold spz_module_begin_exit.
  change (mo_control_busy (m <| mo_accepting_commands := 0 |>)) with (mo_control_busy m). rewrite E2. cbn [negb Z.eqb].
  set (m5 := _ <| mo_control_busy := SPZ_GATE_CLOSED |>). change (mo_active_handlers m5) with (mo_active_handlers m).
  rewrite E1. cbn [negb Z.eqb]. set (m6 := _ <| mo_active_handlers := SPZ_GATE_CLOSED |>).
  assert (spz_module_can_exit m6 = spz_module_can_exit m) as ->
    by (unfold spz_module_can_exit, m6, m5; cbn -[spz_binding_snapshot spz_all_debug_empty Z.land]; by rewrite E1, E2).
  rewrite Hexit. cbn [Z.eqb]. rewrite Hq. cbn. by eexists.
Qed.

(** An unload attempted while a handler is inside is refused, but it resets
    the gate: the handler is no longer counted, so a second attempt is admitted
    while it still runs, and when it leaves the gate stays shut for every hook. *)
Theorem refused_unload_forgets_handler {hw} (m : spz_module_state hw) :
  0 < mo_active_handlers m < SPZ_GATE_COUNT_MASK -> mo_control_busy m = 0 -> mo_ready m <> 0 ->
  exists m', spz_module_begin_exit None m = (- EBUSY, m') /\ mo_active_handlers m' = 0 /\
    spz_handler_enter (spz_handler_leave m') = None /\
    (spz_module_can_exit m' = 0 -> exists m'', spz_module_begin_exit None m' = (0, m'')).
Proof.
  intros Ha Hc Hr. unfold spz_module_begin_exit at 1.
  change (mo_control_busy (m <| mo_accepting_commands := 0 |>)) with (mo_control_busy m). rewrite Hc. cbn [negb Z.eqb].
  set (m2 := _ <| mo_control_busy := SPZ_GATE_CLOSED |>). change (mo_active_handlers m2) with (mo_active_handlers m).
  rewrite eqb_ne by lia. cbn [negb]. exists (spz_module_abort_exit m2). split; [done|].
  assert (mo_active_handlers (spz_module_abort_exit m2) = 0 /\ mo_control_busy (spz_module_abort_exit m2) = 0) as [E1 E2]
    by (unfold spz_module_abort_exit; by case_match).
  split_and!; [done| |].
  - unfold spz_handler_leave, spz_handler_enter. set (m3 := _ <| mo_active_handlers := _ |>).
    change (mo_active_handlers m3) with (u32 (mo_active_handlers (spz_module_abort_exit m2) - 1)). by rewrite E1.
  - intros Hexit. by apply begin_exit_admits.
Qed.

(** ** Clearing a session *)

(** Everything but the debug controller is as it was. *)
Definition only_debug {hw} (m m' : spz_module_state hw) : Prop := m' = m <| mo_debug := mo_debug m' |>.

Lemma only_debug_fields {hw} (m m' : spz_module_state hw) :
  only_debug m m' ->
  mo_binding m' = mo_binding m /\ mo_maps m' = mo_maps m /\ mo_active_handlers m' = mo_active_handlers m /\
  mo_breakpoint_enabled m' = mo_breakpoint_enabled m /\ mo_control_busy m' = mo_control_busy m.
Proof. unfold only_debug. intros ->. done. Qed.

Lemma only_debug_trans {hw} (m1 m2 m3 : spz_module_state hw) : only_debug m1 m2 -> only_debug m2 m3 -> only_debug m1 m3.
Proof. unfold only_debug. intros H1 H2. rewrite H2, H1. by destruct m1. Qed.

Lemma restore_worker_only_debug {hw} (ws : world hw * Z) view :
  only_debug (wd_module ws.1) (wd_module (each_cpu_work spz_restore_cpu_callback ws view).1).
Proof.
  destruct ws as [[m h calls] st]. unfold each_cpu_work, spz_restore_cpu_callback.
  destruct (pv_current_cpu view) as [r0 cpu]. cbn [fst wd_module wd_hw wd_calls].
  destruct (r0 =? 0); [|by destruct m].
  destruct (spz_debug_restore_cpu _ _ _) as [[r1 h1] c1]. cbn. by destruct m.
Qed.

Lemma restore_round_only_debug {hw} (s : schedule) (w : world hw) :
  only_debug (wd_module w) (wd_module (each_cpu_round s spz_restore_cpu_callback w).2).
Proof.
  destruct s as [r views]. unfold each_cpu_round.
  assert (forall ws : world hw * Z, only_debug (wd_module ws.1)
    (wd_module (foldl (each_cpu_work spz_restore_cpu_callback) ws views).1)) as H.
  { induction views as [|view views IH]; intros ws; cbn [foldl]; [by destruct ws as [[[] ? ?] ?]|].
    eapply only_debug_trans; [apply restore_worker_only_debug|apply IH]. }
  specialize (H (w, 0)). by destruct (foldl _ _ _) as [w' st].
Qed.

Lemma clear_snapshot b :
  binding_wf b -> exists b', spz_binding_clear b = (0, b') /\
    exists sn, spz_binding_snapshot b' = Some sn /\ sn_state sn = SPZ_BINDING_EMPTY.
Proof.
  intros Hb. rewrite binding_clear_eq by done. eexists. split; [reflexivity|].
  rewrite snapshot_wf by (apply reset_wf; [done|done|apply not_captured_empty|done]). by eexists.
Qed.

Lemma maps_clear_state maps calls maps' calls' :
  spz_maps_clear maps calls = (0, maps', calls') ->
  ma_state maps' = SPZ_MAPS_UNSUPPORTED \/ ma_state maps' = SPZ_MAPS_EMPTY.
Proof.
  unfold spz_maps_clear, spz_maps_supported. case_bool_decide as Hs; cbn [negb].
  - destruct (spz_maps_write_begin maps) as [r maps1]. destruct (r =? 0) eqn:Er; cbn [negb]; intros H.
    + injection H as <- _. by right.
    + apply (f_equal (fun x => x.1.1)) in H. cbn in H. lia.
  - intros [= <- _]. left. destruct (ma_state maps); [done|by destruct Hs..].
Qed.

Lemma can_exit_intro {hw} (m : spz_module_state hw) sn :
  spz_async_busy (mo_async m) = false -> mo_active_handlers m = 0 -> mo_control_busy m = 0 ->
  mo_breakpoint_enabled m = 0 -> mo_breakpoint_configured m = 0 -> spz_all_debug_empty m = true ->
  spz_binding_snapshot (mo_binding m) = Some sn -> sn_state sn = SPZ_BINDING_EMPTY ->
  ma_state (mo_maps m) = SPZ_MAPS_UNSUPPORTED \/ ma_state (mo_maps m) = SPZ_MAPS_EMPTY ->
  spz_module_can_exit m = 0.
Proof.
  intros H1 H2 H3 H4 H5 H6 H7 H8 H9. unfold spz_module_can_exit. rewrite H1, H2, H3, H4, H5, H6, H7.
  cbn [orb negb Z.eqb Z.land spz_maps_info mi_state]. rewrite H8. by destruct H9 as [-> | ->].
Qed.

(** A session cleared: nothing that [spz_module_can_exit] looks at is left. *)
Record cleared {hw} (m : spz_module_state hw) : Prop := {
  cl_async : spz_async_busy (mo_async m) = false;
  cl_handlers : mo_active_handlers m = 0;
  cl_control : mo_control_busy m = 0;
  cl_enabled : mo_breakpoint_enabled m = 0;
  cl_configured : mo_breakpoint_configured m = 0;
  cl_debug : spz_all_debug_empty m = true;
  cl_binding : exists sn, spz_binding_snapshot (mo_binding m) = Some sn /\ sn_state sn = SPZ_BINDING_EMPTY;
  cl_maps : ma_state (mo_maps m) = SPZ_MAPS_UNSUPPORTED \/ ma_state (mo_maps m) = SPZ_MAPS_EMPTY;
}.

Lemma cleared_can_exit {hw} (m : spz_module_state hw) : cleared m -> spz_module_can_exit m = 0.
Proof. intros [H1 H2 H3 H4 H5 H6 (sn & H7 & H8) H9]. by eapply can_exit_intro. Qed.

(** A clear request that succeeds leaves nothing of the session: the slots of every
    CPU are given back, task, snapshot, breakpoint and events are gone. *)
Lemma clear_leaves_nothing {hw} kmem audit_owner profile_ops each1 each2 (w w' : world hw) target async :
  binding_wf (mo_binding (wd_module w)) ->
  spz_module_async_execute kmem audit_owner profile_ops each1 each2 w SPZ_ASYNC_CLEAR target = (0, w') ->
  spz_async_busy async = false -> mo_control_busy (wd_module w') = 0 ->
  mo_ring (wd_module w') = spz_ring_init /\ mo_breakpoint (wd_module w') = zero_debug_request /\
  cleared ((wd_module w') <| mo_async := async |>).
Proof.
  intros Hb H Hasync Hcontrol. unfold spz_module_async_execute in H.
  destruct (mo_ready (wd_module w) =? 0); [done|].
  change (SPZ_ASYNC_CLEAR =? SPZ_ASYNC_MAPS) with false in H. change (SPZ_ASYNC_CLEAR =? SPZ_ASYNC_ENABLE) with false in H.
  change ((SPZ_ASYNC_CLEAR =? SPZ_ASYNC_DISABLE) || (SPZ_ASYNC_CLEAR =? SPZ_ASYNC_CLEAR)) with true in H.
  change (SPZ_ASYNC_CLEAR =? SPZ_ASYNC_DISABLE) with false in H. cbn [andb] in H.
  set (w0 := w <| wd_module := _ |>) in H.
  pose proof (restore_round_only_debug each1 w0) as Hod.
  destruct (each_cpu_round each1 spz_restore_cpu_callback w0) as [r w1]. cbn [fst snd] in *.
  destruct (r =? 0) eqn:Er; [|injection H as -> _; done]. cbn [negb] in H.
  destruct (only_debug_fields _ _ Hod) as (Eb & Em & Ea & Ee & Ec). clear Hod.
  change (mo_binding (wd_module w0)) with (mo_binding (wd_module w)) in Eb.
  change (mo_breakpoint_enabled (wd_module w0)) with 0 in Ee. clear Em Ea Ec. clearbody w0.
  destruct (mo_active_handlers (wd_module w1) =? 0) eqn:Eact; [|done]. cbn [negb] in H.
  destruct (spz_all_debug_empty (wd_module w1)) eqn:Edbg; [|done]. cbn [negb] in H.
  destruct (spz_maps_clear _ _) as [[rm maps] calls] eqn:Emaps.
  destruct (rm =? 0) eqn:Erm; [|injection H as -> _; done]. cbn [negb] in H. apply Z.eqb_eq in Erm as ->.
  set (m2 := _ <| mo_maps := maps |>) in H. change (mo_binding m2) with (mo_binding (wd_module w1)) in H.
  rewrite Eb in H. destruct (clear_snapshot _ Hb) as (b' & Eclear & sn & Esn & Hsn).
  rewrite Eclear in H. cbn [negb Z.eqb] in H. injection H as <-. apply maps_clear_state in Emaps.
  split_and!; [done|done|]. split; [exact Hasync|by apply Z.eqb_eq|exact Hcontrol|exact Ee|done|exact Edbg|by exists sn|exact Emaps].
Qed.

(** *** Hooks that come later find nothing to do *)

Lemma restore_empty {hw} (m : spz_module_state hw) h cpu :
  spz_all_debug_empty m = true -> 0 <= cpu < dc_cpu_count (mo_debug m) ->
  spz_debug_restore_cpu (mo_debug m) h cpu = (0, h, mo_debug m).
Proof.
  intros He Hcpu. destruct (all_empty_loop_spec _ 0 _ He cpu) as (s & Hs & Hst); [lia|].
  unfold spz_debug_get_cpu_state in Hs. unfold spz_debug_restore_cpu. rewrite (proj2 (Z.leb_gt _ _)) in * by lia.
  injection Hs as Hs. unfold restore_cpu. rewrite Hs, Hst. f_equal. rewrite <- Hs.
  unfold set_state, get_state. destruct (mo_debug m) as [ops n l]. cbn. f_equal. apply list_insert_id'. intros Hl.
  by apply list_lookup_lookup_total_lt.
Qed.

Lemma cleared_publish {hw} (m : spz_module_state hw) view cpu status flags :
  cleared m -> cleared (spz_module_publish_integrity m view cpu status flags).
Proof. intros [H1 H2 H3 H4 H5 H6 H7 H8]. unfold spz_module_publish_integrity. case_match; by split. Qed.

(** But for the count of the handlers. *)
Definition cleared_inside {hw} (m : spz_module_state hw) : Prop := cleared (m <| mo_active_handlers := 0 |>).

Lemma inside_publish {hw} (m : spz_module_state hw) view cpu status flags :
  cleared_inside m -> cleared_inside (spz_module_publish_integrity m view cpu status flags).
Proof. intros H. unfold spz_module_publish_integrity. case_match; [done|]. by destruct H; split. Qed.

Definition call_view (call : hook_call) : platform_view :=
  match call with
  | hook_finish_before view | hook_finish_after view | hook_exit_before view | hook_exception _ view _ _ => view
  end.

(** The CPU is an unsigned number. *)
Definition call_ok (call : hook_call) : Prop := 0 <= (pv_current_cpu (call_view call)).2.

Lemma finish_before_inside {hw} view (w : world hw) :
  0 <= (pv_current_cpu view).2 -> cleared_inside (wd_module w) -> cleared_inside (wd_module (finish_before_body view w)).
Proof.
  intros Hv H. unfold finish_before_body, spz_module_current_cpu. destruct (pv_current_cpu view) as [r cpu]. cbn [snd] in Hv.
  destruct (negb (r =? 0)); [done|]. destruct (_ || _) eqn:Hg; [done|]. apply orb_false_iff in Hg as [_ Hg].
  rewrite restore_empty by (first [exact (cl_debug _ H)|lia]). cbn [negb Z.eqb wd_module].
  by destruct H; split.
Qed.

Lemma finish_after_inside {hw} kmem view (w : world hw) :
  cleared_inside (wd_module w) -> cleared_inside (wd_module (finish_after_body kmem view w)).
Proof.
  intros H. unfold finish_after_body. destruct (spz_module_current_cpu _ _) as [|cpu]; [done|].
  destruct (pv_current_task view) as [task|]; [|done]. unfold spz_binding_observe_current.
  destruct (mo_profile (wd_module w)) as [p|]; [|apply inside_publish; by destruct H; split].
  destruct (cl_binding _ H) as (sn & Hsn & Hst). cbn [mo_binding field_update] in Hsn.
  change (spz_binding_snapshot (mo_binding (wd_module w)) = Some sn) in Hsn. rewrite Hsn, Hst.
  cbn [Z.ltb Z.compare Z.eqb]. unfold spz_module_arm_live_current.
  match goal with |- context [mo_breakpoint_enabled ?m] =>
    replace (mo_breakpoint_enabled m) with 0 by (symmetry; exact (cl_enabled _ H)) end.
  cbn [orb Z.eqb negb andb wd_module]. by destruct H; split.
Qed.

Lemma exit_before_inside {hw} kmem view (w : world hw) :
  cleared_inside (wd_module w) -> cleared_inside (wd_module (exit_before_body kmem view w)).
Proof.
  intros H. unfold exit_before_body. destruct (pv_current_task view) as [task|]; [|done].
  destruct (cl_binding _ H) as (sn & Hsn & Hst).
  change (spz_binding_snapshot (mo_binding (wd_module w)) = Some sn) in Hsn.
  unfold spz_binding_mark_exit. destruct (mo_profile (wd_module w)); [rewrite Hsn, Hst|]; by destruct H; split.
Qed.

Lemma handler_cleared {hw} (w : world hw) body :
  (forall w, cleared_inside (wd_module w) -> cleared_inside (wd_module (body w))) ->
  (forall w, same_gates (wd_module w) (wd_module (body w))) ->
  cleared (wd_module w) -> cleared (wd_module (handler w body)).
Proof.
  intros Hb Hg H. pose proof (handler_gates w body Hg) as Hgates.
  unfold gate_open, SPZ_GATE_COUNT_MASK in Hgates. rewrite (cl_handlers _ H) in Hgates. specialize (Hgates ltac:(lia)).
  assert (mo_active_handlers (wd_module (handler w body)) = 0) as Ha
    by (destruct Hgates as [-> _]; apply H). clear Hgates.
  assert (cleared_inside (wd_module (handler w body))) as Hin.
  { unfold handler in *. destruct (mo_ready (wd_module w) =? 0); [by destruct H; split|].
    destruct (spz_handler_enter (wd_module w)) as [m|] eqn:He; [|by destruct H; split].
    specialize (Hb (w <| wd_module := m |>)). unfold spz_handler_enter in He. case_match; [done|]. injection He as <-.
    specialize (Hb ltac:(by destruct H; split)). by destruct Hb; split. }
  destruct Hin as [H1 _ H3 H4 H5 H6 H7 H8]. by split.
Qed.

(** A cleared session stays cleared, whatever hooks are called. *)
Lemma hooks_keep_cleared {hw} kmem (w : world hw) call :
  call_ok call -> cleared (wd_module w) -> cleared (wd_module (run_hook kmem w call)).
Proof.
  intros Hok H. destruct call as [view|view|view|kind view regs fargs]; cbn [run_hook].
  - apply handler_cleared; [intros; by apply finish_before_inside|apply finish_before_gates|done].
  - apply handler_cleared; [apply finish_after_inside|apply finish_after_gates|done].
  - apply handler_cleared; [apply exit_before_inside|apply exit_before_gates|done].
  - unfold spz_module_exception_before. by rewrite (cl_enabled _ H), orb_true_r.
Qed.

(** ** Concrete modules *)

Definition demo_debug_ops : spz_debug_ops unit :=
  {| op_brp_count := 1; op_wrp_count := 1;
     op_read_value := fun _ _ _ _ => (0, 0); op_write_value := fun h _ _ _ _ => (0, h);
     op_read_control := fun _ _ _ _ => (0, 0); op_write_control := fun h _ _ _ _ => (0, h);
     op_read_mdscr := fun _ _ => (0, 0); op_write_mdscr := fun h _ _ => (0, h);
     op_read_owner := fun _ _ _ _ => (0, 0); op_barrier := fun h _ => h |}.

Definition demo_module (handlers : Z) : spz_module_state unit :=
  {| mo_profile := Some profile_oneplus_plk110_a16_b4999618_d05;
     mo_runtime := {| pr_profile := Some profile_oneplus_plk110_a16_b4999618_d05; pr_symbols := []; pr_dfr0 := 0;
                      pr_initial_cpu_count := 1; pr_state := SPZ_PROFILE_READY; pr_reason := SPZ_PROFILE_REASON_NONE;
                      pr_hooks_allowed := 1 |};
     mo_binding := spz_binding_init;
     mo_debug := {| dc_ops := demo_debug_ops; dc_cpu_count := 1; dc_cpu := replicate 8 zero_debug_cpu_state |};
     mo_ring := spz_ring_init; mo_maps := spz_maps_init None; mo_breakpoint := zero_debug_request;
     mo_async := spz_async_init; mo_breakpoint_configured := 1; mo_breakpoint_enabled := 1;
     mo_accepting_commands := 1; mo_ready := 1; mo_active_handlers := handlers; mo_binding_counter := 0;
     mo_control_busy := 0; mo_audit_events := 0; mo_control_scratch := replicate 4096 0 |}.

Definition demo_idle (handlers : Z) : spz_module_state unit :=
  (demo_module handlers) <| mo_breakpoint_configured := 0 |> <| mo_breakpoint_enabled := 0 |>.

Definition demo_world (m : spz_module_state unit) : world unit := {| wd_module := m; wd_hw := tt; wd_calls := [] |}.
Definition demo_kmem : Z -> nat -> list Z := fun _ n => replicate n 0.
Definition demo_platform : platform_view := {| pv_current_cpu := (0, 0); pv_current_task := None; pv_timestamp := 5 |}.

Lemma hooks_balance_gate_witness :
  same_gates (demo_module 3) (wd_module (run_hook demo_kmem (demo_world (demo_module 3)) (hook_finish_before demo_platform))).
Proof.
  apply (hooks_balance_gate demo_kmem (demo_world (demo_module 3)) (hook_finish_before demo_platform)).
  split; vm_compute; [discriminate|reflexivity].
Defined.

Lemma unload_is_quiet_witness :
  mo_active_handlers (demo_idle 0) = 0 /\ mo_control_busy (demo_idle 0) = 0 /\
  quiet (spz_module_begin_exit None (demo_idle 0)).2 /\
  mo_control_busy (spz_module_begin_exit None (demo_idle 0)).2 <> 0 /\
  mo_accepting_commands (spz_module_begin_exit None (demo_idle 0)).2 = 0 /\
  forall w call, wd_module w = (spz_module_begin_exit None (demo_idle 0)).2 -> run_hook demo_kmem w call = w.
Proof. apply (unload_is_quiet demo_kmem None (demo_idle 0) (spz_module_begin_exit None (demo_idle 0)).2). vm_compute. reflexivity. Defined.

(** One handler inside: the first attempt is refused, the second admitted. *)
Lemma refused_unload_forgets_handler_witness :
  (spz_module_begin_exit None (demo_idle 1)).1 = - EBUSY /\
  exists m'', spz_module_begin_exit None (spz_module_begin_exit None (demo_idle 1)).2 = (0, m'').
Proof.
  destruct (refused_unload_forgets_handler (demo_idle 1)) as (m' & E & _ & _ & Hsecond);
    [by vm_compute|reflexivity|discriminate|].
  rewrite E. split; [reflexivity|]. apply Hsecond.
  apply (f_equal snd) in E. cbn [snd] in E. rewrite <- E. vm_compute. reflexivity.
Defined.

Definition demo_cleared : world unit :=
  (spz_module_async_execute demo_kmem None None (0, [demo_platform]) (0, []) (demo_world (demo_module 0)) SPZ_ASYNC_CLEAR 0).2.

Lemma demo_cleared_ok : cleared ((wd_module demo_cleared) <| mo_async := spz_async_init |>).
Proof.
  apply (clear_leaves_nothing demo_kmem None None (0, [demo_platform]) (0, []) (demo_world (demo_module 0)) demo_cleared 0
    spz_async_init); [apply binding_init_wf|vm_compute; reflexivity|reflexivity|reflexivity].
Qed.
