(* ===== verification/GateThreads.v ===== *)
(** * The gates of the module, one memory access at a time (kpm/platform/kpatch)

    Runtime.v and Control.v run each operation in one step. In the kernel the hooks
    run on every CPU, control calls arrive from any process, a worker may clear the
    session and the loader may unload the module, all at once. Two words keep them
    apart: [active_handlers] counts the handlers inside, [control_busy] is 1 while a
    command runs, and an unload closes both. Here every access to the two words is a
    step; what the handlers, the commands and the other components do between is the
    window between two events of the thread. *)

From stdpp Require Import gmap.
From S2P Require Import Prelude Interleave Runtime.

(** ** Programs *)

(** The members of [struct spz_module_state] the gates use. *)
Inductive gate_cell :=
  G_ready | G_accepting_commands | G_active_handlers | G_control_busy | G_breakpoint_enabled | G_breakpoint_configured.

#[export] Instance gate_cell_eq : EqDecision gate_cell.
Proof. solve_decision. Defined.

(** A handler or a command begins and ends its work; an unload found a handler
    inside; a clear resets the event ring. *)
Inductive gate_event := Enter_handler | Leave_handler | Enter_command | Leave_command | Handler_seen | Reset_ring.

Abbreviation gprog := (prog gate_cell gate_event).

Definition enter_exchange (observed : Z) : Z + Z :=
  if negb (Z.land observed SPZ_GATE_CLOSED =? 0) || (Z.land observed SPZ_GATE_COUNT_MASK =? SPZ_GATE_COUNT_MASK)
  then inl 0 else inr (u32 (observed + 1)).

Definition atomic_handler_enter : gprog Z :=
  observed ← load G_active_handlers;
  Cas_loop G_active_handlers observed enter_exchange (fun r =>
    match r with inl refused => mret refused | inr _ => mret 1 end).

Definition atomic_handler_leave : gprog unit :=
  Rmw G_active_handlers (fun x => Some (u32 (x - 1))) (fun _ => mret tt).

(** The frame that [spz_module_finish_before], [spz_module_finish_after],
    [spz_module_exit_before] and the exception hook share: 1 when the handler ran. *)
Definition atomic_hook : gprog Z :=
  ready ← load G_ready;
  if ready =? 0 then mret 0
  else
    entered ← atomic_handler_enter;
    if entered =? 0 then mret 0
    else
      emit Enter_handler ;;
      emit Leave_handler ;;
      atomic_handler_leave ;;
      mret 1.

(** [status] is what the command comes to. *)
Definition atomic_control_execute (status : Z) : gprog Z :=
  Rmw G_control_busy (fun x => if x =? 0 then Some 1 else None) (fun expected =>
    if negb (expected =? 0) then mret (- EBUSY)
    else
      emit Enter_command ;;
      emit Leave_command ;;
      store G_control_busy 0 ;;
      mret status).

(** What the other components answer an unload: whether a request is pending or
    running, whether every debug slot is empty, the result of the checks of the
    binding and the snapshots, and that of [backend.quiesce] when there is one. *)
Record exit_answers := {
  ea_async_busy : bool;
  ea_debug_empty : bool;
  ea_rest : Z;
  ea_quiesce : option Z;
}.

Definition atomic_can_exit (a : exit_answers) : gprog Z :=
  active_handlers ← load G_active_handlers;
  control_busy ← load G_control_busy;
  if ea_async_busy a || negb (Z.land active_handlers SPZ_GATE_COUNT_MASK =? 0)
     || negb (Z.land control_busy SPZ_GATE_COUNT_MASK =? 0) then mret (- EBUSY)
  else
    enabled ← load G_breakpoint_enabled;
    if negb (enabled =? 0) then mret (- EBUSY)
    else
      configured ← load G_breakpoint_configured;
      if negb (configured =? 0) || negb (ea_debug_empty a) then mret (- EBUSY) else mret (ea_rest a).

Definition atomic_abort_exit : gprog unit :=
  store G_active_handlers 0 ;;
  store G_control_busy 0 ;;
  ready ← load G_ready;
  if negb (ready =? 0) then store G_accepting_commands 1 else mret tt.

Definition atomic_begin_exit (a : exit_answers) : gprog Z :=
  store G_accepting_commands 0 ;;
  Rmw G_control_busy (fun x => if x =? 0 then Some SPZ_GATE_CLOSED else None) (fun expected =>
    if negb (expected =? 0) then
      store G_accepting_commands 1 ;;
      mret (- EBUSY)
    else
      Rmw G_active_handlers (fun x => if x =? 0 then Some SPZ_GATE_CLOSED else None) (fun expected =>
        if negb (expected =? 0) then
          emit Handler_seen ;;
          atomic_abort_exit ;;
          mret (- EBUSY)
        else
          result ← atomic_can_exit a;
          let result := if result =? 0 then default result (ea_quiesce a) else result in
          if negb (result =? 0) then
            atomic_abort_exit ;;
            mret result
          else mret result)).

(** The wait for the handlers to leave. *)
Fixpoint atomic_wait_handlers (attempts : nat) : gprog unit :=
  match attempts with
  | O => mret tt
  | S attempts =>
      active ← load G_active_handlers;
      if active =? 0 then mret tt else atomic_wait_handlers attempts
  end.

(** What the other components answer a clear: the restore of every CPU, whether every
    debug slot is empty, the clearing of the snapshots and of the binding. *)
Record clear_answers := {
  ca_restore : Z;
  ca_debug_empty : bool;
  ca_maps : Z;
  ca_binding : Z;
}.

Definition atomic_clear (a : clear_answers) : gprog Z :=
  store G_breakpoint_enabled 0 ;;
  if negb (ca_restore a =? 0) then mret (ca_restore a)
  else
    atomic_wait_handlers (Z.to_nat 100000) ;;
    active ← load G_active_handlers;
    if negb (active =? 0) then mret (- EBUSY)
    else if negb (ca_debug_empty a) then mret (- EUCLEAN)
    else if negb (ca_maps a =? 0) then mret (ca_maps a)
    else if negb (ca_binding a =? 0) then mret (ca_binding a)
    else
      store G_breakpoint_configured 0 ;;
      emit Reset_ring ;;
      mret 0.

(** ** Calls *)

Inductive gate_call :=
| Hook
| Command (status : Z)
| Clear (a : clear_answers)
| Unload (a : exit_answers).

Definition gate_program (c : gate_call) : gprog Z :=
  match c with
  | Hook => atomic_hook
  | Command status => atomic_control_execute status
  | Clear a => atomic_clear a
  | Unload a => atomic_begin_exit a
  end.

(** Of the [k] threads, thread 0 is the loader's, which unloads the module; the
    others are hooks, control calls and workers. *)
Definition gate_may (k i : nat) (c : gate_call) : Prop :=
  (i < k)%nat /\ match c with Unload _ => i = 0%nat | _ => i <> 0%nat end.

Abbreviation gnote := (note gate_event gate_call Z).
Abbreviation gpool := (pool gate_cell gate_event gate_call Z).
Abbreviation gate_step k := (pool_step gate_program (gate_may k)).

(** ** What the notes promise *)

(** The handlers and the commands at work, and for each thread the handlers that
    were at work when it made its newest call and have not ended since. *)
Record gate_ledger := {
  gl_handlers : gset nat;
  gl_commands : gset nat;
  gl_awaited : nat -> gset nat;
}.

Definition ledger_note (l : gate_ledger) (n : gnote) : gate_ledger :=
  match n with
  | Called i _ =>
      {| gl_handlers := gl_handlers l; gl_commands := gl_commands l;
         gl_awaited := fun j => if decide (j = i) then gl_handlers l else gl_awaited l j |}
  | Emitted i Enter_handler =>
      {| gl_handlers := {[i]} ∪ gl_handlers l; gl_commands := gl_commands l; gl_awaited := gl_awaited l |}
  | Emitted i Leave_handler =>
      {| gl_handlers := gl_handlers l ∖ {[i]}; gl_commands := gl_commands l;
         gl_awaited := fun j => gl_awaited l j ∖ {[i]} |}
  | Emitted i Enter_command =>
      {| gl_handlers := gl_handlers l; gl_commands := {[i]} ∪ gl_commands l; gl_awaited := gl_awaited l |}
  | Emitted i Leave_command =>
      {| gl_handlers := gl_handlers l; gl_commands := gl_commands l ∖ {[i]}; gl_awaited := gl_awaited l |}
  | _ => l
  end.

Definition ledger (h : list gnote) : gate_ledger :=
  foldl ledger_note {| gl_handlers := ∅; gl_commands := ∅; gl_awaited := fun _ => ∅ |} h.

Definition unload_of (n : gnote) : list nat :=
  match n with Returned i (Unload _) o => if o =? 0 then [i] else [] | _ => [] end.
Definition seen_of (n : gnote) : list nat := match n with Emitted i Handler_seen => [i] | _ => [] end.

(** An unload has succeeded. *)
Definition unloaded (h : list gnote) : Prop := (h ≫= unload_of) <> [].
(** An unload has found a handler inside. *)
Definition handler_seen (h : list gnote) : Prop := (h ≫= seen_of) <> [].

#[export] Instance unloaded_dec h : Decision (unloaded h).
Proof. unfold unloaded. apply _. Defined.

(** What each note says, given those before it. *)
Definition gate_note_sound (h : list gnote) (n : gnote) : Prop :=
  match n with
  (* a command begins when no other runs, and none begins after an unload *)
  | Emitted _ Enter_command => gl_commands (ledger h) = ∅ /\ ~ unloaded h
  (* no handler begins after an unload *)
  | Emitted _ Enter_handler => ~ handler_seen h -> ~ unloaded h
  (* the handlers at work when the clear was called have ended *)
  | Emitted i Reset_ring => ~ handler_seen h -> gl_awaited (ledger h) i = ∅
  (* an unload that succeeds finds neither a command nor a handler at work *)
  | Returned _ (Unload _) 0 => gl_commands (ledger h) = ∅ /\ (~ handler_seen h -> gl_handlers (ledger h) = ∅)
  | _ => True
  end.

Inductive gate_notes_sound : list gnote -> Prop :=
| gate_sound_nil : gate_notes_sound []
| gate_sound_snoc h n : gate_notes_sound h -> gate_note_sound h n -> gate_notes_sound (h ++ [n]).
