(* ===== verification/GateThreadsSpec.v ===== *)
(** * The gates under every interleaving

    The proof that the programs of GateThreads.v keep what its notes promise: who
    holds which gate, one lemma per step of a program, and the theorem for pools of
    any number of threads. Two schedules at the end show what is not promised. *)

From stdpp Require Import gmap relations.
From S2P Require Import Prelude Interleave Runtime GateThreads.

(** ** The ledger *)

Lemma ledger_snoc h n : ledger (h ++ [n]) = ledger_note (ledger h) n.
Proof. unfold ledger. by rewrite foldl_app. Qed.

Lemma awaited_at_work h i : gl_awaited (ledger h) i ⊆ gl_handlers (ledger h).
Proof.
  induction h as [|n h IH] using rev_ind; [done|]. rewrite ledger_snoc.
  destruct n as [j c|j []|j c o]; cbn; try case_decide; set_solver.
Qed.

Lemma unloaded_snoc h n : unloaded (h ++ [n]) <-> unloaded h \/ unload_of n <> [].
Proof.
  unfold unloaded. rewrite bind_app, app_nil. cbn. rewrite app_nil_r.
  destruct (h ≫= unload_of), (unload_of n); naive_solver.
Qed.

Lemma handler_seen_snoc h n : handler_seen (h ++ [n]) <-> handler_seen h \/ seen_of n <> [].
Proof.
  unfold handler_seen. rewrite bind_app, app_nil. cbn. rewrite app_nil_r.
  destruct (h ≫= seen_of), (seen_of n); naive_solver.
Qed.

(** ** Who holds the gates *)

(** [gw_hold] are the threads counted in [active_handlers] and [gw_work] the handlers
    at work among them; [gw_command] is the holder of [control_busy], 0 the unload,
    and whether its command is at work; [gw_closed] says that the unload has closed
    the handlers' gate, [gw_unloaded] that it succeeded, [gw_seen] that one found a
    handler inside; the threads in [gw_clean] wait for no handler. *)
Record gate_world := {
  gw_hold : gset nat;
  gw_work : gset nat;
  gw_command : option (nat * bool);
  gw_closed : bool;
  gw_unloaded : bool;
  gw_seen : bool;
  gw_clean : gset nat;
}.

#[export] Instance gate_world_shape : Shape gate_world :=
  shape! Build_gate_world < gw_hold ; gw_work ; gw_command ; gw_closed ; gw_unloaded ; gw_seen ; gw_clean >.

Definition busy_word (command : option (nat * bool)) : Z :=
  match command with None => 0 | Some (O, _) => SPZ_GATE_CLOSED | Some (S _, _) => 1 end.

Definition commands_at_work (command : option (nat * bool)) : gset nat :=
  match command with Some (i, true) => {[i]} | _ => ∅ end.

(** The count of the handlers, while no unload has found one inside. *)
Definition active_ok (w : gate_world) (x : Z) : Prop :=
  gw_seen w = false ->
  Z.of_nat (size (gw_hold w)) <= SPZ_GATE_COUNT_MASK /\
  if gw_closed w then x = SPZ_GATE_CLOSED /\ gw_hold w = ∅ else x = Z.of_nat (size (gw_hold w)).

Section steps.
Context (limit k : nat).

Record gate_inv (n : nat) (w : gate_world) (m : heap gate_cell) (h : list gnote) : Prop := {
  gi_notes : gate_notes_sound h;
  gi_active : active_ok w (m G_active_handlers);
  gi_busy : m G_control_busy = busy_word (gw_command w);
  gi_hold : (forall i, i ∈ gw_hold w -> (i < k)%nat) /\ (forall i b, gw_command w = Some (i, b) -> i = 0%nat \/ (i < k)%nat);
  gi_work : gl_handlers (ledger h) = gw_work w /\ gw_work w ⊆ gw_hold w;
  gi_commands : gl_commands (ledger h) = commands_at_work (gw_command w) /\ gw_command w <> Some (0%nat, true);
  gi_seen : handler_seen h <-> gw_seen w = true;
  gi_unloaded : (unloaded h <-> gw_unloaded w = true) /\
    (gw_unloaded w = true -> gw_closed w = true /\ gw_command w = Some (0%nat, false));
  gi_clean : forall i, i ∈ gw_clean w -> gw_seen w = true \/ gl_awaited (ledger h) i = ∅;
}.

(** What the other threads leave alone. *)
Definition gate_rely (i : nat) (w w' : gate_world) : Prop :=
  (i ∈ gw_hold w <-> i ∈ gw_hold w') /\ (i ∈ gw_work w <-> i ∈ gw_work w') /\
  (forall b, gw_command w = Some (i, b) <-> gw_command w' = Some (i, b)) /\
  (i ∈ gw_clean w -> i ∈ gw_clean w') /\
  (i = 0%nat -> gw_closed w' = gw_closed w /\ gw_unloaded w' = gw_unloaded w /\ gw_seen w' = gw_seen w).

#[export] Instance gate_rely_preorder i : PreOrder (gate_rely i).
Proof.
  split; [by intros w|]. intros u v w (H1 & H2 & H3 & H4 & H5) (K1 & K2 & K3 & K4 & K5). split_and!.
  - by rewrite H1.
  - by rewrite H2.
  - intros b. by rewrite H3.
  - auto.
  - intros Hi. destruct (H5 Hi) as (? & ? & ?), (K5 Hi) as (? & ? & ?). split_and!; congruence.
Qed.

(** A thread between calls holds nothing; the loader's holds both gates once an
    unload has succeeded. *)
Definition gate_idle (i : nat) (w : gate_world) : Prop :=
  ~ (i ∈ gw_hold w) /\ ~ (i ∈ gw_work w) /\
  match i with
  | O => gw_closed w = gw_unloaded w /\ (gw_command w = Some (0%nat, false) <-> gw_unloaded w = true)
  | _ => forall b, gw_command w <> Some (i, b)
  end.

Lemma gate_idle_stable i w w' : gate_idle i w -> gate_rely i w w' -> gate_idle i w'.
Proof.
  intros (H1 & H2 & H3) (R1 & R2 & R3 & _ & R5). split_and!; [by rewrite <- R1|by rewrite <- R2|].
  destruct i as [|i].
  - destruct (R5 eq_refl) as (-> & -> & _). by rewrite <- R3.
  - intros b. rewrite <- R3. apply H3.
Qed.

Abbreviation takes := (takes limit gate_inv gate_rely).
Abbreviation wp := (wp limit gate_inv gate_rely).
Abbreviation finishes := (finishes limit gate_inv gate_rely gate_idle).

(** The memory matters only at the two words, the number of steps not at all. *)
Lemma gate_inv_heap n n' w m m' h :
  gate_inv n w m h -> m' G_active_handlers = m G_active_handlers -> m' G_control_busy = m G_control_busy ->
  gate_inv n' w m' h.
Proof. intros [] Ha Hb. by split; rewrite ?Ha, ?Hb. Qed.

(** A note that changes none of the books. *)
Definition silent (n : gnote) : Prop :=
  match n with Emitted _ Reset_ring => True | Returned _ (Unload _) o => o <> 0 | Returned _ _ _ => True | _ => False end.

Lemma gate_inv_note n n' w m h x :
  gate_inv n w m h -> silent x -> gate_note_sound h x -> gate_inv n' w m (h ++ [x]).
Proof.
  intros [? ? ? ? ? ? Hseen [Hun Hun'] ?] Hx Hs.
  assert (ledger_note (ledger h) x = ledger h) as El by (destruct x as [|? []|]; done).
  assert (seen_of x = []) as Es by (destruct x as [|? []|]; done).
  assert (unload_of x = []) as Eu.
  { destruct x as [| |j [] o]; try done. cbn in Hx |- *. by rewrite eqb_ne. }
  split; rewrite ?ledger_snoc, ?El; try done; [by constructor| |].
  - rewrite handler_seen_snoc, Es, Hseen. naive_solver.
  - split; [|done]. rewrite unloaded_snoc, Eu, Hun. naive_solver.
Qed.

(** ** Steps that leave the gates alone *)

Lemma takes_aside i w m' K :
  (forall m, m' m G_active_handlers = m G_active_handlers /\ m' m G_control_busy = m G_control_busy) ->
  (forall n w1 m h, gate_rely i w w1 -> gate_inv n w1 m h -> K m w1) -> takes i w m' [] K.
Proof.
  intros Hm HK n w1 m h Hr Hn HI. exists w1. rewrite app_nil_r. split_and!.
  - intros j _. reflexivity.
  - apply (gate_inv_heap n _ _ m); [done|apply Hm..].
  - by eapply HK.
Qed.

Lemma finishes_silent i c o w : gate_idle i w -> silent (Returned i c o) -> finishes i c o w.
Proof.
  intros Hid Hs n w1 m h Hr Hn HI. exists w1. split_and!; [intros j _; reflexivity| |by eapply gate_idle_stable].
  apply (gate_inv_note n); try done. cbn in Hs |- *. by destruct c, o.
Qed.

(** A load whose value does not matter, a store to a cell that is no gate. *)
Lemma wp_load_aside {A} i w c (p : Z -> gprog A) Φ :
  (forall x w', gate_rely i w w' -> wp i (p x) w' Φ) -> wp i (load c ≫= p) w Φ.
Proof. intros Hp. apply takes_aside; [done|]. intros n w1 m h Hr _. by apply Hp. Qed.

Lemma wp_store_aside {A} i w c v (p : gprog A) Φ :
  c <> G_active_handlers -> c <> G_control_busy ->
  (forall w', gate_rely i w w' -> wp i p w' Φ) -> wp i (store c v ;; p) w Φ.
Proof.
  intros Ha Hb Hp. apply takes_aside; [intros m; by rewrite !put_other by congruence|]. intros n w1 m h Hr _. by apply Hp.
Qed.

(** A step of thread [i] on the world it knows. *)
Lemma takes_gate_step i w m' h' K (f : gate_world -> gate_world) :
  (forall w1, gate_rely i w w1 -> guarantee gate_rely i w1 (f w1)) ->
  (forall n w1 m h, gate_rely i w w1 -> gate_inv n w1 m h -> gate_inv (S n) (f w1) (m' m) (h ++ h')) ->
  (forall n w1 m h, gate_rely i w w1 -> gate_inv n w1 m h -> K m (f w1)) ->
  takes i w m' h' K.
Proof. intros Hg HI HK n w1 m h Hr Hn Hi. exists (f w1). split_and!; [by apply Hg|by apply (HI n)|by eapply HK]. Qed.

(** ** Handlers *)

(** Another thread's share of the sets and of the command is as before. *)
Ltac bears := intros ? ? j Hj; split_and!; cbn; [set_solver..|naive_solver|set_solver|naive_solver].

Lemma enter_exchange_open x v :
  enter_exchange x = inr v -> Z.land x SPZ_GATE_CLOSED = 0 /\ Z.land x SPZ_GATE_COUNT_MASK <> SPZ_GATE_COUNT_MASK /\ v = u32 (x + 1).
Proof. unfold enter_exchange. intros H. case_match eqn:E; simplify_eq. lia. Qed.

(** The exchange counts the handler. *)
Lemma active_enter w x v i :
  active_ok w x -> enter_exchange x = inr v -> ~ (i ∈ gw_hold w) ->
  active_ok (w <| gw_hold := {[i]} ∪ gw_hold w |>) v.
Proof.
  intros Ha (Hc & Hm & ->)%enter_exchange_open Hi Hs. destruct (Ha Hs) as [Hle Hx]. cbn in *.
  destruct (gw_closed w); [destruct Hx as [-> _]; by vm_compute in Hc|]. subst x.
  rewrite size_union, size_singleton by set_solver.
  assert (Z.of_nat (size (gw_hold w)) <> SPZ_GATE_COUNT_MASK) by (intros E; rewrite E in Hm; by vm_compute in Hm).
  unfold u32, SPZ_GATE_COUNT_MASK in *. rewrite Z.mod_small by lia. lia.
Qed.

Lemma active_leave w x i :
  active_ok w x -> i ∈ gw_hold w -> active_ok (w <| gw_hold := gw_hold w ∖ {[i]} |>) (u32 (x - 1)).
Proof.
  intros Ha Hi Hs. destruct (Ha Hs) as [Hle Hx]. cbn in *.
  destruct (gw_closed w); [destruct Hx; set_solver|]. subst x.
  assert (size (gw_hold w) = S (size (gw_hold w ∖ {[i]}))) as E.
  { rewrite (union_difference_L {[i]} (gw_hold w)) at 1 by set_solver.
    rewrite size_union, size_singleton by set_solver. lia. }
  rewrite E in *. unfold u32, SPZ_GATE_COUNT_MASK in *. rewrite Z.mod_small by lia. lia.
Qed.

(** The thread is counted; [b] when its handler is at work. *)
Definition holds (i : nat) (b : bool) (w : gate_world) : Prop :=
  i ∈ gw_hold w /\ (i ∈ gw_work w <-> b = true) /\ forall c, gw_command w <> Some (i, c).

Lemma holds_stable i b w w' : holds i b w -> gate_rely i w w' -> holds i b w'.
Proof.
  intros (H1 & H2 & H3) (R1 & R2 & R3 & _). split_and!; [by rewrite <- R1|by rewrite <- R2|].
  intros c. rewrite <- R3. apply H3.
Qed.

Lemma wp_handler_enter i w Φ :
  i <> 0%nat -> (i < k)%nat -> gate_idle i w ->
  (forall w', gate_idle i w' -> Φ 0 w') -> (forall w', holds i false w' -> Φ 1 w') ->
  wp i atomic_handler_enter w Φ.
Proof.
  intros Hi Hk Hid H0 H1. apply takes_aside; [done|]. intros n w1 m h Hr _. apply (gate_idle_stable i w) in Hr as Hid1; [|done].
  exists (fun _ => gate_idle i). split; [done|]. intros x w2 Hid2. destruct (enter_exchange x) as [r|v] eqn:Ex.
  - apply takes_aside; [done|]. intros ? w3 ? ? Hr3 _. cbn.
    assert (r = 0) as -> by (unfold enter_exchange in Ex; case_match; congruence). apply H0. by eapply gate_idle_stable.
  - intros n3 w3 m3 h3 Hr3 Hn HI. apply (gate_idle_stable i w2) in Hr3 as Hid3; [|done]. rewrite app_nil_r.
    unfold rmw. destruct (Z.eqb_spec (m3 G_active_handlers) x) as [<-|Hx].
    + exists (w3 <| gw_hold := {[i]} ∪ gw_hold w3 |>). destruct Hid3 as (Hh & Hw & Hc). split_and!.
      * intros j Hj. split_and!; cbn; [set_solver|done..].
      * destruct HI as [? Ha Hb Hd [Hwk Hwh] ? ? ? ?]. split; cbn; try done.
        -- rewrite put_same. by apply (active_enter w3 (m3 G_active_handlers)).
        -- set_solver.
        -- split; [done|set_solver].
      * apply H1. split_and!; cbn; [set_solver|set_solver|by destruct i].
    + exists w3. split_and!; [intros j _; reflexivity|by eapply gate_inv_heap|done].
Qed.

Lemma takes_begin_handler i w K :
  holds i false w -> (forall m w', holds i true w' -> K m w') -> takes i w (fun m => m) [Emitted i Enter_handler] K.
Proof.
  intros Hh HK. apply (takes_gate_step i w _ _ K (fun w1 => w1 <| gw_work := {[i]} ∪ gw_work w1 |>)).
  - bears.
  - intros n w1 m h Hr HI. apply (holds_stable i false) in Hr as (H1 & H2 & H3); [|done].
    destruct HI as [? Ha Hb Hd [Hwk Hwh] ? Hs [Hu Hu'] Hcl]. split; rewrite ?ledger_snoc; cbn; try done.
    + constructor; [done|]. cbn. intros Hns Hun. assert (gw_seen w1 = false) as Es by (apply not_true_is_false; by rewrite <- Hs).
      destruct (Hu' (proj1 Hu Hun)) as [Ec _]. destruct (Ha Es) as [_ Hx]. rewrite Ec in Hx. set_solver.
    + set_solver.
    + rewrite handler_seen_snoc. cbn. naive_solver.
    + rewrite unloaded_snoc. cbn. naive_solver.
  - intros n w1 m h Hr _. apply (holds_stable i false) in Hr as (H1 & H2 & H3); [|done]. apply HK.
    split_and!; cbn; [done|set_solver|done].
Qed.

Lemma takes_end_handler i w K :
  holds i true w -> (forall m w', holds i false w' -> K m w') -> takes i w (fun m => m) [Emitted i Leave_handler] K.
Proof.
  intros Hh HK. apply (takes_gate_step i w _ _ K (fun w1 => w1 <| gw_work := gw_work w1 ∖ {[i]} |>)).
  - bears.
  - intros n w1 m h Hr HI. destruct HI as [? Ha Hb Hd [Hwk Hwh] ? Hs [Hu Hu'] Hcl]. split; rewrite ?ledger_snoc; cbn; try done.
    + by constructor.
    + set_solver.
    + rewrite handler_seen_snoc. cbn. naive_solver.
    + rewrite unloaded_snoc. cbn. naive_solver.
    + intros j Hj. destruct (Hcl j Hj); [by left|right; set_solver].
  - intros n w1 m h Hr _. apply (holds_stable i true) in Hr as (H1 & H2 & H3); [|done]. apply HK.
    split_and!; cbn; [done|set_solver|done].
Qed.

Lemma wp_handler_leave i w Φ :
  i <> 0%nat -> holds i false w -> (forall w', gate_idle i w' -> Φ tt w') -> wp i atomic_handler_leave w Φ.
Proof.
  intros Hi Hh HΦ. apply (takes_gate_step i w _ _ _ (fun w1 => w1 <| gw_hold := gw_hold w1 ∖ {[i]} |>)).
  - bears.
  - intros n w1 m h Hr HI. apply (holds_stable i false) in Hr as (H1 & H2 & H3); [|done].
    destruct HI as [? Ha Hb Hd [Hwk Hwh] ? ? ? ?]. rewrite app_nil_r. split; cbn; try done.
    + rewrite put_same. by apply active_leave.
    + set_solver.
    + split; [done|]. set_solver.
  - intros n w1 m h Hr _. apply (holds_stable i false) in Hr as (H1 & H2 & H3); [|done]. apply HΦ.
    split_and!; cbn; [set_solver|set_solver|by destruct i].
Qed.

Lemma wp_hook i w : i <> 0%nat -> (i < k)%nat -> gate_idle i w -> wp i atomic_hook w (finishes i Hook).
Proof.
  intros Hi Hk Hid. apply wp_load_aside. intros ready w1 Hr. apply (gate_idle_stable i w) in Hr as Hid1; [|done].
  destruct (ready =? 0); [by apply finishes_silent|]. apply prog_wp_bind, wp_handler_enter; try done.
  - intros w2 Hid2. by apply finishes_silent.
  - intros w2 Hh. apply takes_begin_handler; [done|]. intros _ w3 Hh3. apply takes_end_handler; [done|]. intros _ w4 Hh4.
    apply prog_wp_bind, wp_handler_leave; try done. intros w5 Hid5. by apply finishes_silent.
Qed.

(** ** Commands *)

(** The thread holds [control_busy]; [b] when its command is at work. *)
Definition commands (i : nat) (b : bool) (w : gate_world) : Prop :=
  ~ (i ∈ gw_hold w) /\ ~ (i ∈ gw_work w) /\ gw_command w = Some (i, b).

Lemma commands_stable i b w w' : commands i b w -> gate_rely i w w' -> commands i b w'.
Proof. intros (H1 & H2 & H3) (R1 & R2 & R3 & _). split_and!; [by rewrite <- R1|by rewrite <- R2|by apply R3]. Qed.

Lemma busy_word_free c : busy_word c = 0 -> c = None.
Proof. by destruct c as [[[] ?]|]. Qed.

(** Only the unload closes the gate of the commands. *)
Lemma not_unloaded_while n w m h i b :
  gate_inv n w m h -> gw_command w = Some (i, b) -> i <> 0%nat -> ~ unloaded h /\ gw_unloaded w = false.
Proof.
  intros HI Hc Hi. destruct (gi_unloaded _ _ _ _ HI) as [Hu Hu'].
  destruct (gw_unloaded w); [destruct (Hu' eq_refl); congruence|]. naive_solver.
Qed.

(** A note about the command of thread [i], which holds the gate. *)
Lemma takes_command i b b' e w K :
  i <> 0%nat -> commands i b w -> (b, e, b') = (false, Enter_command, true) \/ (b, e, b') = (true, Leave_command, false) ->
  (forall m w', commands i b' w' -> K m w') -> takes i w (fun m => m) [Emitted i e] K.
Proof.
  intros Hi Hc He HK. apply (takes_gate_step i w _ _ K (fun w1 => w1 <| gw_command := Some (i, b') |>)).
  - intros w1 Hr j Hj. apply (commands_stable i b) in Hr as (_ & _ & Hc1); [|done].
    split_and!; cbn; try done. intros ?. rewrite Hc1. split; congruence.
  - intros n w1 m h Hr HI. apply (commands_stable i b) in Hr as (_ & _ & Hc1); [|done].
    destruct (not_unloaded_while n w1 m h i b) as [Hun Hun']; try done.
    destruct HI as [? Ha Hb Hd [Hwk Hwh] [Hcm _] Hs [Hu Hu'] Hcl]. rewrite Hc1 in *.
    destruct He as [[= -> -> ->]|[= -> -> ->]];
    (split; rewrite ?ledger_snoc, ?unloaded_snoc, ?handler_seen_snoc; cbn in *; try done;
     [by constructor|naive_solver|rewrite Hcm; split; [set_solver|congruence]|naive_solver|rewrite Hun'; naive_solver]).
  - intros n w1 m h Hr _. apply (commands_stable i b) in Hr as (? & ? & _); [|done]. by apply HK.
Qed.

Lemma wp_command i status w :
  i <> 0%nat -> (i < k)%nat -> gate_idle i w -> wp i (atomic_control_execute status) w (finishes i (Command status)).
Proof.
  intros Hi Hk Hid n w1 m h Hr Hn HI. apply (gate_idle_stable i w) in Hr as (H1 & H2 & H3); [|done]. rewrite app_nil_r.
  unfold rmw. destruct (Z.eqb_spec (m G_control_busy) 0) as [E|E]; cbn [negb].
  - assert (gw_command w1 = None) as Ec by (apply busy_word_free; by rewrite <- (gi_busy _ _ _ _ HI)).
    exists (w1 <| gw_command := Some (i, false) |>). split_and!.
    + intros j Hj. split_and!; cbn; try done. intros b. rewrite Ec. split; congruence.
    + destruct HI as [? Ha Hb Hd ? [Hcm ?] Hs [Hu Hu'] Hcl]. rewrite Ec in *.
      split; cbn in *; try done; [by destruct i|naive_solver|]. split; [done|]. intros Hx. by destruct (Hu' Hx).
    + apply (takes_command i false true); [done|by split_and!|by left|]. intros _ w2 Hc2.
      apply (takes_command i true false); [done|done|by right|]. intros _ w3 Hc3.
      apply (takes_gate_step i w3 _ _ _ (fun w4 => w4 <| gw_command := None |>)).
      * intros w4 Hr4 j Hj. apply (commands_stable i false) in Hr4 as (_ & _ & Hc4); [|done].
        split_and!; cbn; try done. intros b. rewrite Hc4. split; congruence.
      * intros n4 w4 m4 h4 Hr4 HI4. apply (commands_stable i false) in Hr4 as (_ & _ & Hc4); [|done].
        destruct (not_unloaded_while n4 w4 m4 h4 i false) as [Hun Hun']; try done.
        destruct HI4 as [? Ha Hb Hd ? [Hcm ?] Hs [Hu Hu'] Hcl]. rewrite Hc4 in *. rewrite app_nil_r.
        split; cbn in *; try done; [naive_solver|]. rewrite Hun'. naive_solver.
      * intros n4 w4 m4 h4 Hr4 _. apply (commands_stable i false) in Hr4 as (? & ? & _); [|done].
        apply finishes_silent; [|done]. split_and!; cbn; [done..|]. by destruct i.
  - exists w1. split_and!; [intros j _; reflexivity|by eapply gate_inv_heap|]. apply finishes_silent; [by split_and!|done].
Qed.

(** ** Clearing *)

Lemma wp_wait_handlers i attempts w Φ :
  gate_idle i w -> (forall w', gate_idle i w' -> Φ tt w') -> wp i (atomic_wait_handlers attempts) w Φ.
Proof.
  revert w. induction attempts as [|attempts IH]; intros w Hid HΦ; [by apply HΦ|].
  apply wp_load_aside. intros x w1 Hr. apply (gate_idle_stable i w) in Hr as Hid1; [|done].
  destruct (x =? 0); [by apply HΦ|by apply IH].
Qed.

(** The count has been 0 since the call. *)
Lemma wp_load_count {A} i w (p : Z -> gprog A) Φ :
  gate_idle i w -> (forall x w', x <> 0 -> gate_idle i w' -> wp i (p x) w' Φ) ->
  (forall w', gate_idle i w' -> i ∈ gw_clean w' -> wp i (p 0) w' Φ) -> wp i (load G_active_handlers ≫= p) w Φ.
Proof.
  intros Hid Hne H0 n w1 m h Hr Hn HI. apply (gate_idle_stable i w) in Hr as Hid1; [|done]. rewrite app_nil_r.
  destruct (decide (m G_active_handlers = 0)) as [E|E].
  - exists (w1 <| gw_clean := {[i]} ∪ gw_clean w1 |>). split_and!; [intros j Hj; split_and!; cbn; [done..|set_solver|done]| |rewrite E; apply H0; [done|set_solver]].
    destruct HI as [? Ha Hb Hd [Hwk Hwh] ? ? ? Hcl]. split; cbn; try done.
    intros j [Hj%elem_of_singleton|Hj]%elem_of_union; [|by apply Hcl]. destruct (gw_seen w1) eqn:Es; [by left|right].
    subst j. destruct (Ha Es) as [_ Hx]. pose proof (awaited_at_work h i) as Haw.
    destruct (gw_closed w1); [destruct Hx as [Hx _]; by rewrite Hx in E|].
    assert (gw_hold w1 = ∅) by (apply leibniz_equiv, size_empty_iff; lia). set_solver.
  - exists w1. split_and!; [intros j _; reflexivity|by eapply gate_inv_heap|by apply Hne].
Qed.

Lemma takes_reset i w K :
  gate_idle i w -> i ∈ gw_clean w -> (forall m w', gate_idle i w' -> K m w') ->
  takes i w (fun m => m) [Emitted i Reset_ring] K.
Proof.
  intros Hid Hcl HK n w1 m h Hr Hn HI. exists w1. split_and!; [intros j _; reflexivity| |apply HK; by eapply gate_idle_stable].
  apply (gate_inv_note n); try done. cbn. intros Hns. destruct Hr as (_ & _ & _ & R4 & _).
  destruct (gi_clean _ _ _ _ HI i (R4 Hcl)) as [Hs|]; [|done]. by apply (gi_seen _ _ _ _ HI) in Hs.
Qed.

Lemma wp_gate_clear i a w : i <> 0%nat -> gate_idle i w -> wp i (atomic_clear a) w (finishes i (Clear a)).
Proof.
  intros Hi Hid. apply wp_store_aside; [done..|]. intros w1 Hr. apply (gate_idle_stable i w) in Hr as Hid1; [|done].
  destruct (negb (ca_restore a =? 0)); [by apply finishes_silent|]. apply prog_wp_bind, wp_wait_handlers; [done|].
  intros w2 Hid2. apply wp_load_count; [done|intros x w3 E Hid3|intros w3 Hid3 Hcl3].
  - rewrite eqb_ne by done. by apply finishes_silent.
  - cbn [negb Z.eqb]. destruct (ca_debug_empty a), (ca_maps a =? 0), (ca_binding a =? 0); try by apply finishes_silent.
    apply wp_store_aside; [done..|]. intros w4 Hr4.
    apply takes_reset; [by eapply gate_idle_stable|by apply Hr4|]. intros _ w5 Hid5. by apply finishes_silent.
Qed.

(** ** Unloading *)

(** The unload holds [control_busy], and the gate of the handlers when [c]. *)
Definition shuts (c : bool) (w : gate_world) : Prop :=
  ~ (0%nat ∈ gw_hold w) /\ ~ (0%nat ∈ gw_work w) /\ gw_command w = Some (0%nat, false) /\
  gw_closed w = c /\ gw_unloaded w = false.

Lemma shuts_stable c w w' : shuts c w -> gate_rely 0 w w' -> shuts c w' /\ gw_seen w' = gw_seen w.
Proof.
  intros (H1 & H2 & H3 & H4 & H5) (R1 & R2 & R3 & _ & R5). destruct (R5 eq_refl) as (E4 & E5 & E6).
  split; [|done]. split_and!; [by rewrite <- R1|by rewrite <- R2|by apply R3|congruence..].
Qed.

Lemma unloads_fail w a code : gate_idle 0 w -> code <> 0 -> finishes 0 (Unload a) code w.
Proof. intros. by apply finishes_silent. Qed.

(** Thread 0 may change what the others do not depend on. *)
Lemma guarantee_loader w c b u s :
  gw_command w = None \/ (exists x, gw_command w = Some (0%nat, x)) -> c = None \/ (exists x, c = Some (0%nat, x)) ->
  guarantee gate_rely 0 w (w <| gw_command := c |> <| gw_closed := b |> <| gw_unloaded := u |> <| gw_seen := s |>).
Proof. intros Hw Hc j Hj. split_and!; cbn; try done. intros x. naive_solver. Qed.

(** The gate of the handlers is opened again: nobody is inside, or it is known that
    one is. *)
Lemma wp_open_handlers {A} c w (p : gprog A) Φ :
  shuts c w -> c = true \/ gw_seen w = true -> (forall w', shuts false w' -> wp 0 p w' Φ) ->
  wp 0 (store G_active_handlers 0 ;; p) w Φ.
Proof.
  intros Hsh Hc HΦ. apply (takes_gate_step 0 w _ _ _
    (fun w1 => w1 <| gw_command := gw_command w1 |> <| gw_closed := false |> <| gw_unloaded := false |> <| gw_seen := gw_seen w1 |>)).
  - intros w1 Hr. apply (shuts_stable c) in Hr as [(_ & _ & E & _) _]; [|done]. apply guarantee_loader; eauto.
  - intros n w1 m h Hr HI. apply (shuts_stable c) in Hr as [(_ & _ & E1 & E2 & E3) Es]; [|done].
    destruct HI as [? Ha Hb Hd ? ? ? [Hu Hu'] ?]. rewrite app_nil_r. split; cbn; try done.
    + intros Hns. cbn in *. destruct (Ha Hns) as [_ Hx]. destruct Hc as [->|Hc]; [|congruence]. rewrite E2 in Hx.
      destruct Hx as [_ ->]. done.
    + rewrite Hu, E3. naive_solver.
  - intros n w1 m h Hr _. apply (shuts_stable c) in Hr as [(H1 & H2 & E1 & E2 & E3) Es]; [|done]. apply HΦ. by split_and!.
Qed.

Lemma wp_open_commands {A} w (p : gprog A) Φ :
  shuts false w -> (forall w', gate_idle 0 w' -> wp 0 p w' Φ) -> wp 0 (store G_control_busy 0 ;; p) w Φ.
Proof.
  intros Hsh HΦ. apply (takes_gate_step 0 w _ _ _
    (fun w1 => w1 <| gw_command := None |> <| gw_closed := gw_closed w1 |> <| gw_unloaded := gw_unloaded w1 |> <| gw_seen := gw_seen w1 |>)).
  - intros w1 Hr. apply (shuts_stable false) in Hr as [(_ & _ & E & _) _]; [|done]. apply guarantee_loader; eauto.
  - intros n w1 m h Hr HI. apply (shuts_stable false) in Hr as [(_ & _ & F1 & F2 & F3) _]; [|done].
    destruct HI as [? Ha Hb Hd ? [Hcm _] ? [Hu Hu'] ?]. rewrite app_nil_r. rewrite F1 in Hcm. split; cbn; try done; [naive_solver|].
    split; [done|]. congruence.
  - intros n w1 m h Hr _. apply (shuts_stable false) in Hr as [(? & ? & F1 & F2 & F3) _]; [|done]. apply HΦ.
    split; [done|]. split; [done|]. cbn. rewrite F2, F3. naive_solver.
Qed.

Lemma wp_abort_exit {A} c w (p : gprog A) Φ :
  shuts c w -> c = true \/ gw_seen w = true -> (forall w', gate_idle 0 w' -> wp 0 p w' Φ) ->
  wp 0 (atomic_abort_exit ;; p) w Φ.
Proof.
  intros Hsh Hc HΦ. apply (wp_open_handlers c); [done..|]. intros w1 Hs1. apply wp_open_commands; [done|]. intros w2 Hid2.
  apply wp_load_aside. intros ready w3 Hr3. apply (gate_idle_stable 0) in Hr3 as Hid3; [|done].
  destruct (negb (ready =? 0)); [|by apply HΦ].
  apply takes_aside; [done|]. intros n w4 m h Hr4 _. apply HΦ. by eapply gate_idle_stable.
Qed.

Lemma takes_seen w K :
  shuts false w -> (forall m w', shuts false w' -> gw_seen w' = true -> K m w') ->
  takes 0 w (fun m => m) [Emitted 0 Handler_seen] K.
Proof.
  intros Hsh HK. apply (takes_gate_step 0 w _ _ _
    (fun w1 => w1 <| gw_command := gw_command w1 |> <| gw_closed := false |> <| gw_unloaded := false |> <| gw_seen := true |>)).
  - intros w1 Hr. apply (shuts_stable false) in Hr as [(_ & _ & E & _) _]; [|done]. apply guarantee_loader; eauto.
  - intros n w1 m h Hr HI. apply (shuts_stable false) in Hr as [(_ & _ & F1 & F2 & F3) _]; [|done].
    destruct HI as [? Ha Hb Hd ? ? Hs [Hu Hu'] Hcl]. split; rewrite ?ledger_snoc, ?handler_seen_snoc, ?unloaded_snoc; cbn; try done.
    + by constructor.
    + split; [done|]. intros _. by right.
    + rewrite Hu, F3. naive_solver.
    + by left.
  - intros n w1 m h Hr _. apply (shuts_stable false) in Hr as [(? & ? & ? & ? & ?) _]; [|done]. apply HK; [by split_and!|done].
Qed.

(** The exchange on the count closes the gate when nobody is inside. *)
Lemma wp_close_handlers {A} w (p : Z -> gprog A) Φ :
  shuts false w -> (forall w', shuts true w' -> wp 0 (p 0) w' Φ) ->
  (forall x w', x <> 0 -> shuts false w' -> wp 0 (p x) w' Φ) ->
  wp 0 (Rmw G_active_handlers (fun x => if x =? 0 then Some SPZ_GATE_CLOSED else None) p) w Φ.
Proof.
  intros Hsh H0 H1 n w1 m h Hr Hn HI. apply (shuts_stable false) in Hr as [Hsh1 _]; [|done]. rewrite app_nil_r. unfold rmw.
  destruct (Z.eqb_spec (m G_active_handlers) 0) as [E|E].
  - exists (w1 <| gw_command := gw_command w1 |> <| gw_closed := true |> <| gw_unloaded := false |> <| gw_seen := gw_seen w1 |>).
    destruct Hsh1 as (? & ? & F1 & F2 & F3). split_and!.
    + apply guarantee_loader; eauto.
    + destruct HI as [? Ha Hb Hd ? ? ? [Hu Hu'] ?]. split; cbn; try done; [|rewrite Hu, F3; naive_solver].
      intros Hns. cbn in *. destruct (Ha Hns) as [? Hx]. rewrite F2 in Hx. split_and!; [done|done|].
      apply leibniz_equiv, size_empty_iff. lia.
    + rewrite E. apply H0. by split_and!.
  - exists w1. split_and!; [intros j _; reflexivity|by eapply gate_inv_heap|by apply H1].
Qed.

Lemma wp_close_commands {A} w (p : Z -> gprog A) Φ :
  gate_idle 0 w -> (forall w', shuts false w' -> wp 0 (p 0) w' Φ) ->
  (forall x w', x <> 0 -> gate_idle 0 w' -> wp 0 (p x) w' Φ) ->
  wp 0 (Rmw G_control_busy (fun x => if x =? 0 then Some SPZ_GATE_CLOSED else None) p) w Φ.
Proof.
  intros Hid H0 H1 n w1 m h Hr Hn HI. apply (gate_idle_stable 0) in Hr as Hid1; [|done]. rewrite app_nil_r. unfold rmw.
  destruct (Z.eqb_spec (m G_control_busy) 0) as [E|E].
  - assert (gw_command w1 = None) as Ec by (apply busy_word_free; by rewrite <- (gi_busy _ _ _ _ HI)).
    destruct Hid1 as (? & ? & F1 & F2). assert (gw_unloaded w1 = false) as F3 by (destruct (gw_unloaded w1); naive_solver).
    exists (w1 <| gw_command := Some (0%nat, false) |> <| gw_closed := false |> <| gw_unloaded := false |> <| gw_seen := gw_seen w1 |>).
    split_and!.
    + apply guarantee_loader; eauto.
    + destruct HI as [? Ha Hb Hd ? [Hcm ?] ? [Hu Hu'] ?]. rewrite Ec, F1, F3 in *. split; cbn; try done; [|naive_solver].
      intros Hns. specialize (Ha Hns). by rewrite F1, ?F3 in Ha.
    + rewrite E. apply H0. by split_and!.
  - exists w1. split_and!; [intros j _; reflexivity|by eapply gate_inv_heap|by apply H1].
Qed.

Lemma unload_succeeds a w : shuts true w -> finishes 0 (Unload a) 0 w.
Proof.
  intros Hsh. apply (takes_gate_step 0 w _ _ _
    (fun w1 => w1 <| gw_command := gw_command w1 |> <| gw_closed := true |> <| gw_unloaded := true |> <| gw_seen := gw_seen w1 |>)).
  - intros w1 Hr. apply (shuts_stable true) in Hr as [(_ & _ & E & _) _]; [|done]. apply guarantee_loader; eauto.
  - intros n w1 m h Hr HI. apply (shuts_stable true) in Hr as [(_ & _ & F1 & F2 & F3) _]; [|done].
    destruct HI as [? Ha Hb Hd [Hwk Hwh] [Hcm ?] Hs [Hu Hu'] Hcl]. rewrite F1 in *.
    split; rewrite ?ledger_snoc, ?handler_seen_snoc, ?unloaded_snoc; cbn; try done.
    + constructor; [done|]. cbn. split; [by rewrite Hcm|]. intros Hns.
      assert (gw_seen w1 = false) as Es by (apply not_true_is_false; by rewrite <- Hs).
      destruct (Ha Es) as [_ Hx]. rewrite F2 in Hx. set_solver.
    + intros Hns. specialize (Ha Hns). by rewrite F2 in Ha.
    + rewrite Hs. by split; [intros [|]|left].
    + split; [|done]. split; [done|]. intros _. by right.
  - intros n w1 m h Hr _. apply (shuts_stable true) in Hr as [(? & ? & F1 & F2 & F3) _]; [|done].
    split; [done|]. split; [done|]. cbn. rewrite F1. naive_solver.
Qed.

Lemma wp_can_exit {A} a w (p : Z -> gprog A) Φ :
  shuts true w -> (forall r w', shuts true w' -> wp 0 (p r) w' Φ) -> wp 0 (atomic_can_exit a ≫= p) w Φ.
Proof.
  intros Hsh HΦ. apply prog_wp_bind.
  apply wp_load_aside. intros active w1 Hr1. apply (shuts_stable true) in Hr1 as [Hs1 _]; [|done].
  apply wp_load_aside. intros busy w2 Hr2. apply (shuts_stable true) in Hr2 as [Hs2 _]; [|done].
  match goal with |- context [if ?b then _ else _] => destruct b end; [by apply HΦ|].
  apply wp_load_aside. intros enabled w3 Hr3. apply (shuts_stable true) in Hr3 as [Hs3 _]; [|done].
  destruct (negb (enabled =? 0)); [by apply HΦ|].
  apply wp_load_aside. intros configured w4 Hr4. apply (shuts_stable true) in Hr4 as [Hs4 _]; [|done].
  match goal with |- context [if ?b then _ else _] => destruct b end; by apply HΦ.
Qed.

Lemma wp_begin_exit a w : gate_idle 0 w -> wp 0 (atomic_begin_exit a) w (finishes 0 (Unload a)).
Proof.
  intros Hid. apply wp_store_aside; [done..|]. intros w1 Hr1. apply (gate_idle_stable 0) in Hr1 as Hid1; [|done].
  apply wp_close_commands; [done|intros w2 Hs2|intros x w2 Hx Hid2].
  - cbn [negb Z.eqb]. apply wp_close_handlers; [done|intros w3 Hs3|intros x w3 Hx Hs3].
    + cbn [negb Z.eqb]. apply wp_can_exit; [done|]. intros r w4 Hs4. cbv zeta.
      set (result := if r =? 0 then default r (ea_quiesce a) else r).
      destruct (Z.eqb_spec result 0) as [->|Hr]; cbn [negb]; [by apply unload_succeeds|].
      apply (wp_abort_exit true); [done|by left|]. intros w5 Hid5. by apply unloads_fail.
    + rewrite eqb_ne by done. cbn [negb]. apply takes_seen; [done|]. intros _ w4 Hs4 Hseen.
      apply (wp_abort_exit false); [done|by right|]. intros w5 Hid5. by apply unloads_fail.
  - rewrite eqb_ne by done. cbn [negb]. apply wp_store_aside; [done..|]. intros w3 Hr3. apply unloads_fail; [|done].
    by eapply gate_idle_stable.
Qed.

(** ** Pools *)

Lemma gate_call_starts i c w :
  gate_may k i c -> gate_idle i w ->
  takes i w (fun m => m) [Called i c] (fun _ w2 => wp i (gate_program c) w2 (finishes i c)).
Proof.
  intros [Hk Hc] Hid. apply (takes_gate_step i w _ _ _ (fun w1 => w1 <| gw_clean := gw_clean w1 ∖ {[i]} |>)).
  - bears.
  - intros n w1 m h Hr [? Ha Hb Hd ? ? Hs [Hu Hu'] Hcl].
    split; rewrite ?ledger_snoc, ?handler_seen_snoc, ?unloaded_snoc; cbn; try done.
    + by constructor.
    + naive_solver.
    + naive_solver.
    + intros j Hj. rewrite decide_False by set_solver. set_solver.
  - intros n w1 m h Hr _. apply (gate_idle_stable i) in Hr as Hid1; [|done].
    match goal with |- Interleave.wp _ _ _ _ _ ?W _ => assert (gate_idle i W) as Hid2 by exact Hid1; generalize dependent W end.
    intros w2 Hid2. destruct c; cbn; [by apply wp_hook|by apply wp_command|by apply wp_gate_clear|subst i; by apply wp_begin_exit].
Qed.

Definition gate_world_start : gate_world :=
  {| gw_hold := ∅; gw_work := ∅; gw_command := None; gw_closed := false; gw_unloaded := false; gw_seen := false; gw_clean := ∅ |}.

Lemma gate_threads_start m :
  m G_active_handlers = 0 -> m G_control_busy = 0 -> gate_inv 0 gate_world_start m [].
Proof.
  intros Ha Hb. split; cbn; try done. constructor.
Qed.

(** Between calls the words say whether an unload has succeeded. *)
Lemma gates_at_rest n w m h :
  (0 < k)%nat -> gate_inv n w m h -> (forall i, (i < k)%nat -> gate_idle i w) ->
  let word := if decide (unloaded h) then SPZ_GATE_CLOSED else 0 in
  m G_control_busy = word /\ (~ handler_seen h -> m G_active_handlers = word).
Proof.
  intros Hk [_ Hact Hbusy [Hh Hc] _ [_ Hnt] Hseen [Hun _] _] Hidle. destruct (Hidle 0%nat Hk) as (_ & _ & Hcl & Hcm).
  assert (gw_hold w = ∅) as Eh.
  { apply leibniz_equiv. intros i. split; [|set_solver]. intros Hi. by destruct (Hidle i (Hh i Hi)). }
  assert (gw_command w = if gw_unloaded w then Some (0%nat, false) else None) as Ec.
  { destruct (gw_command w) as [[[|i] b]|] eqn:E; [destruct b; [done|]; by rewrite (proj1 Hcm eq_refl)| |].
    - destruct (Hc _ _ eq_refl) as [|Hi]; [done|]. destruct (Hidle _ Hi) as (_ & _ & Hne). by destruct (Hne b).
    - destruct (gw_unloaded w); [by apply Hcm|done]. }
  assert (gw_seen w = false \/ handler_seen h) as Hs by (destruct (gw_seen w); naive_solver).
  unfold active_ok in Hact. rewrite Hbusy, Ec, Hcl, Eh in *. cbn zeta.
  destruct (gw_unloaded w); case_decide; try naive_solver.
Qed.

End steps.

(** C12: in every interleaving of hooks, control calls, clears and unloads, access by
    access: at most one command is at work; an unload that succeeds finds no command
    at work and lets none in afterwards; and as long as no unload has found a handler
    inside, it finds no handler at work either and lets none in afterwards, and a
    clear that resets the ring does so after every handler that was at work when it
    was called has ended. Between calls, both gates are closed when an unload has
    succeeded and free otherwise: no handler or command is counted for ever. *)
Theorem gates_exclude k steps m s :
  (0 < k)%nat -> m G_active_handlers = 0 -> m G_control_busy = 0 ->
  nsteps (gate_step k) steps (pool_start k m) s ->
  gate_notes_sound (pl_notes s) /\
  (quiet s ->
   let word := if decide (unloaded (pl_notes s)) then SPZ_GATE_CLOSED else 0 in
   pl_heap s G_control_busy = word /\ (~ handler_seen (pl_notes s) -> pl_heap s G_active_handlers = word)).
Proof.
  intros Hk Ha Hb Hrun.
  destruct (pool_run_ok steps (gate_inv k) gate_rely gate_program (gate_may k) gate_idle k m gate_world_start steps s)
    as (w & HI & Ht); try done.
  - split; [exact gate_idle_stable|]. intros. by apply gate_call_starts.
  - by apply gate_threads_start.
  - intros [|i] _; cbn; split_and!; set_solver.
  - split; [by destruct HI|]. intros Hq.
    assert (forall i, (i < k)%nat -> gate_idle i w) as Hidle.
    { intros i Hi. pose proof (pool_steps_length _ _ _ _ _ Hrun) as Hlen. cbn in Hlen. rewrite length_replicate in Hlen.
      destruct (lookup_lt_is_Some_2 (pl_threads s) i) as [t Et]; [lia|]. pose proof (Ht i t Et) as Hi'.
      by rewrite (proj1 (Forall_lookup _ _) Hq i t Et) in Hi'. }
    exact (gates_at_rest k steps w _ _ Hk HI Hidle).
Qed.

(** ** Schedules *)

(** A module that is ready. *)
Definition gate_ready : heap gate_cell := fun c => match c with G_ready | G_accepting_commands => 1 | _ => 0 end.

Definition nothing_left : exit_answers := {| ea_async_busy := false; ea_debug_empty := true; ea_rest := 0; ea_quiesce := Some 0 |}.
Definition all_restored : clear_answers := {| ca_restore := 0; ca_debug_empty := true; ca_maps := 0; ca_binding := 0 |}.

(** A clear waits for a handler; an unload meets a command and is refused, the next
    one succeeds and refuses a handler. *)
Definition gate_demo : list (action gate_call) :=
  [Call 1 Hook; Access 1 4; Call 3 (Clear all_restored); Access 3 2; Access 1 2; Return 1; Access 3 4; Return 3;
   Call 2 (Command 0); Access 2 2; Call 0 (Unload nothing_left); Access 0 3; Return 0; Access 2 2; Return 2;
   Call 0 (Unload nothing_left); Access 0 7; Return 0; Call 1 Hook; Access 1 3; Return 1].

Definition gate_demo_end : gpool := performed gate_program gate_demo (pool_start 4 gate_ready).

Strategy expand [gate_demo_end].

Ltac schedule_allowed :=
  repeat (apply Forall_cons; split; [first [exact I|cbn; unfold gate_may; lia]|]); by apply Forall_nil.

Lemma gate_demo_ok : Forall (action_ok (gate_may 4)) gate_demo.
Proof. schedule_allowed. Qed.

Lemma gate_demo_notes : pl_notes gate_demo_end ≫= unload_of = [0%nat] /\ pl_notes gate_demo_end ≫= seen_of = [].
Proof. vm_compute. done. Qed.

Lemma gate_demo_steps : nsteps (gate_step 4) (sum_list_with action_steps gate_demo) (pool_start 4 gate_ready) gate_demo_end.
Proof.
  apply performed_steps; [exact gate_demo_ok|done|]. change (pl_notes gate_demo_end <> []).
  intros E. pose proof gate_demo_notes as [Hu _]. by rewrite E in Hu.
Qed.

Lemma gate_demo_quiet : quiet gate_demo_end.
Proof.
  unfold quiet. replace (pl_threads gate_demo_end) with (replicate 4 (@Outside gate_cell gate_event gate_call Z))
    by (vm_compute; reflexivity). by apply Forall_replicate.
Qed.

Lemma gates_exclude_witness :
  gate_notes_sound (pl_notes gate_demo_end) /\
  pl_heap gate_demo_end G_control_busy = SPZ_GATE_CLOSED /\ pl_heap gate_demo_end G_active_handlers = SPZ_GATE_CLOSED.
Proof.
  destruct (gates_exclude 4 _ gate_ready gate_demo_end ltac:(lia) eq_refl eq_refl gate_demo_steps) as [Hs Hq].
  destruct (Hq gate_demo_quiet) as [Hb Ha]. destruct gate_demo_notes as [Hu Hn].
  rewrite decide_True in Hb, Ha by (unfold unloaded; by rewrite Hu).
  split_and!; [exact Hs|exact Hb|]. apply Ha. intros Hx. exact (Hx Hn).
Defined.

(** ** What is not promised *)

(** An unload that finds a handler inside resets the count, so that the next one
    succeeds while the handler is at work. *)
Definition forgotten_handler : list (action gate_call) :=
  [Call 1 Hook; Access 1 4; Call 0 (Unload nothing_left); Access 0 8; Return 0;
   Call 0 (Unload nothing_left); Access 0 7; Return 0].

Lemma forgotten_handler_ok : Forall (action_ok (gate_may 2)) forgotten_handler.
Proof. schedule_allowed. Qed.

Definition forgotten_end : gpool := performed gate_program forgotten_handler (pool_start 2 gate_ready).

Strategy expand [forgotten_end].

Lemma refused_unload_loses_handler :
  exists steps s, nsteps (gate_step 2) steps (pool_start 2 gate_ready) s /\
    unloaded (pl_notes s) /\ gl_handlers (ledger (pl_notes s)) = {[1%nat]}.
Proof.
  exists (sum_list_with action_steps forgotten_handler), forgotten_end.
  assert (pl_notes forgotten_end ≫= unload_of = [0%nat]) as Hu by by vm_compute. split_and!.
  - apply performed_steps; [exact forgotten_handler_ok|done|]. change (pl_notes forgotten_end <> []).
    intros E. rewrite E in Hu. discriminate Hu.
  - unfold unloaded. rewrite Hu. discriminate.
  - vm_compute. reflexivity.
Qed.

(** A handler that begins after the last look of a clear at the count is at work when
    the clear resets the event ring. *)
Definition late_handler : list (action gate_call) :=
  [Call 1 (Clear all_restored); Access 1 3; Call 2 Hook; Access 2 4; Access 1 2].

Lemma late_handler_ok : Forall (action_ok (gate_may 3)) late_handler.
Proof. schedule_allowed. Qed.

Definition late_end : gpool := performed gate_program late_handler (pool_start 3 gate_ready).

Strategy expand [late_end].

Lemma clear_resets_under_handler :
  exists steps s h, nsteps (gate_step 3) steps (pool_start 3 gate_ready) s /\
    pl_notes s = h ++ [Emitted 1 Reset_ring] /\ gl_handlers (ledger h) = {[2%nat]}.
Proof.
  exists (sum_list_with action_steps late_handler), late_end,
    [Called 1 (Clear all_restored); Called 2 Hook; Emitted 2 Enter_handler].
  assert (pl_notes late_end = [Called 1 (Clear all_restored); Called 2 Hook; Emitted 2 Enter_handler; Emitted 1 Reset_ring])
    as Hn by (vm_compute; reflexivity). split_and!.
  - apply performed_steps; [exact late_handler_ok|done|]. change (pl_notes late_end <> []). rewrite Hn. discriminate.
  - exact Hn.
  - vm_compute. reflexivity.
Qed.
