(* ===== verification/Control.v ===== *)
(** * Executing a command line (kpm/platform/kpatch/control.c)

    One command at a time passes the control gate: it is parsed and dispatched to the
    components of the module, which write their fields to the scratch buffer of the module. Behind the
    gate the call answers with one line of text, [status=N version=1 key=value ...], and
    copies the fields from the scratch buffer. *)

From S2P Require Import Prelude Crc32 Abi Ring DeviceProfiles Profile Task Debug DebugEncode.
From S2P Require Import Command CommandNumbers CommandSpec CommandGrammar CommandLine.
From S2P Require Import Maps Text Async Runtime.

(** ** Names *)

Definition spz_binding_state_name (state : spz_binding_state) : list Z :=
  match state with
  | SPZ_BINDING_EMPTY => str "none"
  | SPZ_BINDING_PENDING => str "pending"
  | SPZ_BINDING_BOUND => str "bound"
  | SPZ_BINDING_STALE => str "stale"
  | SPZ_BINDING_EXITED => str "exited"
  end.

Definition spz_async_state_name (state : Z) : list Z :=
  if state =? SPZ_ASYNC_FREE then str "free"
  else if state =? SPZ_ASYNC_PENDING then str "pending"
  else if state =? SPZ_ASYNC_RUNNING then str "running"
  else if state =? SPZ_ASYNC_DONE then str "done"
  else str "invalid".

Definition maps_state_name (state : spz_maps_state) : list Z :=
  match state with
  | SPZ_MAPS_UNSUPPORTED => str "unsupported"
  | SPZ_MAPS_EMPTY => str "empty"
  | SPZ_MAPS_TASK_CAPTURED => str "task"
  | SPZ_MAPS_READY => str "ready"
  end.

Definition spz_control_reason (status : Z) : list Z :=
  let e := - status in
  if e =? 0 then str "ok"
  else if e =? EINVAL then str "invalid"
  else if e =? ENOENT then str "not_found"
  else if e =? EBUSY then str "busy"
  else if e =? EAGAIN then str "pending"
  else if e =? ESTALE then str "stale"
  else if e =? ESRCH then str "exited"
  else if e =? ENOSPC then str "no_space"
  else if e =? EUCLEAN then str "quarantined"
  else if e =? ERANGE then str "range"
  else if e =? E2BIG then str "too_large"
  else if e =? EOPNOTSUPP then str "unsupported"
  else str "failed".

Section control.
Context {hw : Type} (backend : spz_async_backend (world hw)).
Implicit Types (w : world hw) (m : spz_module_state hw).

Definition spz_status_fields m (extra : spz_text) : spz_text :=
  let extra := spz_text_token_string extra "state"
    (Some (if negb (mo_ready m =? 0) then str "ready" else str "rejected")) in
  let extra := spz_text_token_string extra "profile"
    (match mo_profile m with Some profile => profile_id profile | None => Some (str "none") end) in
  let extra :=
    match spz_binding_snapshot (mo_binding m) with
    | None => extra
    | Some binding =>
        let extra := spz_text_token_string extra "binding" (Some (spz_binding_state_name (sn_state binding))) in
        if bool_decide (sn_state binding = SPZ_BINDING_BOUND) then
          let i := sn_identity binding in
          let extra := spz_text_token_u64 extra "generation" (id_generation i) in
          let extra := spz_text_token_u64 extra "task_cookie" (id_task_cookie i) in
          let extra := spz_text_token_u64 extra "pid" (id_pid i) in
          let extra := spz_text_token_u64 extra "tgid" (id_tgid i) in
          let extra := spz_text_token_u64 extra "uid" (id_uid i) in
          let extra := spz_text_token_u64 extra "start_time" (id_start_time i) in
          let extra := spz_text_token_u64 extra "start_boottime" (id_start_boot_time i) in
          spz_text_token_hex extra "comm_hex" (Some (id_comm i)) SPZ_COMM_LEN
        else extra
    end in
  let extra := spz_text_token_u64 extra "configured" (mo_breakpoint_configured m) in
  let extra := spz_text_token_u64 extra "enabled" (mo_breakpoint_enabled m) in
  let maps := spz_maps_info (mo_maps m) in
  let extra := spz_text_token_u64 extra "maps_supported"
    (if bool_decide (mi_state maps = SPZ_MAPS_UNSUPPORTED) then 0 else 1) in
  let extra := spz_text_token_string extra "maps_state" (Some (maps_state_name (mi_state maps))) in
  let extra := spz_text_token_u64 extra "maps_snapshot" (mi_snapshot maps) in
  let extra := spz_text_token_u64 extra "maps_size" (mi_length maps) in
  match spz_async_snapshot (mo_async m) with
  | None => extra
  | Some async =>
      let extra := spz_text_token_u64 extra "request" (an_request_id async) in
      let extra := spz_text_token_string extra "request_state" (Some (spz_async_state_name (an_state async))) in
      let extra := spz_text_char extra 32 in
      let extra := spz_text_string extra (Some (str "request_status=")) in
      spz_text_i64 extra (an_status async)
  end.

(** Each command gives its status, the module and the fields written so far. *)

Definition bind_request (binding_id : Z) (command : spz_bind_command) : spz_binding_request :=
  {| rq_binding_id := binding_id; rq_pid := bc_pid command; rq_mode := bc_mode command; rq_uid := bc_uid command;
     rq_start_boot_time := bc_start_boot_time command; rq_comm := bc_comm command; rq_has_uid := bc_has_uid command;
     rq_has_comm := bc_has_comm command; rq_has_start_boot_time := bc_has_start_boot_time command |}.

Definition spz_control_bind m (command : spz_bind_command) (extra : spz_text)
  : Z * spz_module_state hw * spz_text :=
  if (mo_accepting_commands m =? 0) || spz_async_busy (mo_async m) || spz_maps_has_task (mo_maps m)
     || negb (mo_breakpoint_configured m =? 0) then (- EBUSY, m, extra)
  else
    let binding_id := u32 (mo_binding_counter m + 1) in
    let binding_id := if binding_id =? 0 then 1 else binding_id in
    let '(result, generation, binding) := spz_binding_set (mo_binding m) (Some (bind_request binding_id command)) in
    let m := m <| mo_binding := binding |> in
    if negb (result =? 0) then (result, m, extra)
    else
      let m := m <| mo_binding_counter := binding_id |> in
      let extra := spz_text_token_u64 extra "binding_id" binding_id in
      let extra := spz_text_token_u64 extra "generation" (default 0 generation) in
      (0, m, extra).

Definition spz_control_break m (command : spz_break_command) (extra : spz_text)
  : Z * spz_module_state hw * spz_text :=
  if (mo_accepting_commands m =? 0) || spz_async_busy (mo_async m) || negb (mo_breakpoint_enabled m =? 0)
  then (- EBUSY, m, extra)
  else
    match spz_binding_snapshot (mo_binding m) with
    | None => (- EAGAIN, m, extra)
    | Some binding =>
        if bool_decide (sn_state binding = SPZ_BINDING_EMPTY) then (- ENOENT, m, extra)
        else
          let request := break_request command in
          match spz_debug_validate_request (Some request) with
          | inl result => (result, m, extra)
          | inr (value, control, bas) =>
              let m := m <| mo_breakpoint := request |> <| mo_breakpoint_configured := 1 |> in
              let extra := spz_text_token_u64 extra "id" (dr_id request) in
              let extra := spz_text_token_u64 extra "value" value in
              let extra := spz_text_token_u64 extra "control" control in
              let extra := spz_text_token_u64 extra "bas" bas in
              (0, m, extra)
          end
    end.

Definition spz_control_async w (operation target_id : Z) (extra : spz_text) : Z * world hw * spz_text :=
  let m := wd_module w in
  if mo_accepting_commands m =? 0 then (- EBUSY, w, extra)
  else
    let '(result, request_id, request, w) := spz_async_submit backend (mo_async m) w operation target_id in
    let w := w <| wd_module := (wd_module w) <| mo_async := request |> |> in
    (result, w, if result =? 0 then spz_text_token_u64 extra "request" (default 0 request_id) else extra).

Definition spz_event_hex (extra : spz_text) (event : spz_event) : spz_text :=
  spz_text_hex (spz_text_string extra (Some (str " event="))) (Some (event_bytes event)) (length (event_bytes event)).

Definition spz_control_poll m (command : spz_poll_command) (extra : spz_text) : Z * spz_module_state hw * spz_text :=
  let after := if negb (pc_has_after command =? 0) then pc_after command else 0 in
  let '(result, event, ring) := spz_ring_pop_after (mo_ring m) after in
  let m := m <| mo_ring := ring |> in
  if result <? 0 then (result, m, extra)
  else
    (0, m, match event with
           | Some event => if result =? 0 then spz_text_token_u64 extra "empty" 1 else spz_event_hex extra event
           | None => spz_text_token_u64 extra "empty" 1
           end).

Definition spz_control_maps_read m (command : spz_maps_read_command) (extra : spz_text)
  : Z * spz_module_state hw * spz_text :=
  let '(result, maps, read) := spz_maps_read_begin (mo_maps m) (mc_snapshot command) (mc_offset command) in
  if negb (result =? 0) then (result, m <| mo_maps := maps |>, extra)
  else
    let extra := spz_text_token_u64 extra "snapshot" (mr_snapshot read) in
    let extra := spz_text_token_u64 extra "offset" (mr_offset read) in
    let extra := spz_text_token_u64 extra "total" (mr_total read) in
    let extra := spz_text_token_u64 extra "crc32" (mr_crc32 read) in
    let extra := spz_text_token_u64 extra "eof" (mr_eof read) in
    let extra := spz_text_token_hex extra "data" (Some (mr_data read)) (Z.to_nat (mr_length read)) in
    (tx_error extra, m <| mo_maps := spz_maps_read_end maps |>, extra).

(** The members of the union as the kind selects them. *)
Definition command_bind (c : spz_command) : spz_bind_command :=
  match cm_value c with value_bind b => b | _ => zero_bind end.
Definition command_break (c : spz_command) : spz_break_command :=
  match cm_value c with value_breakpoint b => b | _ => zero_break end.
Definition command_id (c : spz_command) : Z := match cm_value c with value_id i => ic_id i | _ => 0 end.
Definition command_poll (c : spz_command) : spz_poll_command :=
  match cm_value c with value_poll p => p | _ => zero_poll end.
Definition command_maps_read (c : spz_command) : spz_maps_read_command :=
  match cm_value c with value_maps_read r => r | _ => zero_maps_read end.

(** A command on the module alone. *)
Definition on_module w (f : spz_module_state hw -> Z * spz_module_state hw * spz_text) : Z * world hw * spz_text :=
  let '(result, m, extra) := f (wd_module w) in (result, w <| wd_module := m |>, extra).

(** The module of a running control component has a profile; the code does not
    look at a NULL one. *)
Definition spz_control_dispatch w (command : spz_command) (extra : spz_text) : Z * world hw * spz_text :=
  let m := wd_module w in
  match cm_kind command with
  | SPZ_COMMAND_STATUS =>
      let extra := spz_status_fields m extra in (tx_error extra, w, extra)
  | SPZ_COMMAND_PROFILE =>
      match mo_profile m with
      | Some profile =>
          let extra := spz_text_token_string extra "profile" (profile_id profile) in
          let extra := spz_text_token_string extra "kernel" (kp_release (profile_kernel profile)) in
          let extra := spz_text_token_string extra "kpatch" (kpp_kpver (profile_kpatch profile)) in
          (tx_error extra, w, extra)
      | None => (- EINVAL, w, extra)
      end
  | SPZ_COMMAND_BIND => on_module w (fun m => spz_control_bind m (command_bind command) extra)
  | SPZ_COMMAND_BREAK => on_module w (fun m => spz_control_break m (command_break command) extra)
  | SPZ_COMMAND_ENABLE => spz_control_async w SPZ_ASYNC_ENABLE (command_id command) extra
  | SPZ_COMMAND_DISABLE =>
      if mo_breakpoint_enabled m =? 0 then (0, w, spz_text_token_u64 extra "request" 0)
      else spz_control_async w SPZ_ASYNC_DISABLE (command_id command) extra
  | SPZ_COMMAND_CLEAR => spz_control_async w SPZ_ASYNC_CLEAR 0 extra
  | SPZ_COMMAND_POLL => on_module w (fun m => spz_control_poll m (command_poll command) extra)
  | SPZ_COMMAND_AUDIT => spz_control_async w SPZ_ASYNC_AUDIT 0 extra
  | SPZ_COMMAND_MAPS =>
      if negb (spz_maps_supported (mo_maps m)) then (- EOPNOTSUPP, w, extra)
      else spz_control_async w SPZ_ASYNC_MAPS 0 extra
  | SPZ_COMMAND_MAPS_READ => on_module w (fun m => spz_control_maps_read m (command_maps_read command) extra)
  | SPZ_COMMAND_INVALID => (- EINVAL, w, extra)
  end.

(** Inside the gate: the status, the world and the fields, which lie in the scratch
    buffer of the module when the gate is released. *)
Definition control_run w (command : list Z) (command_length : nat) : Z * world hw * spz_text :=
  let extra := new_text SPZ_CONTROL_RESPONSE_MAX in
  let w := w <| wd_module := (wd_module w) <| mo_control_busy := 1 |> |> in
  let '(status, _, parsed) := spz_parse_command (Some command) command_length (Some zero_command) in
  let '(status, w, extra) :=
    if status =? 0 then spz_control_dispatch w (default zero_command parsed) extra else (status, w, extra) in
  let status := if (status =? 0) && negb (tx_error extra =? 0) then tx_error extra else status in
  let m := (wd_module w) <| mo_control_scratch ::= fun scratch => write_at scratch 0 (tx_data extra) |>
             <| mo_control_busy := 0 |> in
  (status, w <| wd_module := m |>, extra).

(** The first half of a call: it passes the gate, or another command is inside. *)
Definition control_admit w (command : list Z) (command_length : nat) : Z * world hw * spz_text :=
  if negb (mo_control_busy (wd_module w) =? 0) then (- EBUSY, w, new_text 0) else control_run w command command_length.

(** The second half, behind the gate: the fields are read back from the scratch
    buffer as it is by then. The result, and the text when it is its length. *)
Definition control_respond m (status : Z) (extra : spz_text) (response_capacity : Z) : Z * option (list Z) :=
  let output := new_text response_capacity in
  let output := spz_text_string output (Some (str "status=")) in
  let output := spz_text_i64 output status in
  let output := spz_text_string output (Some (str " version=1")) in
  let output :=
    if status =? 0 then spz_text_bytes output (take (Z.to_nat (tx_length extra)) (mo_control_scratch m))
    else spz_text_token_string output "reason" (Some (spz_control_reason status)) in
  if negb (tx_error output =? 0) then (tx_error output, None)
  else if tx_length output =? tx_capacity output then (- ENOSPC, None)
  else (tx_length output, Some (tx_data output)).

(** The result, the text in the response buffer when the result is its length,
    and the world. [None] is a NULL pointer. [others] is what hooks, workers and other
    control calls do to the module between the release of the gate and the response. *)
Definition spz_control_execute (others : world hw -> world hw) w (command : option (list Z)) (command_length : nat)
    (response_capacity : Z) : Z * option (list Z) * world hw :=
  match command with
  | None => (- EINVAL, None, w)
  | Some command =>
      if (response_capacity =? 0) || (SPZ_CONTROL_RESPONSE_MAX <? response_capacity) then (- EINVAL, None, w)
      else
        let '(status, w, extra) := control_admit w command command_length in
        let w := others w in
        let '(result, response) := control_respond (wd_module w) status extra response_capacity in
        (result, response, w)
  end.
End control.
