(* ===== verification/ControlSpec.v ===== *)
(** * What the control component promises

    Every admitted call is answered by one bounded line of a fixed form, and a
    line the parser accepts is never refused as malformed by the components it
    reaches (kpm/platform/kpatch/control.c). *)

From S2P Require Import Prelude Crc32 Abi Ring DeviceProfiles Profile Task Debug DebugEncode.
From S2P Require Import Command CommandNumbers CommandSpec CommandGrammar CommandLine.
From S2P Require Import Maps Text Async Runtime RuntimeSpec Control.

(** ** Responses *)

(** What spz_text_i64 prints; for a C [int] it is the signed decimal. *)
Definition status_text (status : Z) : list Z :=
  if status <? 0 then 45 :: decimal_text (u64 (u64 (- (status + 1)) + 1)) else decimal_text (u64 status).

Lemma status_text_int status : - 2 ^ 31 <= status < 2 ^ 31 -> status_text status = signed_text status.
Proof.
  intros Hs. change (2 ^ 31) with 2147483648 in Hs. unfold status_text, signed_text.
  destruct (status <? 0) eqn:E; do 2 f_equal; zlia.
Qed.

Lemma writes_status status : writes (status_text status) (fun text => spz_text_i64 text status).
Proof.
  unfold spz_text_i64, status_text. destruct (status <? 0); [|apply writes_u64].
  apply (writes_then [45] (decimal_text (u64 (u64 (- (status + 1)) + 1))) (fun text => spz_text_char text 45)
    (fun text => spz_text_u64 text (u64 (u64 (- (status + 1)) + 1)))); [apply writes_bytes|apply writes_u64].
Qed.

(** The line that answers a command of this status, with these fields. *)
Definition answer (status : Z) (fields : list Z) : list Z :=
  ((str "status=" ++ status_text status) ++ str " version=1") ++
  (if status =? 0 then fields else field_text "reason" (spz_control_reason status)).

Definition write_answer (status : Z) (fields : list Z) (output : spz_text) : spz_text :=
  let output := spz_text_string output (Some (str "status=")) in
  let output := spz_text_i64 output status in
  let output := spz_text_string output (Some (str " version=1")) in
  if status =? 0 then spz_text_bytes output fields
  else spz_text_token_string output "reason" (Some (spz_control_reason status)).

Lemma writes_answer status fields : writes (answer status fields) (write_answer status fields).
Proof.
  unfold answer, write_answer.
  apply (writes_then ((str "status=" ++ status_text status) ++ str " version=1") _
    (fun output => spz_text_string (spz_text_i64 (spz_text_string output (Some (str "status="))) status)
                     (Some (str " version=1")))
    (fun output => if status =? 0 then spz_text_bytes output fields
                   else spz_text_token_string output "reason" (Some (spz_control_reason status)))).
  - apply (writes_then (str "status=" ++ status_text status) (str " version=1")
      (fun output => spz_text_i64 (spz_text_string output (Some (str "status="))) status)
      (fun output => spz_text_bytes output (str " version=1"))); [|apply writes_bytes].
    apply (writes_then (str "status=") (status_text status) (fun output => spz_text_bytes output (str "status="))
      (fun output => spz_text_i64 output status)); [apply writes_bytes|apply writes_status].
  - destruct (status =? 0); [apply writes_bytes|apply writes_token_string].
Qed.

(** ** The fields lie in the scratch buffer *)

(** A writer keeps the text well-formed and its capacity. *)
Definition keeps_text (text text' : spz_text) : Prop :=
  text_wf text -> text_wf text' /\ tx_capacity text' = tx_capacity text.

#[export] Instance keeps_text_preorder : PreOrder keeps_text.
Proof. split; [by intros t|]. unfold keeps_text. intros t1 t2 t3 H1 H2 H. destruct (H1 H) as [H3 E]. rewrite <- E. by apply H2. Qed.

Lemma writes_keep bs f text : writes bs f -> keeps_text text (f text).
Proof. intros Hf Hwf. by destruct (Hf text Hwf) as (? & ? & _). Qed.

Lemma string_keeps text v : keeps_text text (spz_text_string text v).
Proof.
  destruct v as [v|]; cbn; [apply (writes_keep v (fun text => spz_text_bytes text v)), writes_bytes|].
  intros [H1 H2 H3]. split; [by split|done].
Qed.
Lemma char_keeps text v : keeps_text text (spz_text_char text v).
Proof. exact (writes_keep _ _ text (writes_bytes [v])). Qed.
Lemma token_string_keeps text k v : keeps_text text (spz_text_token_string text k v).
Proof.
  unfold spz_text_token_string. etrans; [|apply string_keeps].
  exact (writes_keep _ (fun text => token_prefix text k) text (writes_prefix k)).
Qed.
Lemma token_u64_keeps text k v : keeps_text text (spz_text_token_u64 text k v).
Proof. exact (writes_keep _ _ text (writes_token_u64 k v)). Qed.
Lemma token_hex_keeps text k v n : keeps_text text (spz_text_token_hex text k (Some v) n).
Proof. exact (writes_keep _ _ text (writes_token_hex k v n)). Qed.
Lemma i64_keeps text v : keeps_text text (spz_text_i64 text v).
Proof. exact (writes_keep _ _ text (writes_status v)). Qed.
Lemma hex_keeps text v n : keeps_text text (spz_text_hex text (Some v) n).
Proof. exact (writes_keep _ _ text (writes_hex v n)). Qed.

(** Looks for the writer on the outside and goes on with the text it got. *)
Ltac keep_text := repeat first
  [ reflexivity
  | match goal with
    | |- keeps_text _ (spz_text_token_u64 _ _ _) => etrans; [|apply token_u64_keeps]
    | |- keeps_text _ (spz_text_token_string _ _ _) => etrans; [|apply token_string_keeps]
    | |- keeps_text _ (spz_text_token_hex _ _ (Some _) _) => etrans; [|apply token_hex_keeps]
    | |- keeps_text _ (spz_text_i64 _ _) => etrans; [|apply i64_keeps]
    | |- keeps_text _ (spz_text_string _ _) => etrans; [|apply string_keeps]
    | |- keeps_text _ (spz_text_char _ _) => etrans; [|apply char_keeps]
    | |- keeps_text _ (spz_text_hex _ (Some _) _) => etrans; [|apply hex_keeps]
    | |- keeps_text _ (if ?c then _ else _) => destruct c
    | |- keeps_text _ (match ?o with Some _ => _ | None => _ end) => destruct o
    end ].

Section scratch.
Context {hw : Type} (backend : spz_async_backend (world hw)).
Implicit Types (w : world hw) (m : spz_module_state hw).

Lemma status_fields_keep m extra : keeps_text extra (spz_status_fields m extra).
Proof. unfold spz_status_fields. keep_text. Qed.

Lemma control_bind_keeps m c extra : keeps_text extra (spz_control_bind m c extra).2.
Proof.
  unfold spz_control_bind. case_match; [done|]. cbv zeta.
  destruct (spz_binding_set _ _) as [[r g] b]. case_match; [done|]. cbn [snd]. keep_text.
Qed.
Lemma control_break_keeps m c extra : keeps_text extra (spz_control_break m c extra).2.
Proof.
  unfold spz_control_break. case_match; [done|]. destruct (spz_binding_snapshot _); [|done]. case_match; [done|]. cbv zeta.
  destruct (spz_debug_validate_request _) as [|[[v c'] b]]; [done|]. cbn [snd]. keep_text.
Qed.
Lemma control_async_keeps w operation target extra : keeps_text extra (spz_control_async backend w operation target extra).2.
Proof.
  unfold spz_control_async. case_match; [done|]. destruct (spz_async_submit _ _ _ _ _) as [[[r i] q] w']. cbn [snd]. keep_text.
Qed.
Lemma control_poll_keeps m c extra : keeps_text extra (spz_control_poll m c extra).2.
Proof.
  unfold spz_control_poll. cbv zeta. destruct (spz_ring_pop_after _ _) as [[r event] ring]. case_match; [done|]. cbn [snd].
  unfold spz_event_hex. keep_text.
Qed.
Lemma control_maps_read_keeps m c extra : keeps_text extra (spz_control_maps_read m c extra).2.
Proof.
  unfold spz_control_maps_read. destruct (spz_maps_read_begin _ _ _) as [[r maps] read]. case_match; [done|]. cbn [snd]. keep_text.
Qed.

Lemma on_module_text w f extra : (forall m, keeps_text extra (f m).2) -> keeps_text extra (on_module w f).2.
Proof. intros Hf. unfold on_module. specialize (Hf (wd_module w)). by destruct (f (wd_module w)) as [[r m] e]. Qed.

Lemma control_dispatch_keeps w c extra : keeps_text extra (spz_control_dispatch backend w c extra).2.
Proof.
  unfold spz_control_dispatch. destruct (cm_kind c); try done.
  - cbn [snd]. apply status_fields_keep.
  - destruct (mo_profile _); [|done]. cbn [snd]. keep_text.
  - apply on_module_text. intros m. apply control_bind_keeps.
  - apply on_module_text. intros m. apply control_break_keeps.
  - apply control_async_keeps.
  - case_match; [cbn [snd]; keep_text|apply control_async_keeps].
  - apply control_async_keeps.
  - apply on_module_text. intros m. apply control_poll_keeps.
  - apply control_async_keeps.
  - case_match; [done|apply control_async_keeps].
  - apply on_module_text. intros m. apply control_maps_read_keeps.
Qed.

(** What a command leaves behind the gate: the gate open and its fields, all inside the
    scratch buffer, at the front of it. *)
Lemma control_run_scratch w command n :
  let '(status, w', extra) := control_run backend w command n in
  mo_control_busy (wd_module w') = 0 /\ tx_length extra = Z.of_nat (length (tx_data extra)) /\
  tx_length extra <= SPZ_CONTROL_RESPONSE_MAX /\
  take (Z.to_nat (tx_length extra)) (mo_control_scratch (wd_module w')) = tx_data extra.
Proof.
  unfold control_run. cbv zeta. destruct (spz_parse_command _ _ _) as [[r ?] parsed]. set (w1 := w <| wd_module := _ |>).
  set (d := if r =? 0 then _ else _). assert (keeps_text (new_text SPZ_CONTROL_RESPONSE_MAX) d.2) as Hd
    by (unfold d; case_match; [apply control_dispatch_keeps|done]).
  destruct d as [[status w2] extra]. cbn [snd] in Hd.
  destruct (Hd (new_text_wf SPZ_CONTROL_RESPONSE_MAX ltac:(unfold SPZ_CONTROL_RESPONSE_MAX; lia))) as [[Hl Hb _] Hc].
  rewrite Hc in Hb. split_and!; [done|exact Hl|exact Hb|]. rewrite Hl, Nat2Z.id.
  change (take (length (tx_data extra)) (write_at (mo_control_scratch (wd_module w2)) 0 (tx_data extra)) = tx_data extra).
  unfold write_at. change (Z.to_nat 0) with 0%nat. rewrite take_0. cbn [app]. apply take_app_length.
Qed.
End scratch.

(** A call is answered with its status line exactly when that line and its
    terminator fit the response buffer, and with ENOSPC otherwise; the fields are
    what the scratch buffer holds when the response is made. *)
Theorem control_response {hw} (backend : spz_async_backend (world hw)) others w command n capacity :
  0 < capacity <= SPZ_CONTROL_RESPONSE_MAX ->
  let '(status, w1, extra) := control_admit backend w command n in
  let w2 := others w1 in
  let line := answer status (take (Z.to_nat (tx_length extra)) (mo_control_scratch (wd_module w2))) in
  spz_control_execute backend others w (Some command) n capacity =
  if Z.of_nat (length line) <? capacity then (Z.of_nat (length line), Some line, w2) else (- ENOSPC, None, w2).
Proof.
  intros Hcap. unfold spz_control_execute.
  rewrite (eqb_ne capacity 0), (proj2 (Z.ltb_ge SPZ_CONTROL_RESPONSE_MAX capacity)) by lia. cbn [orb].
  destruct (control_admit backend w command n) as [[status w1] extra]. cbv zeta. set (w2 := others w1).
  unfold control_respond. set (fields := take _ _). fold (write_answer status fields (new_text capacity)).
  set (line := answer status fields).
  assert (is_u64 capacity) as Hu by (unfold SPZ_CONTROL_RESPONSE_MAX in Hcap; lia).
  destruct (writes_answer status fields (new_text capacity) (new_text_wf capacity Hu))
    as (Hwf & Hc & _ & Hok & Hbad). fold line in Hok, Hbad. cbn [new_text tx_error tx_length tx_capacity tx_data] in *.
  destruct (Z.le_gt_cases (Z.of_nat (length line)) capacity) as [Hfit|Hover].
  - destruct (Hok eq_refl ltac:(lia)) as [He Hd]. pose proof (tw_length _ Hwf) as Hl. rewrite Hd in Hl.
    rewrite He, Hl, Hd, Hc. cbn [app negb Z.eqb]. destruct (_ =? capacity) eqn:E1, (_ <? capacity) eqn:E2; try lia; done.
  - destruct (Hbad eq_refl ltac:(lia)) as [He _]. rewrite He. cbn [negb Z.eqb].
    rewrite (proj2 (Z.ltb_ge _ _)) by lia. done.
Qed.

(** *** Only another command writes the scratch buffer

    The hooks leave it alone ([hooks_balance_gate]), and so does the worker. *)

Section worker.
Context {hw : Type}.
Implicit Types (w : world hw).

Definition keeps_scratch w w' : Prop := mo_control_scratch (wd_module w') = mo_control_scratch (wd_module w).

#[export] Instance keeps_scratch_preorder : PreOrder keeps_scratch.
Proof. split; [by intros w|]. unfold keeps_scratch. intros w1 w2 w3 H1 H2. congruence. Qed.

Lemma round_scratch (s : schedule) callback w :
  (forall view cpu w, keeps_scratch w (callback view cpu w).2) -> keeps_scratch w (each_cpu_round s callback w).2.
Proof.
  intros Hcb. destruct s as [r views]. unfold each_cpu_round.
  assert (forall ws : world hw * Z, keeps_scratch ws.1 (foldl (each_cpu_work callback) ws views).1) as H.
  { induction views as [|view views IH]; intros ws; cbn [foldl]; [done|]. etrans; [|apply IH].
    destruct ws as [w' st]. unfold each_cpu_work. destruct (pv_current_cpu view) as [r0 cpu].
    destruct (r0 =? 0); [|done]. specialize (Hcb view cpu w'). by destruct (callback view cpu w'). }
  specialize (H (w, 0)). by destruct (foldl _ _ _) as [w' st].
Qed.

Lemma restore_scratch view cpu w : keeps_scratch w (spz_restore_cpu_callback view cpu w).2.
Proof. unfold spz_restore_cpu_callback. by destruct (spz_debug_restore_cpu _ _ _) as [[r h] c]. Qed.

Lemma enable_scratch kmem view cpu w : keeps_scratch w (spz_enable_cpu_callback kmem view cpu w).2.
Proof.
  unfold spz_enable_cpu_callback. destruct (spz_module_current_cpu _ _) as [|c]; [done|]. case_match; [done|].
  apply (arm_gates kmem w view cpu).
Qed.

Lemma audit_slots_scratch audit_owner count slot view cpu kind w :
  keeps_scratch w (audit_slots audit_owner count slot view cpu kind w).2.
Proof.
  revert slot w. induction count as [|count IH]; intros slot w; cbn [audit_slots]; [done|].
  destruct (op_read_owner _ _ _ _ _) as [r1 owner]. destruct (if r1 =? 0 then _ else _) as [r2 value].
  destruct (if r2 =? 0 then _ else _) as [r3 control]. case_match; [done|]. case_match; [apply IH|].
  destruct (spz_ring_push _ _ _) as [pushed ring]. etrans; [|apply IH]. unfold keeps_scratch. cbn. by case_match.
Qed.

Lemma audit_scratch audit_owner view cpu w : keeps_scratch w (spz_module_audit_cpu audit_owner view cpu w).2.
Proof.
  unfold spz_module_audit_cpu. case_match; [done|].
  pose proof (audit_slots_scratch audit_owner (Z.to_nat (op_brp_count (dc_ops (mo_debug (wd_module w))))) 0 view cpu
    SPZ_DEBUG_SLOT_BREAKPOINT w) as H1.
  destruct (audit_slots _ _ _ _ _ _ _) as [r w1]. cbn [snd] in H1. case_match; [done|]. etrans; [exact H1|apply audit_slots_scratch].
Qed.

Lemma execute_scratch kmem audit_owner profile_ops each1 each2 w operation target :
  keeps_scratch w (spz_module_async_execute kmem audit_owner profile_ops each1 each2 w operation target).2.
Proof.
  unfold spz_module_async_execute. cbv zeta. destruct (mo_ready _ =? 0); [done|].
  destruct (operation =? SPZ_ASYNC_MAPS).
  { destruct (spz_binding_snapshot _); [|done]. case_match; [done|]. by destruct (spz_maps_snapshot _ _ _ _) as [[r maps] calls]. }
  destruct (operation =? SPZ_ASYNC_ENABLE).
  { case_match; [done|]. destruct (spz_binding_snapshot _); [|done]. case_match; [done|].
    destruct (spz_profile_cpu_topology_unchanged _ _ _ _) as [r ?]. case_match; [done|].
    set (w0 := w <| wd_module := _ |>). pose proof (round_scratch each1 (spz_enable_cpu_callback kmem) w0 (enable_scratch kmem)) as Hk.
    destruct (each_cpu_round each1 _ w0) as [r1 w1]. cbn [snd] in Hk. case_match; [|exact Hk]. cbn [snd].
    transitivity (w1 <| wd_module := (wd_module w1) <| mo_breakpoint_enabled := 0 |> |>); [exact Hk|].
    apply round_scratch, restore_scratch. }
  destruct (_ || _); [case_match; [done|]|].
  - set (w0 := w <| wd_module := _ |>). pose proof (round_scratch each1 spz_restore_cpu_callback w0 restore_scratch) as Hk.
    destruct (each_cpu_round each1 _ w0) as [r1 w1]. cbn [snd] in Hk. change (keeps_scratch w w1) in Hk.
    repeat (case_match; [exact Hk|]). destruct (spz_maps_clear _ _) as [[r2 maps] calls]. case_match; [exact Hk|].
    destruct (spz_binding_clear _) as [r3 b]. case_match; exact Hk.
  - destruct (operation =? SPZ_ASYNC_AUDIT); [|done].
    set (w0 := w <| wd_module := _ |>). transitivity w0; [done|]. apply round_scratch. intros. apply audit_scratch.
Qed.
End worker.

(** ** Accepted lines take effect *)

Lemma bind_record_facts kvs c :
  record_of bind_field zero_bind kvs c -> has_keys [str "pid"; str "mode"] kvs ->
  bc_pid c <> 0 /\ bc_mode c <> SPZ_BIND_INVALID /\ length (bc_comm c) = SPZ_COMM_LEN /\
  bc_has_uid c ∈ [0; 1] /\ bc_has_start_boot_time c ∈ [0; 1] /\ bc_has_comm c ∈ [0; 1] /\
  (bc_has_comm c <> 0 -> exists v, denotes_comm v (bc_comm c)).
Proof.
  intros Hrec Hks. pose proof (fun k => record_field bind_field zero_bind kvs c k _ Hrec Hks) as Hf.
  destruct (Hf (str "pid")) as [v1 H1]; [in_table|]. destruct (Hf (str "mode")) as [v2 H2]; [in_table|].
  destruct Hrec as (_ & _ & _ & Hspec).
  pose proof (Hspec (str "uid")) as H3. pose proof (Hspec (str "comm")) as H4. pose proof (Hspec (str "start")) as H5.
  hnf in H1, H2, H3, H4, H5. this_key H1; this_key H2; this_key H3; this_key H4; this_key H5.
  destruct (lookup_field kvs (str "uid")), (lookup_field kvs (str "comm")), (lookup_field kvs (str "start"));
    repeat match goal with H : _ /\ _ |- _ => destruct H end; split_and!;
    first [done | by table_cases H2; congruence | rewrite !elem_of_cons; lia | eauto | idtac].
  all: try match goal with H : denotes_comm _ _ |- _ => destruct H as (_ & Hl & _ & ->) end.
  all: try (rewrite length_app, length_replicate; lia).
  all: try match goal with H : _ = replicate _ _ |- _ => by rewrite H end.
  all: intros ?; congruence.
Qed.

Lemma safe_byte_nonzero b : safe_comm_byte b = true -> b <> 0.
Proof. by intros H ->. Qed.

Lemma safe_comm_loop_padded v index n :
  Forall (fun b => safe_comm_byte b = true) v -> (0 < index + length v)%nat -> (0 < n)%nat ->
  safe_comm_loop index (v ++ replicate n 0) = true.
Proof.
  intros Hv. revert index. induction Hv as [|b v Hb _ IH]; intros index Hi Hn; simpl.
  - destruct n; [lia|]. simpl. rewrite Nat.add_0_r in Hi. by destruct index; [lia|].
  - rewrite (eqb_ne _ _ (safe_byte_nonzero b Hb)), Hb. apply IH; lia.
Qed.

Lemma parsed_bind_valid kvs c id :
  record_of bind_field zero_bind kvs c -> has_keys [str "pid"; str "mode"] kvs -> id <> 0 ->
  request_typed (bind_request id c) /\ spz_request_valid (Some (bind_request id c)) = true.
Proof.
  intros Hrec Hks Hid. destruct (bind_record_facts kvs c Hrec Hks) as (Hp & Hm & Hl & Hu & Hs & Hc & Hcomm).
  split; [done|]. unfold spz_request_valid. cbn [bind_request rq_binding_id rq_pid rq_mode rq_has_uid rq_has_comm
    rq_has_start_boot_time rq_comm].
  rewrite (eqb_ne _ _ Hid), (eqb_ne _ _ Hp). cbn [orb].
  replace (bool_decide _ && _ && _) with false by (by destruct (bc_mode c)).
  rewrite !elem_of_cons, !elem_of_nil in Hu, Hs, Hc.
  rewrite (proj2 (Z.ltb_ge 1 (bc_has_uid c))), (proj2 (Z.ltb_ge 1 (bc_has_comm c))),
    (proj2 (Z.ltb_ge 1 (bc_has_start_boot_time c))) by lia. cbn [orb].
  destruct (bc_has_comm c =? 0) eqn:E; [done|]. cbn [negb andb].
  destruct Hcomm as (v & Hne & Hlen & Hsafe & ->); [lia|]. unfold spz_safe_request_comm.
  rewrite take_ge by (rewrite length_app, length_replicate; lia).
  rewrite safe_comm_loop_padded; [done|done|destruct v; [done|simpl; lia]|lia].
Qed.

(** Commands are admitted: the module accepts them and no request is in flight. *)
Definition admits {hw} (m : spz_module_state hw) : Prop :=
  mo_accepting_commands m <> 0 /\ spz_async_busy (mo_async m) = false.

(** C33: a bind or break line the parser accepts is never refused as malformed
    further down: on an idle module the bind is set pending, under a fresh
    generation, and with a binding the breakpoint is configured as written. *)
Theorem accepted_lines_take_effect {hw} (m : spz_module_state hw) line c extra :
  command_line line c -> binding_wf (mo_binding m) -> admits m -> 0 <= mo_binding_counter m <= UINT32_MAX ->
  (cm_kind c = SPZ_COMMAND_BIND -> spz_maps_has_task (mo_maps m) = false -> mo_breakpoint_configured m = 0 ->
   exists m' extra', spz_control_bind m (command_bind c) extra = (0, m', extra') /\
     bd_state (mo_binding m') = SPZ_BINDING_PENDING /\
     bd_request (mo_binding m') = bind_request (mo_binding_counter m') (command_bind c) /\
     mo_binding_counter m' <> 0 /\ bd_generation (mo_binding m') <> bd_generation (mo_binding m)) /\
  (cm_kind c = SPZ_COMMAND_BREAK -> mo_breakpoint_enabled m = 0 -> bd_state (mo_binding m) <> SPZ_BINDING_EMPTY ->
   exists m' extra', spz_control_break m (command_break c) extra = (0, m', extra') /\
     mo_breakpoint m' = break_request (command_break c) /\ encodable (mo_breakpoint m') /\
     mo_breakpoint_configured m' = 1).
Proof.
  intros (_ & ws & _ & _ & _ & Hg) Hb [Hacc Hbusy] Hcnt. split.
  - intros Hk Ht Hcfg. inversion Hg as [? ? Hv|kvs b Hrec Hks| |? ? ? ? Hv| |]; subst; cbn in Hk; try discriminate;
      try (by table_cases Hv; subst).
    unfold spz_control_bind. cbn [command_bind cm_value]. rewrite (eqb_ne _ _ Hacc), Hbusy, Ht, Hcfg. cbn [orb negb Z.eqb].
    set (id := if _ =? 0 then 1 else _). assert (id <> 0) as Hid by (subst id; destruct (_ =? 0) eqn:E; [done|lia]).
    destruct (parsed_bind_valid kvs b id Hrec Hks Hid) as [Htyped Hvalid].
    rewrite binding_set_eq by done. cbn [negb Z.eqb].
    destruct (next_generation_fresh (bd_generation (mo_binding m))) as [_ Hne]; [by destruct Hb|].
    do 2 eexists. split; [reflexivity|]. split_and!; [done|done|exact Hid|exact Hne].
  - intros Hk Hen Hst. inversion Hg as [? ? Hv| |kvs b Hrec Hks Henc|? ? ? ? Hv| |]; subst; cbn in Hk; try discriminate;
      try (by table_cases Hv; subst).
    unfold spz_control_break. cbn [command_break cm_value]. rewrite (eqb_ne _ _ Hacc), Hbusy, Hen. cbn [orb negb Z.eqb].
    rewrite snapshot_wf by done. change (sn_state (spz_load_binding (mo_binding m))) with (bd_state (mo_binding m)).
    rewrite bool_decide_eq_false_2 by done.
    destruct (break_record_facts kvs b Hrec Hks) as (Hw & _). rewrite (validate_request_eq _ Hw Henc).
    destruct (match dr_kind (break_request b) with SPZ_BREAK_EXECUTE => _ | _ => _ end) as [[value control] bas].
    do 2 eexists. split; [reflexivity|]. split_and!; [done|exact Henc|done].
Qed.

(** ** Concrete commands *)

Definition demo_backend : spz_async_backend (world unit) :=
  {| ab_queue := Some (fun w => (0, w));
     ab_execute := Some (fun request w => spz_module_async_execute demo_kmem None None (0, [demo_platform]) (0, [])
                          (w <| wd_module := (wd_module w) <| mo_async := request |> |>)) |}.

Definition demo_bind_line : list Z := str "bind mode=tgid pid=77 comm=app:ui".
Definition demo_break_line : list Z := str "break id=3 mode=once kind=w addr=0x7f0010 len=8".

Definition demo_parse (line : list Z) : spz_command :=
  default zero_command (spz_parse_command (Some (line ++ [0])) (length line) (Some zero_command)).2.

Lemma demo_bind_command : command_line demo_bind_line (demo_parse demo_bind_line).
Proof. eapply (parse_command_sound _ [0] zero_command). vm_compute. reflexivity. Qed.

Lemma demo_break_command : command_line demo_break_line (demo_parse demo_break_line).
Proof. eapply (parse_command_sound _ [0] zero_command). vm_compute. reflexivity. Qed.

Lemma accepted_lines_take_effect_witness :
  (exists m' extra', spz_control_bind (demo_idle 0) (command_bind (demo_parse demo_bind_line)) (new_text 64) = (0, m', extra') /\
     bd_state (mo_binding m') = SPZ_BINDING_PENDING /\
     bd_request (mo_binding m') = bind_request (mo_binding_counter m') (command_bind (demo_parse demo_bind_line)) /\
     mo_binding_counter m' <> 0 /\ bd_generation (mo_binding m') <> bd_generation (mo_binding (demo_idle 0))).
Proof.
  apply (accepted_lines_take_effect (demo_idle 0) demo_bind_line (demo_parse demo_bind_line) (new_text 64));
    [apply demo_bind_command|apply binding_init_wf|split; [discriminate|reflexivity]|vm_compute; split; discriminate|
     vm_compute; reflexivity|reflexivity|reflexivity].
Defined.

(** Nothing happens while the response is made. *)
Lemma control_response_witness :
  spz_control_execute demo_backend id (demo_world (demo_idle 0)) (Some (str "poll")) 4 4096 =
  (26, Some (str "status=0 version=1 empty=1"), (control_run demo_backend (demo_world (demo_idle 0)) (str "poll") 4).1.2).
Proof.
  pose proof (control_response demo_backend id (demo_world (demo_idle 0)) (str "poll") 4 4096 ltac:(done)) as H.
  vm_compute in H. vm_compute. exact H.
Defined.
