(* ===== verification/Hooks.v ===== *)
(** * Installing the hooks (kpm/platform/kpatch/hooks.c)

    Five kernel functions are wrapped, in order; if one cannot be, those already
    wrapped are unwrapped again. The framework that wraps functions is a parameter:
    its answers may depend on all the calls made so far, which are recorded with
    their results, the newest first. *)

From S2P Require Import Prelude DeviceProfiles Profile.

(** ** Data (kpm/platform/kpatch/compat.h)

    A [void *] is its address, with 0 for NULL. *)

Inductive spz_hook_id :=
  SPZ_HOOK_FINISH_TASK_SWITCH | SPZ_HOOK_DO_EXIT | SPZ_HOOK_BREAKPOINT | SPZ_HOOK_WATCHPOINT | SPZ_HOOK_SINGLE_STEP.

#[export] Instance spz_hook_id_eq : EqDecision spz_hook_id.
Proof. solve_decision. Defined.

Definition SPZ_HOOK_COUNT : nat := 5.

(** The cast of an index below [SPZ_HOOK_COUNT] to the enumeration. *)
Definition hook_of_index (index : nat) : spz_hook_id :=
  match index with
  | 0%nat => SPZ_HOOK_FINISH_TASK_SWITCH | 1%nat => SPZ_HOOK_DO_EXIT | 2%nat => SPZ_HOOK_BREAKPOINT
  | 3%nat => SPZ_HOOK_WATCHPOINT | _ => SPZ_HOOK_SINGLE_STEP
  end.

Definition hook_index (id : spz_hook_id) : nat :=
  match id with
  | SPZ_HOOK_FINISH_TASK_SWITCH => 0 | SPZ_HOOK_DO_EXIT => 1 | SPZ_HOOK_BREAKPOINT => 2
  | SPZ_HOOK_WATCHPOINT => 3 | SPZ_HOOK_SINGLE_STEP => 4
  end.

(** The calls made to the framework. *)
Inductive hook_call :=
| WrapCall (target argument_count before after udata result : Z)
| UnwrapCall (target before after : Z)
| QuiesceCall.

(** The three functions of the framework, each possibly NULL. [wrap] sees the
    calls made before it and its arguments; the two others return nothing. *)
Record spz_hook_backend := {
  hb_wrap : option (list hook_call -> Z -> Z -> Z -> Z -> Z -> Z);
  hb_unwrap : bool;
  hb_quiesce : bool;
}.

Record spz_hook_callbacks := {
  hc_finish_before : Z;
  hc_finish_after : Z;
  hc_exit_before : Z;
  hc_break_before : Z;
  hc_watch_before : Z;
  hc_step_before : Z;
}.

Record spz_hook_set := {
  hs_backend : spz_hook_backend;
  hs_callbacks : spz_hook_callbacks;
  hs_targets : list Z;
  hs_installed : list Z;
  hs_udata : Z;
}.

#[export] Instance spz_hook_set_shape : Shape spz_hook_set :=
  shape! Build_spz_hook_set < hs_backend ; hs_callbacks ; hs_targets ; hs_installed ; hs_udata >.

(** ** Operations *)

(** The pair of the two out-parameters [before] and [after]. *)
Definition spz_hook_callbacks_for (callbacks : spz_hook_callbacks) (id : spz_hook_id) : Z * Z :=
  match id with
  | SPZ_HOOK_FINISH_TASK_SWITCH => (hc_finish_before callbacks, hc_finish_after callbacks)
  | SPZ_HOOK_DO_EXIT => (hc_exit_before callbacks, 0)
  | SPZ_HOOK_BREAKPOINT => (hc_break_before callbacks, 0)
  | SPZ_HOOK_WATCHPOINT => (hc_watch_before callbacks, 0)
  | SPZ_HOOK_SINGLE_STEP => (hc_step_before callbacks, 0)
  end.

Definition spz_hook_argument_count (profile : option spz_device_profile) (id : spz_hook_id) : Z :=
  match profile with
  | None => 0
  | Some profile =>
      let hooks := profile_hooks profile in
      match id with
      | SPZ_HOOK_FINISH_TASK_SWITCH => hp_finish_task_switch_args hooks
      | SPZ_HOOK_DO_EXIT => hp_do_exit_args hooks
      | SPZ_HOOK_BREAKPOINT => hp_breakpoint_handler_args hooks
      | SPZ_HOOK_WATCHPOINT => hp_watchpoint_handler_args hooks
      | SPZ_HOOK_SINGLE_STEP => hp_single_step_handler_args hooks
      end
  end.

Definition spz_hook_symbol (id : spz_hook_id) : nat :=
  match id with
  | SPZ_HOOK_FINISH_TASK_SWITCH => SPZ_SYMBOL_FINISH_TASK_SWITCH
  | SPZ_HOOK_DO_EXIT => SPZ_SYMBOL_DO_EXIT
  | SPZ_HOOK_BREAKPOINT => SPZ_SYMBOL_BREAKPOINT_HANDLER
  | SPZ_HOOK_WATCHPOINT => SPZ_SYMBOL_WATCHPOINT_HANDLER
  | SPZ_HOOK_SINGLE_STEP => SPZ_SYMBOL_SINGLE_STEP_HANDLER
  end.

(** The loop of [spz_hooks_remove]: [cursor] counts down to 0. *)
Fixpoint remove_loop (cursor : nat) (hooks : spz_hook_set) (calls : list hook_call) (removed : bool) :
    spz_hook_set * list hook_call * bool :=
  match cursor with
  | O => (hooks, calls, removed)
  | S cursor =>
      if hs_installed hooks !!! cursor =? 0 then remove_loop cursor hooks calls removed
      else
        let '(before, after) := spz_hook_callbacks_for (hs_callbacks hooks) (hook_of_index cursor) in
        remove_loop cursor (hooks <| hs_installed ::= <[cursor := 0]> |>)
          (UnwrapCall (hs_targets hooks !!! cursor) before after :: calls) true
  end.

(** The hook set behind the pointer, which may be NULL, and the calls made. *)
Definition spz_hooks_remove (hooks : option spz_hook_set) (calls : list hook_call) :
    option spz_hook_set * list hook_call :=
  match hooks with
  | None => (hooks, calls)
  | Some hooks =>
      if negb (hb_unwrap (hs_backend hooks)) || negb (hb_quiesce (hs_backend hooks)) then (Some hooks, calls)
      else
        let '(hooks, calls, removed) := remove_loop SPZ_HOOK_COUNT hooks calls false in
        (Some hooks, if removed : bool then QuiesceCall :: calls else calls)
  end.

(** An iteration that fails gives the hooks back and returns. *)
Definition install_fail (hooks : spz_hook_set) (calls : list hook_call) (error : Z) :
    Z * option spz_hook_set * list hook_call :=
  let '(hooks, calls) := spz_hooks_remove (Some hooks) calls in (error, hooks, calls).

Fixpoint install_loop (remaining index : nat) (runtime : spz_profile_runtime)
    (wrap : list hook_call -> Z -> Z -> Z -> Z -> Z -> Z) (callbacks : spz_hook_callbacks) (udata : Z)
    (hooks : spz_hook_set) (calls : list hook_call) : Z * option spz_hook_set * list hook_call :=
  match remaining with
  | O => (0, Some hooks, calls)
  | S remaining =>
      let id := hook_of_index index in
      let target := pr_symbols runtime !!! spz_hook_symbol id in
      let hooks := hooks <| hs_targets ::= <[index := target]> |> in
      if target =? 0 then install_fail hooks calls (- ENOENT)
      else
        let '(before, after) := spz_hook_callbacks_for callbacks id in
        let argument_count := spz_hook_argument_count (pr_profile runtime) id in
        if (before =? 0) || (bool_decide (id = SPZ_HOOK_FINISH_TASK_SWITCH) && (after =? 0)) ||
           (negb (argument_count =? 1) && negb (argument_count =? 3))
        then install_fail hooks calls (- EINVAL)
        else
          let result := wrap calls target argument_count before after udata in
          let calls := WrapCall target argument_count before after udata result :: calls in
          if negb (result =? 0) then install_fail hooks calls (if result <? 0 then result else - EIO)
          else install_loop remaining (S index) runtime wrap callbacks udata
                 (hooks <| hs_installed ::= <[index := 1]> |>) calls
  end.

Definition spz_hooks_install (hooks : option spz_hook_set) (runtime : option spz_profile_runtime)
    (backend : option spz_hook_backend) (callbacks : option spz_hook_callbacks) (udata : Z)
    (calls : list hook_call) : Z * option spz_hook_set * list hook_call :=
  match hooks, runtime, backend, callbacks with
  | Some _, Some runtime, Some backend, Some callbacks =>
      match hb_wrap backend with
      | None => (- EINVAL, hooks, calls)
      | Some wrap =>
          if negb (hb_unwrap backend) || negb (hb_quiesce backend) ||
             negb (bool_decide (pr_state runtime = SPZ_PROFILE_READY)) || (pr_hooks_allowed runtime =? 0)
          then (- EINVAL, hooks, calls)
          else
            let hooks := {| hs_backend := backend; hs_callbacks := callbacks;
                            hs_targets := replicate SPZ_HOOK_COUNT 0;
                            hs_installed := replicate SPZ_HOOK_COUNT 0; hs_udata := udata |} in
            install_loop SPZ_HOOK_COUNT 0 runtime wrap callbacks udata hooks calls
      end
  | _, _, _, _ => (- EINVAL, hooks, calls)
  end.

(** ** Specification: what the framework has in effect *)

(** A wrapped function: its address and the two callbacks. *)
Definition hooked : Type := (Z * Z * Z)%type.

Fixpoint unhook (h : hooked) (l : list hooked) : list hooked :=
  match l with
  | [] => []
  | h' :: l => if decide (h' = h) then l else h' :: unhook h l
  end.

(** The hooks in effect after a history: a wrap that succeeded adds one, an
    unwrap takes the latest such one away. *)
Fixpoint in_effect (calls : list hook_call) : list hooked :=
  match calls with
  | [] => []
  | WrapCall target _ before after _ result :: calls =>
      if result =? 0 then (target, before, after) :: in_effect calls else in_effect calls
  | UnwrapCall target before after :: calls => unhook (target, before, after) (in_effect calls)
  | QuiesceCall :: calls => in_effect calls
  end.

(** An unwrapped callback may still be running until the next quiescence. *)
Fixpoint lingering (calls : list hook_call) : bool :=
  match calls with
  | [] => false
  | WrapCall _ _ _ _ _ _ :: calls => lingering calls
  | UnwrapCall _ _ _ :: _ => true
  | QuiesceCall :: _ => false
  end.

(** The hook the module asks for under an index. *)
Definition wanted (runtime : spz_profile_runtime) (callbacks : spz_hook_callbacks) (index : nat) : hooked :=
  let id := hook_of_index index in
  let '(before, after) := spz_hook_callbacks_for callbacks id in
  (pr_symbols runtime !!! spz_hook_symbol id, before, after).

(** The hooks wanted under the indices below [n], the latest first. *)
Fixpoint wanted_below (runtime : spz_profile_runtime) (callbacks : spz_hook_callbacks) (n : nat) : list hooked :=
  match n with
  | O => []
  | S n => wanted runtime callbacks n :: wanted_below runtime callbacks n
  end.

(** ** Lemmas *)

Lemma unhook_head h l : unhook h (h :: l) = l.
Proof. simpl. by rewrite decide_True. Qed.

(** The hooks a set holds under the indices below [n], the latest first. *)
Fixpoint held_below (hooks : spz_hook_set) (n : nat) : list hooked :=
  match n with
  | O => []
  | S n =>
      let '(before, after) := spz_hook_callbacks_for (hs_callbacks hooks) (hook_of_index n) in
      if hs_installed hooks !!! n =? 0 then held_below hooks n
      else (hs_targets hooks !!! n, before, after) :: held_below hooks n
  end.

Lemma held_below_later hooks i v n :
  (n <= i)%nat -> held_below (hooks <| hs_installed ::= <[i := v]> |>) n = held_below hooks n.
Proof.
  intros Hi. induction n as [|n IH]; [done|]. simpl.
  rewrite IH by lia. by rewrite list_lookup_total_insert_ne by lia.
Qed.

Definition insert_zeroes (n : nat) (l : list Z) : list Z := replicate (n `min` length l) 0 ++ drop n l.

Lemma insert_zeroes_head n (l : list Z) : (n < length l)%nat -> insert_zeroes n (<[n := 0]> l) = insert_zeroes (S n) l.
Proof.
  intros Hl. unfold insert_zeroes. rewrite length_insert, !Nat.min_l by lia.
  rewrite drop_insert_ge, Nat.sub_diag by lia.
  destruct (lookup_lt_is_Some_2 l n Hl) as [x Hx]. rewrite (drop_S l x n Hx).
  by rewrite replicate_S_end, <- app_assoc.
Qed.

Lemma insert_zeroes_same n (l : list Z) : (n < length l)%nat -> l !!! n = 0 -> insert_zeroes n l = insert_zeroes (S n) l.
Proof.
  intros Hl Hx. rewrite <- insert_zeroes_head by done.
  by rewrite list_insert_id by (rewrite <- Hx; by apply list_lookup_lookup_total_lt).
Qed.

(** The loop drops the flags below [n], takes the held hooks out of effect and
    leaves callbacks lingering exactly when it unwrapped something. *)
Lemma remove_loop_spec n hooks calls removed rest :
  (n <= length (hs_installed hooks))%nat ->
  in_effect calls = held_below hooks n ++ rest ->
  exists calls' removed',
    remove_loop n hooks calls removed = (hooks <| hs_installed ::= insert_zeroes n |>, calls', removed') /\
    in_effect calls' = rest /\
    (removed' = true \/ (removed' = removed /\ calls' = calls)).
Proof.
  revert hooks calls removed. induction n as [|n IH]; intros hooks calls removed Hl He; simpl in *.
  - exists calls, removed. split_and!; [|done|by right].
    destruct hooks; done.
  - destruct (spz_hook_callbacks_for _ _) as [before after] eqn:Hc.
    destruct (hs_installed hooks !!! n =? 0) eqn:Hz.
    + apply Z.eqb_eq in Hz. destruct (IH hooks calls removed) as (c & r & -> & ? & ?); [lia|done|].
      exists c, r. split_and!; [|done|done]. f_equal. f_equal. destruct hooks; cbn in *.
      unfold field_update; cbn. f_equal. by apply insert_zeroes_same.
    + destruct (IH (hooks <| hs_installed ::= <[n := 0]> |>)
        (UnwrapCall (hs_targets hooks !!! n) before after :: calls) true) as (c & r & -> & ? & Hr).
      * cbn. rewrite length_insert. lia.
      * rewrite held_below_later by lia. cbn [in_effect]. rewrite He. apply unhook_head.
      * exists c, r. split_and!; [|done|left; destruct Hr as [|[]]; done].
        f_equal. f_equal. destruct hooks; cbn in *. unfold field_update; cbn. f_equal.
        by apply insert_zeroes_head.
Qed.

(** The state of the set when [index] hooks are installed. *)
Record installing (runtime : spz_profile_runtime) (callbacks : spz_hook_callbacks) (index : nat)
    (hooks : spz_hook_set) : Prop := {
  in_index : (index <= SPZ_HOOK_COUNT)%nat;
  in_unwrap : hb_unwrap (hs_backend hooks) = true;
  in_quiesce : hb_quiesce (hs_backend hooks) = true;
  in_callbacks : hs_callbacks hooks = callbacks;
  in_targets : length (hs_targets hooks) = SPZ_HOOK_COUNT;
  in_target : forall j, (j < index)%nat ->
    hs_targets hooks !!! j = pr_symbols runtime !!! spz_hook_symbol (hook_of_index j);
  in_installed : hs_installed hooks = replicate index 1 ++ replicate (SPZ_HOOK_COUNT - index) 0;
}.

Lemma installed_flag index j :
  (j < SPZ_HOOK_COUNT)%nat -> (index <= SPZ_HOOK_COUNT)%nat ->
  (replicate index 1 ++ replicate (SPZ_HOOK_COUNT - index) 0) !!! j = if decide (j < index)%nat then 1 else 0.
Proof.
  intros Hj Hi. unfold SPZ_HOOK_COUNT in *. case_decide.
  - rewrite lookup_total_app_l by (rewrite length_replicate; lia). by apply lookup_total_replicate_2.
  - rewrite lookup_total_app_r by (rewrite length_replicate; lia). rewrite length_replicate.
    apply lookup_total_replicate_2. lia.
Qed.

Lemma installing_held runtime callbacks index hooks n :
  installing runtime callbacks index hooks -> (n <= SPZ_HOOK_COUNT)%nat ->
  held_below hooks n = wanted_below runtime callbacks (n `min` index).
Proof.
  intros [Hx _ _ Hc _ Ht Hf]. induction n as [|n IH]; intros Hn; [done|].
  cbn [held_below]. rewrite Hc, Hf, installed_flag, IH by lia.
  destruct (spz_hook_callbacks_for callbacks (hook_of_index n)) as [before after] eqn:E.
  case_decide; cbn [Z.eqb].
  - rewrite !Nat.min_l by lia. cbn [wanted_below]. unfold wanted. by rewrite E, Ht by lia.
  - by rewrite !Nat.min_r by lia.
Qed.

(** Setting the next target changes nothing about the installed hooks. *)
Lemma installing_target runtime callbacks index hooks target :
  installing runtime callbacks index hooks ->
  installing runtime callbacks index (hooks <| hs_targets ::= <[index := target]> |>).
Proof.
  intros [Hx Hu Hq Hc Hl Ht Hf]. split; try done; cbn.
  - by rewrite length_insert.
  - intros j Hj. rewrite list_lookup_total_insert_ne by lia. by apply Ht.
Qed.

Lemma installing_next runtime callbacks index hooks :
  installing runtime callbacks index hooks -> (index < SPZ_HOOK_COUNT)%nat ->
  hs_targets hooks !!! index = pr_symbols runtime !!! spz_hook_symbol (hook_of_index index) ->
  installing runtime callbacks (S index) (hooks <| hs_installed ::= <[index := 1]> |>).
Proof.
  intros [Hx Hu Hq Hc Hl Ht Hf] Hi He. split; try done.
  - intros j Hj. destruct (decide (j = index)) as [->|]; [done|]. apply Ht. lia.
  - change (<[index := 1]> (hs_installed hooks) = replicate (S index) 1 ++ replicate (SPZ_HOOK_COUNT - S index) 0).
    rewrite Hf. rewrite insert_app_r_alt by (rewrite length_replicate; lia).
    rewrite length_replicate, Nat.sub_diag. rewrite replicate_S_end, <- app_assoc. f_equal.
    replace (SPZ_HOOK_COUNT - index)%nat with (S (SPZ_HOOK_COUNT - S index)) by lia. done.
Qed.

(** Giving a partly installed set back. *)
Lemma installing_remove runtime callbacks index hooks calls rest :
  installing runtime callbacks index hooks -> lingering calls = false ->
  in_effect calls = wanted_below runtime callbacks index ++ rest ->
  exists hooks' calls',
    spz_hooks_remove (Some hooks) calls = (Some hooks', calls') /\
    hs_installed hooks' = replicate SPZ_HOOK_COUNT 0 /\ in_effect calls' = rest /\ lingering calls' = false.
Proof.
  intros Hin Hling He. pose proof Hin as [Hx Hu Hq Hc Hl Ht Hf].
  assert (Hlen : length (hs_installed hooks) = SPZ_HOOK_COUNT)
    by (rewrite Hf, length_app, !length_replicate; lia).
  destruct (remove_loop_spec SPZ_HOOK_COUNT hooks calls false rest) as (c & r & Hloop & Heff & Hr).
  { lia. }
  { rewrite He. f_equal. rewrite (installing_held _ _ _ _ _ Hin) by lia. by rewrite Nat.min_r by lia. }
  unfold spz_hooks_remove. rewrite Hu, Hq. cbn [negb orb]. rewrite Hloop.
  eexists _, _. split; [done|]. split_and!.
  - change (insert_zeroes SPZ_HOOK_COUNT (hs_installed hooks) = replicate SPZ_HOOK_COUNT 0).
    unfold insert_zeroes. rewrite Hlen, Nat.min_id, drop_ge by lia. by rewrite app_nil_r.
  - by destruct r.
  - destruct r; [done|]. by destruct Hr as [|[_ ->]].
Qed.

Definition gives_back (out : Z * option spz_hook_set * list hook_call) (rest : list hooked) : Prop :=
  exists result hooks calls, out = (result, Some hooks, calls) /\ result < 0 /\
    hs_installed hooks = replicate SPZ_HOOK_COUNT 0 /\ in_effect calls = rest /\ lingering calls = false.

Lemma install_fail_gives_back runtime callbacks index hooks calls error rest :
  installing runtime callbacks index hooks -> lingering calls = false -> error < 0 ->
  in_effect calls = wanted_below runtime callbacks index ++ rest ->
  gives_back (install_fail hooks calls error) rest.
Proof.
  intros Hin Hling Herr He. unfold install_fail.
  destruct (installing_remove _ _ _ _ _ _ Hin Hling He) as (h & c & -> & ? & ? & ?).
  by exists error, h, c.
Qed.

Definition all_in (out : Z * option spz_hook_set * list hook_call) (runtime : spz_profile_runtime)
    (callbacks : spz_hook_callbacks) (rest : list hooked) : Prop :=
  exists hooks calls, out = (0, Some hooks, calls) /\ installing runtime callbacks SPZ_HOOK_COUNT hooks /\
    in_effect calls = wanted_below runtime callbacks SPZ_HOOK_COUNT ++ rest /\ lingering calls = false.

Lemma install_loop_spec remaining index runtime wrap callbacks udata hooks calls rest :
  installing runtime callbacks index hooks -> lingering calls = false ->
  (remaining + index)%nat = SPZ_HOOK_COUNT ->
  in_effect calls = wanted_below runtime callbacks index ++ rest ->
  let out := install_loop remaining index runtime wrap callbacks udata hooks calls in
  all_in out runtime callbacks rest \/ gives_back out rest.
Proof.
  revert index hooks calls. induction remaining as [|n IH]; intros index hooks calls Hin Hling Hsum He; cbn.
  - left. simpl in Hsum. subst index. by exists hooks, calls.
  - set (target := pr_symbols runtime !!! spz_hook_symbol (hook_of_index index)).
    pose proof (installing_target _ _ _ _ target Hin) as Hin'.
    set (hooks' := hooks <| hs_targets ::= <[index := target]> |>) in *.
    destruct (target =? 0); [right; by eapply install_fail_gives_back|].
    destruct (spz_hook_callbacks_for callbacks (hook_of_index index)) as [before after] eqn:Hcb.
    match goal with |- context [if ?b then _ else _] => destruct b end;
      [right; by eapply install_fail_gives_back|].
    set (argc := spz_hook_argument_count _ _). set (result := wrap calls target argc before after udata).
    destruct (negb (result =? 0)) eqn:Hres.
    + right. eapply install_fail_gives_back; [done|done|destruct (result <? 0) eqn:?; unfold EIO; lia|].
      cbn [in_effect]. apply negb_true_iff in Hres. by rewrite Hres.
    + apply negb_false_iff in Hres. apply IH; [|done|lia|].
      * apply installing_next; [done|lia|]. cbn. apply list_lookup_total_insert_eq.
        rewrite (in_targets _ _ _ _ Hin). lia.
      * cbn [in_effect wanted_below]. rewrite Hres, He. unfold wanted. by rewrite Hcb.
Qed.

(** A call refused before anything was done. *)
Ltac refused := right; split_and!; [done|done|done|by left].

(** ** Properties *)

(** C11: Installing the hooks is all or nothing. On success the profile was ready,
    the five wanted functions are wrapped on top of what was in effect, and
    removing them later restores what was in effect and quiesces. On any failure,
    whatever the framework answered at any call, the hooks in effect are those of
    before, every flag of the set is clear, and a quiescence followed the last
    unwrapping, so that no callback of the module is left running. *)
Theorem hooks_all_or_nothing hooks runtime backend callbacks udata calls :
  lingering calls = false ->
  let '(result, hooks', calls') := spz_hooks_install hooks runtime backend callbacks udata calls in
  (result = 0 /\
   exists rt cb set removed calls0,
     runtime = Some rt /\ callbacks = Some cb /\ hooks' = Some set /\
     pr_state rt = SPZ_PROFILE_READY /\ pr_hooks_allowed rt <> 0 /\
     hs_installed set = replicate SPZ_HOOK_COUNT 1 /\
     in_effect calls' = wanted_below rt cb SPZ_HOOK_COUNT ++ in_effect calls /\ lingering calls' = false /\
     spz_hooks_remove hooks' calls' = (Some removed, calls0) /\
     hs_installed removed = replicate SPZ_HOOK_COUNT 0 /\
     in_effect calls0 = in_effect calls /\ lingering calls0 = false) \/
  (result < 0 /\ in_effect calls' = in_effect calls /\ lingering calls' = false /\
   ((hooks' = hooks /\ calls' = calls) \/
    exists set, hooks' = Some set /\ hs_installed set = replicate SPZ_HOOK_COUNT 0)).
Proof.
  intros Hling. unfold spz_hooks_install.
  destruct hooks as [old|], runtime as [rt|], backend as [be|], callbacks as [cb|];
    try solve [refused].
  destruct (hb_wrap be) as [wrap|]; [|refused].
  destruct (negb (hb_unwrap be)) eqn:Hu; cbn [orb]; [refused|].
  destruct (negb (hb_quiesce be)) eqn:Hq; cbn [orb]; [refused|].
  case_bool_decide as Hr; cbn [negb orb]; [|refused].
  destruct (pr_hooks_allowed rt =? 0) eqn:Ha; [refused|].
  apply negb_false_iff in Hu, Hq. apply Z.eqb_neq in Ha.
  set (fresh := {| hs_backend := be |}).
  assert (Hin : installing rt cb 0 fresh) by (split; cbn; auto; lia).
  destruct (install_loop_spec SPZ_HOOK_COUNT 0 rt wrap cb udata fresh calls (in_effect calls))
    as [(h & c & -> & Hin' & He & Hl)|(r & h & c & -> & Hneg & Hz & He & Hl)]; try done.
  - left. split; [done|].
    destruct (installing_remove _ _ _ _ _ _ Hin' Hl He) as (h0 & c0 & ? & ? & ? & ?).
    exists rt, cb, h, h0, c0. split_and!; try done. exact (in_installed _ _ _ _ Hin').
  - right. split_and!; [done..|]. right. by exists h.
Qed.

Definition demo_runtime : spz_profile_runtime :=
  zero_profile_runtime <| pr_profile := Some profile_oneplus_plk110_a16_b4999618_d05 |> <| pr_symbols := replicate SPZ_SYMBOL_COUNT 4096 |>
    <| pr_state := SPZ_PROFILE_READY |> <| pr_hooks_allowed := 1 |>.

Definition demo_callbacks : spz_hook_callbacks :=
  {| hc_finish_before := 1; hc_finish_after := 2; hc_exit_before := 3; hc_break_before := 4;
     hc_watch_before := 5; hc_step_before := 6 |}.

(** A framework that refuses the fourth function. *)
Definition demo_framework : spz_hook_backend :=
  {| hb_wrap := Some (fun calls _ _ _ _ _ => if (length calls =? 3)%nat then - ENOMEM else 0);
     hb_unwrap := true; hb_quiesce := true |}.

Definition demo_set : spz_hook_set :=
  {| hs_backend := demo_framework; hs_callbacks := demo_callbacks; hs_targets := []; hs_installed := []; hs_udata := 0 |}.

(** Three functions are wrapped, the fourth is refused: three unwraps in reverse
    order and a quiescence. *)
Lemma hooks_all_or_nothing_witness :
  lingering [] = false /\
  let '(result, hooks', calls') :=
    spz_hooks_install (Some demo_set) (Some demo_runtime) (Some demo_framework) (Some demo_callbacks) 7 [] in
  result = - ENOMEM /\ in_effect calls' = [] /\ lingering calls' = false /\ length calls' = 8%nat /\
  take 4 calls' = [QuiesceCall; UnwrapCall 4096 1 2; UnwrapCall 4096 3 0; UnwrapCall 4096 4 0].
Proof.
  split; [reflexivity|].
  pose proof (hooks_all_or_nothing (Some demo_set) (Some demo_runtime) (Some demo_framework)
    (Some demo_callbacks) 7 [] eq_refl) as H.
  destruct (spz_hooks_install (Some demo_set) (Some demo_runtime) (Some demo_framework) (Some demo_callbacks) 7 [])
    as [[result hooks'] calls'] eqn:E.
  assert (Hresult : result = - ENOMEM) by (vm_compute in E; by inversion E).
  destruct H as [[H0 _]|(_ & He & Hl & _)]; [exfalso; rewrite Hresult in H0; discriminate H0|].
  split; [exact Hresult|]. split; [exact He|]. split; [exact Hl|].
  vm_compute in E. inversion E. split; reflexivity.
Defined.
