(* ===== verification/Render.v ===== *)
(** * Rendering a memory map (kpm/platform/kpatch/maps.c)

    The backend of the snapshots: it walks the areas of a task's address space
    with the kernel's own functions and lets the kernel print each of them into a
    buffer. The kernel functions are parameters that answer from the calls made so
    far; the calls are recorded, the newest first. *)

From S2P Require Import Prelude DeviceProfiles Profile Crc32 Maps MapsSpec.

Definition SPZ_MAPS_SEQ_STORAGE_MAX : Z := 256.
Definition SPZ_MAPS_PRIVATE_STORAGE_MAX : Z := 512.

(** ** Bounded accesses to the storage *)

Definition spz_maps_write_u64 (storage : list Z) (size offset value : Z) : option (list Z) :=
  if (size <? offset) || (size - offset <? 8) then None else Some (write_at storage offset (le_bytes 8 value)).

Definition spz_maps_write_u32 (storage : list Z) (size offset value : Z) : option (list Z) :=
  if (size <? offset) || (size - offset <? 4) then None else Some (write_at storage offset (le_bytes 4 value)).

Definition spz_maps_read_u64 (object : list Z) (object_size offset : Z) : option Z :=
  if (object_size <? offset) || (object_size - offset <? 8) then None else Some (read_u64 object offset).

(** ** The kernel *)

Inductive render_call :=
| call_allocate (size : Z) (result : option Z)
| call_free (data : Z)
| call_get_task_mm (task : Z) (result : option Z)
| call_mmput (mm : Z)
| call_read_lock (mm result : Z)
| call_read_unlock (mm : Z)
| call_find_vma (mm address : Z) (result : option (Z * list Z))
| call_mas_walk (iterator : list Z) (result : option Z)
| call_show_map_vma (vma : Z).

(** [ko_complete] says that no pointer of the table is NULL. [find_vma] gives the
    address of an area and its memory; [mas_walk] and [show_map_vma] get the
    memory behind their pointer arguments and give it back as they leave it, the
    latter the [seq_file], the private structure it points to and the buffer. *)
Record spz_maps_kernel_ops := {
  ko_complete : bool;
  ko_allocate : list render_call -> Z -> option Z;
  ko_get_task_mm : list render_call -> Z -> option Z;
  ko_mmap_read_lock_killable : list render_call -> Z -> Z;
  ko_find_vma : list render_call -> Z -> Z -> option (Z * list Z);
  ko_mas_walk : list render_call -> list Z -> option Z * list Z;
  ko_show_map_vma : list render_call -> list Z -> list Z -> list Z -> Z -> list Z * list Z * list Z;
}.

(** What the walk works on. *)
Record render_state := {
  rs_calls : list render_call;
  rs_seq : list Z;
  rs_private : list Z;
  rs_output : list Z;
  rs_cursor : Z;
  rs_count : Z;
}.

#[export] Instance render_state_shape : Shape render_state :=
  shape! Build_render_state < rs_calls ; rs_seq ; rs_private ; rs_output ; rs_cursor ; rs_count >.

Definition called (c : render_call) (st : render_state) : render_state := st <| rs_calls ::= cons c |>.

(** [data] and [length], the out-parameters, are never NULL here. *)
Definition spz_maps_render_arguments_valid (profile : option spz_device_profile) (ops : option spz_maps_kernel_ops)
    (task : option Z) : bool :=
  match profile, ops, task with
  | Some profile, Some ops, Some _ =>
      let maps := profile_maps profile in
      ko_complete ops &&
      negb (negb (mp_show_map_vma_args maps =? 2) || (mp_max_snapshot_bytes maps =? 0)
        || (SPZ_MAPS_MAX_SNAPSHOT_BYTES <? mp_max_snapshot_bytes maps)
        || (mp_seq_file_size maps =? 0) || (SPZ_MAPS_SEQ_STORAGE_MAX <? mp_seq_file_size maps)
        || (mp_proc_maps_private_size maps =? 0) || (SPZ_MAPS_PRIVATE_STORAGE_MAX <? mp_proc_maps_private_size maps)
        || (mp_vma_iterator_size maps =? 0) || (mp_proc_maps_private_size maps <? mp_proc_iter maps)
        || (mp_proc_maps_private_size maps - mp_proc_iter maps <? mp_vma_iterator_size maps))
  | _, _, _ => false
  end.

Section render.
Context (maps : spz_maps_profile) (ops : spz_maps_kernel_ops).

(** The iterator lies inside the private structure. *)
Definition iterator_of (private : list Z) : list Z :=
  take (Z.to_nat (mp_vma_iterator_size maps)) (drop (Z.to_nat (mp_proc_iter maps)) private).

(** The iterator, cleared and set to the start of an area. *)
Definition iterator_at (mm start : Z) : option (list Z) :=
  let size := mp_vma_iterator_size maps in
  let write offset value iterator := spz_maps_write_u64 iterator size offset value in
  it ← write (mp_mas_tree maps) (u64 (mm + mp_mm_mt maps)) (replicate (Z.to_nat size) 0);
  it ← write (mp_mas_index maps) start it;
  it ← write (mp_mas_last maps) start it;
  it ← write (mp_mas_node maps) (mp_mas_start_node maps) it;
  spz_maps_write_u32 it size (mp_mas_status maps) (mp_ma_start_status maps).

(** One round of the walk; it leaves with a result, 0 for the [break]. *)
Definition render_step (mm : Z) (st : render_state) : render_state + (Z * render_state) :=
  let found := ko_find_vma ops (rs_calls st) mm (rs_cursor st) in
  let st := called (call_find_vma mm (rs_cursor st) found) st in
  match found with
  | None => inr (0, st)
  | Some (vma, bytes) =>
      match spz_maps_read_u64 bytes (mp_vma_struct_size maps) (mp_vma_start maps),
            spz_maps_read_u64 bytes (mp_vma_struct_size maps) (mp_vma_end maps) with
      | Some vm_start, Some vm_end =>
          if (vm_start <? rs_cursor st) || (vm_end <=? vm_start) || (vm_end <=? rs_cursor st)
          then inr (- EUCLEAN, st)
          else
            match iterator_at mm vm_start with
            | None => inr (- ERANGE, st)
            | Some iterator =>
                let '(positioned, iterator') := ko_mas_walk ops (rs_calls st) iterator in
                let st := called (call_mas_walk iterator positioned)
                            (st <| rs_private ::= fun p => write_at p (mp_proc_iter maps) iterator' |>) in
                if bool_decide (positioned <> Some vma) then inr (- EUCLEAN, st)
                else
                  let '(seq, private, output) :=
                    ko_show_map_vma ops (rs_calls st) (rs_seq st) (rs_private st) (rs_output st) vma in
                  let st := called (call_show_map_vma vma)
                              (st <| rs_seq := seq |> <| rs_private := private |> <| rs_output := output |>) in
                  match spz_maps_read_u64 seq (mp_seq_file_size maps) (mp_seq_count maps) with
                  | None => inr (- ERANGE, st)
                  | Some count =>
                      let st := st <| rs_count := count |> in
                      if mp_max_snapshot_bytes maps <=? count then inr (- E2BIG, st)
                      else inl (st <| rs_cursor := vm_end |>)
                  end
            end
      | _, _ => inr (- EUCLEAN, st)
      end
  end.

(** The structures handed to the kernel's printing function; [private_address] is
    where the private one lies. *)
Definition render_storage (private_address output_address task mm : Z) : option (list Z * list Z) :=
  let seq_size := mp_seq_file_size maps in
  let private_size := mp_proc_maps_private_size maps in
  let write size offset value storage := spz_maps_write_u64 storage size offset value in
  seq ← write seq_size (mp_seq_buf maps) output_address (replicate (Z.to_nat SPZ_MAPS_SEQ_STORAGE_MAX) 0);
  seq ← write seq_size (mp_seq_size maps) (mp_max_snapshot_bytes maps) seq;
  seq ← write seq_size (mp_seq_private maps) private_address seq;
  private ← write private_size (mp_proc_task maps) task (replicate (Z.to_nat SPZ_MAPS_PRIVATE_STORAGE_MAX) 0);
  private ← write private_size (mp_proc_mm maps) mm private;
  Some (seq, private).

(** The rounds are at most [2^64]: each moves the cursor up. *)
Definition render_walk (mm : Z) (st : render_state) : Z * render_state :=
  match run_bounded (render_step mm) 64 st with
  | inl st => (- EUCLEAN, st)
  | inr (result, st) => (result, st)
  end.

(** Behind the lock: the result and the state. *)
Definition render_locked (private_address output_address task mm : Z) (calls : list render_call) :
    Z * render_state :=
  let output := replicate (Z.to_nat (mp_max_snapshot_bytes maps)) 0 in
  let st := {| rs_calls := calls; rs_seq := []; rs_private := []; rs_output := output; rs_cursor := 0; rs_count := 0 |} in
  match render_storage private_address output_address task mm with
  | None => (- ERANGE, st)
  | Some (seq, private) =>
      let '(result, st) := render_walk mm (st <| rs_seq := seq |> <| rs_private := private |>) in
      if negb (result =? 0) then (result, st)
      else if (rs_count st =? 0) || (UINT32_MAX <? rs_count st) then (- EUCLEAN, st)
      else (0, st)
  end.

(** The result, the buffer and the length given out, and the calls. *)
Definition render_vmas (private_address task : Z) (calls : list render_call) :
    Z * option buffer * Z * list render_call :=
  let allocated := ko_allocate ops calls (mp_max_snapshot_bytes maps) in
  let calls := call_allocate (mp_max_snapshot_bytes maps) allocated :: calls in
  match allocated with
  | None => (- ENOMEM, None, 0, calls)
  | Some output =>
      let found := ko_get_task_mm ops calls task in
      let calls := call_get_task_mm task found :: calls in
      match found with
      | None => (- ESRCH, None, 0, call_free output :: calls)
      | Some mm =>
          let result := ko_mmap_read_lock_killable ops calls mm in
          let calls := call_read_lock mm result :: calls in
          if negb (result =? 0)
          then (if 0 <? result then - EINTR else result, None, 0, call_free output :: call_mmput mm :: calls)
          else
            let '(result, st) := render_locked private_address output task mm calls in
            let calls := call_mmput mm :: call_read_unlock mm :: rs_calls st in
            if result =? 0
            then (0, Some {| buf_address := output; buf_bytes := rs_output st |}, u32 (rs_count st), calls)
            else (result, None, 0, call_free output :: calls)
      end
  end.
End render.

Definition spz_maps_render_vmas (profile : option spz_device_profile) (ops : option spz_maps_kernel_ops)
    (private_address : Z) (task : option Z) (calls : list render_call) :
    Z * option buffer * Z * list render_call :=
  if negb (spz_maps_render_arguments_valid profile ops task) then (- EINVAL, None, 0, calls)
  else
    match profile, ops, task with
    | Some profile, Some ops, Some task => render_vmas (profile_maps profile) ops private_address task calls
    | _, _, _ => (- EINVAL, None, 0, calls)
    end.

(** ** What the kernel promises

    The memory it points to holds bytes, and printing an area neither moves nor
    resizes the buffer. *)
Class KernelOps (ops : spz_maps_kernel_ops) := {
  find_vma_bytes calls mm address vma bytes :
    ko_find_vma ops calls mm address = Some (vma, bytes) -> is_bytes bytes;
  show_keeps calls seq private output vma :
    let '(seq', _, output') := ko_show_map_vma ops calls seq private output vma in
    (is_bytes seq -> is_bytes seq') /\ length output' = length output;
}.

(** ** The walk *)

(** The calls made while the lock is held. *)
Definition walk_call (c : render_call) : Prop :=
  match c with call_find_vma _ _ _ | call_mas_walk _ _ | call_show_map_vma _ => True | _ => False end.

Section walk.
Context (maps : spz_maps_profile) (ops : spz_maps_kernel_ops) {HK : KernelOps ops}.
Context (mm : Z) (calls0 : list render_call) (seq0 private0 output0 : list Z).

(** The bounds an area has in its memory. *)
Definition area_bounds (bytes : list Z) (vm_start vm_end : Z) : Prop :=
  spz_maps_read_u64 bytes (mp_vma_struct_size maps) (mp_vma_start maps) = Some vm_start /\
  spz_maps_read_u64 bytes (mp_vma_struct_size maps) (mp_vma_end maps) = Some vm_end.

(** The count in the [seq_file]. *)
Definition seq_counted (seq : list Z) (count : Z) : Prop :=
  spz_maps_read_u64 seq (mp_seq_file_size maps) (mp_seq_count maps) = Some count.

(** The areas printed so far, up to [cursor], with the kernel's answers: each was
    found from the end of the one before, begins there or later, is not empty, was
    positioned on by an iterator at its start, and was printed once, on what the
    printing before it left. *)
Inductive walked : Z -> list render_call -> list Z -> list Z -> list Z -> Prop :=
| walked_start : walked 0 [] seq0 private0 output0
| walked_area cursor body seq private output vma bytes vm_start vm_end iterator iterator' seq' private' output' count :
    walked cursor body seq private output ->
    let found := call_find_vma mm cursor (Some (vma, bytes)) in
    let positioned := call_mas_walk iterator (Some vma) in
    ko_find_vma ops (body ++ calls0) mm cursor = Some (vma, bytes) ->
    area_bounds bytes vm_start vm_end -> cursor <= vm_start < vm_end ->
    iterator_at maps mm vm_start = Some iterator ->
    ko_mas_walk ops (found :: body ++ calls0) iterator = (Some vma, iterator') ->
    ko_show_map_vma ops (positioned :: found :: body ++ calls0) seq (write_at private (mp_proc_iter maps) iterator') output vma =
      (seq', private', output') ->
    seq_counted seq' count -> count < mp_max_snapshot_bytes maps ->
    walked vm_end (call_show_map_vma vma :: positioned :: found :: body) seq' private' output'.

(** Why a walk stops: an area that is not sound, an iterator or a count outside its
    structure, an iterator positioned elsewhere, a text that fills the buffer, or no
    text at all. *)
Inductive stopped : Z -> list render_call -> Prop :=
| stopped_area cursor body seq private output vma bytes :
    walked cursor body seq private output -> ko_find_vma ops (body ++ calls0) mm cursor = Some (vma, bytes) ->
    (forall vm_start vm_end, area_bounds bytes vm_start vm_end -> ~ cursor <= vm_start < vm_end) ->
    stopped (- EUCLEAN) (call_find_vma mm cursor (Some (vma, bytes)) :: body)
| stopped_iterator cursor body seq private output vma bytes vm_start vm_end :
    walked cursor body seq private output -> ko_find_vma ops (body ++ calls0) mm cursor = Some (vma, bytes) ->
    area_bounds bytes vm_start vm_end -> cursor <= vm_start < vm_end -> iterator_at maps mm vm_start = None ->
    stopped (- ERANGE) (call_find_vma mm cursor (Some (vma, bytes)) :: body)
| stopped_position cursor body seq private output vma bytes vm_start vm_end iterator elsewhere :
    walked cursor body seq private output -> ko_find_vma ops (body ++ calls0) mm cursor = Some (vma, bytes) ->
    area_bounds bytes vm_start vm_end -> cursor <= vm_start < vm_end -> iterator_at maps mm vm_start = Some iterator ->
    let found := call_find_vma mm cursor (Some (vma, bytes)) in
    (ko_mas_walk ops (found :: body ++ calls0) iterator).1 = elsewhere -> elsewhere <> Some vma ->
    stopped (- EUCLEAN) (call_mas_walk iterator elsewhere :: found :: body)
| stopped_text cursor body seq private output vma bytes vm_start vm_end iterator iterator' seq' private' output' error :
    walked cursor body seq private output -> ko_find_vma ops (body ++ calls0) mm cursor = Some (vma, bytes) ->
    area_bounds bytes vm_start vm_end -> cursor <= vm_start < vm_end -> iterator_at maps mm vm_start = Some iterator ->
    let found := call_find_vma mm cursor (Some (vma, bytes)) in
    let positioned := call_mas_walk iterator (Some vma) in
    ko_mas_walk ops (found :: body ++ calls0) iterator = (Some vma, iterator') ->
    ko_show_map_vma ops (positioned :: found :: body ++ calls0) seq (write_at private (mp_proc_iter maps) iterator') output vma =
      (seq', private', output') ->
    (error = - ERANGE /\ (forall count, ~ seq_counted seq' count)) \/
    (error = - E2BIG /\ exists count, seq_counted seq' count /\ mp_max_snapshot_bytes maps <= count) ->
    stopped error (call_show_map_vma vma :: positioned :: found :: body)
| stopped_empty cursor body seq private output :
    walked cursor body seq private output -> ko_find_vma ops (body ++ calls0) mm cursor = None ->
    body = [] \/ seq_counted seq 0 ->
    stopped (- EUCLEAN) (call_find_vma mm cursor None :: body).

Lemma walked_calls cursor body seq private output : walked cursor body seq private output -> Forall walk_call body.
Proof. induction 1; [constructor|]. do 3 (constructor; [done|]). done. Qed.

Lemma stopped_calls error tail : stopped error tail -> error <> 0 /\ Forall walk_call tail.
Proof.
  destruct 1 as [|????????? H|????????? ?? H|????????????????????? H|????? H];
    match goal with W : walked _ _ _ _ _ |- _ => apply walked_calls in W end;
    (split; [try done|repeat (constructor; [done|]); done]).
  by match goal with E : _ \/ _ |- _ => destruct E as [[-> _]|[-> _]] end.
Qed.

Record walking (st : render_state) : Prop := {
  wk_calls : exists body, rs_calls st = body ++ calls0 /\
    walked (rs_cursor st) body (rs_seq st) (rs_private st) (rs_output st) /\
    (body = [] /\ rs_count st = 0 \/ body <> [] /\ seq_counted (rs_seq st) (rs_count st));
  wk_cursor : is_u64 (rs_cursor st);
  wk_seq : is_bytes (rs_seq st);
  wk_output : length (rs_output st) = Z.to_nat (mp_max_snapshot_bytes maps);
  wk_count : 0 <= rs_count st < mp_max_snapshot_bytes maps;
}.

(** How the walk leaves: the areas all printed, or stopped. *)
Definition walk_left (out : Z * render_state) : Prop :=
  let '(result, st) := out in
  if result =? 0 then
    length (rs_output st) = Z.to_nat (mp_max_snapshot_bytes maps) /\
    exists cursor body, rs_calls st = (call_find_vma mm cursor None :: body) ++ calls0 /\
      walked cursor body (rs_seq st) (rs_private st) (rs_output st) /\
      ko_find_vma ops (body ++ calls0) mm cursor = None /\
      (body = [] /\ rs_count st = 0 \/ body <> [] /\ seq_counted (rs_seq st) (rs_count st)) /\
      0 <= rs_count st < mp_max_snapshot_bytes maps
  else exists tail, rs_calls st = tail ++ calls0 /\ stopped result tail.

Lemma failed_left error st tail : rs_calls st = tail ++ calls0 -> stopped error tail -> walk_left (error, st).
Proof. intros Hc Hs. unfold walk_left. rewrite eqb_ne by apply (stopped_calls _ _ Hs). by exists tail. Qed.

Lemma read_u64_inr object size offset v :
  is_bytes object -> spz_maps_read_u64 object size offset = Some v -> is_u64 v.
Proof. unfold spz_maps_read_u64. intros Hb. case_match; [done|]. intros [= <-]. by apply read_u64_range. Qed.

Lemma render_step_spec st :
  walking st ->
  match render_step maps ops mm st with
  | inl st' => walking st' /\ rs_cursor st < rs_cursor st'
  | inr out => walk_left out
  end.
Proof.
  intros [(body & Hcalls & Hwalked & Hcounted) Hcur Hsb Hout Hcount].
  unfold render_step. rewrite Hcalls.
  destruct (ko_find_vma ops (body ++ calls0) mm (rs_cursor st)) as [[vma bytes]|] eqn:Hfind.
  2:{ split; [done|]. exists (rs_cursor st), body. cbn. by rewrite Hcalls. }
  set (found := call_find_vma mm (rs_cursor st) (Some (vma, bytes))).
  assert (rs_calls (called found st) = (found :: body) ++ calls0) as Hcalls1 by (cbn; by rewrite Hcalls).
  set (st1 := called found st) in *. change (rs_cursor st1) with (rs_cursor st).
  pose proof (find_vma_bytes _ _ _ _ _ Hfind) as Hbytes.
  destruct (spz_maps_read_u64 bytes _ (mp_vma_start maps)) as [vm_start|] eqn:Hs.
  2:{ eapply failed_left, stopped_area; [done..|]. intros ?? [? ?]. congruence. }
  destruct (spz_maps_read_u64 bytes _ (mp_vma_end maps)) as [vm_end|] eqn:He.
  2:{ eapply failed_left, stopped_area; [done..|]. intros ?? [? ?]. congruence. }
  assert (area_bounds bytes vm_start vm_end) as Hb by done.
  destruct (_ || _ || _) eqn:Hguard.
  { eapply failed_left, stopped_area; [done..|]. intros s' e' [Hs' He'] ?. simplify_eq.
    rewrite !orb_true_iff in Hguard. lia. }
  apply orb_false_iff in Hguard as [[Hg1 Hg2]%orb_false_iff Hg3].
  assert (rs_cursor st <= vm_start < vm_end) as Hrange by lia.
  destruct (iterator_at maps mm vm_start) as [iterator|] eqn:Hit; [|eapply failed_left, stopped_iterator; done].
  rewrite Hcalls1. cbn [app].
  destruct (ko_mas_walk ops (found :: body ++ calls0) iterator) as [positioned iterator'] eqn:Hwalk.
  set (walk := call_mas_walk iterator positioned). set (st2 := called walk _).
  assert (rs_calls st2 = (walk :: found :: body) ++ calls0) as Hcalls2 by (cbn; by rewrite Hcalls).
  case_bool_decide as Hpos; [eapply failed_left, stopped_position; try done; fold found; by rewrite Hwalk|].
  subst positioned. rewrite Hcalls2. cbn [app].
  change (rs_seq st2) with (rs_seq st). change (rs_output st2) with (rs_output st).
  change (rs_private st2) with (write_at (rs_private st) (mp_proc_iter maps) iterator').
  pose proof (show_keeps (walk :: found :: body ++ calls0) (rs_seq st) (write_at (rs_private st) (mp_proc_iter maps) iterator')
    (rs_output st) vma) as Hshow.
  destruct (ko_show_map_vma _ _ _ _ _ _) as [[seq private] output] eqn:Eshow. destruct Hshow as [Hseq Hlen]. specialize (Hseq Hsb).
  set (shown := call_show_map_vma vma). set (st3 := called shown _).
  assert (rs_calls st3 = (shown :: walk :: found :: body) ++ calls0) as Hcalls3 by (cbn; by rewrite Hcalls).
  destruct (spz_maps_read_u64 seq _ _) as [count|] eqn:Hc.
  2:{ eapply failed_left, stopped_text; try done. left. split; [done|]. intros c Hc'. unfold seq_counted in Hc'. congruence. }
  destruct (_ <=? count) eqn:Hbig.
  { eapply failed_left, stopped_text; try done. right. split; [done|]. exists count. split; [done|lia]. }
  pose proof (read_u64_inr _ _ _ _ Hseq Hc). pose proof (read_u64_inr _ _ _ _ Hbytes He).
  split; [|cbn; lia]. split; [|done|done|cbn; by rewrite <- Hout|cbn; lia].
  exists (shown :: walk :: found :: body). split; [done|]. split; [|by right].
  by apply (walked_area (rs_cursor st) body (rs_seq st) (rs_private st) (rs_output st) vma bytes vm_start vm_end iterator iterator'
    seq private output count); [..|lia].
Qed.

(** The cursor only moves up, so the walk ends within [2^64] rounds. *)
Lemma render_walk_runs st : walking st -> exists out, run_bounded (render_step maps ops mm) 64 st = inr out.
Proof.
  intros Hst. apply (run_bounded_ends _ walking (fun st => UINT64_MAX - rs_cursor st)); [|done|].
  - intros s s' Hs E. pose proof (render_step_spec s Hs) as H. rewrite E in H. destruct H as [H ?].
    split; [done|]. pose proof (wk_cursor _ H). unfold UINT64_MAX. lia.
  - pose proof (wk_cursor _ Hst). change (2 ^ Z.of_nat 64) with 18446744073709551616. unfold UINT64_MAX. lia.
Qed.

Lemma render_walk_left st : walking st -> walk_left (render_walk maps ops mm st).
Proof.
  intros Hst. pose proof (run_bounded_inv (render_step maps ops mm) walking walk_left) as H.
  unfold render_walk. destruct (render_walk_runs st Hst) as [[result st'] E]. specialize (fun X => H X 64%nat st Hst).
  rewrite E in *. apply H. intros s Hs. pose proof (render_step_spec s Hs). by case_match; [destruct H0|].
Qed.
End walk.

(** ** Outcomes *)

(** What a rendering gives out and the calls it made, newest first. A rendering that
    succeeds gives out the buffer as the last printing left it and the count that
    printing left in the [seq_file]. *)
Inductive render_outcome (maps : spz_maps_profile) (ops : spz_maps_kernel_ops) (private_address task : Z)
    (calls : list render_call) : Z -> option buffer -> Z -> list render_call -> Prop :=
| outcome_no_memory :
    let max := mp_max_snapshot_bytes maps in
    ko_allocate ops calls max = None ->
    render_outcome maps ops private_address task calls (- ENOMEM) None 0 (call_allocate max None :: calls)
| outcome_no_mm output :
    let calls1 := call_allocate (mp_max_snapshot_bytes maps) (Some output) :: calls in
    ko_get_task_mm ops calls1 task = None ->
    render_outcome maps ops private_address task calls (- ESRCH) None 0
      (call_free output :: call_get_task_mm task None :: calls1)
| outcome_not_locked output mm result :
    let calls1 := call_get_task_mm task (Some mm) :: call_allocate (mp_max_snapshot_bytes maps) (Some output) :: calls in
    ko_mmap_read_lock_killable ops calls1 mm = result -> result <> 0 ->
    render_outcome maps ops private_address task calls (if 0 <? result then - EINTR else result) None 0
      (call_free output :: call_mmput mm :: call_read_lock mm result :: calls1)
| outcome_no_storage output mm :
    let calls1 := call_read_lock mm 0 :: call_get_task_mm task (Some mm)
      :: call_allocate (mp_max_snapshot_bytes maps) (Some output) :: calls in
    render_storage maps private_address output task mm = None ->
    render_outcome maps ops private_address task calls (- ERANGE) None 0
      (call_free output :: call_mmput mm :: call_read_unlock mm :: calls1)
| outcome_failed output mm seq private result tail :
    let calls1 := call_read_lock mm 0 :: call_get_task_mm task (Some mm)
      :: call_allocate (mp_max_snapshot_bytes maps) (Some output) :: calls in
    render_storage maps private_address output task mm = Some (seq, private) ->
    stopped maps ops mm calls1 seq private (replicate (Z.to_nat (mp_max_snapshot_bytes maps)) 0) result tail ->
    render_outcome maps ops private_address task calls result None 0
      (call_free output :: call_mmput mm :: call_read_unlock mm :: tail ++ calls1)
| outcome_rendered output mm seq private cursor body seq' private' bytes count :
    let calls1 := call_read_lock mm 0 :: call_get_task_mm task (Some mm)
      :: call_allocate (mp_max_snapshot_bytes maps) (Some output) :: calls in
    render_storage maps private_address output task mm = Some (seq, private) ->
    walked maps ops mm calls1 seq private (replicate (Z.to_nat (mp_max_snapshot_bytes maps)) 0) cursor body seq' private' bytes ->
    ko_find_vma ops (body ++ calls1) mm cursor = None ->
    seq_counted maps seq' count -> 0 < count < mp_max_snapshot_bytes maps ->
    length bytes = Z.to_nat (mp_max_snapshot_bytes maps) ->
    render_outcome maps ops private_address task calls 0 (Some {| buf_address := output; buf_bytes := bytes |}) count
      (call_mmput mm :: call_read_unlock mm :: call_find_vma mm cursor None :: body ++ calls1).

Section outcome.
Context (profile : spz_device_profile) (ops : spz_maps_kernel_ops) {HK : KernelOps ops}.
Let maps := profile_maps profile.
Context (Hmax : 0 < mp_max_snapshot_bytes maps <= SPZ_MAPS_MAX_SNAPSHOT_BYTES).

Lemma write_u64_bytes storage size offset value storage' :
  is_bytes storage -> spz_maps_write_u64 storage size offset value = Some storage' -> is_bytes storage'.
Proof. unfold spz_maps_write_u64. intros Hb. case_match; [done|]. intros [= <-]. auto with spz. Qed.

Lemma render_storage_bytes private_address output task mm seq private :
  render_storage maps private_address output task mm = Some (seq, private) -> is_bytes seq.
Proof.
  unfold render_storage. intros (s1 & H1 & (s2 & H2 & (s3 & H3 & (? & _ & (? & _ & [= <- <-])%bind_Some)%bind_Some)
    %bind_Some)%bind_Some)%bind_Some.
  repeat (eapply write_u64_bytes; [|eassumption]). apply Forall_replicate. lia.
Qed.

(** Behind the lock: no room for the structures, the walk stopped, or the areas are all printed. *)
Lemma render_locked_left private_address output task mm calls :
  let '(result, st) := render_locked maps ops private_address output task mm calls in
  (result = - ERANGE /\ rs_calls st = calls /\ render_storage maps private_address output task mm = None) \/
  exists seq private, render_storage maps private_address output task mm = Some (seq, private) /\
    walk_left maps ops mm calls seq private (replicate (Z.to_nat (mp_max_snapshot_bytes maps)) 0) (result, st) /\
    (result = 0 -> rs_count st <> 0).
Proof.
  unfold render_locked. set (st0 := {| rs_calls := calls |}).
  destruct (render_storage maps private_address output task mm) as [[seq private]|] eqn:Hst; [|cbv beta iota; by left].
  pose proof (render_walk_left maps ops mm calls seq private (rs_output st0) (st0 <| rs_seq := seq |> <| rs_private := private |>)) as Hleft.
  specialize (Hleft ltac:(split; [exists []; split; [done|]; split; [constructor|by left]|cbn; lia
    |by eapply render_storage_bytes|apply length_replicate|cbn; lia])).
  destruct (render_walk _ _ _ _) as [result st]. destruct (result =? 0) eqn:Hr; cbn [negb].
  2:{ right. exists seq, private. split_and!; [done..|lia]. }
  apply Z.eqb_eq in Hr as ->.
  destruct (_ || _) eqn:Hc; right; exists seq, private; (split; [done|]).
  2:{ apply orb_false_iff in Hc as [? _]. split; [done|lia]. }
  split; [|done]. destruct Hleft as (Hout & cursor & body & Hcalls & Hw & Hnone & Hcounted & Hrange).
  eapply failed_left; [exact Hcalls|]. eapply stopped_empty; [done..|].
  destruct Hcounted as [[-> _]|[_ H]]; [by left|right]. assert (rs_count st = 0) as <-; [|done].
  apply orb_true_iff in Hc as [?|?]; unfold SPZ_MAPS_MAX_SNAPSHOT_BYTES, UINT32_MAX in *; lia.
Qed.

Lemma render_vmas_outcome private_address task calls result data length calls' :
  render_vmas maps ops private_address task calls = (result, data, length, calls') ->
  render_outcome maps ops private_address task calls result data length calls'.
Proof.
  unfold render_vmas. destruct (ko_allocate _ _ _) as [output|] eqn:Ha; [|intros [= <- <- <- <-]; by constructor].
  destruct (ko_get_task_mm _ _ _) as [mm|] eqn:Hm; [|intros [= <- <- <- <-]; by constructor].
  set (locking := ko_mmap_read_lock_killable _ _ _). destruct (locking =? 0) eqn:Hl; cbn [negb].
  2:{ intros [= <- <- <- <-]. constructor; [done|]. unfold locking in Hl. lia. }
  apply Z.eqb_eq in Hl. rewrite Hl.
  set (calls1 := call_read_lock mm 0 :: _). pose proof (render_locked_left private_address output task mm calls1) as H.
  destruct (render_locked _ _ _ _ _ _ _) as [r st].
  destruct H as [(-> & Hcalls & Hs)|(seq & private & Hs & Hleft & Hcount)].
  { intros [= <- <- <- <-]. rewrite Hcalls. by apply outcome_no_storage. }
  unfold walk_left in Hleft. destruct (r =? 0) eqn:Hr.
  - apply Z.eqb_eq in Hr as ->. specialize (Hcount eq_refl).
    destruct Hleft as (Hout & cursor & body & -> & Hw & Hnone & Hcounted & Hc).
    intros [= <- <- <- <-]. replace (u32 (rs_count st)) with (rs_count st)
      by (unfold SPZ_MAPS_MAX_SNAPSHOT_BYTES in *; zlia).
    destruct Hcounted as [[_ ?]|[_ Hcounted]]; [done|]. eapply outcome_rendered; [done..| |done]. lia.
  - destruct Hleft as (tail & -> & Htail). intros [= <- <- <- <-]. by eapply outcome_failed.
Qed.
End outcome.

Lemma arguments_valid_max profile ops task :
  spz_maps_render_arguments_valid (Some profile) (Some ops) (Some task) = true ->
  mp_max_snapshot_bytes (profile_maps profile) <> 0 /\
  mp_max_snapshot_bytes (profile_maps profile) <= SPZ_MAPS_MAX_SNAPSHOT_BYTES.
Proof.
  unfold spz_maps_render_arguments_valid. intros [_ H]%andb_true_iff. apply negb_true_iff in H.
  repeat (apply orb_false_iff in H as [H ?]). lia.
Qed.

Lemma render_vmas_spec profile ops private_address task calls {HK : KernelOps ops} :
  0 <= mp_max_snapshot_bytes (profile_maps profile) ->
  let '(result, data, length, calls') :=
    spz_maps_render_vmas (Some profile) (Some ops) private_address (Some task) calls in
  if spz_maps_render_arguments_valid (Some profile) (Some ops) (Some task)
  then render_outcome (profile_maps profile) ops private_address task calls result data length calls'
  else (result, data, length, calls') = (- EINVAL, None, 0, calls).
Proof.
  intros Hmax. unfold spz_maps_render_vmas.
  destruct (spz_maps_render_arguments_valid _ _ _) eqn:Hv; cbn [negb]; [|done].
  apply arguments_valid_max in Hv. destruct (render_vmas _ _ _ _ _) as [[[r d] l] c] eqn:E.
  apply (render_vmas_outcome profile ops ltac:(lia) _ _ _ _ _ _ _ E).
Qed.

(** C23: what a rendering does with the kernel. Arguments that do not fit give EINVAL
    and no call. Otherwise the calls and the result are those of one of six outcomes:
    every lock taken is released, every address space obtained is put, the buffer is
    freed unless it is given out, areas are looked up and printed only while the lock
    is held, and an error is the one of the answer that caused it. A rendering that
    succeeds has printed every area [find_vma] reports, from address 0 until it
    reports none, each once, in ascending order and without overlap, each with its
    iterator at its start and on what the printing before it left; the bytes given out are
    those the last printing left in the buffer, and the length is the count it left
    in the [seq_file], more than 0 and less than the buffer. *)
Theorem render_gives_back profile ops private_address task calls :
  KernelOps ops -> 0 <= mp_max_snapshot_bytes (profile_maps profile) ->
  let '(result, data, length, calls') :=
    spz_maps_render_vmas (Some profile) (Some ops) private_address (Some task) calls in
  if spz_maps_render_arguments_valid (Some profile) (Some ops) (Some task)
  then render_outcome (profile_maps profile) ops private_address task calls result data length calls'
  else (result, data, length, calls') = (- EINVAL, None, 0, calls).
Proof. intros HK. by apply (render_vmas_spec profile ops). Qed.

(** C24: the walk over the areas ends. Each round that goes on moves the cursor
    strictly up, whatever the kernel reports, so that the loop leaves within
    [2^64] rounds. *)
Theorem render_loop_terminates maps ops mm st :
  KernelOps ops -> is_u64 (rs_cursor st) ->
  exists result st', run_bounded (render_step maps ops mm) 64 st = inr (result, st').
Proof.
  intros HK Hcur.
  destruct (run_bounded_ends (render_step maps ops mm) (fun st => is_u64 (rs_cursor st))
    (fun st => UINT64_MAX - rs_cursor st)) with (n := 64%nat) (s := st) as [[result st'] E]; eauto.
  - intros s s' Hs. unfold render_step.
    destruct (ko_find_vma _ _ _ _) as [[vma bytes]|] eqn:Hfind; [|done].
    pose proof (find_vma_bytes _ _ _ _ _ Hfind) as Hbytes.
    destruct (spz_maps_read_u64 bytes _ (mp_vma_start maps)) as [vm_start|]; [|done].
    destruct (spz_maps_read_u64 bytes _ (mp_vma_end maps)) as [vm_end|] eqn:He; [|done].
    apply read_u64_inr in He; [|done]. destruct (_ || _ || _) eqn:Hg; [done|].
    apply orb_false_iff in Hg as [_ Hg]. change ((vm_end <=? rs_cursor s) = false) in Hg.
    repeat case_match; try done. intros [= <-]. unfold UINT64_MAX. cbn. lia.
  - change (2 ^ Z.of_nat 64) with 18446744073709551616. unfold UINT64_MAX. lia.
Qed.

(** ** An example kernel: two areas, five bytes printed for each *)

Definition demo_area (start vm_end : Z) : list Z := le_bytes 8 start ++ le_bytes 8 vm_end ++ replicate 240 0.

Definition demo_show (seq private output : list Z) : list Z * list Z * list Z :=
  let count := read_u64 seq 24 in
  if (count <? 0) || (Z.of_nat (length output) <? count + 5) then (seq, private, output)
  else (write_at seq 24 (le_bytes 8 (count + 5)), private, write_at output count (str "area ")).

Definition demo_kernel : spz_maps_kernel_ops :=
  {| ko_complete := true; ko_allocate := fun _ _ => Some 65536; ko_get_task_mm := fun _ _ => Some 4096;
     ko_mmap_read_lock_killable := fun _ _ => 0;
     ko_find_vma := fun _ _ address =>
       if address <? 8192 then Some (1, demo_area 4096 8192)
       else if address <? 16384 then Some (2, demo_area 12288 16384) else None;
     ko_mas_walk := fun _ iterator => (Some (if read_u64 iterator 8 =? 4096 then 1 else 2), iterator);
     ko_show_map_vma := fun _ seq private output _ => demo_show seq private output |}.

#[export] Instance demo_kernel_sound : KernelOps demo_kernel.
Proof.
  split.
  - intros calls mm address vma bytes. cbn.
    repeat case_match; intros [= <- <-]; repeat (apply is_bytes_app; split); auto with spz;
      apply Forall_replicate; lia.
  - intros calls seq private output vma. cbn. unfold demo_show.
    destruct (_ || _) eqn:E; [done|]. apply orb_false_iff in E as [E1 E2]. split; [auto with spz|].
    apply length_write_at. cbn. lia.
Qed.

(** The shipped profile with a small buffer. *)
Definition demo_profile : spz_device_profile :=
  let p := profile_oneplus_plk110_a16_b4999618_d05 in
  let m := profile_maps p in
  {| profile_id := profile_id p; profile_product := profile_product p; profile_kernel := profile_kernel p;
     profile_kpatch := profile_kpatch p; profile_task := profile_task p; profile_cred := profile_cred p;
     profile_perf_event := profile_perf_event p; profile_debug := profile_debug p; profile_layout := profile_layout p;
     profile_maps :=
       {| mp_max_snapshot_bytes := 32; mp_max_chunk_bytes := 8; mp_seq_file_size := mp_seq_file_size m;
          mp_seq_buf := mp_seq_buf m; mp_seq_size := mp_seq_size m; mp_seq_from := mp_seq_from m;
          mp_seq_count := mp_seq_count m; mp_seq_pad_until := mp_seq_pad_until m; mp_seq_private := mp_seq_private m;
          mp_proc_maps_private_size := mp_proc_maps_private_size m; mp_proc_task := mp_proc_task m;
          mp_proc_mm := mp_proc_mm m; mp_proc_iter := mp_proc_iter m; mp_vma_iterator_size := mp_vma_iterator_size m;
          mp_mas_tree := mp_mas_tree m; mp_mas_index := mp_mas_index m; mp_mas_last := mp_mas_last m;
          mp_mas_node := mp_mas_node m; mp_mas_status := mp_mas_status m; mp_mm_struct_size := mp_mm_struct_size m;
          mp_mm_mt := mp_mm_mt m; mp_vma_struct_size := mp_vma_struct_size m; mp_vma_start := mp_vma_start m;
          mp_vma_end := mp_vma_end m; mp_mas_start_node := mp_mas_start_node m;
          mp_ma_start_status := mp_ma_start_status m; mp_show_map_vma_args := mp_show_map_vma_args m |};
     profile_symbols := profile_symbols p; profile_hooks := profile_hooks p; profile_quirks := profile_quirks p |}.

Definition demo_rendering : Z * option buffer * Z * list render_call := Eval vm_compute in
  spz_maps_render_vmas (Some demo_profile) (Some demo_kernel) 512 (Some 100) [].

(** The two areas are printed in order, and nothing but the buffer is kept. *)
Lemma render_gives_back_witness :
  let '(result, data, length, calls') := demo_rendering in
  result = 0 /\ length = 10 /\ (take 10 <$> (buf_bytes <$> data)) = Some (str "area area ") /\
  render_outcome (profile_maps demo_profile) demo_kernel 512 100 [] result data length calls'.
Proof.
  pose proof (render_gives_back demo_profile demo_kernel 512 100 [] demo_kernel_sound ltac:(vm_compute; discriminate)) as H.
  assert (spz_maps_render_vmas (Some demo_profile) (Some demo_kernel) 512 (Some 100) [] = demo_rendering) as E
    by (vm_compute; reflexivity).
  rewrite E in H.
  split; [reflexivity|]. split; [reflexivity|]. split; [reflexivity|]. exact H.
Defined.

Definition demo_walk_state : render_state :=
  {| rs_calls := []; rs_seq := replicate 256 0; rs_private := replicate 512 0; rs_output := replicate 32 0;
     rs_cursor := 0; rs_count := 0 |}.

Lemma render_loop_terminates_witness :
  exists result st',
    run_bounded (render_step (profile_maps demo_profile) demo_kernel 4096) 64 demo_walk_state = inr (result, st') /\
    result = 0 /\ rs_cursor st' = 16384.
Proof.
  destruct (render_loop_terminates (profile_maps demo_profile) demo_kernel 4096 demo_walk_state demo_kernel_sound)
    as (result & st' & E); [cbn; lia|].
  exists result, st'. split; [exact E|]. vm_compute in E. injection E as <- <-. split; reflexivity.
Defined.
