(* ===== verification/KpatchMaps.v ===== *)
(** * The snapshot backend of the kernel module (kpm/platform/kpatch/maps.c)

    The kernel functions behind the renderer are called through addresses found in
    the symbol table. The backend is offered to the snapshots only when every one
    of them was found; it then keeps the promise [MapsBackend] that the theorems
    about the snapshots rely on. *)

From S2P Require Import Prelude DeviceProfiles Profile Crc32 Maps MapsSpec Render.

(** The part of [struct spz_kpatch_runtime_context] resolved for the backend. *)
Record maps_addresses := {
  ad_show_map_vma : Z;
  ad_find_vma : Z;
  ad_mas_walk : Z;
  ad_get_task_mm : Z;
  ad_mmput : Z;
  ad_mmap_read_lock_killable : Z;
  ad_mmap_read_unlock : Z;
  ad_get_task_struct : Z;
  ad_put_task_struct : Z;
  ad_vmalloc : Z;
  ad_vfree : Z;
}.

(** [kallsyms_lookup_name], [None] when the framework does not export it. *)
Definition spz_kpatch_maps_lookup (kallsyms : option (list Z -> Z)) (name : option (list Z)) : Z :=
  match name, kallsyms with
  | Some name, Some lookup => lookup name
  | _, _ => 0
  end.

Definition resolve_maps (kallsyms : option (list Z -> Z)) (symbols : spz_symbols_profile) : maps_addresses :=
  let resolve := spz_kpatch_maps_lookup kallsyms in
  {| ad_show_map_vma := resolve (sp_show_map_vma symbols); ad_find_vma := resolve (sp_find_vma symbols);
     ad_mas_walk := resolve (sp_mas_walk symbols); ad_get_task_mm := resolve (sp_get_task_mm symbols);
     ad_mmput := resolve (sp_mmput symbols);
     ad_mmap_read_lock_killable := resolve (sp_mmap_read_lock_killable symbols);
     ad_mmap_read_unlock := resolve (sp_mmap_read_unlock symbols);
     ad_get_task_struct := resolve (sp_rust_helper_get_task_struct symbols);
     ad_put_task_struct := resolve (sp_rust_helper_put_task_struct symbols);
     ad_vmalloc := resolve (sp_vmalloc_noprof symbols); ad_vfree := resolve (sp_vfree symbols) |}.

Definition maps_unresolved (a : maps_addresses) : bool :=
  (ad_show_map_vma a =? 0) || (ad_find_vma a =? 0) || (ad_mas_walk a =? 0) || (ad_get_task_mm a =? 0)
  || (ad_mmput a =? 0) || (ad_mmap_read_lock_killable a =? 0) || (ad_mmap_read_unlock a =? 0)
  || (ad_get_task_struct a =? 0) || (ad_put_task_struct a =? 0) || (ad_vmalloc a =? 0) || (ad_vfree a =? 0).

(** ** Calls through the addresses

    [kernel] are the kernel's functions; at a zero address there is none to call.
    The three that return nothing are recorded by the renderer itself. *)
Section calls.
Context (a : maps_addresses) (kernel : spz_maps_kernel_ops).

Definition spz_kpatch_maps_allocate (calls : list render_call) (size : Z) : option Z :=
  if ad_vmalloc a =? 0 then None else ko_allocate kernel calls size.

Definition spz_kpatch_maps_get_mm (calls : list render_call) (task : Z) : option Z :=
  if ad_get_task_mm a =? 0 then None else ko_get_task_mm kernel calls task.

Definition spz_kpatch_maps_lock (calls : list render_call) (mm : Z) : Z :=
  if ad_mmap_read_lock_killable a =? 0 then - ENOENT else ko_mmap_read_lock_killable kernel calls mm.

Definition spz_kpatch_maps_find_vma (calls : list render_call) (mm address : Z) : option (Z * list Z) :=
  if ad_find_vma a =? 0 then None else ko_find_vma kernel calls mm address.

Definition spz_kpatch_maps_mas_walk (calls : list render_call) (iterator : list Z) : option Z * list Z :=
  if ad_mas_walk a =? 0 then (None, iterator) else ko_mas_walk kernel calls iterator.

Definition spz_kpatch_maps_show (calls : list render_call) (seq private output : list Z) (vma : Z) :
    list Z * list Z * list Z :=
  if ad_show_map_vma a =? 0 then (seq, private, output) else ko_show_map_vma kernel calls seq private output vma.

Definition kpatch_maps_ops : spz_maps_kernel_ops :=
  {| ko_complete := true; ko_allocate := spz_kpatch_maps_allocate; ko_get_task_mm := spz_kpatch_maps_get_mm;
     ko_mmap_read_lock_killable := spz_kpatch_maps_lock; ko_find_vma := spz_kpatch_maps_find_vma;
     ko_mas_walk := spz_kpatch_maps_mas_walk; ko_show_map_vma := spz_kpatch_maps_show |}.
End calls.

Definition spz_kpatch_maps_retain_task (a : maps_addresses) (task : Z) : Z :=
  if ad_get_task_struct a =? 0 then - ENOENT else 0.

(** The kernel answers a rendering from the snapshot calls before it. *)
Definition spz_kpatch_maps_render (profile : spz_device_profile) (a : maps_addresses)
    (kernel : list maps_call -> spz_maps_kernel_ops) (private_address : Z)
    (calls : list maps_call) (task : Z) : Z * option buffer * Z :=
  let '(result, data, length, _) :=
    spz_maps_render_vmas (Some profile) (Some (kpatch_maps_ops a (kernel calls))) private_address (Some task) [] in
  (result, data, length).

(** The result and the backend, which stays empty when a symbol is missing. *)
Definition spz_kpatch_maps_backend_init (profile : option spz_device_profile) (kallsyms : option (list Z -> Z))
    (kernel : list maps_call -> spz_maps_kernel_ops) (private_address : Z) : Z * spz_maps_backend :=
  match profile with
  | None => (- EINVAL, null_backend)
  | Some profile =>
      let a := resolve_maps kallsyms (profile_symbols profile) in
      if maps_unresolved a then (0, null_backend)
      else
        (0, {| mb_max_snapshot_bytes := mp_max_snapshot_bytes (profile_maps profile);
               mb_max_chunk_bytes := mp_max_chunk_bytes (profile_maps profile);
               mb_retain_task := Some (fun _ task => spz_kpatch_maps_retain_task a task);
               mb_release_task := Some tt;
               mb_render := Some (spz_kpatch_maps_render profile a kernel private_address);
               mb_release_buffer := Some tt |})
  end.

(** ** The backend keeps its promise *)

#[export] Instance kpatch_maps_ops_sound a kernel : KernelOps kernel -> KernelOps (kpatch_maps_ops a kernel).
Proof.
  intros HK. split.
  - intros calls mm address vma bytes H. cbn in H. unfold spz_kpatch_maps_find_vma in H.
    case_match; [done|]. by eapply find_vma_bytes.
  - intros calls seq private output vma. cbn. unfold spz_kpatch_maps_show.
    destruct (ad_show_map_vma a =? 0); [done|]. apply show_keeps.
Qed.

(** The limits of a profile are 32-bit numbers. *)
Definition maps_limits_typed (profile : spz_device_profile) : Prop :=
  is_u32 (mp_max_snapshot_bytes (profile_maps profile)) /\ is_u32 (mp_max_chunk_bytes (profile_maps profile)).

Lemma render_outcome_fits maps ops private_address task calls result data length calls' :
  0 <= mp_max_snapshot_bytes maps <= UINT32_MAX ->
  render_outcome maps ops private_address task calls result data length calls' ->
  is_u32 length /\ forall b, data = Some b -> (Z.to_nat length <= List.length (buf_bytes b))%nat.
Proof.
  unfold UINT32_MAX. intros Hmax. destruct 1; split; try lia; try done.
  intros b [= <-]. cbn. lia.
Qed.

(** C27: the backend of the kernel module is one the snapshots can rely on. It is
    offered only when all eleven kernel functions were found and the limits of the
    profile are usable; whatever the kernel answers, the buffer of a rendering
    holds the bytes announced, as [MapsBackend] demands. *)
Theorem kpatch_backend_lawful profile kallsyms kernel private_address :
  maps_limits_typed profile -> (forall calls, KernelOps (kernel calls)) ->
  let '(result, backend) := spz_kpatch_maps_backend_init (Some profile) kallsyms kernel private_address in
  result = 0 /\ MapsBackend backend /\
  (spz_maps_backend_supported (Some backend) = true <->
   maps_unresolved (resolve_maps kallsyms (profile_symbols profile)) = false /\
   0 < mp_max_snapshot_bytes (profile_maps profile) <= SPZ_MAPS_MAX_SNAPSHOT_BYTES /\
   0 < mp_max_chunk_bytes (profile_maps profile) <= SPZ_MAPS_MAX_CHUNK_BYTES).
Proof.
  intros [Hsnap Hchunk] HK. unfold spz_kpatch_maps_backend_init.
  destruct (maps_unresolved _) eqn:Hres.
  - split_and!; [done|split; [cbn; lia|done]|]. split; [done|by intros [? _]].
  - split_and!; [done|split; [cbn; lia|]|].
    + intros f calls task result data length [= <-] Hf. unfold spz_kpatch_maps_render in Hf.
      pose proof (render_vmas_spec profile (kpatch_maps_ops (resolve_maps kallsyms (profile_symbols profile))
        (kernel calls)) private_address task [] ltac:(lia)) as Ho.
      destruct (spz_maps_render_vmas _ _ _ _ _) as [[[r d] l] c]. injection Hf as -> -> ->.
      destruct (spz_maps_render_arguments_valid _ _ _); [|injection Ho as -> -> -> ->; by split].
      eapply render_outcome_fits; [|exact Ho]. unfold UINT32_MAX. lia.
    + cbn. rewrite !andb_true_iff, !negb_true_iff. lia.
Qed.

(** A kernel in which every name is found. *)
Definition demo_kallsyms (name : list Z) : Z := 4096 + Z.of_nat (length name).

Lemma kpatch_backend_lawful_witness :
  let '(result, backend) :=
    spz_kpatch_maps_backend_init (Some demo_profile) (Some demo_kallsyms) (fun _ => demo_kernel) 512 in
  result = 0 /\ MapsBackend backend /\ spz_maps_backend_supported (Some backend) = true.
Proof.
  pose proof (kpatch_backend_lawful demo_profile (Some demo_kallsyms) (fun _ => demo_kernel) 512
    ltac:(split; vm_compute; split; discriminate) (fun _ => demo_kernel_sound)) as H.
  destruct (spz_kpatch_maps_backend_init (Some demo_profile) (Some demo_kallsyms) (fun _ => demo_kernel) 512)
    as [result backend].
  destruct H as (H1 & H2 & H3). split; [exact H1|]. split; [exact H2|].
  apply H3. split; [vm_compute; reflexivity|]. split; vm_compute; split; congruence.
Defined.
