(* ===== verification/Platform.v ===== *)
(** * The kernel behind the module (kpm/platform/kpatch/runtime.c)

    The callbacks the module hands to its components: symbol lookup, guarded reads
    of kernel memory, the number of the current CPU, the owners of debug slots and
    the audit of such an owner. The kernel is a parameter: its symbol table and its
    memory as [copy_from_kernel_nofault] reads it. *)

From S2P Require Import Prelude Crc32 Abi Ring DeviceProfiles Profile Task Debug DebugEncode DebugSpec Arm64.
From S2P Require Import Maps Async Runtime MapsSpec Render KpatchMaps.

(** [kn_kallsyms] is [None] when the framework exports no lookup; [kn_nofault] is
    [None] for a read that faults; [kn_time] is the clock. *)
Record kernel := {
  kn_kallsyms : option (list Z -> Z);
  kn_nofault : Z -> nat -> option (list Z);
  kn_time : Z;
}.

(** [struct spz_kpatch_runtime_context] without its tables of callbacks; the
    module's profile stands for the pointer to the module. *)
Record spz_kpatch_runtime_context := {
  rc_profile : option spz_device_profile;
  rc_per_cpu_offsets : list Z;
  rc_bp_on_reg : Z;
  rc_wp_on_reg : Z;
  rc_system_unbound_wq_address : Z;
  rc_queue_work_on_address : Z;
  rc_flush_work_address : Z;
  rc_synchronize_rcu_tasks_address : Z;
  rc_schedule_on_each_cpu_address : Z;
  rc_time_address : Z;
  rc_nofault_address : Z;
  rc_system_unbound_wq : Z;
  rc_each_cpu_status : Z;
  rc_cpu_count : Z;
  rc_each_cpu_active : Z;
  rc_transport_ready : Z;
  rc_work_storage : list Z;
}.

#[export] Instance spz_kpatch_runtime_context_shape : Shape spz_kpatch_runtime_context :=
  shape! Build_spz_kpatch_runtime_context < rc_profile ; rc_per_cpu_offsets ; rc_bp_on_reg ; rc_wp_on_reg ;
    rc_system_unbound_wq_address ; rc_queue_work_on_address ; rc_flush_work_address ;
    rc_synchronize_rcu_tasks_address ; rc_schedule_on_each_cpu_address ; rc_time_address ; rc_nofault_address ;
    rc_system_unbound_wq ; rc_each_cpu_status ; rc_cpu_count ; rc_each_cpu_active ; rc_transport_ready ;
    rc_work_storage >.

Definition SPZ_WORK_STORAGE_MAX : Z := 256.

(** A cleared context. *)
Definition zero_context : spz_kpatch_runtime_context :=
  {| rc_profile := None; rc_per_cpu_offsets := replicate (Z.to_nat SPZ_MAX_CPUS) 0; rc_bp_on_reg := 0;
     rc_wp_on_reg := 0; rc_system_unbound_wq_address := 0; rc_queue_work_on_address := 0;
     rc_flush_work_address := 0; rc_synchronize_rcu_tasks_address := 0; rc_schedule_on_each_cpu_address := 0;
     rc_time_address := 0; rc_nofault_address := 0; rc_system_unbound_wq := 0; rc_each_cpu_status := 0;
     rc_cpu_count := 0; rc_each_cpu_active := 0; rc_transport_ready := 0;
     rc_work_storage := replicate (Z.to_nat SPZ_WORK_STORAGE_MAX) 0 |}.

Section platform.
Context (k : kernel).
Implicit Types (context : spz_kpatch_runtime_context).

(** Symbol names of a validated profile are never NULL; a NULL one finds nothing. *)
Definition spz_kpatch_lookup (name : option (list Z)) : Z :=
  match kn_kallsyms k, name with
  | Some lookup, Some name => lookup name
  | _, _ => 0
  end.

(** Result code and the bytes stored. *)
Definition spz_kpatch_nofault_read context (address : Z) (length : nat) : Z * list Z :=
  if address =? 0 then (- EINVAL, [])
  else if rc_nofault_address context =? 0 then (- ENOENT, [])
  else match kn_nofault k address length with
       | Some bytes => (0, bytes)
       | None => (- EFAULT, [])
       end.

Definition spz_kpatch_read_memory context (address : Z) (length : nat) : Z * list Z :=
  spz_kpatch_nofault_read context address length.

(** [count] bytes from [index] on are still free in front of the last one. *)
Fixpoint banner_loop context (address : Z) (count : nat) (index : Z) (written : list Z) : Z * list Z :=
  match count with
  | O => (- ENOSPC, written ++ [0])
  | S count =>
      if UINT64_MAX - address <? index then (- ERANGE, written)
      else
        let '(result, bytes) := spz_kpatch_nofault_read context (u64 (address + index)) 1 in
        if negb (result =? 0) then (result, written)
        else
          let written := written ++ take 1 bytes in
          if bool_decide (take 1 bytes = [0]) then (0, written)
          else banner_loop context address count (index + 1) written
  end.

Definition spz_kpatch_read_banner context (capacity : nat) : Z * list Z :=
  let address :=
    match rc_profile context with
    | Some profile => spz_kpatch_lookup (sp_linux_banner (profile_symbols profile))
    | None => 0
    end in
  if (capacity =? 0)%nat || (address =? 0) then (- EINVAL, [])
  else banner_loop context address (capacity - 1) 0 [].

Definition spz_kpatch_cpu_count context : Z :=
  let address :=
    match rc_profile context with
    | Some profile => spz_kpatch_lookup (sp_nr_cpu_ids (profile_symbols profile))
    | None => 0
    end in
  if address =? 0 then 0
  else let '(result, bytes) := spz_kpatch_nofault_read context address 4 in
       if result =? 0 then le_value bytes else 0.

(** The loop over the per-CPU table, [count] entries from [index] on. *)
Fixpoint current_cpu_loop (offsets : list Z) (offset : Z) (count : nat) (index : Z) : Z * Z :=
  match count with
  | O => (- ERANGE, 0)
  | S count =>
      if offsets !!! Z.to_nat index =? offset then (0, index)
      else current_cpu_loop offsets offset count (index + 1)
  end.

(** [offset] is the per-CPU offset register of the CPU the code runs on. *)
Definition spz_kpatch_current_cpu context (offset : Z) : Z * Z :=
  current_cpu_loop (rc_per_cpu_offsets context) offset (Z.to_nat (rc_cpu_count context)) 0.

Definition spz_kpatch_timestamp context : Z := if rc_time_address context =? 0 then 0 else kn_time k.

Definition spz_kpatch_owner_address context (cpu : Z) (kind : spz_debug_slot_kind) (slot : Z) : Z + Z :=
  match rc_profile context with
  | None => inl (- EINVAL)
  | Some profile =>
      if rc_cpu_count context <=? cpu then inl (- EINVAL)
      else
        let base := if bool_decide (kind = SPZ_DEBUG_SLOT_BREAKPOINT) then rc_bp_on_reg context
                    else rc_wp_on_reg context in
        spz_kpatch_per_cpu_address base (rc_per_cpu_offsets context !!! Z.to_nat cpu)
          (lp_per_cpu_pointer_stride (profile_layout profile)) slot
  end.

Definition spz_kpatch_read_owner context (offset cpu : Z) (kind : spz_debug_slot_kind) (slot : Z) : Z * Z :=
  let '(result, current) := spz_kpatch_current_cpu context offset in
  if negb (result =? 0) || negb (current =? cpu) then (if negb (result =? 0) then result else - EXDEV, 0)
  else
    match spz_kpatch_owner_address context cpu kind slot with
    | inl result => (result, 0)
    | inr address =>
        let '(result, bytes) := spz_kpatch_nofault_read context address 8 in (result, le_value bytes)
    end.

Definition spz_kpatch_profile_read_owner context (offset cpu watchpoint slot : Z) : Z * Z :=
  spz_kpatch_read_owner context offset cpu
    (if negb (watchpoint =? 0) then SPZ_DEBUG_SLOT_WATCHPOINT else SPZ_DEBUG_SLOT_BREAKPOINT) slot.

(** ** The audit of an owner *)

Definition spz_kpatch_kernel_pointer (profile : spz_device_profile) (pointer : Z) : bool :=
  let va_bits := kp_va_bits (profile_kernel profile) in
  if negb (Z.land pointer 7 =? 0) || (va_bits =? 0) || (64 <=? va_bits) then false
  else
    let upper_mask := u64 (Z.shiftl UINT64_MAX va_bits) in
    Z.land pointer upper_mask =? upper_mask.

(** [SPZ_AUDIT_READ] of a member of [width] bytes: the value, [None] on failure. *)
Definition audit_read context (owner offset : Z) (width : nat) : option Z :=
  let '(result, bytes) := spz_kpatch_nofault_read context (u64 (owner + offset)) width in
  if result =? 0 then Some (le_value bytes) else None.

Definition spz_kpatch_audit_owner context (owner : Z) (event : spz_event) : Z * spz_event :=
  match rc_profile context with
  | None => (- EFAULT, event)
  | Some profile =>
      let pe := profile_perf_event profile in
      if negb (spz_kpatch_kernel_pointer profile owner)
         || (UINT64_MAX - kp_perf_event_size (profile_kernel profile) <? owner) then (- EFAULT, event)
      else
        let read := audit_read context owner in
        match
          (state ← read (pep_state pe) 4%nat; bp_type ← read (pep_attr_bp_type pe) 4%nat;
           bp_address ← read (pep_attr_bp_addr pe) 8%nat; bp_length ← read (pep_attr_bp_len pe) 8%nat;
           arch_address ← read (pep_arch_address pe) 8%nat; arch_trigger ← read (pep_arch_trigger pe) 8%nat;
           arch_control ← read (pep_arch_ctrl pe) 4%nat; oncpu ← read (pep_oncpu pe) 4%nat;
           cpu ← read (pep_cpu pe) 4%nat;
           Some (event <| ev_requested_address := bp_address |> <| ev_observed_address := arch_address |>
                       <| ev_start_time := arch_trigger |> <| ev_start_boot_time := bp_length |>
                       <| ev_control := arch_control |> <| ev_pid := state |> <| ev_tgid := oncpu |>
                       <| ev_uid := cpu |> <| ev_exception_class := bp_type |>))
        with
        | Some event => (0, event)
        | None => (- EFAULT, event)
        end
  end.

(** ** The tables handed to the components *)

(** The code runs on the CPU [me] of the machine [m]. *)
Definition kpatch_profile_ops context (me : Z) (m : machine) : spz_profile_runtime_ops :=
  {| po_lookup_symbol := Some (fun name => spz_kpatch_lookup (Some name));
     po_read_memory := Some (spz_kpatch_read_memory context);
     po_read_kernel_banner := Some (spz_kpatch_read_banner context);
     po_page_size := Some (fun _ => spz_arm64_page_size me m);
     po_cpu_count := Some (fun _ => spz_kpatch_cpu_count context);
     po_read_dfr0 := Some (fun _ => spz_arm64_read_dfr0 me m);
     po_read_debug_owner := Some (spz_kpatch_profile_read_owner context (spz_arm64_current_cpu_offset me m)) |}.

(** The per-CPU offset register of a CPU does not change while the module runs:
    [offset] is its value. *)
Definition kpatch_owner_ops context (profile : spz_device_profile) (offset : Z) : spz_arm64_owner_ops :=
  {| ow_brp_count := dp_brps (profile_debug profile); ow_wrp_count := dp_wrps (profile_debug profile);
     ow_current_cpu := Some (fun _ => spz_kpatch_current_cpu context offset);
     ow_read_owner := Some (fun _ => spz_kpatch_read_owner context offset) |}.
End platform.
