(* ===== verification/PlatformSpec.v ===== *)
(** * What the kernel callbacks guarantee

    The number of the current CPU, the addresses of the owner slots, and the audit of
    an owner. That the operations over these callbacks are debug hardware is shown
    for a prepared module in DebugPlatform.v. *)

From S2P Require Import Prelude Crc32 Abi Ring DeviceProfiles Profile Task Debug DebugEncode DebugSpec Arm64.
From S2P Require Import Maps Async Runtime MapsSpec Render KpatchMaps Platform.

(** ** Addresses of owner slots *)

(** The sum is exact: nothing wraps past the per-CPU base. *)
Lemma per_cpu_address_exact base offset stride slot address :
  0 <= slot -> 0 <= stride ->
  spz_kpatch_per_cpu_address base offset stride slot = inr address ->
  address = u64 (base + offset) + slot * stride /\ 0 < address <= UINT64_MAX.
Proof.
  intros Hslot Hstride. unfold spz_kpatch_per_cpu_address. set (b := u64 (base + offset)).
  destruct ((base =? 0) || (stride =? 0)) eqn:E1; [done|]. destruct ((b =? 0) || _) eqn:E2; [done|].
  apply orb_false_iff in E1 as [_ E1]. apply orb_false_iff in E2 as [_ E2]. assert (is_u64 b) by (unfold b; zlia).
  assert (slot * stride <= UINT64_MAX - b) as Hle.
  { apply Z.ltb_ge in E2. apply Z.le_trans with (((UINT64_MAX - b) / stride) * stride); [nia|].
    rewrite Z.mul_comm. apply Z.mul_div_le. lia. }
  assert (0 <= slot * stride) by nia.
  replace (u64 (b + u64 (slot * stride))) with (b + slot * stride) by zlia.
  destruct (b + slot * stride =? 0) eqn:E3; [done|]. intros [= <-]. unfold UINT64_MAX in *. lia.
Qed.

Lemma per_cpu_address_ok base offset stride slot :
  base <> 0 -> 0 < stride -> 0 <= slot -> u64 (base + offset) <> 0 ->
  u64 (base + offset) + slot * stride <= UINT64_MAX ->
  spz_kpatch_per_cpu_address base offset stride slot = inr (u64 (base + offset) + slot * stride).
Proof.
  intros Hb Hs Hslot Hnz Hle. unfold spz_kpatch_per_cpu_address. set (b := u64 (base + offset)) in *.
  assert (is_u64 b) by (unfold b; zlia). assert (0 <= slot * stride) by nia.
  assert (slot <= (UINT64_MAX - b) / stride) by (apply Z.div_le_lower_bound; lia).
  rewrite (eqb_ne base 0), (eqb_ne stride 0), (eqb_ne b 0) by lia. cbn [orb].
  rewrite (proj2 (Z.ltb_ge _ _)) by lia.
  replace (u64 (b + u64 (slot * stride))) with (b + slot * stride) by zlia. by rewrite eqb_ne by lia.
Qed.

(** The owner slots of a CPU are where the kernel's per-CPU array has them. A
    computed address is exact, without any wrap past the per-CPU base, and
    different slots of one array have different, non-overlapping words; what the
    code refuses is a zero base or stride, a CPU outside the table, or an array
    element past the end of the address space. *)
Theorem owner_slots_disjoint context cpu kind slot1 slot2 a1 a2 profile :
  rc_profile context = Some profile -> lp_per_cpu_pointer_stride (profile_layout profile) = 8 ->
  0 <= slot1 < slot2 ->
  spz_kpatch_owner_address context cpu kind slot1 = inr a1 ->
  spz_kpatch_owner_address context cpu kind slot2 = inr a2 ->
  a1 + 8 * (slot2 - slot1) = a2 /\ a1 + 8 <= a2 /\ 0 < a1 /\ a2 <= UINT64_MAX.
Proof.
  intros Hp Hs Hslots H1 H2. unfold spz_kpatch_owner_address in H1, H2. rewrite Hp in H1, H2.
  destruct (_ <=? cpu); [done|]. rewrite Hs in H1, H2.
  apply per_cpu_address_exact in H1, H2; [|lia..]. lia.
Qed.

(** ** The number of the current CPU *)

Lemma current_cpu_loop_found offsets offset count index me :
  index <= me < index + Z.of_nat count -> offsets !!! Z.to_nat me = offset ->
  (forall i, index <= i < me -> offsets !!! Z.to_nat i <> offset) ->
  current_cpu_loop offsets offset count index = (0, me).
Proof.
  revert index. induction count as [|count IH]; intros index Hme Ho Hfirst; [lia|]. cbn [current_cpu_loop].
  destruct (decide (index = me)) as [->|Hne]; [by rewrite Ho, Z.eqb_refl|].
  rewrite eqb_ne by (apply Hfirst; lia). apply IH; [lia|done|]. intros i Hi. apply Hfirst. lia.
Qed.

(** ** The audit of an owner *)

Lemma upper_mask_eq va : 0 < va < 64 -> u64 (Z.shiftl UINT64_MAX va) = 2 ^ 64 - 2 ^ va.
Proof.
  intros Hva. unfold u64, UINT64_MAX. rewrite Z.shiftl_mul_pow2 by lia.
  assert (2 ^ va < 2 ^ 64) by (apply Z.pow_lt_mono_r; lia). assert (0 < 2 ^ va) by (apply Z.pow_pos_nonneg; lia).
  change 18446744073709551616 with (2 ^ 64). change 18446744073709551615 with (2 ^ 64 - 1).
  replace ((2 ^ 64 - 1) * 2 ^ va) with ((2 ^ 64 - 2 ^ va) + (2 ^ va - 1) * 2 ^ 64) by ring.
  rewrite Z.mod_add by lia. apply Z.mod_small. lia.
Qed.

Lemma land_upper_mask p va : is_u64 p -> 0 < va < 64 -> Z.land p (2 ^ 64 - 2 ^ va) = p / 2 ^ va * 2 ^ va.
Proof.
  intros Hp Hva. replace (2 ^ 64 - 2 ^ va) with (Z.shiftl (Z.ones (64 - va)) va).
  2:{ rewrite Z.shiftl_mul_pow2, Z.ones_equiv by lia. unfold Z.pred.
      replace (2 ^ 64) with (2 ^ (64 - va) * 2 ^ va) by (rewrite <- Z.pow_add_r by lia; f_equal; lia). ring. }
  rewrite <- Z.shiftr_div_pow2, <- Z.shiftl_mul_pow2 by lia. apply Z.bits_inj'. intros i Hi.
  rewrite Z.land_spec, !Z.shiftl_spec by lia. destruct (Z.lt_ge_cases i va).
  - rewrite !(Z.testbit_neg_r _ (i - va)) by lia. by rewrite andb_false_r.
  - rewrite Z.shiftr_spec by lia. replace (i - va + va) with i by lia.
    destruct (Z.lt_ge_cases i 64).
    + rewrite Z.ones_spec_low by lia. by rewrite andb_true_r.
    + by rewrite (testbit_high 64 p i) by lia.
Qed.

(** A kernel pointer is aligned and lies in the upper [2^va_bits] bytes. *)
Lemma kernel_pointer_spec profile pointer :
  is_u64 pointer -> 0 <= kp_va_bits (profile_kernel profile) ->
  spz_kpatch_kernel_pointer profile pointer = true <->
  pointer mod 8 = 0 /\ 0 < kp_va_bits (profile_kernel profile) < 64 /\
  2 ^ 64 - 2 ^ kp_va_bits (profile_kernel profile) <= pointer.
Proof.
  intros Hp Hva. unfold spz_kpatch_kernel_pointer. set (va := kp_va_bits _) in *.
  change 7 with (Z.ones 3). rewrite Z.land_ones by lia. change (2 ^ 3) with 8.
  destruct (_ || _ || _) eqn:E; [split; [done|lia]|].
  apply orb_false_iff in E as [[E1 E2]%orb_false_iff E3]. apply negb_false_iff, Z.eqb_eq in E1.
  rewrite upper_mask_eq, land_upper_mask by lia. assert (0 < 2 ^ va) by (apply Z.pow_pos_nonneg; lia).
  assert (2 ^ 64 = 2 ^ (64 - va) * 2 ^ va) as H64 by (rewrite <- Z.pow_add_r by lia; f_equal; lia).
  assert (p64 : 2 ^ 64 = 18446744073709551616) by reflexivity. rewrite Z.eqb_eq.
  pose proof (Z.div_mod pointer (2 ^ va) ltac:(lia)). pose proof (Z.mod_pos_bound pointer (2 ^ va) ltac:(lia)).
  split; [intros Hm; split_and!; lia|]. intros (_ & _ & Hm).
  assert (pointer / 2 ^ va = 2 ^ (64 - va) - 1) as ->; [|nia].
  apply Z.le_antisymm; [apply Z.lt_le_pred, Z.div_lt_upper_bound; nia|apply Z.div_le_lower_bound; nia].
Qed.

(** The widths of what the audit uses of a profile. *)
Record perf_typed (profile : spz_device_profile) : Prop := {
  pf_fields : Forall (fun f => 0 <= f.1) (perf_fields profile);
  pf_size : is_u32 (kp_perf_event_size (profile_kernel profile));
  pf_va : 0 <= kp_va_bits (profile_kernel profile);
}.

(** Auditing an owner is safe for any word found in an owner slot. It looks at
    memory only when the word is an aligned kernel address with a whole perf event
    behind it before the end of the address space, it reads nothing outside that
    event, and when it fails the event record is left as it was. *)
Theorem audit_reads_inside k context owner event profile :
  rc_profile context = Some profile -> profile_bounds profile -> perf_typed profile -> is_u64 owner ->
  let size := kp_perf_event_size (profile_kernel profile) in
  (forall k', (forall address n, owner <= address -> address + Z.of_nat n <= owner + size ->
                kn_nofault k address n = kn_nofault k' address n) ->
     spz_kpatch_audit_owner k context owner event = spz_kpatch_audit_owner k' context owner event) /\
  let '(result, event') := spz_kpatch_audit_owner k context owner event in
  (result = 0 /\ owner mod 8 = 0 /\ 2 ^ 64 - 2 ^ kp_va_bits (profile_kernel profile) <= owner /\
   owner + size <= UINT64_MAX) \/
  (result = - EFAULT /\ event' = event).
Proof.
  intros Hp Hb [Hf Hs Hva] Ho. cbv zeta. set (size := kp_perf_event_size (profile_kernel profile)) in *.
  unfold spz_kpatch_audit_owner. rewrite Hp. fold size.
  destruct (negb _ || _) eqn:Hg; [split; [done|by right]|].
  apply orb_false_iff in Hg as [Hk Hend]. apply negb_false_iff, kernel_pointer_spec in Hk; [|done..].
  apply Z.ltb_ge in Hend. split.
  - intros k' Hk'. pose proof (pb_perf _ Hb) as Hfits. rewrite Forall_forall in Hf, Hfits.
    assert (forall offset n, (offset, Z.of_nat n) ∈ perf_fields profile ->
      audit_read k context owner offset n = audit_read k' context owner offset n) as Hread.
    { intros offset n Hin. specialize (Hf _ Hin). specialize (Hfits _ Hin). cbn in Hf.
      apply spz_field_fits_true in Hfits; [|done..]. cbn in Hfits.
      unfold audit_read, spz_kpatch_nofault_read. replace (u64 (owner + offset)) with (owner + offset)
        by (fold size in Hfits; zlia). rewrite (Hk' (owner + offset) n) by (fold size in Hfits; lia). done. }
    rewrite !Hread by (unfold perf_fields; repeat (apply list_elem_of_here || apply list_elem_of_further)). done.
  - match goal with |- context [match ?m with Some _ => _ | None => _ end] => destruct m as [event'|] end; [left|by right].
    split_and!; [done|lia|lia|lia].
Qed.

(** ** A kernel with eight CPUs *)

Definition demo_memory_kernel : kernel :=
  {| kn_kallsyms := Some (fun _ => 4096); kn_nofault := fun _ n => Some (replicate n 0); kn_time := 7 |}.

Definition demo_context : spz_kpatch_runtime_context :=
  zero_context <| rc_profile := Some profile_oneplus_plk110_a16_b4999618_d05 |> <| rc_cpu_count := 8 |>
    <| rc_per_cpu_offsets := (fun i => 65536 * (1 + Z.of_nat i)) <$> seq 0 8 |>
    <| rc_bp_on_reg := 4096 |> <| rc_wp_on_reg := 8192 |> <| rc_nofault_address := 4096 |>.

Lemma owner_slots_disjoint_witness :
  spz_kpatch_owner_address demo_context 3 SPZ_DEBUG_SLOT_WATCHPOINT 1 = inr 270344 /\
  spz_kpatch_owner_address demo_context 3 SPZ_DEBUG_SLOT_WATCHPOINT 3 = inr 270360 /\
  270344 + 8 * (3 - 1) = 270360.
Proof.
  split; [reflexivity|]. split; [reflexivity|].
  apply (owner_slots_disjoint demo_context 3 SPZ_DEBUG_SLOT_WATCHPOINT 1 3 270344 270360
    profile_oneplus_plk110_a16_b4999618_d05); [reflexivity|reflexivity|lia|reflexivity|reflexivity].
Defined.

Lemma plk110_perf_typed : perf_typed profile_oneplus_plk110_a16_b4999618_d05.
Proof. split; [|cbn; lia|cbn; lia]. unfold perf_fields. cbn. repeat (constructor; [cbn; lia|]). constructor. Qed.

Lemma audit_reads_inside_witness :
  let owner := 18446744073709486080 in
  let '(result, event') := spz_kpatch_audit_owner demo_memory_kernel demo_context owner zero_event in
  result = 0 /\ owner mod 8 = 0 /\ 2 ^ 64 - 2 ^ 39 <= owner /\ owner + 1120 <= UINT64_MAX.
Proof.
  pose proof (audit_reads_inside demo_memory_kernel demo_context 18446744073709486080 zero_event
    profile_oneplus_plk110_a16_b4999618_d05 eq_refl ltac:(by apply bounds_valid_spec; vm_compute)
    plk110_perf_typed ltac:(lia)) as [_ H].
  assert ((spz_kpatch_audit_owner demo_memory_kernel demo_context 18446744073709486080 zero_event).1 = 0) as E
    by (vm_compute; reflexivity).
  cbv zeta. destruct (spz_kpatch_audit_owner demo_memory_kernel demo_context 18446744073709486080 zero_event)
    as [result event']. cbn [fst] in E. destruct H as [H|[H _]]; [exact H|]. rewrite E in H. discriminate H.
Defined.
