(* ===== verification/Transport.v ===== *)
(** * Work queues and preparation (kpm/platform/kpatch/async.c, runtime.c)

    The work item through which requests run, the rounds of work on every CPU and
    the preparation of the module. One context at a time is registered with the
    workers, in a global pointer: [transport] is the address it holds, [None] for
    NULL, and [self] the address of the context at hand. *)

From S2P Require Import Prelude Crc32 Abi Ring DeviceProfiles Profile Task Debug DebugEncode DebugSpec Arm64.
From S2P Require Import Maps Async Runtime MapsSpec Render KpatchMaps Platform.

(** ** The work item *)

(** [work_storage] of the context lies at [storage_address]; [worker] is the
    address of spz_kpatch_async_worker. *)
Definition work_item (layout : spz_layout_profile) (storage_address worker : Z) : list Z :=
  let entry := u64 (storage_address + lp_work_entry layout) in
  let storage := replicate (Z.to_nat SPZ_WORK_STORAGE_MAX) 0 in
  let storage := write_at storage (lp_work_data layout) (le_bytes 8 (lp_work_data_init layout)) in
  let storage := write_at storage (lp_work_entry layout) (le_bytes 8 entry) in
  let storage := write_at storage (lp_work_entry layout + 8) (le_bytes 8 entry) in
  write_at storage (lp_work_func layout) (le_bytes 8 worker).

Definition spz_kpatch_async_transport_init (k : kernel) (self storage_address worker : Z)
    (context : spz_kpatch_runtime_context) (transport : option Z) : Z * spz_kpatch_runtime_context * option Z :=
  match rc_profile context with
  | None => (- EINVAL, context, transport)
  | Some profile =>
      if (rc_queue_work_on_address context =? 0) || (rc_schedule_on_each_cpu_address context =? 0)
         || (rc_system_unbound_wq_address context =? 0) then (- EINVAL, context, transport)
      else
        let layout := profile_layout profile in
        if (lp_work_struct_size layout <? 32) || (SPZ_WORK_STORAGE_MAX <? lp_work_struct_size layout)
           || (lp_work_struct_size layout - 8 <? lp_work_data layout)
           || (lp_work_struct_size layout - 16 <? lp_work_entry layout)
           || (lp_work_struct_size layout - 8 <? lp_work_func layout) then (- ERANGE, context, transport)
        else
          let context := context <| rc_work_storage := work_item layout storage_address worker |> in
          let '(result, bytes) := spz_kpatch_nofault_read k context (rc_system_unbound_wq_address context) 8 in
          if negb (result =? 0) then (- EFAULT, context, transport)
          else
            let context := context <| rc_system_unbound_wq := le_value bytes |> in
            if rc_system_unbound_wq context =? 0 then (- ENOENT, context, transport)
            else
              match transport with
              | Some other =>
                  if negb (other =? self) then (- EBUSY, context, transport)
                  else (0, context <| rc_transport_ready := 1 |>, transport)
              | None => (0, context <| rc_transport_ready := 1 |>, Some self)
              end
  end.

Definition spz_kpatch_async_transport_reset (self : Z) (context : spz_kpatch_runtime_context) (transport : option Z) :
    spz_kpatch_runtime_context * option Z :=
  (context <| rc_transport_ready := 0 |>, if bool_decide (transport = Some self) then None else transport).

(** [queued] is what [queue_work_on] answers: 0 when the item is pending already. *)
Definition spz_kpatch_async_queue (context : spz_kpatch_runtime_context) (queued : Z) : Z :=
  if (rc_transport_ready context =? 0) || (rc_system_unbound_wq context =? 0) then - EINVAL
  else if rc_queue_work_on_address context =? 0 then - ENOENT
  else if negb (queued =? 0) then 0 else - EBUSY.

(** [request] is the request slot after [flush_work] has waited for the item. *)
Definition spz_kpatch_async_quiesce (context : spz_kpatch_runtime_context) (request : spz_async_request) : Z :=
  if rc_transport_ready context =? 0 then - EINVAL
  else if rc_flush_work_address context =? 0 then - ENOENT
  else if spz_async_busy request then - EBUSY else 0.

(** The worker runs the request of the registered context, for its own item only. *)
Definition spz_kpatch_async_worker {ctx : Type} (backend : spz_async_backend ctx) (self storage_address work : Z)
    (transport : option Z) (request : spz_async_request) (c : ctx) : spz_async_request * ctx :=
  if bool_decide (transport <> Some self) || negb (work =? storage_address) then (request, c)
  else let '(_, request, c) := spz_async_run backend request c in (request, c).

(** ** Work on every CPU *)

Section each_cpu.
Context {hw : Type} (self : Z).
Implicit Types (context : spz_kpatch_runtime_context) (w : world hw).

(** The worker on one CPU: it looks for the registered context, which is the one
    at hand, and for a round in progress. *)
Definition spz_kpatch_each_cpu_worker context (transport : option Z)
    (callback : platform_view -> Z -> world hw -> Z * world hw) (ws : world hw * Z) (view : platform_view) :
    world hw * Z :=
  if bool_decide (transport <> Some self) || (rc_each_cpu_active context =? 0) then ws
  else each_cpu_work callback ws view.

(** The schedule [s] is what [schedule_on_each_cpu] answers and the runs it makes. *)
Definition spz_kpatch_run_each_cpu context (transport : option Z) (s : schedule)
    (callback : platform_view -> Z -> world hw -> Z * world hw) w : Z * spz_kpatch_runtime_context * world hw :=
  if rc_transport_ready context =? 0 then (- EINVAL, context, w)
  else if negb (rc_each_cpu_active context =? 0) then (- EBUSY, context, w)
  else
    let context := context <| rc_each_cpu_active := 1 |> <| rc_each_cpu_status := 0 |> in
    let '(result, views) := if rc_schedule_on_each_cpu_address context =? 0 then (- ENOENT, []) else s in
    let '(w, status) := foldl (spz_kpatch_each_cpu_worker context transport callback) (w, 0) views in
    let context := context <| rc_each_cpu_status := status |> in
    let result := if 0 <? result then - EIO else result in
    let result := if result =? 0 then rc_each_cpu_status context else result in
    (result, context <| rc_each_cpu_active := 0 |>, w).
End each_cpu.

(** ** Preparation *)

(** The loop that reads the per-CPU offsets, [count] of them from [cpu] on: the
    result and the context. *)
Fixpoint per_cpu_loop (k : kernel) (per_cpu_address : Z) (count : nat) (cpu : Z) (context : spz_kpatch_runtime_context) :
    Z * spz_kpatch_runtime_context :=
  match count with
  | O => (0, context)
  | S count =>
      if (UINT64_MAX - per_cpu_address) / 8 <? cpu then (- ERANGE, context)
      else
        let '(result, bytes) := spz_kpatch_nofault_read k context (u64 (per_cpu_address + cpu * 8)) 8 in
        if negb (result =? 0) then (result, context)
        else per_cpu_loop k per_cpu_address count (cpu + 1)
               (context <| rc_per_cpu_offsets ::= <[Z.to_nat cpu := le_value bytes]> |>)
  end.

Definition debug_table {hw : Type} (ops : spz_debug_ops hw) : spz_debug_ops_table hw :=
  {| ot_brp_count := op_brp_count ops; ot_wrp_count := op_wrp_count ops; ot_read_value := Some (op_read_value ops);
     ot_write_value := Some (op_write_value ops); ot_read_control := Some (op_read_control ops);
     ot_write_control := Some (op_write_control ops); ot_read_mdscr := Some (op_read_mdscr ops);
     ot_write_mdscr := Some (op_write_mdscr ops); ot_read_owner := Some (op_read_owner ops);
     ot_barrier := Some (op_barrier ops) |}.

(** The addresses the context takes over from the validated runtime. *)
Definition take_symbols (runtime : spz_profile_runtime) (context : spz_kpatch_runtime_context) :
    spz_kpatch_runtime_context :=
  {| rc_profile := rc_profile context; rc_per_cpu_offsets := rc_per_cpu_offsets context;
     rc_bp_on_reg := rc_bp_on_reg context; rc_wp_on_reg := rc_wp_on_reg context;
     rc_system_unbound_wq_address := pr_symbols runtime !!! SPZ_SYMBOL_SYSTEM_UNBOUND_WQ;
     rc_queue_work_on_address := pr_symbols runtime !!! SPZ_SYMBOL_QUEUE_WORK_ON;
     rc_flush_work_address := pr_symbols runtime !!! SPZ_SYMBOL_FLUSH_WORK;
     rc_synchronize_rcu_tasks_address := pr_symbols runtime !!! SPZ_SYMBOL_SYNCHRONIZE_RCU_TASKS;
     rc_schedule_on_each_cpu_address := pr_symbols runtime !!! SPZ_SYMBOL_SCHEDULE_ON_EACH_CPU;
     rc_time_address := pr_symbols runtime !!! SPZ_SYMBOL_KTIME_GET_MONO_FAST_NS;
     rc_nofault_address := pr_symbols runtime !!! SPZ_SYMBOL_COPY_FROM_KERNEL_NOFAULT;
     rc_system_unbound_wq := rc_system_unbound_wq context; rc_each_cpu_status := rc_each_cpu_status context;
     rc_cpu_count := rc_cpu_count context; rc_each_cpu_active := rc_each_cpu_active context;
     rc_transport_ready := rc_transport_ready context; rc_work_storage := rc_work_storage context |}.

(** What the preparation works with: the kernel, the CPU [en_me] it runs on, where
    the context, its work item and the renderer's structure lie, the address of
    the worker and the kernel functions behind the renderer. *)
Record environment := {
  en_kernel : kernel;
  en_machine : machine;
  en_me : Z;
  en_self : Z;
  en_storage_address : Z;
  en_worker : Z;
  en_private_address : Z;
  en_maps : list maps_call -> spz_maps_kernel_ops;
}.

Section prepare.
Context (e : environment).
Let k := en_kernel e.

(** The module, [None] while it is zeroed; the context and the global pointer. *)
Definition prepared : Type :=
  (Z * option (spz_module_state machine) * spz_kpatch_runtime_context * option Z * option (list Z))%type.

(** The last steps, once the profile was validated. *)
Definition prepare_validated (profile : spz_device_profile) (runtime : spz_profile_runtime)
    (context : spz_kpatch_runtime_context) (transport : option Z) (text : option (list Z)) : prepared :=
  let context := take_symbols runtime context in
  match spz_arm64_make_debug_ops (en_me e)
          (kpatch_owner_ops k context profile (spz_arm64_current_cpu_offset (en_me e) (en_machine e))) with
  | (result, None) => (result, None, context, transport, text)
  | (_, Some ops) =>
      let '(result, context, transport) :=
        spz_kpatch_async_transport_init k (en_self e) (en_storage_address e) (en_worker e) context transport in
      if negb (result =? 0) then (result, None, context, transport, text)
      else
        let '(result, backend) :=
          spz_kpatch_maps_backend_init (rc_profile context) (kn_kallsyms k) (en_maps e) (en_private_address e) in
        if negb (result =? 0) then
          let '(context, transport) := spz_kpatch_async_transport_reset (en_self e) context transport in
          (result, None, context, transport, text)
        else
          let '(result, module) :=
            spz_module_core_init (Some profile) (Some runtime) true true (Some (debug_table ops)) (Some backend) in
          if negb (result =? 0) then
            let '(context, transport) := spz_kpatch_async_transport_reset (en_self e) context transport in
            (result, None, context, transport, text)
          else (result, module, context, transport, text)
  end.

(** No module on failure: the code has then set at most [module->profile], the profile
    that [rc_profile] of the context shows here, and its caller, spz_kpm_init of
    kpm/platform/kpatch/main.c, zeroes module and context. *)
Definition spz_kpatch_runtime_prepare (profile_id : option (list Z)) (text : option (list Z)) (capacity : nat)
    (transport : option Z) : prepared :=
  match profile_id with
  | None => (- EINVAL, None, zero_context, transport, text)
  | Some _ =>
      match spz_profile_select profile_id with
      | None => (- ENOENT, None, zero_context, transport, text)
      | Some profile =>
          let symbols := profile_symbols profile in
          let context := zero_context <| rc_profile := Some profile |>
                           <| rc_nofault_address := spz_kpatch_lookup k (sp_copy_from_kernel_nofault symbols) |> in
          if rc_nofault_address context =? 0 then (- ENOENT, None, context, transport, text)
          else
            let context := context <| rc_cpu_count := spz_kpatch_cpu_count k context |> in
            if (rc_cpu_count context =? 0) || (SPZ_MAX_CPUS <? rc_cpu_count context)
            then (- ERANGE, None, context, transport, text)
            else
              let per_cpu_address := spz_kpatch_lookup k (sp_per_cpu_offset symbols) in
              let context := context <| rc_bp_on_reg := spz_kpatch_lookup k (sp_bp_on_reg symbols) |>
                               <| rc_wp_on_reg := spz_kpatch_lookup k (sp_wp_on_reg symbols) |> in
              if (per_cpu_address =? 0) || (rc_bp_on_reg context =? 0) || (rc_wp_on_reg context =? 0)
              then (- ENOENT, None, context, transport, text)
              else
                let '(result, context) :=
                  per_cpu_loop k per_cpu_address (Z.to_nat (rc_cpu_count context)) 0 context in
                if negb (result =? 0) then (result, None, context, transport, text)
                else
                  let '(result, runtime, text) :=
                    spz_profile_validate (Some profile)
                      (Some (kpatch_profile_ops k context (en_me e) (en_machine e))) text capacity in
                  if negb (result =? 0) then (result, None, context, transport, text)
                  else prepare_validated profile runtime context transport text
      end
  end.
End prepare.

(** The module and the context are zeroed. *)
Definition spz_kpatch_runtime_zero (self : Z) (context : spz_kpatch_runtime_context) (transport : option Z) :
    option (spz_module_state machine) * spz_kpatch_runtime_context * option Z :=
  let '(_, transport) := spz_kpatch_async_transport_reset self context transport in
  (None, zero_context, transport).
