(* ===== verification/TransportSpec.v ===== *)
(** * What the work queues and the preparation guarantee *)

From S2P Require Import Prelude Crc32 Abi Ring DeviceProfiles Profile ProfileSpec Task Debug DebugEncode DebugSpec Arm64.
From S2P Require Import Maps Async Runtime RuntimeSpec MapsSpec Render KpatchMaps Platform Transport.

(** ** The work item *)

Lemma read_write_same bytes offset value :
  0 <= offset -> (Z.to_nat offset + 8 <= length bytes)%nat -> is_u64 value ->
  read_u64 (write_at bytes offset (le_bytes 8 value)) offset = value.
Proof.
  intros Ho Hl Hv. unfold read_u64, write_at.
  rewrite drop_app_ge by (rewrite length_take; lia). rewrite length_take, Nat.min_l, Nat.sub_diag, drop_0 by lia.
  rewrite take_app_le by (rewrite length_le_bytes; lia). rewrite take_ge by (rewrite length_le_bytes; lia).
  rewrite le_value_le_bytes. apply Z.mod_small. change (2 ^ (8 * Z.of_nat 8)) with 18446744073709551616. lia.
Qed.

Lemma read_write_other bytes offset value offset' :
  0 <= offset -> 0 <= offset' -> (Z.to_nat offset + 8 <= length bytes)%nat ->
  offset' + 8 <= offset \/ offset + 8 <= offset' ->
  read_u64 (write_at bytes offset (le_bytes 8 value)) offset' = read_u64 bytes offset'.
Proof.
  intros Ho Ho' Hl Hd. unfold read_u64. f_equal. apply list_eq. intros i.
  destruct (decide (i < 8)%nat); [|by rewrite !lookup_take_ge by lia].
  rewrite !lookup_take_lt, !lookup_drop by lia. unfold write_at. set (j := (Z.to_nat offset' + i)%nat).
  destruct Hd as [Hd|Hd].
  - rewrite lookup_app_l by (rewrite length_take; lia). by rewrite lookup_take_lt by lia.
  - rewrite lookup_app_r by (rewrite length_take; lia). rewrite length_take, Nat.min_l by lia.
    rewrite lookup_app_r by (rewrite length_le_bytes; lia). rewrite length_le_bytes, lookup_drop. f_equal. lia.
Qed.

(** The members of the work structure do not overlap. *)
Definition work_disjoint (layout : spz_layout_profile) : Prop :=
  let apart a n b m := a + n <= b \/ b + m <= a in
  apart (lp_work_data layout) 8 (lp_work_entry layout) 16 /\ apart (lp_work_data layout) 8 (lp_work_func layout) 8 /\
  apart (lp_work_entry layout) 16 (lp_work_func layout) 8.

Record layout_typed (layout : spz_layout_profile) : Prop := {
  ly_size : is_u32 (lp_work_struct_size layout);
  ly_data : is_u32 (lp_work_data layout);
  ly_entry : is_u32 (lp_work_entry layout);
  ly_func : is_u32 (lp_work_func layout);
  ly_init : is_u64 (lp_work_data_init layout);
}.

(** The work item is what the kernel expects. A registration that succeeds has
    laid it out inside its 256 bytes, within the size the profile gives: the data
    word, an empty list entry, whose two links both point to the entry itself, and
    the address of the worker; a registration that is refused for the layout
    writes nothing. *)
Theorem work_item_well_formed k self storage worker context transport profile :
  rc_profile context = Some profile -> layout_typed (profile_layout profile) ->
  work_disjoint (profile_layout profile) -> is_u64 worker ->
  let '(result, context', transport') :=
    spz_kpatch_async_transport_init k self storage worker context transport in
  let layout := profile_layout profile in
  let item := rc_work_storage context' in
  (result = 0 ->
   length item = 256%nat /\ lp_work_struct_size layout <= 256 /\
   read_u64 item (lp_work_data layout) = lp_work_data_init layout /\
   read_u64 item (lp_work_entry layout) = u64 (storage + lp_work_entry layout) /\
   read_u64 item (lp_work_entry layout + 8) = u64 (storage + lp_work_entry layout) /\
   read_u64 item (lp_work_func layout) = worker) /\
  (result = - ERANGE -> context' = context /\ transport' = transport).
Proof.
  intros Hp [Hs Hd He Hf Hi] (H1 & H2 & H3) Hw. unfold spz_kpatch_async_transport_init. rewrite Hp. cbv zeta.
  destruct (_ || _ || _); [split; done|].
  destruct (_ || _ || _ || _ || _) eqn:Hg; [split; done|].
  repeat (apply orb_false_iff in Hg as [Hg ?]). unfold SPZ_WORK_STORAGE_MAX in *.
  set (layout := profile_layout profile) in *. set (item := work_item layout storage worker).
  assert (length item = 256%nat /\ lp_work_struct_size layout <= 256 /\
    read_u64 item (lp_work_data layout) = lp_work_data_init layout /\
    read_u64 item (lp_work_entry layout) = u64 (storage + lp_work_entry layout) /\
    read_u64 item (lp_work_entry layout + 8) = u64 (storage + lp_work_entry layout) /\
    read_u64 item (lp_work_func layout) = worker) as Hitem.
  { assert (is_u64 (u64 (storage + lp_work_entry layout))) by zlia.
    unfold item, work_item. set (s0 := replicate _ 0).
    assert (length s0 = 256%nat) as L0 by apply length_replicate.
    set (s1 := write_at s0 _ _). assert (length s1 = 256%nat) as L1
      by (unfold s1; rewrite length_write_at; [done|rewrite length_le_bytes; lia]).
    set (s2 := write_at s1 _ _). assert (length s2 = 256%nat) as L2
      by (unfold s2; rewrite length_write_at; [done|rewrite length_le_bytes; lia]).
    set (s3 := write_at s2 _ _). assert (length s3 = 256%nat) as L3
      by (unfold s3; rewrite length_write_at; [done|rewrite length_le_bytes; lia]).
    split_and!; [rewrite length_write_at; [done|rewrite length_le_bytes; lia]|lia|..].
    - rewrite read_write_other by lia. unfold s3. rewrite read_write_other by lia. unfold s2.
      rewrite read_write_other by lia. apply read_write_same; lia.
    - rewrite read_write_other by lia. unfold s3. rewrite read_write_other by lia. apply read_write_same; lia.
    - rewrite read_write_other by lia. apply read_write_same; lia.
    - apply read_write_same; lia. }
  destruct (spz_kpatch_nofault_read _ _ _ _) as [r bytes]. destruct (negb (r =? 0)); [split; done|].
  destruct (rc_system_unbound_wq _ =? 0); [split; done|].
  destruct transport as [other|]; [destruct (negb (other =? self)); [split; done|]|];
    (split; [intros _; exact Hitem|done]).
Qed.

(** ** Rounds on every CPU *)

Lemma round_runs {hw} self context s callback (w : world hw) :
  rc_transport_ready context <> 0 -> rc_schedule_on_each_cpu_address context <> 0 -> rc_each_cpu_active context = 0 ->
  exists status,
    let '(result, w') := each_cpu_round s callback w in
    spz_kpatch_run_each_cpu self context (Some self) s callback w =
      (result, context <| rc_each_cpu_active := 1 |> <| rc_each_cpu_status := 0 |> <| rc_each_cpu_status := status |>
                 <| rc_each_cpu_active := 0 |>, w').
Proof.
  intros Hready Haddr Hact. unfold spz_kpatch_run_each_cpu. rewrite (eqb_ne (rc_transport_ready context)) by done.
  rewrite Hact. cbn [negb Z.eqb]. set (c1 := context <| rc_each_cpu_active := 1 |> <| rc_each_cpu_status := 0 |>).
  change (rc_schedule_on_each_cpu_address c1) with (rc_schedule_on_each_cpu_address context).
  rewrite eqb_ne by done. destruct s as [result views]. unfold each_cpu_round.
  assert (foldl (spz_kpatch_each_cpu_worker self c1 (Some self) callback) (w, 0) views =
          foldl (each_cpu_work callback) (w, 0) views) as Hfold.
  { generalize (w, 0). induction views as [|v views IH]; intros ws; [done|]. cbn [foldl].
    unfold spz_kpatch_each_cpu_worker at 2. rewrite bool_decide_eq_false_2 by auto. apply IH. }
  rewrite Hfold. clear Hfold. destruct (foldl (each_cpu_work callback) (w, 0) views) as [w' status].
  by exists status.
Qed.

(** A round of work on every CPU runs the callback exactly as the components
    assume. With the context registered and no round in progress, the result and
    the effect are those of [each_cpu_round], whose first failure is the result,
    and the round is over afterwards; a second round during one is refused and
    does nothing. *)
Theorem round_is_exclusive {hw} self context s callback (w : world hw) :
  rc_transport_ready context <> 0 -> rc_schedule_on_each_cpu_address context <> 0 ->
  (rc_each_cpu_active context = 0 ->
   exists context', rc_each_cpu_active context' = 0 /\ rc_transport_ready context' = rc_transport_ready context /\
     rc_work_storage context' = rc_work_storage context /\
     let '(result, w') := each_cpu_round s callback w in
     spz_kpatch_run_each_cpu self context (Some self) s callback w = (result, context', w')) /\
  (rc_each_cpu_active context <> 0 ->
   spz_kpatch_run_each_cpu self context (Some self) s callback w = (- EBUSY, context, w)).
Proof.
  intros Hready Haddr. split; intros Hact.
  - destruct (round_runs self context s callback w Hready Haddr Hact) as [status H].
    eexists. split_and!; [| | |exact H]; reflexivity.
  - unfold spz_kpatch_run_each_cpu. by rewrite !eqb_ne by done.
Qed.

(** ** Preparation *)

(** A module just started. *)
Record fresh (m : spz_module_state machine) (profile : spz_device_profile) : Prop := {
  fr_profile : mo_profile m = Some profile;
  fr_state : pr_state (mo_runtime m) = SPZ_PROFILE_READY;
  fr_hooks : pr_hooks_allowed (mo_runtime m) <> 0;
  fr_cpus : pr_initial_cpu_count (mo_runtime m) <> 0 /\ pr_initial_cpu_count (mo_runtime m) <= SPZ_MAX_CPUS;
  fr_ready : mo_ready m = 1 /\ mo_accepting_commands m = 1;
  fr_gates : mo_active_handlers m = 0 /\ mo_control_busy m = 0;
  fr_break : mo_breakpoint_configured m = 0 /\ mo_breakpoint_enabled m = 0;
  fr_parts : mo_binding m = spz_binding_init /\ mo_ring m = spz_ring_init /\ mo_async m = spz_async_init;
  fr_debug : spz_all_debug_empty m = true;
}.

Lemma all_empty_init count cpu {hw} (c : spz_debug_controller hw) :
  (forall i, cpu <= i < cpu + Z.of_nat count -> exists s, spz_debug_get_cpu_state c i = Some s /\ ds_state s = SPZ_DEBUG_EMPTY) ->
  all_empty_loop count cpu c = true.
Proof.
  revert cpu. induction count as [|count IH]; intros cpu H; [done|]. cbn [all_empty_loop].
  destruct (H cpu) as (s & -> & Hs); [lia|]. rewrite Hs. rewrite bool_decide_eq_false_2 by auto. apply IH. intros i Hi. apply H. lia.
Qed.

Lemma controller_init_cases {hw} (ops : option (spz_debug_ops_table hw)) cpus :
  (exists c, spz_debug_controller_init ops cpus = (0, Some c)) \/ spz_debug_controller_init ops cpus = (- EINVAL, None).
Proof.
  unfold spz_debug_controller_init.
  destruct ops as [[brps wrps [?|] [?|] [?|] [?|] [?|] [?|] [?|] [?|]]|]; try by right.
  destruct (_ || _); [by right|left; by eexists].
Qed.

Lemma controller_init_empty {hw} (ops : option (spz_debug_ops_table hw)) cpus c :
  spz_debug_controller_init ops cpus = (0, Some c) ->
  all_empty_loop (Z.to_nat (dc_cpu_count c)) 0 c = true.
Proof.
  unfold spz_debug_controller_init. intros H. destruct ops as [[brps wrps [?|] [?|] [?|] [?|] [?|] [?|] [?|] [?|]]|]; try done.
  destruct (_ || _) eqn:Hg; [done|]. repeat (apply orb_false_iff in Hg as [Hg ?]). injection H as <-.
  apply all_empty_init. cbn [dc_cpu_count]. intros i Hi. unfold spz_debug_get_cpu_state. cbn [dc_cpu_count].
  rewrite (proj2 (Z.leb_gt cpus i)) by lia. eexists. split; [done|]. 
  change (ds_state (replicate (Z.to_nat SPZ_MAX_CPUS) zero_debug_cpu_state !!! Z.to_nat i) = SPZ_DEBUG_EMPTY).
  rewrite lookup_total_replicate_2 by (unfold SPZ_MAX_CPUS in *; lia). done.
Qed.

Lemma core_init_fresh profile runtime ops backend result m :
  spz_module_core_init (Some profile) (Some runtime) true true (Some ops) backend = (result, m) ->
  (result = 0 /\ exists m', m = Some m' /\ fresh m' profile) \/ (result <> 0).
Proof.
  unfold spz_module_core_init. cbn [negb orb]. destruct (_ || _ || _ || _) eqn:Hg; [by intros [= <- <-]; right|].
  repeat (apply orb_false_iff in Hg as [Hg ?]). apply bool_decide_eq_false in Hg.
  destruct (controller_init_cases (Some ops) (pr_initial_cpu_count runtime)) as [[debug Ed] | ->]; [|by intros [= <- <-]; right].
  rewrite Ed.
  intros [= <- <-]. left. split; [done|]. eexists. split; [done|].
  split; cbn; try done.
  - destruct (pr_state runtime); [by destruct Hg..|done].
  - lia.
  - lia.
  - unfold spz_all_debug_empty. cbn. by eapply controller_init_empty.
Qed.

(** A context whose work item is registered and which runs no round. *)
Record registered (self : Z) (context : spz_kpatch_runtime_context) (transport : option Z) : Prop := {
  rg_transport : transport = Some self;
  rg_ready : rc_transport_ready context = 1;
  rg_idle : rc_each_cpu_active context = 0;
  rg_schedule : rc_schedule_on_each_cpu_address context <> 0;
  rg_flush : rc_flush_work_address context <> 0;
}.

Lemma transport_init_cases k self storage worker context transport :
  transport <> Some self -> rc_each_cpu_active context = 0 -> rc_flush_work_address context <> 0 ->
  let '(result, context', transport') := spz_kpatch_async_transport_init k self storage worker context transport in
  (result = 0 /\ transport = None /\ registered self context' transport' /\ rc_profile context' = rc_profile context /\
   rc_profile context <> None) \/
  (result <> 0 /\ transport' = transport).
Proof.
  intros Hne Hidle Hflush. unfold spz_kpatch_async_transport_init. destruct (rc_profile context) as [profile|] eqn:Hp; [|by right].
  destruct (_ || _ || _) eqn:Ha; [by right|]. apply orb_false_iff in Ha as [[_ Ha]%orb_false_iff _].
  destruct (_ || _ || _ || _ || _); [by right|]. cbv zeta.
  destruct (spz_kpatch_nofault_read _ _ _ _) as [r bytes]. destruct (negb (r =? 0)); [by right|].
  destruct (rc_system_unbound_wq _ =? 0); [by right|].
  destruct transport as [other|].
  - rewrite eqb_ne by congruence. by right.
  - left. split_and!; [done|done| |done|done]. split; [done|done|done|cbn; lia|exact Hflush].
Qed.

Lemma per_cpu_loop_keeps k address count cpu context :
  let '(_, context') := per_cpu_loop k address count cpu context in
  rc_each_cpu_active context' = rc_each_cpu_active context /\ rc_profile context' = rc_profile context.
Proof.
  revert cpu context. induction count as [|count IH]; intros cpu context; cbn [per_cpu_loop]; [done|].
  destruct (_ <? cpu); [done|]. destruct (spz_kpatch_nofault_read _ _ _ _) as [r bytes].
  destruct (negb (r =? 0)); [done|].
  specialize (IH (cpu + 1) (context <| rc_per_cpu_offsets ::= <[Z.to_nat cpu := le_value bytes]> |>)).
  by destruct (per_cpu_loop _ _ _ _ _).
Qed.

(** What a validation that succeeds has shown. *)
Lemma validated_facts profile ops text capacity :
  c_release profile ->
  let out := spz_profile_validate (Some profile) (Some ops) text capacity in
  out.1.1 = 0 ->
  profile_bounds profile /\ exists symbols lookup,
    po_lookup_symbol ops = Some lookup /\
    (exists read_memory banner page_size cpu_count dfr0,
       kernel_matches profile lookup read_memory banner page_size cpu_count dfr0 symbols) /\
    pr_symbols out.1.2 = symbols.
Proof.
  intros Hstr out Hr. pose proof (validate_cases (Some profile) (Some ops) text capacity ltac:(by intros ? [= <-])) as H.
  cbv zeta in H. fold out in H. destruct H as [_ [(_ & symbols & p & cc & rd & H & Hk)|[Hneg _]]].
  - destruct H as (ls & rm & rb & ps & ro & [= <-] & _ & Hb & [= ->] & Hm).
    split; [done|]. exists symbols, ls. split; [done|]. split; [by exists rm, rb, ps, cc, rd|apply Hk].
  - unfold rejected in Hneg. destruct out as [[r rt] tx]. cbn in Hr. lia.
Qed.

(** A module of the profile asked for, registered; or nothing. *)
Definition prepare_outcome (e : environment) (profile_id : option (list Z)) (transport : option Z) (out : prepared) : Prop :=
  let '(result, module, context', transport', _) := out in
  (result = 0 /\ exists m profile, module = Some m /\ spz_profile_select profile_id = Some profile /\ fresh m profile /\
     transport = None /\ registered (en_self e) context' transport' /\ rc_profile context' = Some profile) \/
  (result <> 0 /\ module = None /\ transport' = transport).

Lemma prepare_validated_outcome e profile_id profile runtime context transport text :
  spz_profile_select profile_id = Some profile -> transport <> Some (en_self e) -> rc_each_cpu_active context = 0 -> rc_profile context = Some profile ->
  pr_symbols runtime !!! SPZ_SYMBOL_FLUSH_WORK <> 0 ->
  prepare_outcome e profile_id transport (prepare_validated e profile runtime context transport text).
Proof.
  intros Hsel Hne Hidle Hp Hflush. unfold prepare_validated. cbv zeta. set (c1 := take_symbols runtime context).
  destruct (spz_arm64_make_debug_ops _ _) as [r [ops|]] eqn:Eops.
  2:{ right. split; [|done]. unfold spz_arm64_make_debug_ops in Eops. cbn in Eops.
      destruct (_ || _); [|done]. by injection Eops as <-. }
  pose proof (transport_init_cases (en_kernel e) (en_self e) (en_storage_address e) (en_worker e) c1 transport Hne Hidle Hflush) as Ht.
  destruct (spz_kpatch_async_transport_init _ _ _ _ _ _) as [[r1 c2] t2].
  destruct Ht as [(-> & -> & Hreg & Hprof & _)|[Hr ->]]; [|rewrite (eqb_ne r1 0) by done; by right].
  cbn [negb Z.eqb].
  assert (bool_decide (t2 = Some (en_self e)) = true) as Hreset by (apply bool_decide_eq_true; apply Hreg).
  destruct (spz_kpatch_maps_backend_init _ _ _ _) as [r2 backend].
  destruct (r2 =? 0) eqn:Hr2; cbn [negb].
  2:{ right. cbn. rewrite Hreset. split_and!; [lia|done|done]. }
  destruct (spz_module_core_init _ _ _ _ _ _) as [r3 module] eqn:Ecore.
  apply core_init_fresh in Ecore as [(-> & m & -> & Hfresh)|Hr3].
  - left. cbn [negb Z.eqb]. split; [done|]. exists m, profile. split_and!; [done..|]. rewrite Hprof. exact Hp.
  - rewrite (eqb_ne r3 0) by done. right. cbn. rewrite Hreset. done.
Qed.

Lemma prepare_cases e profile_id text capacity transport :
  transport <> Some (en_self e) ->
  prepare_outcome e profile_id transport (spz_kpatch_runtime_prepare e profile_id text capacity transport).
Proof.
  intros Hne. unfold spz_kpatch_runtime_prepare. destruct profile_id as [id|]; [|by right].
  destruct (spz_profile_select (Some id)) as [profile|] eqn:Hsel; [|by right]. cbv zeta.
  set (c0 := _ <| rc_nofault_address := _ |>). destruct (rc_nofault_address c0 =? 0); [by right|].
  set (c1 := c0 <| rc_cpu_count := _ |>). destruct (_ || _); [by right|].
  set (c2 := _ <| rc_wp_on_reg := _ |>). destruct (_ || _ || _); [by right|].
  pose proof (per_cpu_loop_keeps (en_kernel e) (spz_kpatch_lookup (en_kernel e) (sp_per_cpu_offset (profile_symbols profile)))
    (Z.to_nat (rc_cpu_count c2)) 0 c2) as Hloop.
  destruct (per_cpu_loop _ _ _ _ _) as [r c3]. destruct Hloop as [Hidle Hp].
  destruct (negb (r =? 0)) eqn:Hr; [right; split; [by destruct (Z.eqb_spec r 0)|done]|].
  pose proof (validated_facts profile (kpatch_profile_ops (en_kernel e) c3 (en_me e) (en_machine e)) text capacity
    (selected_release _ _ Hsel)) as Hv.
  destruct (spz_profile_validate _ _ _ _) as [[rv runtime] text'].
  destruct (negb (rv =? 0)) eqn:Hrv; [right; split; [by destruct (Z.eqb_spec rv 0)|done]|].
  apply prepare_validated_outcome; try done.
  destruct Hv as (_ & symbols & lookup & _ & (? & ? & ? & ? & ? & Hm) & Hs); [by destruct (Z.eqb_spec rv 0)|]. cbn [fst snd] in Hs. rewrite Hs.
  by destruct (matches_symbol _ _ _ _ _ _ _ _ _ _ _ Hm (eq_refl : symbol_table profile !! SPZ_SYMBOL_FLUSH_WORK = _)) as (? & _ & _ & ?).
Qed.

(** C25: preparing the module is all or nothing. On success it hands over a module
    with empty components, open gates and a validated runtime of exactly the
    profile asked for, and the context, idle, is the one registered with the
    workers, which nobody was before; on any failure, wherever it happens, there is
    no module and the registration is as it was. *)
Theorem prepare_all_or_nothing e profile_id text capacity transport :
  transport <> Some (en_self e) ->
  let '(result, module, context', transport', _) := spz_kpatch_runtime_prepare e profile_id text capacity transport in
  (result = 0 /\ exists m profile, module = Some m /\ spz_profile_select profile_id = Some profile /\ fresh m profile /\
     transport = None /\ registered (en_self e) context' transport' /\ rc_profile context' = Some profile) \/
  (result <> 0 /\ module = None /\ transport' = transport).
Proof. exact (prepare_cases e profile_id text capacity transport). Qed.

(** ** A kernel on which the preparation succeeds *)

Definition demo_symbol (name : list Z) : Z :=
  if bool_decide (name = str "linux_banner") then 65536
  else if bool_decide (name = str "nr_cpu_ids") then 131072
  else if bool_decide (name = str "__per_cpu_offset") then 196608
  else if bool_decide (name = str "system_unbound_wq") then 262144
  else 4096.

Definition demo_banner : list Z :=
  str "Linux version 6.12.23-android16-5-gb2a876903b49-ab14541642-4k (build)" ++ [0].

Definition demo_nofault (address : Z) (n : nat) : option (list Z) :=
  if (65536 <=? address) && (address <? 131072) then Some (take n (drop (Z.to_nat (address - 65536)) demo_banner))
  else if address =? 131072 then Some (le_bytes 4 8)
  else if (196608 <=? address) && (address <? 262144) then Some (le_bytes 8 (address * 16))
  else if address =? 262144 then Some (le_bytes 8 36864)
  else Some (plk110_memory address n).2.

Definition demo_env : environment :=
  {| en_kernel := {| kn_kallsyms := Some demo_symbol; kn_nofault := demo_nofault; kn_time := 7 |};
     en_machine := idle_machine; en_me := 3; en_self := 1000; en_storage_address := 2000; en_worker := 3000;
     en_private_address := 4000; en_maps := fun _ => demo_kernel |}.

Definition demo_profile_id : list Z := default [] (profile_id profile_oneplus_plk110_a16_b4999618_d05).

Lemma demo_prepared_result :
  let '(result, _, _, _, _) := spz_kpatch_runtime_prepare demo_env (Some demo_profile_id) None 0 None in result = 0.
Proof. vm_compute. reflexivity. Qed.

Lemma demo_profile_selected :
  spz_profile_select (Some demo_profile_id) = Some profile_oneplus_plk110_a16_b4999618_d05.
Proof. vm_compute. reflexivity. Qed.

Lemma prepare_all_or_nothing_witness :
  let '(result, module, context', transport', _) :=
    spz_kpatch_runtime_prepare demo_env (Some demo_profile_id) None 0 None in
  result = 0 /\ exists m, module = Some m /\ fresh m profile_oneplus_plk110_a16_b4999618_d05 /\
    registered 1000 context' transport'.
Proof.
  generalize (prepare_all_or_nothing demo_env (Some demo_profile_id) None 0 None ltac:(discriminate)).
  generalize demo_prepared_result.
  destruct (spz_kpatch_runtime_prepare demo_env (Some demo_profile_id) None 0 None) as [[[[result module] c] t] text].
  intros E [(_ & m & profile & Hm & Hsel & Hf & _ & Hreg & _)|[Hr _]]; [|destruct (Hr E)].
  split; [exact E|]. exists m. split; [exact Hm|].
  assert (profile = profile_oneplus_plk110_a16_b4999618_d05) as Hprof
    by (rewrite demo_profile_selected in Hsel; congruence).
  rewrite <- Hprof. split; [exact Hf|exact Hreg].
Defined.

Definition demo_registered : spz_kpatch_runtime_context := Eval vm_compute in
  zero_context <| rc_transport_ready := 1 |> <| rc_schedule_on_each_cpu_address := 4096 |> <| rc_flush_work_address := 4096 |>.

Definition demo_view (cpu : Z) : platform_view :=
  {| pv_current_cpu := (0, cpu); pv_current_task := None; pv_timestamp := 0 |}.

Definition demo_callback (_ : platform_view) (cpu : Z) (w : world unit) : Z * world unit :=
  (if cpu =? 1 then - EXDEV else 0, w).

(** Two CPUs; the callback fails on the second. *)
Lemma round_is_exclusive_witness :
  exists context', rc_each_cpu_active context' = 0 /\
    spz_kpatch_run_each_cpu 1000 demo_registered (Some 1000) (0, [demo_view 0; demo_view 1]) demo_callback
      (demo_world (demo_module 0)) = (- EXDEV, context', demo_world (demo_module 0)).
Proof.
  destruct (round_is_exclusive 1000 demo_registered (0, [demo_view 0; demo_view 1]) demo_callback
    (demo_world (demo_module 0)) ltac:(discriminate) ltac:(discriminate)) as [H _].
  destruct (H eq_refl) as (context' & Hact & _ & _ & Hrun). exists context'. split; [exact Hact|]. exact Hrun.
Defined.

Lemma plk110_layout_typed : layout_typed (profile_layout profile_oneplus_plk110_a16_b4999618_d05).
Proof. split; cbn; lia. Qed.

Lemma work_item_well_formed_witness :
  let context := demo_registered <| rc_profile := Some profile_oneplus_plk110_a16_b4999618_d05 |>
    <| rc_queue_work_on_address := 4096 |> <| rc_system_unbound_wq_address := 262144 |> <| rc_nofault_address := 4096 |> in
  let '(result, context', _) :=
    spz_kpatch_async_transport_init (en_kernel demo_env) 1000 2000 3000 context None in
  result = 0 /\ read_u64 (rc_work_storage context') 0 = 4503599625273344 /\
  read_u64 (rc_work_storage context') 8 = 2008 /\ read_u64 (rc_work_storage context') 16 = 2008 /\
  read_u64 (rc_work_storage context') 24 = 3000.
Proof.
  cbv zeta. set (context := demo_registered <| rc_profile := _ |> <| rc_queue_work_on_address := _ |>
    <| rc_system_unbound_wq_address := _ |> <| rc_nofault_address := _ |>).
  assert (let '(result, _, _) := spz_kpatch_async_transport_init (en_kernel demo_env) 1000 2000 3000 context None in result = 0)
    as E by (vm_compute; reflexivity).
  pose proof (work_item_well_formed (en_kernel demo_env) 1000 2000 3000 context None
    profile_oneplus_plk110_a16_b4999618_d05 eq_refl plk110_layout_typed
    ltac:(cbn; unfold work_disjoint; cbn; lia) ltac:(lia)) as H.
  destruct (spz_kpatch_async_transport_init (en_kernel demo_env) 1000 2000 3000 context None) as [[result context'] t].
  destruct H as [H _]. destruct (H E) as (_ & _ & H1 & H2 & H3 & H4). split; [exact E|].
  split; [exact H1|]. split; [exact H2|]. split; [exact H3|exact H4].
Defined.
