(* ===== verification/DebugPlatform.v ===== *)
(** * The debug registers under a prepared module

    The slots of a CPU have owners: words in two per-CPU arrays of the kernel, named
    by the symbols of the profile. [kernel_owner] says where they are, in terms of the
    symbol table and the memory of the kernel alone. A module whose preparation
    succeeded works on exactly these words and the registers of its CPU, so that everything proved
    about debug sessions holds for it. *)

From S2P Require Import Prelude Crc32 Abi Ring DeviceProfiles Profile ProfileSpec Task Debug DebugEncode DebugSpec Arm64.
From S2P Require Import Maps Async Runtime RuntimeSpec MapsSpec Render KpatchMaps Platform PlatformSpec Transport TransportSpec.

(** ** Where the kernel keeps the owners *)

Definition kernel_symbol (k : kernel) (name : option (list Z)) : Z :=
  match kn_kallsyms k, name with Some lookup, Some name => lookup name | _, _ => 0 end.

Definition kernel_word (k : kernel) (address : Z) (n : nat) : Z :=
  match kn_nofault k address n with Some bytes => le_value bytes | None => 0 end.

Section owners.
Context (k : kernel) (profile : spz_device_profile).
Let symbols := profile_symbols profile.

(** [nr_cpu_ids] and the entry of [__per_cpu_offset] for a CPU. *)
Definition kernel_cpus : Z := kernel_word k (kernel_symbol k (sp_nr_cpu_ids symbols)) 4.
Definition kernel_offset (cpu : Z) : Z := kernel_word k (u64 (kernel_symbol k (sp_per_cpu_offset symbols) + cpu * 8)) 8.

(** The array of breakpoints or watchpoints of a CPU: pointers of eight bytes. *)
Definition owner_array (cpu : Z) (kind : spz_debug_slot_kind) : Z :=
  u64 (kernel_symbol k (match kind with SPZ_DEBUG_SLOT_BREAKPOINT => sp_bp_on_reg symbols | _ => sp_wp_on_reg symbols end)
       + kernel_offset cpu).
Definition owner_word_at (cpu : Z) (kind : spz_debug_slot_kind) (slot : Z) : Z := u64 (owner_array cpu kind + slot * 8).
Definition kernel_owner (cpu : Z) (kind : spz_debug_slot_kind) (slot : Z) : Z :=
  kernel_word k (owner_word_at cpu kind slot) 8.

Definition slot_count (kind : spz_debug_slot_kind) : Z :=
  match kind with SPZ_DEBUG_SLOT_BREAKPOINT => dp_brps (profile_debug profile) | _ => dp_wrps (profile_debug profile) end.

(** The kernel runs this code on CPU [me]: its offset register holds the entry of
    the table for [me], which no CPU before has, and its owner arrays can be read. *)
Record runs_on (me offset : Z) : Prop := {
  ro_cpu : 0 <= me < kernel_cpus;
  ro_offset : offset = kernel_offset me;
  ro_distinct : forall i, 0 <= i < me -> kernel_offset i <> offset;
  ro_arrays : forall kind slot, 0 <= slot < slot_count kind ->
    owner_array me kind <> 0 /\ owner_array me kind + slot * 8 <= UINT64_MAX /\
    is_Some (kn_nofault k (owner_array me kind + slot * 8) 8);
}.

(** ** What a context has to hold *)

(** The context names the kernel's tables. *)
Record names_kernel (context : spz_kpatch_runtime_context) : Prop := {
  nk_profile : rc_profile context = Some profile;
  nk_nofault : rc_nofault_address context <> 0;
  nk_count : rc_cpu_count context = kernel_cpus;
  nk_offsets : forall cpu, 0 <= cpu < kernel_cpus -> rc_per_cpu_offsets context !!! Z.to_nat cpu = kernel_offset cpu;
  nk_tables : rc_bp_on_reg context = kernel_symbol k (sp_bp_on_reg symbols) /\ rc_bp_on_reg context <> 0 /\
    rc_wp_on_reg context = kernel_symbol k (sp_wp_on_reg symbols) /\ rc_wp_on_reg context <> 0;
}.

Section ready.
Context (context : spz_kpatch_runtime_context) (me offset : Z).
Context (Hk : names_kernel context) (Hb : profile_bounds profile) (Hrun : runs_on me offset).

Lemma finds_cpu : spz_kpatch_current_cpu context offset = (0, me).
Proof.
  pose proof (ro_cpu _ _ Hrun). unfold spz_kpatch_current_cpu. rewrite (nk_count _ Hk).
  apply current_cpu_loop_found; [lia| |].
  - rewrite (nk_offsets _ Hk) by lia. symmetry. apply Hrun.
  - intros i Hi. rewrite (nk_offsets _ Hk) by lia. apply Hrun. lia.
Qed.

(** An address the code computes is that of the owner's word. *)
Lemma owner_address_is kind slot address :
  spz_kpatch_owner_address context me kind slot = inr address -> address = owner_word_at me kind slot.
Proof.
  unfold spz_kpatch_owner_address. rewrite (nk_profile _ Hk), (nk_offsets _ Hk) by apply Hrun. case_match; [done|].
  rewrite (pb_stride _ Hb). unfold spz_kpatch_per_cpu_address.
  destruct (nk_tables _ Hk) as (-> & _ & -> & _). unfold owner_word_at, owner_array. cbv zeta.
  destruct (_ || _); [done|]. destruct (_ || _); [done|]. destruct (_ =? 0); [done|]. intros [= <-]. case_bool_decide as Hkind.
  - subst kind. unfold symbols. zlia.
  - destruct kind; [|done|]; unfold symbols; zlia.
Qed.

Lemma owner_address_ok kind slot :
  0 <= slot < slot_count kind -> spz_kpatch_owner_address context me kind slot = inr (owner_array me kind + slot * 8).
Proof.
  intros Hs. destruct (ro_arrays _ _ Hrun kind slot Hs) as (Hnz & Hle & _). pose proof (ro_cpu _ _ Hrun).
  unfold spz_kpatch_owner_address. rewrite (nk_profile _ Hk), (nk_count _ Hk), (nk_offsets _ Hk) by lia.
  rewrite (proj2 (Z.leb_gt _ _)), (pb_stride _ Hb) by lia. destruct (nk_tables _ Hk) as (Hbp & ? & Hwp & ?).
  unfold owner_array in *. case_bool_decide as Hkind.
  - subst kind. rewrite <- Hbp in *. by apply per_cpu_address_ok; [done|lia|lia|..].
  - destruct kind; [|done|]; rewrite <- Hwp in *; by apply per_cpu_address_ok; [done|lia|lia|..].
Qed.

Lemma read_owner_is cpu kind slot :
  (spz_kpatch_read_owner k context offset cpu kind slot).1 = 0 ->
  (spz_kpatch_read_owner k context offset cpu kind slot).2 = kernel_owner cpu kind slot.
Proof.
  unfold spz_kpatch_read_owner. rewrite finds_cpu. cbn [negb Z.eqb orb].
  destruct (Z.eqb_spec me cpu) as [<-|]; cbn [negb]; [|done].
  destruct (spz_kpatch_owner_address context me kind slot) as [r|address] eqn:Ea.
  - unfold spz_kpatch_owner_address in Ea. rewrite (nk_profile _ Hk) in Ea. unfold spz_kpatch_per_cpu_address in Ea.
    cbv zeta in Ea. cbn. repeat case_match; simplify_eq; done.
  - apply owner_address_is in Ea as ->. unfold spz_kpatch_nofault_read, kernel_owner, kernel_word.
    destruct (_ =? 0); [done|]. destruct (_ =? 0); [done|]. by destruct (kn_nofault _ _ _).
Qed.

Lemma read_owner_works kind slot :
  0 <= slot < slot_count kind -> (spz_kpatch_read_owner k context offset me kind slot).1 = 0.
Proof.
  intros Hs. unfold spz_kpatch_read_owner. rewrite finds_cpu. cbn [negb Z.eqb orb]. rewrite Z.eqb_refl. cbn [negb].
  rewrite owner_address_ok by done. destruct (ro_arrays _ _ Hrun kind slot Hs) as (Hnz & Hle & bytes & Hm).
  assert (is_u64 (owner_array me kind)) by (unfold owner_array; zlia).
  unfold spz_kpatch_nofault_read. rewrite eqb_ne by lia. rewrite eqb_ne by apply Hk. by rewrite Hm.
Qed.

#[export] Instance owners_ok : OwnersOk me (kpatch_owner_ops k context profile offset) kernel_owner.
Proof.
  pose proof (pb_brps _ Hb). pose proof (pb_wrps _ Hb). split.
  - cbn. by rewrite finds_cpu.
  - exists (fun _ => spz_kpatch_read_owner k context offset). split; [done|]. split; [intros _; apply read_owner_is|].
    intros m kind slot [[-> | ->] Hslot]; apply read_owner_works; unfold spz_debug_slot_count in Hslot;
      case_bool_decide; cbn -[Z.to_nat] in Hslot |- *; first [done|lia].
  - cbn. unfold SPZ_DEBUG_MAX_SLOTS. lia.
Qed.

Lemma debug_ops_made :
  spz_arm64_make_debug_ops me (kpatch_owner_ops k context profile offset) =
    (0, Some (arm64_ops me (kpatch_owner_ops k context profile offset))).
Proof.
  unfold spz_arm64_make_debug_ops. cbn [ow_current_cpu ow_read_owner ow_brp_count ow_wrp_count kpatch_owner_ops].
  pose proof (pb_brps _ Hb). pose proof (pb_wrps _ Hb). unfold SPZ_DEBUG_MAX_SLOTS. by zbool.
Qed.
End ready.
End owners.

(** ** A preparation that succeeds *)

Lemma nofault_word k context address n bytes :
  spz_kpatch_nofault_read k context address n = (0, bytes) -> kernel_word k address n = le_value bytes.
Proof. unfold spz_kpatch_nofault_read, kernel_word. repeat (case_match; [done|]). case_match; [|done]. by intros [= <-]. Qed.

(** The loop that reads the offsets fills in the kernel's table. *)
Lemma per_cpu_loop_offsets k profile count cpu context context' :
  0 <= cpu -> (Z.to_nat cpu + count <= length (rc_per_cpu_offsets context))%nat ->
  per_cpu_loop k (kernel_symbol k (sp_per_cpu_offset (profile_symbols profile))) count cpu context = (0, context') ->
  context' = context <| rc_per_cpu_offsets := rc_per_cpu_offsets context' |> /\
  (forall i, 0 <= i < cpu -> rc_per_cpu_offsets context' !!! Z.to_nat i = rc_per_cpu_offsets context !!! Z.to_nat i) /\
  (forall i, cpu <= i < cpu + Z.of_nat count -> rc_per_cpu_offsets context' !!! Z.to_nat i = kernel_offset k profile i).
Proof.
  revert cpu context. induction count as [|count IH]; intros cpu context Hcpu Hlen; cbn [per_cpu_loop].
  { intros [= <-]. split; [by destruct context|]. split; [done|lia]. }
  destruct (_ <? cpu); [done|]. destruct (spz_kpatch_nofault_read _ _ _ _) as [r bytes] eqn:Er.
  destruct (Z.eqb_spec r 0) as [->|Hr]; cbn [negb]; [|by intros [= -> _]].
  set (c1 := context <| rc_per_cpu_offsets ::= _ |>). intros H.
  assert (rc_per_cpu_offsets c1 = <[Z.to_nat cpu := le_value bytes]> (rc_per_cpu_offsets context)) as Hc1 by done.
  apply IH in H as (H1 & H2 & H3); [|lia|rewrite Hc1, length_insert; lia].
  split; [rewrite H1; by destruct context|]. apply nofault_word in Er. split.
  - intros i Hi. rewrite H2, Hc1 by lia. apply list_lookup_total_insert_ne. lia.
  - intros i Hi. destruct (decide (i = cpu)) as [->|Hne]; [|apply H3; lia].
    rewrite H2, Hc1 by lia. rewrite list_lookup_total_insert_eq by lia. unfold kernel_offset. by rewrite Er.
Qed.

Lemma cpu_count_is k context profile :
  rc_profile context = Some profile -> rc_nofault_address context <> 0 -> spz_kpatch_cpu_count k context <> 0 ->
  spz_kpatch_cpu_count k context = kernel_cpus k profile.
Proof.
  intros Hp Hn. unfold spz_kpatch_cpu_count. rewrite Hp. case_match; [done|].
  destruct (spz_kpatch_nofault_read _ _ _ _) as [r bytes] eqn:Er. destruct (Z.eqb_spec r 0) as [->|]; [|done].
  intros _. apply nofault_word in Er. by rewrite <- Er.
Qed.

(** The module works with the operations it was given. *)
Lemma controller_ops {hw} (ops : spz_debug_ops hw) cpus c :
  spz_debug_controller_init (Some (debug_table ops)) cpus = (0, Some c) -> dc_ops c = ops.
Proof. unfold spz_debug_controller_init. cbn. case_match; [done|]. intros [= <-]. by destruct ops. Qed.

Lemma core_init_ops {hw} profile runtime (ops : spz_debug_ops hw) backend m :
  spz_module_core_init (Some profile) (Some runtime) true true (Some (debug_table ops)) backend = (0, Some m) ->
  dc_ops (mo_debug m) = ops.
Proof.
  unfold spz_module_core_init. cbn [negb orb]. case_match; [done|].
  destruct (spz_debug_controller_init _ _) as [r [c|]] eqn:Ec; [|done]. intros [= -> <-]. by eapply controller_ops.
Qed.

(** The context after the last steps and the operations of the module. *)
Lemma prepare_validated_ops e profile runtime context transport text m context' transport' text' :
  rc_profile context = Some profile ->
  prepare_validated e profile runtime context transport text = (0, Some m, context', transport', text') ->
  dc_ops (mo_debug m) = arm64_ops (en_me e) (kpatch_owner_ops (en_kernel e) (take_symbols runtime context) profile
    (spz_arm64_current_cpu_offset (en_me e) (en_machine e))).
Proof.
  intros Hp. unfold prepare_validated. cbv zeta.
  destruct (spz_arm64_make_debug_ops _ _) as [r [ops|]] eqn:Eops; [|done].
  assert (ops = arm64_ops (en_me e) (kpatch_owner_ops (en_kernel e) (take_symbols runtime context) profile
    (spz_arm64_current_cpu_offset (en_me e) (en_machine e)))) as ->.
  { unfold spz_arm64_make_debug_ops in Eops. cbn in Eops. case_match; [done|]. by injection Eops as <-. }
  destruct (spz_kpatch_async_transport_init _ _ _ _ _ _) as [[r1 c1] t1]. case_match; [done|].
  destruct (spz_kpatch_maps_backend_init _ _ _ _) as [r2 backend].
  case_match; [destruct (spz_kpatch_async_transport_reset _ _ _); done|].
  destruct (spz_module_core_init _ _ _ _ _ _) as [r3 [m3|]] eqn:Ec; (destruct (Z.eqb_spec r3 0) as [->|]; cbn [negb];
    [|by destruct (spz_kpatch_async_transport_reset _ _ _)]).
  - intros [= <- _ _ _]. by eapply core_init_ops.
  - done.
Qed.

Lemma prepared_names_kernel e profile_id text capacity transport m context' transport' text' :
  spz_kpatch_runtime_prepare e profile_id text capacity transport = (0, Some m, context', transport', text') ->
  exists profile context, spz_profile_select profile_id = Some profile /\ profile_bounds profile /\
    names_kernel (en_kernel e) profile context /\
    dc_ops (mo_debug m) = arm64_ops (en_me e) (kpatch_owner_ops (en_kernel e) context profile
      (spz_arm64_current_cpu_offset (en_me e) (en_machine e))).
Proof.
  unfold spz_kpatch_runtime_prepare. destruct profile_id as [id|]; [|done].
  destruct (spz_profile_select (Some id)) as [profile|] eqn:Hsel; [|done]. cbv zeta.
  set (c0 := _ <| rc_nofault_address := _ |>). destruct (rc_nofault_address c0 =? 0) eqn:E0; [done|].
  set (c1 := c0 <| rc_cpu_count := _ |>). destruct (_ || _) eqn:E1; [done|]. apply orb_false_iff in E1 as [E1 E1'].
  set (c2 := _ <| rc_wp_on_reg := _ |>). destruct (_ || _ || _) eqn:E2; [done|].
  apply orb_false_iff in E2 as [[_ E2]%orb_false_iff E2'].
  destruct (per_cpu_loop _ _ _ _ _) as [r c3] eqn:Eloop. destruct (Z.eqb_spec r 0) as [->|]; cbn [negb]; [|by intros [= ? _]].
  assert (rc_cpu_count c2 = kernel_cpus (en_kernel e) profile) as Hcount
    by (apply (cpu_count_is (en_kernel e) c0 profile); [done|lia|unfold c1 in E1; cbn -[spz_kpatch_cpu_count] in E1; lia]).
  change (rc_cpu_count c1) with (rc_cpu_count c2) in *. rewrite Hcount in *.
  apply (per_cpu_loop_offsets (en_kernel e) profile) in Eloop as (H1 & _ & H3);
    [|lia|unfold c2, c1, c0; cbn -[Z.to_nat]; rewrite length_replicate; lia].
  pose proof (validated_facts profile (kpatch_profile_ops (en_kernel e) c3 (en_me e) (en_machine e)) text capacity
    (selected_release _ _ Hsel)) as Hv.
  destruct (spz_profile_validate _ _ _ _) as [[rv runtime] text1].
  destruct (Z.eqb_spec rv 0) as [->|]; cbn [negb]; [|by intros [= ? _]].
  destruct Hv as (Hb & symbols & lookup & _ & (? & ? & ? & ? & ? & Hm) & Hs); [done|]. cbn [fst snd] in Hs.
  intros H. exists profile, (take_symbols runtime c3). split; [done|]. split; [done|].
  split; [|eapply (prepare_validated_ops _ _ _ c3); [by rewrite H1|exact H]].
  assert (forall i, 0 <= i < kernel_cpus (en_kernel e) profile ->
    rc_per_cpu_offsets c3 !!! Z.to_nat i = kernel_offset (en_kernel e) profile i) as Hoff by (intros; apply H3; lia).
  split.
  - cbn. by rewrite H1.
  - cbn -[lookup_total]. rewrite Hs.
    by destruct (matches_symbol _ _ _ _ _ _ _ _ _ _ _ Hm (eq_refl : symbol_table profile !! SPZ_SYMBOL_COPY_FROM_KERNEL_NOFAULT = _))
      as (? & _ & _ & ?).
  - cbn. by rewrite H1.
  - exact Hoff.
  - cbn. rewrite H1. unfold c2 in E2, E2' |- *. cbn -[spz_kpatch_lookup kernel_symbol] in E2, E2' |- *.
    unfold kernel_symbol. unfold spz_kpatch_lookup in *. split_and!; [done|lia|done|lia].
Qed.

(** C29: the module works on the kernel's debug slots. Where a preparation succeeded and
    the code runs on a CPU of the kernel, whose offset register holds the entry of
    that CPU in [__per_cpu_offset] and whose owner arrays can be read, the
    operations of the module are debug hardware that never fails on the slots of
    that CPU: they read and write exactly its registers, and the owner of a slot is
    the word of that slot in the kernel's own array, [bp_on_reg] for breakpoints and
    [wp_on_reg] for watchpoints, at the offset of that CPU. The counts of slots are
    those of the profile. *)
Theorem prepared_platform_is_debug_hw e profile_id text capacity transport m context' transport' text' profile :
  spz_kpatch_runtime_prepare e profile_id text capacity transport = (0, Some m, context', transport', text') ->
  spz_profile_select profile_id = Some profile ->
  runs_on (en_kernel e) profile (en_me e) (spz_arm64_current_cpu_offset (en_me e) (en_machine e)) ->
  let ops := dc_ops (mo_debug m) in
  DebugHw ops (arm64_view (kernel_owner (en_kernel e) profile)) /\ FaultFree ops (en_me e) /\
  op_brp_count ops = dp_brps (profile_debug profile) /\ op_wrp_count ops = dp_wrps (profile_debug profile).
Proof.
  intros Hprep Hsel Hrun. apply prepared_names_kernel in Hprep as (p & context & Hsel' & Hb & Hk & Hops).
  rewrite Hsel in Hsel'. injection Hsel' as <-. cbv zeta. rewrite Hops.
  pose proof (owners_ok _ _ context _ _ Hk Hb Hrun) as Hok. split_and!; [by apply arm64_debug_hw| |done|done].
  by apply (arm64_fault_free (en_me e) _ (kernel_owner (en_kernel e) profile)).
Qed.

(** ** A kernel on which the module runs *)

(** CPU 3, whose offset register holds its entry of the table. *)
Definition demo_cpu_regs : sysregs :=
  {| sys_bvr := fun _ => 0; sys_bcr := fun _ => 0; sys_wvr := fun _ => 0; sys_wcr := fun _ => 0;
     sys_mdscr := 0; sys_dfr0 := dp_dfr0 plk110_debug; sys_tcr := Z.shiftl 2 30; sys_sp_el0 := 0;
     sys_tpidr_el1 := 3146112 |}.

Definition demo_cpu_env : environment :=
  {| en_kernel := en_kernel demo_env; en_machine := fun _ => demo_cpu_regs; en_me := 3; en_self := 1000;
     en_storage_address := 2000; en_worker := 3000; en_private_address := 4000; en_maps := fun _ => demo_kernel |}.

Lemma demo_cpu_prepared :
  (let '(result, module, _, _, _) := spz_kpatch_runtime_prepare demo_cpu_env (Some demo_profile_id) None 0 None in
   (result =? 0) && match module with Some _ => true | None => false end) = true.
Proof. vm_compute. reflexivity. Qed.

Lemma demo_runs_on :
  runs_on (en_kernel demo_cpu_env) profile_oneplus_plk110_a16_b4999618_d05 3
    (spz_arm64_current_cpu_offset (en_me demo_cpu_env) (en_machine demo_cpu_env)).
Proof.
  split.
  - replace (kernel_cpus _ _) with 8 by (vm_compute; reflexivity). lia.
  - vm_compute. reflexivity.
  - intros i Hi. assert (i = 0 \/ i = 1 \/ i = 2) as [-> | [-> | ->]] by lia; vm_compute; discriminate.
  - intros kind slot Hs. assert (0 <= slot < 16) by (destruct kind; cbn in Hs; lia).
    replace (owner_array _ _ 3 kind) with 3150208 by (destruct kind; vm_compute; reflexivity).
    split_and!; [lia|unfold UINT64_MAX; lia|]. cbn [en_kernel demo_cpu_env demo_env kn_nofault].
    unfold demo_nofault. repeat case_match; by eexists.
Qed.

Lemma prepared_platform_is_debug_hw_witness :
  let '(result, module, _, _, _) := spz_kpatch_runtime_prepare demo_cpu_env (Some demo_profile_id) None 0 None in
  result = 0 /\ exists m, module = Some m /\
    DebugHw (dc_ops (mo_debug m)) (arm64_view (kernel_owner (en_kernel demo_cpu_env) profile_oneplus_plk110_a16_b4999618_d05)) /\
    FaultFree (dc_ops (mo_debug m)) 3 /\
    op_brp_count (dc_ops (mo_debug m)) = 6 /\ op_wrp_count (dc_ops (mo_debug m)) = 4.
Proof.
  generalize demo_cpu_prepared.
  destruct (spz_kpatch_runtime_prepare demo_cpu_env (Some demo_profile_id) None 0 None) as [[[[result module] c] t] text] eqn:E.
  rewrite andb_true_iff, Z.eqb_eq. intros [-> Hm]. split; [reflexivity|]. destruct module as [m|]; [|discriminate Hm].
  exists m. split; [reflexivity|].
  exact (prepared_platform_is_debug_hw demo_cpu_env (Some demo_profile_id) None 0 None m c t text _ E demo_profile_selected demo_runs_on).
Defined.
