(* ===== verification/Main.v ===== *)
(** * Loading, control and unloading (kpm/platform/kpatch/main.c)

    The entry points of the kernel module over everything else: the arguments of
    the load, the checks of the loader, preparation and hooks, the control call
    with its copies from and to the caller, and the unloading in two stages. *)

From S2P Require Import Prelude Crc32 Abi Ring DeviceProfiles Profile Task Debug DebugEncode DebugSpec Arm64.
From S2P Require Import Command CommandNumbers Maps Text Async Runtime Control MapsSpec Render KpatchMaps.
From S2P Require Import Platform Transport Hooks.

(** ** The callbacks of the hooks

    The framework's arguments of a function of three arguments are [fargs]; four
    words of them, the result and the flag are handed over, and the result and the
    flag come back. *)

Section callbacks.
Context {hw : Type} (kmem : Z -> nat -> list Z).
Implicit Types (w : world hw) (fargs : spz_hook_fargs).

Definition spz_exception_before (kind : spz_exception_kind) (view : platform_view) w (regs : option (list Z)) fargs :
    world hw * option (list Z) * spz_hook_fargs :=
  let bridge := {| fa_args := take 4 (fa_args fargs); fa_ret := fa_ret fargs; fa_skip_origin := fa_skip_origin fargs |} in
  let '(w, regs, bridge) := spz_module_exception_before kmem kind view w regs bridge in
  (w, regs, fargs <| fa_ret := fa_ret bridge |> <| fa_skip_origin := fa_skip_origin bridge |>).

Definition spz_break_before := spz_exception_before SPZ_EXCEPTION_BREAKPOINT.
Definition spz_watch_before := spz_exception_before SPZ_EXCEPTION_WATCHPOINT.
Definition spz_step_before := spz_exception_before SPZ_EXCEPTION_SINGLE_STEP.
End callbacks.

(** ** Arguments *)

Definition profile_prefix : list Z := str "profile=".

Definition id_byte (byte : Z) : bool :=
  ((97 <=? byte) && (byte <=? 122)) || ((65 <=? byte) && (byte <=? 90)) || ((48 <=? byte) && (byte <=? 57))
  || (byte =? 46) || (byte =? 95) || (byte =? 58) || (byte =? 45).

(** [args] are the bytes in front of the NUL, [None] for a NULL pointer; the
    profile id, or the error. *)
Definition spz_profile_argument (args : option (list Z)) : Z + list Z :=
  match args with
  | None | Some [] => inr SPZ_DEFAULT_DEVICE_PROFILE_ID
  | Some args =>
      if (128 <? length args)%nat then inl (- E2BIG)
      else if (length args <=? length profile_prefix)%nat
              || negb (bool_decide (take (length profile_prefix) args = profile_prefix)) then inl (- EINVAL)
      else if negb (forallb id_byte (drop (length profile_prefix) args)) then inl (- EINVAL)
      else inr (drop (length profile_prefix) args)
  end.

(** The loop of [spz_hex_u32], [places] digits still allowed: the value and the
    rest of the text, or the error. *)
Fixpoint hex_u32_loop (places : nat) (text : list Z) (parsed : Z) : Z + (Z * list Z) :=
  match places, text with
  | S places, byte :: text =>
      match hex_digit byte with
      | Some digit => hex_u32_loop places text (Z.lor (u32 (Z.shiftl parsed 4)) digit)
      | None => inl (- EINVAL)
      end
  | _, _ => inr (parsed, text)
  end.

Definition spz_hex_u32 (text : option (list Z)) : Z + Z :=
  match text with
  | None | Some [] => inl (- EINVAL)
  | Some text =>
      match hex_u32_loop 8 text 0 with
      | inl result => inl result
      | inr (parsed, rest) => if bool_decide (rest <> []) then inl (- ERANGE) else inr parsed
      end
  end.

(** [marker] is the word at an address. *)
Definition spz_safe_unload_marker_ok (kallsyms : option (list Z -> Z)) (marker : Z -> Z)
    (profile : spz_device_profile) : Z :=
  let required := negb (qp_safe_unload_required (profile_quirks profile) =? 0) in
  match kpp_safe_unload_symbol (profile_kpatch profile), kallsyms with
  | Some ((_ :: _) as name), Some lookup =>
      let address := lookup name in
      if address =? 0 then (if required then - ENOENT else 0)
      else if negb (marker address =? 1) then - EOPNOTSUPP else 0
  | _, _ => if required then - EOPNOTSUPP else 0
  end.

(** ** The hook framework

    [wrap_function] is the framework's [hook_wrap1] or [hook_wrap3]. *)

Definition spz_kpatch_hook_wrap (wrap_function : list hook_call -> Z -> Z -> Z -> Z -> Z -> Z)
    (calls : list hook_call) (target argument_count before after udata : Z) : Z :=
  if (target =? 0) || (before =? 0) then - EINVAL
  else if argument_count =? 1 then wrap_function calls target argument_count before after udata
  else if argument_count =? 3 then wrap_function calls target argument_count before after udata
  else - EINVAL.

Definition kpatch_hook_backend (wrap_function : list hook_call -> Z -> Z -> Z -> Z -> Z -> Z) : spz_hook_backend :=
  {| hb_wrap := Some (spz_kpatch_hook_wrap wrap_function); hb_unwrap := true; hb_quiesce := true |}.

(** ** The image

    The module with the hardware and the calls made for it, [None] while zeroed;
    its hooks; the context and the global pointer of the transport; the two flags
    of main.c; the calls made to the hook framework. *)
Record image := {
  im_world : option (world machine);
  im_hooks : spz_hook_set;
  im_context : spz_kpatch_runtime_context;
  im_transport : option Z;
  im_initialized : Z;
  im_exit_started : Z;
  im_calls : list hook_call;
}.

#[export] Instance image_shape : Shape image :=
  shape! Build_image < im_world ; im_hooks ; im_context ; im_transport ; im_initialized ; im_exit_started ; im_calls >.

Definition zero_callbacks : spz_hook_callbacks :=
  {| hc_finish_before := 0; hc_finish_after := 0; hc_exit_before := 0; hc_break_before := 0; hc_watch_before := 0;
     hc_step_before := 0 |}.

Definition zero_hooks : spz_hook_set :=
  {| hs_backend := {| hb_wrap := None; hb_unwrap := false; hb_quiesce := false |}; hs_callbacks := zero_callbacks;
     hs_targets := replicate SPZ_HOOK_COUNT 0; hs_installed := replicate SPZ_HOOK_COUNT 0; hs_udata := 0 |}.

(** [spz_kpatch_runtime_zero] on the image. *)
Definition zero_image (self : Z) (im : image) : image :=
  let '(_, context, transport) := spz_kpatch_runtime_zero self (im_context im) (im_transport im) in
  im <| im_world := None |> <| im_hooks := zero_hooks |> <| im_context := context |> <| im_transport := transport |>.

Definition spz_cpu_barrier (_ : platform_view) (_ : Z) (w : world machine) : Z * world machine := (0, w).

(** What a load finds: the environment of the preparation, the framework and its
    version, the callbacks of the module, the marker word, and the schedule of the
    barrier on every CPU. *)
Record loader := {
  ld_env : environment;
  ld_wrap : list hook_call -> Z -> Z -> Z -> Z -> Z -> Z;
  ld_kpver : Z;
  ld_kver : Z;
  ld_callbacks : spz_hook_callbacks;
  ld_marker : Z -> Z;
  ld_schedule : schedule;
  ld_udata : Z;
}.

(** The barrier on every CPU: the result and the image. *)
Definition run_barrier (self : Z) (s : schedule) (w : world machine) (im : image) : Z * image :=
  let '(result, context, _) := spz_kpatch_run_each_cpu self (im_context im) (im_transport im) s spz_cpu_barrier w in
  (result, im <| im_context := context |>).

(** The module is prepared: hooks are installed, or it is left inert or zeroed. *)
Definition init_prepared (ld : loader) (m : spz_module_state machine) (im : image) : Z * image :=
  let self := en_self (ld_env ld) in
  let m := m <| mo_accepting_commands := 0 |> <| mo_ready := 0 |> in
  let w := {| wd_module := m; wd_hw := en_machine (ld_env ld); wd_calls := [] |} in
  let '(result, hooks, calls) :=
    spz_hooks_install (Some (im_hooks im)) (Some (mo_runtime m)) (Some (kpatch_hook_backend (ld_wrap ld)))
      (Some (ld_callbacks ld)) (ld_udata ld) (im_calls im) in
  let im := im <| im_world := Some w |> <| im_hooks := default zero_hooks hooks |> <| im_calls := calls |> in
  if negb (result =? 0) then
    let '(barrier_result, im) := run_barrier self (ld_schedule ld) w im in
    if negb (barrier_result =? 0) then
      let m := m <| mo_active_handlers := SPZ_GATE_CLOSED |> in
      (0, im <| im_world := Some (w <| wd_module := m |>) |> <| im_exit_started := 1 |> <| im_initialized := 1 |>)
    else (result, zero_image self im)
  else
    let m := m <| mo_accepting_commands := 1 |> <| mo_ready := 1 |> in
    (0, im <| im_world := Some (w <| wd_module := m |>) |> <| im_initialized := 1 |>).

Definition spz_kpm_init (ld : loader) (args : option (list Z)) (im : image) : Z * image :=
  let k := en_kernel (ld_env ld) in
  match spz_profile_argument args with
  | inl result => (result, im)
  | inr profile_id =>
      match spz_profile_select (Some profile_id) with
      | None => (- ENOENT, im)
      | Some profile =>
          let result := spz_safe_unload_marker_ok (kn_kallsyms k) (ld_marker ld) profile in
          if negb (result =? 0) then (result, im)
          else
            match spz_hex_u32 (kpp_kpver (profile_kpatch profile)), spz_hex_u32 (kpp_kver (profile_kpatch profile)) with
            | inr expected_kpver, inr expected_kver =>
                if negb (ld_kpver ld =? expected_kpver) || negb (ld_kver ld =? expected_kver) then (- EPROTO, im)
                else
                  let '(result, module, context, transport, _) :=
                    spz_kpatch_runtime_prepare (ld_env ld) (Some profile_id) (Some (replicate 96 0)) 96
                      (im_transport im) in
                  let im := im <| im_world := None |> <| im_hooks := zero_hooks |> <| im_context := context |>
                               <| im_transport := transport |> in
                  match module with
                  | Some m =>
                      if negb (result =? 0) then (result, zero_image (en_self (ld_env ld)) im) else init_prepared ld m im
                  | None => (result, zero_image (en_self (ld_env ld)) im)
                  end
            | _, _ => (- EPROTO, im)
            end
      end
  end.

(** ** Control *)

(** [copy_to_user] answers how many of the given bytes it copied; the result, the
    bytes handed to it and the image. [others] is what happens to the module while the
    response is made. *)
Definition spz_kpm_control (backend : spz_async_backend (world machine)) (others : world machine -> world machine)
    (copy_to_user : list Z -> Z) (args : option (list Z)) (out_msg : bool) (outlen : Z) (im : image) : Z * option (list Z) * image :=
  match args, im_world im with
  | Some args, Some w =>
      if (im_initialized im =? 0) || negb out_msg || (outlen <=? 0) then (- EINVAL, None, im)
      else
        let long := (SPZ_MAX_COMMAND <? length args)%nat in
        let command := (if long then take SPZ_MAX_COMMAND args else args) ++ [0] in
        let command_length := if long then (SPZ_MAX_COMMAND + 1)%nat else length args in
        let '(response_length, response, w) :=
          spz_control_execute backend others w (Some command) command_length SPZ_CONTROL_RESPONSE_MAX in
        let im := im <| im_world := Some w |> in
        if response_length <? 0 then (response_length, None, im)
        else
          let copy_length := response_length + 1 in
          if (outlen <? copy_length) || (SPZ_CONTROL_RESPONSE_MAX <? copy_length) then (- ENOSPC, None, im)
          else
            let bytes := default [] response ++ [0] in
            (if copy_to_user bytes =? copy_length then 0 else - EFAULT, Some bytes, im)
  | _, _ => (- EINVAL, None, im)
  end.

(** ** Unloading *)

Definition spz_kpm_exit (self : Z) (s : schedule) (im : image) : Z * image :=
  match im_world im with
  | None => (0, im)
  | Some w =>
      if im_initialized im =? 0 then (0, im)
      else
        let '(result, im) :=
          if im_exit_started im =? 0 then
            let '(result, m) :=
              spz_module_begin_exit (Some (spz_kpatch_async_quiesce (im_context im) (mo_async (wd_module w)))) (wd_module w) in
            let im := im <| im_world := Some (w <| wd_module := m |>) |> in
            if negb (result =? 0) then (result, im)
            else
              let '(hooks, calls) := spz_hooks_remove (Some (im_hooks im)) (im_calls im) in
              (0, im <| im_hooks := default zero_hooks hooks |> <| im_calls := calls |> <| im_exit_started := 1 |>)
          else (0, im) in
        if negb (result =? 0) then (result, im)
        else
          let '(result, im) := run_barrier self s w im in
          if negb (result =? 0) then (result, im)
          else (0, (zero_image self im) <| im_initialized := 0 |> <| im_exit_started := 0 |>)
  end.
