(* ===== verification/MainSpec.v ===== *)
(** * What loading and unloading guarantee (kpm/platform/kpatch/main.c)

    The life of the image as a transition system: loads, control calls and unloads
    in any order, and between them whatever the hooks and the workers do to the
    module. *)

From stdpp Require Import relations.
From S2P Require Import Prelude Crc32 Abi Ring DeviceProfiles Profile Task Debug DebugEncode DebugSpec Arm64.
From S2P Require Import Command CommandNumbers Maps Text Async Runtime RuntimeSpec Control MapsSpec Render KpatchMaps.
From S2P Require Import Platform Transport TransportSpec Hooks Main.

(** ** The phases of the image *)

(** Nothing of the module is left: it is zeroed, nobody is registered with the
    workers, and the hooks in effect are those of others. *)
Record unloaded (base : list hooked) (im : image) : Prop := {
  un_flags : im_initialized im = 0 /\ im_exit_started im = 0;
  un_world : im_world im = None;
  un_hooks : im_hooks im = zero_hooks;
  un_context : im_context im = zero_context;
  un_transport : im_transport im = None;
  un_effect : in_effect (im_calls im) = base;
  un_quiet : lingering (im_calls im) = false;
}.

(** All five functions are hooked on top of what others hooked. *)
Record running (self : Z) (base : list hooked) (im : image) : Prop := {
  ru_flags : im_initialized im = 1 /\ im_exit_started im = 0;
  ru_world : exists w, im_world im = Some w;
  ru_registered : registered self (im_context im) (im_transport im);
  ru_hooks : exists runtime callbacks, installing runtime callbacks SPZ_HOOK_COUNT (im_hooks im) /\
    in_effect (im_calls im) = wanted_below runtime callbacks SPZ_HOOK_COUNT ++ base;
  ru_quiet : lingering (im_calls im) = false;
}.

(** The hooks are gone and every callback has returned, but a CPU may still be on
    its way out: the image stays until a barrier succeeds. *)
Record leaving (self : Z) (base : list hooked) (im : image) : Prop := {
  le_flags : im_initialized im = 1 /\ im_exit_started im = 1;
  le_world : exists w, im_world im = Some w;
  le_registered : registered self (im_context im) (im_transport im);
  le_effect : in_effect (im_calls im) = base;
  le_quiet : lingering (im_calls im) = false;
}.

Definition in_phase (self : Z) (base : list hooked) (im : image) : Prop :=
  unloaded base im \/ running self base im \/ leaving self base im.

(** The static variables at the load of the image. *)
Definition boot : image :=
  {| im_world := None; im_hooks := zero_hooks; im_context := zero_context; im_transport := None;
     im_initialized := 0; im_exit_started := 0; im_calls := [] |}.

(** ** The transitions

    [self] is the address of the one context. The last rule leaves the module's
    state open to whatever handlers, workers and other CPUs do to it. *)
Inductive lifecycle (self : Z) : image -> image -> Prop :=
| life_init ld args im result im' :
    im_initialized im = 0 -> en_self (ld_env ld) = self ->
    spz_kpm_init ld args im = (result, im') -> lifecycle self im im'
| life_control backend others copy args out outlen im result bytes im' :
    spz_kpm_control backend others copy args out outlen im = (result, bytes, im') -> lifecycle self im im'
| life_exit s im result im' :
    spz_kpm_exit self s im = (result, im') -> lifecycle self im im'
| life_module im w w' :
    im_world im = Some w -> lifecycle self im (im <| im_world := Some w' |>).

(** ** Lemmas *)

(** A round on every CPU leaves the registration as it is. *)
Lemma round_keeps_registered {hw} self context transport s callback (w : world hw) :
  registered self context transport ->
  exists context',
    let '(result, w') := each_cpu_round s callback w in
    spz_kpatch_run_each_cpu self context transport s callback w = (result, context', w') /\
    registered self context' transport.
Proof.
  intros [-> Hr Hi Hs Hf]. destruct (round_runs self context s callback w ltac:(lia) Hs Hi) as [status H].
  eexists. destruct (each_cpu_round s callback w) as [result w']. split; [exact H|]. by split.
Qed.

Lemma run_barrier_registered self s w im :
  registered self (im_context im) (im_transport im) ->
  exists context', run_barrier self s w im = ((each_cpu_round s spz_cpu_barrier w).1, im <| im_context := context' |>) /\
    registered self context' (im_transport im).
Proof.
  intros Hreg. unfold run_barrier.
  destruct (round_keeps_registered self _ _ s spz_cpu_barrier w Hreg) as [context' H].
  destruct (each_cpu_round s spz_cpu_barrier w) as [result w']. destruct H as [-> Hreg'].
  by exists context'.
Qed.

Lemma zero_image_unloads self base im :
  registered self (im_context im) (im_transport im) -> in_effect (im_calls im) = base ->
  lingering (im_calls im) = false ->
  unloaded base ((zero_image self im) <| im_initialized := 0 |> <| im_exit_started := 0 |>).
Proof.
  intros [Ht _ _ _ _] He Hl. unfold zero_image, spz_kpatch_runtime_zero, spz_kpatch_async_transport_reset.
  rewrite Ht, bool_decide_eq_true_2 by done. by split.
Qed.

(** The hooks of a prepared module: all of them, or none is left. *)
Lemma install_from_zero hooks runtime wrap callbacks udata calls :
  lingering calls = false ->
  let out := spz_hooks_install (Some hooks) (Some runtime) (Some (kpatch_hook_backend wrap)) (Some callbacks) udata calls in
  all_in out runtime callbacks (in_effect calls) \/
  exists result hooks' calls', out = (result, hooks', calls') /\ result <> 0 /\
    in_effect calls' = in_effect calls /\ lingering calls' = false.
Proof.
  intros Hl. unfold spz_hooks_install, kpatch_hook_backend. cbn [hb_wrap hb_unwrap hb_quiesce negb orb].
  destruct (_ || _); [right; by eexists _, _, _|]. set (fresh := {| hs_callbacks := callbacks |}).
  destruct (install_loop_spec SPZ_HOOK_COUNT 0 runtime (spz_kpatch_hook_wrap wrap) callbacks udata fresh calls (in_effect calls))
    as [H|(r & h & c & -> & Hneg & _ & He & Hq)]; try done.
  - split; cbn; auto; lia.
  - by left.
  - right. exists r, (Some h), c. split_and!; [done|lia|done|done].
Qed.

Lemma init_prepared_phase ld m im base :
  registered (en_self (ld_env ld)) (im_context im) (im_transport im) -> in_effect (im_calls im) = base ->
  lingering (im_calls im) = false -> im_initialized im = 0 -> im_exit_started im = 0 ->
  let '(result, im') := init_prepared ld m im in
  (result = 0 /\ (running (en_self (ld_env ld)) base im' \/ leaving (en_self (ld_env ld)) base im')) \/
  (result <> 0 /\ unloaded base im').
Proof.
  intros Hreg He Hl Hi Hx. unfold init_prepared. cbv zeta. set (m1 := m <| mo_accepting_commands := 0 |> <| mo_ready := 0 |>).
  set (w := {| wd_module := m1 |}).
  destruct (install_from_zero (im_hooks im) (mo_runtime m1) (ld_wrap ld) (ld_callbacks ld) (ld_udata ld) (im_calls im) Hl)
    as [(h & c & -> & Hin & He' & Hl')|(r & h & c & -> & Hr & He' & Hl')].
  - cbn [negb Z.eqb]. left. split; [done|]. left. split; [done|by eexists|done| |done].
    exists (mo_runtime m1), (ld_callbacks ld). split; [done|]. by rewrite <- He.
  - rewrite (eqb_ne r 0) by done. cbn [negb].
    set (im1 := im <| im_world := Some w |> <| im_hooks := default zero_hooks h |> <| im_calls := c |>).
    destruct (run_barrier_registered (en_self (ld_env ld)) (ld_schedule ld) w im1 Hreg) as (c' & -> & Hreg').
    destruct (negb _).
    + left. split; [done|]. right. split; [done|by eexists|done| |done]. by rewrite <- He.
    + right. split; [done|].
      pose proof (zero_image_unloads (en_self (ld_env ld)) base (im1 <| im_context := c' |>) Hreg'
        ltac:(by rewrite <- He) Hl') as H.
      unfold zero_image, spz_kpatch_runtime_zero, spz_kpatch_async_transport_reset in *.
      destruct H as [_ H2 H3 H4 H5 H6 H7]. by split.
Qed.

Lemma zero_nobody self base im :
  im_initialized im = 0 -> im_exit_started im = 0 -> im_transport im = None ->
  in_effect (im_calls im) = base -> lingering (im_calls im) = false -> unloaded base (zero_image self im).
Proof.
  intros ? ? Ht ? ?. unfold zero_image, spz_kpatch_runtime_zero, spz_kpatch_async_transport_reset.
  rewrite Ht, bool_decide_eq_false_2 by done. by split.
Qed.

(** A load of an unloaded image: a resident one and 0, or an error and nothing. *)
Lemma init_phase ld args im base result im' :
  unloaded base im -> spz_kpm_init ld args im = (result, im') ->
  (result = 0 /\ (running (en_self (ld_env ld)) base im' \/ leaving (en_self (ld_env ld)) base im')) \/
  (result <> 0 /\ unloaded base im').
Proof.
  intros Hun. pose proof Hun as [[Hi Hx] Hw Hh Hc Ht He Hl]. unfold spz_kpm_init.
  destruct (spz_profile_argument args) as [r|id] eqn:Earg.
  { intros [= <- <-]. right. split; [|done]. intros ->. unfold spz_profile_argument in Earg.
    destruct args as [[|]|]; repeat case_match; try discriminate. }
  destruct (spz_profile_select (Some id)) as [profile|]; [|intros [= <- <-]; by right].
  destruct (Z.eqb_spec (spz_safe_unload_marker_ok (kn_kallsyms (en_kernel (ld_env ld))) (ld_marker ld) profile) 0) as [_|];
    cbn [negb]; [|intros [= <- <-]; by right].
  destruct (spz_hex_u32 _) as [?|v1]; [intros [= <- <-]; by right|].
  destruct (spz_hex_u32 _) as [?|v2]; [intros [= <- <-]; by right|].
  destruct (_ || _); [intros [= <- <-]; by right|].
  pose proof (prepare_cases (ld_env ld) (Some id) (Some (replicate 96 0)) 96 (im_transport im) ltac:(by rewrite Ht)) as Hp.
  unfold prepare_outcome in Hp. destruct (spz_kpatch_runtime_prepare _ _ _ _ _) as [[[[r module] c] t] text].
  set (im1 := im <| im_world := None |> <| im_hooks := zero_hooks |> <| im_context := c |> <| im_transport := t |>).
  destruct Hp as [(-> & m & p & -> & _ & _ & _ & Hreg & _)|(Hr & -> & Htr)].
  - cbn [negb Z.eqb]. intros E. pose proof (init_prepared_phase ld m im1 base Hreg He Hl Hi Hx) as H. by rewrite E in H.
  - intros [= <- <-]. right. split; [done|]. apply zero_nobody; try done. by rewrite <- Ht, <- Htr.
Qed.

Lemma leaving_barrier self s w im base result im' :
  registered self (im_context im) (im_transport im) -> im_initialized im = 1 -> im_exit_started im = 1 ->
  im_world im <> None -> in_effect (im_calls im) = base -> lingering (im_calls im) = false ->
  (let '(result, im) := run_barrier self s w im in
   if negb (result =? 0) then (result, im)
   else (0, (zero_image self im) <| im_initialized := 0 |> <| im_exit_started := 0 |>)) = (result, im') ->
  result = (each_cpu_round s spz_cpu_barrier w).1 /\
  ((result = 0 /\ unloaded base im') \/ (result <> 0 /\ leaving self base im')).
Proof.
  intros Hreg Hi Hx Hw He Hl. destruct (run_barrier_registered self s w im Hreg) as (c & -> & Hreg').
  set (r := (each_cpu_round s spz_cpu_barrier w).1). destruct (Z.eqb_spec r 0) as [Hr|Hr]; cbn [negb]; intros [= <- <-].
  - split; [done|]. left. split; [done|]. by apply (zero_image_unloads self base (im <| im_context := c |>)).
  - split; [done|]. right. split; [done|]. split; try done. cbn. destruct (im_world im); [by eexists|done].
Qed.

(** An unload: done and 0, or an error and the image resident. *)
Lemma exit_phase self s im base result im' :
  in_phase self base im -> spz_kpm_exit self s im = (result, im') ->
  (result = 0 /\ unloaded base im') \/ (result <> 0 /\ (running self base im' \/ leaving self base im')).
Proof.
  intros [Hun|[Hru|Hle]]; unfold spz_kpm_exit.
  - rewrite (un_world _ _ Hun). intros [= <- <-]. by left.
  - destruct Hru as [[Hi Hx] [w Hw] Hreg (rt & cb & Hin & He) Hl]. rewrite Hw, Hi, Hx. cbn [Z.eqb].
    destruct (spz_module_begin_exit _ _) as [r m]. set (im1 := im <| im_world := Some (w <| wd_module := m |>) |>).
    destruct (Z.eqb_spec r 0) as [->|Hr]; cbn [negb].
    + destruct (installing_remove _ _ _ _ _ _ Hin Hl He) as (h & c & Hrem & _ & He' & Hl').
      change (im_hooks im1) with (im_hooks im). change (im_calls im1) with (im_calls im). rewrite Hrem.
      cbn [negb Z.eqb]. intros E. apply (leaving_barrier self s w _ base) in E as [_ [?|[? ?]]]; [..|done|done|done|done|done|done];
        [by left|by right; auto].
    + rewrite (eqb_ne r 0) by done. cbn [negb]. intros [= <- <-]. right. split; [done|]. left. split; try done; [by eexists|].
      by exists rt, cb.
  - destruct Hle as [[Hi Hx] [w Hw] Hreg He Hl]. rewrite Hw, Hi, Hx. cbn [Z.eqb negb].
    intros E. apply (leaving_barrier self s w _ base) in E as [_ [?|[? ?]]]; [..|done|done|done|by rewrite Hw|done|done];
      [by left|by right; auto].
Qed.

Lemma module_step_phase self base im w w' :
  in_phase self base im -> im_world im = Some w -> in_phase self base (im <| im_world := Some w' |>).
Proof.
  intros [Hun|[[Hf _ Hreg Hh Hl]|[Hf _ Hreg He Hl]]] Hw.
  - by rewrite (un_world _ _ Hun) in Hw.
  - right; left. split; try done. by eexists.
  - right; right. split; try done. by eexists.
Qed.

Lemma control_phase backend others copy args out outlen im result bytes im' :
  spz_kpm_control backend others copy args out outlen im = (result, bytes, im') ->
  im' = im \/ exists w w', im_world im = Some w /\ im' = im <| im_world := Some w' |>.
Proof.
  unfold spz_kpm_control. destruct args as [args|]; [|intros [= _ _ <-]; by left].
  destruct (im_world im) as [w|] eqn:Hw; [|intros [= _ _ <-]; by left].
  destruct (_ || _ || _); [intros [= _ _ <-]; by left|]. cbv zeta.
  destruct (spz_control_execute _ _ _ _ _ _) as [[r response] w'].
  destruct (r <? 0); [|destruct (_ || _)]; intros [= _ _ <-]; right; by exists w, w'.
Qed.

Lemma lifecycle_phase self base im im' : in_phase self base im -> lifecycle self im im' -> in_phase self base im'.
Proof.
  intros Hp Hstep. destruct Hstep as [ld args im result im' Hi <- E|backend others copy args out outlen im r b im' E|s im r im' E|im w w' Hw].
  - destruct Hp as [Hun|[[[? _] _ _ _ _]|[[? _] _ _ _ _]]]; [|congruence|congruence].
    unfold in_phase. destruct (init_phase ld args im base result im' Hun E) as [[_ [?|?]]|[_ ?]]; auto.
  - apply control_phase in E as [-> |(w & w' & Hw & ->)]; [done|]. by apply (module_step_phase _ _ _ w).
  - unfold in_phase. destruct (exit_phase self s im base r im' Hp E) as [[_ ?]|[_ [?|?]]]; auto.
  - by apply (module_step_phase _ _ _ w).
Qed.

Lemma reachable_phase self im : rtc (lifecycle self) boot im -> in_phase self [] im.
Proof.
  intros H. remember boot as im0. assert (Hp : in_phase self [] im0) by (left; by subst).
  clear Heqim0. induction H as [|x y z Hstep _ IH]; [done|]. apply IH. by eapply lifecycle_phase.
Qed.

(** ** Properties *)

(** C1: no order of loads, control calls, unloads and module activity leaves the
    system in between. From the load of the image on, it is in one of three phases:
    unloaded, with nothing registered and no hook left; running, with exactly the
    five hooks in effect; leaving, with no hook in effect and no callback running.
    A load that reports an error and an unload that reports success leave it
    unloaded; a load that reports success and an unload that reports an error leave
    it resident, so that it is never freed while it can still be entered. *)
Theorem lifecycle_is_clean self im :
  rtc (lifecycle self) boot im ->
  in_phase self [] im /\
  (forall ld args result im',
     im_initialized im = 0 -> en_self (ld_env ld) = self -> spz_kpm_init ld args im = (result, im') ->
     (result = 0 /\ (running self [] im' \/ leaving self [] im')) \/ (result <> 0 /\ unloaded [] im')) /\
  (forall s result im',
     spz_kpm_exit self s im = (result, im') ->
     (result = 0 /\ unloaded [] im') \/ (result <> 0 /\ (running self [] im' \/ leaving self [] im'))).
Proof.
  intros Hreach. pose proof (reachable_phase self im Hreach) as Hp. split_and!; [done| |].
  - intros ld args result im' Hi <- E. destruct Hp as [Hun|[[[? _] _ _ _ _]|[[? _] _ _ _ _]]]; [|congruence|congruence].
    by apply (init_phase ld args im).
  - intros s result im' E. by apply (exit_phase self s im).
Qed.

(** Every CPU runs the barrier and finds out which one it is. *)
Definition barrier_reaches_all (s : schedule) : Prop :=
  s.1 = 0 /\ Forall (fun view => (pv_current_cpu view).1 = 0) s.2.

Lemma barrier_round s w : barrier_reaches_all s -> (each_cpu_round s spz_cpu_barrier w).1 = 0.
Proof.
  destruct s as [r views]. intros [Hr Hv]. cbn in Hr, Hv. subst r. unfold each_cpu_round. cbn [Z.ltb Z.compare Z.eqb].
  assert (foldl (each_cpu_work spz_cpu_barrier) (w, 0) views = (w, 0)) as ->; [|done].
  induction Hv as [|v views Hv _ IH]; [done|]. cbn [foldl]. unfold each_cpu_work at 2.
  destruct (pv_current_cpu v) as [result cpu]. cbn in Hv. subst result. exact IH.
Qed.

Lemma unload_runs self im w s :
  rtc (lifecycle self) boot im -> im_world im = Some w -> barrier_reaches_all s ->
  (im_exit_started im = 0 ->
   mo_control_busy (wd_module w) = 0 /\ mo_active_handlers (wd_module w) = 0 /\
   spz_module_can_exit (wd_module w) = 0 /\
   spz_kpatch_async_quiesce (im_context im) (mo_async (wd_module w)) = 0) ->
  exists im', spz_kpm_exit self s im = (0, im') /\ unloaded [] im'.
Proof.
  intros Hreach Hw Hs Hidle. pose proof (reachable_phase self im Hreach) as Hp.
  assert (forall result im', spz_kpm_exit self s im = (result, im') -> result = 0 -> unloaded [] im') as Hdone.
  { intros result im' E Hr. destruct (exit_phase self s im [] result im' Hp E) as [[_ ?]|[? _]]; [done|congruence]. }
  assert ((spz_kpm_exit self s im).1 = 0) as H0.
  { destruct Hp as [Hun|[[[Hi Hx] _ Hreg (rt & cb & Hin & He) Hl]|[[Hi Hx] _ Hreg He Hl]]];
      unfold spz_kpm_exit; rewrite ?Hw; [by rewrite (un_world _ _ Hun) in Hw|..]; rewrite Hi, Hx; cbn [Z.eqb].
    - destruct (Hidle Hx) as (H1 & H2 & H3 & H4).
      destruct (begin_exit_admits (Some (spz_kpatch_async_quiesce (im_context im) (mo_async (wd_module w)))) _ H1 H2 H3 H4)
        as [m ->]. cbn [negb Z.eqb].
      destruct (installing_remove _ _ _ _ _ _ Hin Hl He) as (h & c & Hrem & _ & _ & _).
      set (im1 := im <| im_world := _ |>). change (im_hooks im1) with (im_hooks im).
      change (im_calls im1) with (im_calls im). rewrite Hrem. cbn [negb Z.eqb]. set (im2 := im1 <| im_hooks := _ |> <| im_calls := _ |> <| im_exit_started := _ |>).
      destruct (run_barrier_registered self s w im2 Hreg) as (c' & -> & _). by rewrite barrier_round.
    - destruct (run_barrier_registered self s w im Hreg) as (c' & -> & _). by rewrite barrier_round. }
  destruct (spz_kpm_exit self s im) as [result im'] eqn:E. cbn in H0. subst result. exists im'. split; [done|]. by eapply Hdone.
Qed.

(** C10: an unload completes. Whatever happened since the load, when no command
    and no handler is inside, the session is cleared and the work queue is drained,
    or when an earlier unload already got past that point, the next unload whose
    barrier reaches every CPU succeeds, and nothing of the module is left. *)
Theorem unload_completes self im w s :
  rtc (lifecycle self) boot im -> im_world im = Some w -> barrier_reaches_all s ->
  (im_exit_started im = 0 ->
   mo_control_busy (wd_module w) = 0 /\ mo_active_handlers (wd_module w) = 0 /\
   spz_module_can_exit (wd_module w) = 0 /\
   spz_kpatch_async_quiesce (im_context im) (mo_async (wd_module w)) = 0) ->
  exists im', spz_kpm_exit self s im = (0, im') /\ unloaded [] im'.
Proof. exact (unload_runs self im w s). Qed.

(** C32: a cleared session can be unloaded. After a CLEAR request that reported success,
    whatever hooks were called since, once the request slot is free again and while
    no control call is inside, an unload whose barrier reaches every CPU succeeds
    and leaves nothing of the module: neither the checks of the unload nor the drain
    of the work queue refuses it. *)
Theorem clear_lets_unload kmem audit_owner profile_ops each1 each2 self im (w w' : world machine) target async calls s :
  binding_wf (mo_binding (wd_module w)) ->
  spz_module_async_execute kmem audit_owner profile_ops each1 each2 w SPZ_ASYNC_CLEAR target = (0, w') ->
  spz_async_busy async = false -> mo_control_busy (wd_module w') = 0 -> Forall call_ok calls ->
  rtc (lifecycle self) boot im -> im_exit_started im = 0 ->
  im_world im = Some (foldl (run_hook kmem) (w' <| wd_module := (wd_module w') <| mo_async := async |> |>) calls) ->
  barrier_reaches_all s ->
  exists im', spz_kpm_exit self s im = (0, im') /\ unloaded [] im'.
Proof.
  intros Hb Hclear Hasync Hcontrol Hcalls Hreach Hx Hw Hs.
  destruct (clear_leaves_nothing kmem audit_owner profile_ops each1 each2 w w' target async Hb Hclear Hasync Hcontrol)
    as (_ & _ & Hcl).
  set (v := w' <| wd_module := _ |>) in *. assert (cleared (wd_module v)) as Hv by exact Hcl.
  assert (cleared (wd_module (foldl (run_hook kmem) v calls))) as Hcl'.
  { clearbody v. clear -Hv Hcalls. revert v Hv. induction Hcalls as [|call calls Hok _ IH]; intros v Hv; [done|].
    cbn [foldl]. by apply IH, hooks_keep_cleared. }
  eapply unload_runs; [exact Hreach|exact Hw|exact Hs|]. intros _. split_and!; [apply Hcl'|apply Hcl'|by apply cleared_can_exit|].
  destruct (reachable_phase self im Hreach) as [Hun|[Hru|[[_ Hx'] _ _ _ _]]]; [by rewrite (un_world _ _ Hun) in Hw| |congruence].
  destruct (ru_registered _ _ _ Hru) as [_ Hready _ _ Hflush]. unfold spz_kpatch_async_quiesce.
  rewrite Hready, (eqb_ne (rc_flush_work_address _)) by done. cbn [Z.eqb]. by rewrite (cl_async _ Hcl').
Qed.

(** ** A load that succeeds *)

Definition demo_loader : loader :=
  {| ld_env := demo_env; ld_wrap := fun _ _ _ _ _ _ => 0; ld_kpver := 3333; ld_kver := 396311;
     ld_callbacks := demo_callbacks; ld_marker := fun _ => 1; ld_schedule := (0, [demo_view 0; demo_view 1]);
     ld_udata := 7 |}.

Definition idle (im : image) (w : world machine) : bool :=
  (mo_control_busy (wd_module w) =? 0) && (mo_active_handlers (wd_module w) =? 0)
  && (spz_module_can_exit (wd_module w) =? 0)
  && (spz_kpatch_async_quiesce (im_context im) (mo_async (wd_module w)) =? 0).

Lemma demo_loads_idle :
  (let '(result, im) := spz_kpm_init demo_loader None boot in
   (result =? 0) && (length (in_effect (im_calls im)) =? 5)%nat &&
   match im_world im with Some w => idle im w | None => false end) = true.
Proof. vm_compute. reflexivity. Qed.

Lemma demo_loads :
  let '(result, im) := spz_kpm_init demo_loader None boot in
  result = 0 /\ length (in_effect (im_calls im)) = 5%nat /\ (exists w, im_world im = Some w /\ idle im w = true).
Proof.
  generalize demo_loads_idle. destruct (spz_kpm_init demo_loader None boot) as [result im].
  rewrite !andb_true_iff, Z.eqb_eq, Nat.eqb_eq. intros [[Hr Hn] Hw]. split_and!; [done|done|].
  destruct (im_world im) as [w|]; [by exists w|done].
Qed.

Lemma idle_spec im w :
  idle im w = true ->
  mo_control_busy (wd_module w) = 0 /\ mo_active_handlers (wd_module w) = 0 /\ spz_module_can_exit (wd_module w) = 0 /\
  spz_kpatch_async_quiesce (im_context im) (mo_async (wd_module w)) = 0.
Proof. unfold idle. rewrite !andb_true_iff, !Z.eqb_eq. tauto. Qed.

Lemma demo_barrier : barrier_reaches_all (0, [demo_view 0; demo_view 1]).
Proof. split; [done|]. by repeat constructor. Qed.

Lemma lifecycle_is_clean_witness :
  let '(result, im) := spz_kpm_init demo_loader None boot in
  result = 0 /\ length (in_effect (im_calls im)) = 5%nat /\ in_phase 1000 [] im.
Proof.
  generalize demo_loads. destruct (spz_kpm_init demo_loader None boot) as [result im] eqn:E. intros (Hr & Hl & _).
  split; [exact Hr|]. split; [exact Hl|].
  apply (lifecycle_is_clean 1000 im).
  apply rtc_once. exact (life_init 1000 demo_loader None boot result im eq_refl eq_refl E).
Defined.

Lemma unload_completes_witness :
  let '(_, im) := spz_kpm_init demo_loader None boot in
  exists im', spz_kpm_exit 1000 (0, [demo_view 0; demo_view 1]) im = (0, im') /\ unloaded [] im'.
Proof.
  generalize demo_loads. destruct (spz_kpm_init demo_loader None boot) as [result im] eqn:E.
  intros (_ & _ & w & Hw & Hidle).
  apply (unload_completes 1000 im w (0, [demo_view 0; demo_view 1])).
  - apply rtc_once. exact (life_init 1000 demo_loader None boot result im eq_refl eq_refl E).
  - exact Hw.
  - exact demo_barrier.
  - intros _. exact (idle_spec im w Hidle).
Defined.

(** The loaded module, cleared, and a hook called behind it. *)
Definition demo_clear (w : world machine) : Z * world machine :=
  spz_module_async_execute demo_kmem None None (0, [demo_view 0]) (0, []) w SPZ_ASYNC_CLEAR 0.

Lemma demo_clears :
  let im := (spz_kpm_init demo_loader None boot).2 in
  im_exit_started im = 0 /\
  match im_world im with
  | Some w => mo_binding (wd_module w) = spz_binding_init /\ (demo_clear w).1 = 0 /\
      mo_control_busy (wd_module (demo_clear w).2) = 0
  | None => False
  end.
Proof. vm_compute. repeat split. Qed.

Lemma clear_lets_unload_witness :
  exists w im', im_world (spz_kpm_init demo_loader None boot).2 = Some w /\
    let v := run_hook demo_kmem ((demo_clear w).2 <| wd_module := (wd_module (demo_clear w).2) <| mo_async := spz_async_init |> |>)
               (hook_finish_before (demo_view 0)) in
    spz_kpm_exit 1000 (0, [demo_view 0; demo_view 1]) ((spz_kpm_init demo_loader None boot).2 <| im_world := Some v |>) = (0, im') /\
    unloaded [] im'.
Proof.
  generalize demo_clears. destruct (spz_kpm_init demo_loader None boot) as [result im] eqn:E. cbn [snd].
  intros [Hx Hc]. destruct (im_world im) as [w|] eqn:Hw; [|destruct Hc]. destruct Hc as (Hb & Hr & Hbusy). exists w.
  destruct (demo_clear w) as [r w'] eqn:Eclear. cbn [fst snd] in *. subst r.
  set (v := run_hook demo_kmem _ _).
  destruct (clear_lets_unload demo_kmem None None (0, [demo_view 0]) (0, []) 1000 (im <| im_world := Some v |>) w w' 0 spz_async_init
    [hook_finish_before (demo_view 0)] (0, [demo_view 0; demo_view 1])) as (im' & H1 & H2).
  - rewrite Hb. apply binding_init_wf.
  - exact Eclear.
  - reflexivity.
  - exact Hbusy.
  - constructor; [cbv; discriminate|constructor].
  - eapply rtc_l; [exact (life_init 1000 demo_loader None boot result im eq_refl eq_refl E)|].
    apply rtc_once. exact (life_module 1000 im w v Hw).
  - exact Hx.
  - reflexivity.
  - exact demo_barrier.
  - exists im'. split; [reflexivity|]. split; [exact H1|exact H2].
Defined.
