(* ===== verification/HookCalls.v ===== *)
(** * What reaches the hook framework (kpm/platform/kpatch/main.c)

    Hooks.v records the calls of the hook set to its backend. The functions of the
    backend in main.c check their arguments before they call the framework. Over the
    life of the image none of these checks turns a call away. *)

From stdpp Require Import relations.
From S2P Require Import Prelude Crc32 Abi Ring DeviceProfiles Profile Task Debug DebugEncode DebugSpec Arm64.
From S2P Require Import Command CommandNumbers Maps Text Async Runtime RuntimeSpec Control MapsSpec Render KpatchMaps.
From S2P Require Import Platform Transport TransportSpec Hooks Main MainSpec.

(** [calls] are the calls of the framework, the newest first, as everywhere. *)
Definition spz_kpatch_hook_unwrap (calls : list hook_call) (target before after : Z) : list hook_call :=
  if target =? 0 then calls else UnwrapCall target before after :: calls.

(** [spz_kpatch_hook_wrap] turns a call away. *)
Definition wrap_refused (target argument_count before : Z) : bool :=
  (target =? 0) || (before =? 0) || (negb (argument_count =? 1) && negb (argument_count =? 3)).

(** The calls of the framework that a record of calls of the backend makes. *)
Fixpoint framework_calls (calls : list hook_call) : list hook_call :=
  match calls with
  | [] => []
  | WrapCall target argument_count before after udata result :: calls =>
      if wrap_refused target argument_count before then framework_calls calls
      else WrapCall target argument_count before after udata result :: framework_calls calls
  | UnwrapCall target before after :: calls => spz_kpatch_hook_unwrap (framework_calls calls) target before after
  | QuiesceCall :: calls => QuiesceCall :: framework_calls calls
  end.

(** ** No call is turned away *)

Lemma wrap_refused_answer f calls target n before after udata :
  spz_kpatch_hook_wrap f calls target n before after udata =
  if wrap_refused target n before then - EINVAL else f calls target n before after udata.
Proof. unfold spz_kpatch_hook_wrap, wrap_refused. destruct (target =? 0), (before =? 0), (n =? 1), (n =? 3); done. Qed.

Definition passes (c : hook_call) : Prop :=
  match c with
  | WrapCall target n before _ _ _ => wrap_refused target n before = false
  | UnwrapCall target _ _ => target <> 0
  | QuiesceCall => True
  end.

Lemma framework_calls_all calls : Forall passes calls -> framework_calls calls = calls.
Proof.
  induction 1 as [|c calls Hc _ IH]; [done|]. destruct c as [t n b a u r|t b a|]; cbn in *.
  - by rewrite Hc, IH.
  - unfold spz_kpatch_hook_unwrap. by rewrite (eqb_ne t 0), IH.
  - by rewrite IH.
Qed.

(** A hook that is installed has a target. *)
Record targets_ok (hooks : spz_hook_set) : Prop := {
  to_targets : length (hs_targets hooks) = SPZ_HOOK_COUNT;
  to_installed : length (hs_installed hooks) = SPZ_HOOK_COUNT;
  to_nonzero : forall j, (j < SPZ_HOOK_COUNT)%nat -> hs_installed hooks !!! j <> 0 -> hs_targets hooks !!! j <> 0;
}.

(** What the hook set and its calls look like, and after an operation that returns both. *)
Definition hooks_pass (hooks : spz_hook_set) (calls : list hook_call) : Prop := targets_ok hooks /\ Forall passes calls.
Definition result_passes (r : option spz_hook_set * list hook_call) : Prop := exists hooks, r.1 = Some hooks /\ hooks_pass hooks r.2.

Lemma remove_loop_passes cursor hooks calls removed :
  (cursor <= SPZ_HOOK_COUNT)%nat -> hooks_pass hooks calls ->
  let '(hooks', calls', _) := remove_loop cursor hooks calls removed in hooks_pass hooks' calls'.
Proof.
  revert hooks calls removed. induction cursor as [|cursor IH]; intros hooks calls removed Hc [[Ht Hi Hn] Hp]; cbn [remove_loop]; [done|].
  destruct (Z.eqb_spec (hs_installed hooks !!! cursor) 0) as [E|E]; [by apply IH; [lia|]|].
  destruct (spz_hook_callbacks_for _ _) as [before after]. apply IH; [lia|]. split; [|by constructor; [apply Hn; [lia|done]|]].
  split; cbn; [done|by rewrite length_insert|]. intros j Hj. destruct (decide (j = cursor)) as [->|Hne].
  - by rewrite list_lookup_total_insert_eq by lia.
  - rewrite list_lookup_total_insert_ne by done. by apply Hn.
Qed.

Lemma remove_passes hooks calls : hooks_pass hooks calls -> result_passes (spz_hooks_remove (Some hooks) calls).
Proof.
  intros Hp. unfold spz_hooks_remove. destruct (_ || _); [by exists hooks|].
  pose proof (remove_loop_passes SPZ_HOOK_COUNT hooks calls false ltac:(done) Hp) as H.
  destruct (remove_loop _ _ _ _) as [[hooks' calls'] removed]. destruct H as [Ho Hc].
  exists hooks'. split; [done|]. split; [done|]. destruct removed; [by constructor|done].
Qed.

Lemma install_fail_passes hooks calls error :
  hooks_pass hooks calls -> result_passes ((install_fail hooks calls error).1.2, (install_fail hooks calls error).2).
Proof.
  intros Hp. unfold install_fail. pose proof (remove_passes hooks calls Hp) as H. by destruct (spz_hooks_remove _ _).
Qed.

(** A target of a hook that is not installed may change. *)
Lemma set_target_passes hooks calls index target :
  hooks_pass hooks calls -> hs_installed hooks !!! index = 0 -> (index < SPZ_HOOK_COUNT)%nat ->
  hooks_pass (hooks <| hs_targets ::= <[index := target]> |>) calls.
Proof.
  intros [[Ht Hi Hn] Hp] H0 Hl. split; [|done]. split; cbn; [by rewrite length_insert|done|].
  intros j Hj Hj1. destruct (decide (j = index)) as [->|Hne]; [done|].
  rewrite list_lookup_total_insert_ne by done. by apply Hn.
Qed.

Lemma install_loop_passes remaining index runtime wrap callbacks udata hooks calls :
  (index + remaining = SPZ_HOOK_COUNT)%nat -> hooks_pass hooks calls ->
  (forall j, (index <= j < SPZ_HOOK_COUNT)%nat -> hs_installed hooks !!! j = 0) ->
  let r := install_loop remaining index runtime wrap callbacks udata hooks calls in result_passes (r.1.2, r.2).
Proof.
  revert index hooks calls. induction remaining as [|remaining IH]; intros index hooks calls Hlen Hp Hfree; cbn [install_loop].
  { by exists hooks. }
  set (target := _ !!! _). pose proof (set_target_passes hooks calls index target Hp ltac:(apply Hfree; lia) ltac:(lia)) as Hp1.
  set (hooks1 := hooks <| hs_targets ::= _ |>) in *.
  destruct (Z.eqb_spec target 0) as [E|E]; [by apply install_fail_passes|].
  destruct (spz_hook_callbacks_for _ _) as [before after]. set (n := spz_hook_argument_count _ _).
  destruct (before =? 0) eqn:Eb; cbn [orb]; [by apply install_fail_passes|].
  destruct (bool_decide _ && _); cbn [orb]; [by apply install_fail_passes|].
  destruct (negb (n =? 1) && negb (n =? 3)) eqn:En; [by apply install_fail_passes|].
  set (result := wrap _ _ _ _ _ _). destruct Hp1 as [Ho Hc].
  assert (hooks_pass hooks1 (WrapCall target n before after udata result :: calls)) as Hp2.
  { split; [done|]. constructor; [|done]. cbn. unfold wrap_refused. by rewrite (eqb_ne target 0), Eb, En by done. }
  destruct (result =? 0); cbn [negb]; [|by apply install_fail_passes].
  apply IH; [lia| |].
  - split; [|by destruct Hp2]. destruct Ho as [Ht Hi Hn]. split; cbn; [exact Ht|by rewrite length_insert|].
    intros j Hj. destruct (decide (j = index)) as [->|Hne].
    + intros _. rewrite list_lookup_total_insert_eq; [done|]. destruct Hp as [[Ht0 _ _] _]. rewrite Ht0. lia.
    + rewrite list_lookup_total_insert_ne by done. by apply Hn.
  - intros j Hj. cbn. rewrite list_lookup_total_insert_ne by lia. apply Hfree. lia.
Qed.

Lemma zero_targets_ok backend callbacks udata :
  targets_ok {| hs_backend := backend; hs_callbacks := callbacks; hs_targets := replicate SPZ_HOOK_COUNT 0;
                hs_installed := replicate SPZ_HOOK_COUNT 0; hs_udata := udata |}.
Proof. split; [done|done|]. intros j Hj []. by apply (lookup_total_replicate_2 SPZ_HOOK_COUNT). Qed.

Lemma install_passes hooks runtime backend callbacks udata calls :
  hooks_pass hooks calls ->
  let r := spz_hooks_install (Some hooks) runtime backend callbacks udata calls in result_passes (r.1.2, r.2).
Proof.
  intros Hp. unfold spz_hooks_install. destruct runtime as [rt|], backend as [be|], callbacks as [cb|]; try (by exists hooks).
  destruct (hb_wrap be); [|by exists hooks]. destruct (_ || _); [by exists hooks|].
  apply install_loop_passes; [done|split; [apply zero_targets_ok|by destruct Hp]|].
  intros j Hj. apply (lookup_total_replicate_2 SPZ_HOOK_COUNT); lia.
Qed.

(** ** The life of the image *)

Definition image_passes (im : image) : Prop := hooks_pass (im_hooks im) (im_calls im).

Lemma zero_image_passes self im : Forall passes (im_calls im) -> image_passes (zero_image self im).
Proof.
  intros Hp. unfold zero_image. destruct (spz_kpatch_runtime_zero _ _ _) as [[m c] t]. split; [apply zero_targets_ok|done].
Qed.

Lemma run_barrier_passes self s w im : image_passes im -> image_passes (run_barrier self s w im).2.
Proof. intros Hp. unfold run_barrier. by destruct (spz_kpatch_run_each_cpu _ _ _ _ _ _) as [[r c] w']. Qed.

Lemma init_prepared_passes ld m im : image_passes im -> image_passes (init_prepared ld m im).2.
Proof.
  intros Hp. unfold init_prepared. cbv zeta. set (m0 := m <| mo_accepting_commands := 0 |> <| mo_ready := 0 |>).
  set (w := {| wd_module := m0 |}).
  pose proof (install_passes (im_hooks im) (Some (mo_runtime m0)) (Some (kpatch_hook_backend (ld_wrap ld)))
    (Some (ld_callbacks ld)) (ld_udata ld) (im_calls im) Hp) as H. cbv zeta in H.
  destruct (spz_hooks_install _ _ _ _ _ _) as [[result hooks] calls]. destruct H as (hooks' & Hh & H). cbn in Hh, H. subst hooks.
  set (im1 := im <| im_world := _ |> <| im_hooks := _ |> <| im_calls := _ |>).
  assert (image_passes im1) as H1 by exact H. clearbody im1. destruct (result =? 0); cbn [negb]; [exact H1|].
  pose proof (run_barrier_passes (en_self (ld_env ld)) (ld_schedule ld) w im1 H1) as H2.
  destruct (run_barrier _ _ _ _) as [barrier im2]. cbn in H2. destruct (barrier =? 0); cbn [negb]; [|exact H2].
  apply zero_image_passes. by destruct H2.
Qed.

Lemma init_passes ld args im : image_passes im -> image_passes (spz_kpm_init ld args im).2.
Proof.
  intros Hp. unfold spz_kpm_init. destruct (spz_profile_argument args) as [r|id]; [done|].
  destruct (spz_profile_select _) as [profile|]; [|done]. cbv zeta. repeat (case_match; try done).
  all: try (apply zero_image_passes; by destruct Hp).
  apply init_prepared_passes. split; [apply zero_targets_ok|by destruct Hp].
Qed.

Lemma exit_passes self s im : image_passes im -> image_passes (spz_kpm_exit self s im).2.
Proof.
  intros Hp. unfold spz_kpm_exit. destruct (im_world im) as [w|]; [|done]. destruct (im_initialized im =? 0); [done|].
  assert (forall im1, image_passes im1 -> image_passes
    (let '(result, im) := run_barrier self s w im1 in
     if negb (result =? 0) then (result, im)
     else (0, (zero_image self im) <| im_initialized := 0 |> <| im_exit_started := 0 |>)).2) as Hb.
  { intros im1 H1. pose proof (run_barrier_passes self s w im1 H1) as H2. destruct (run_barrier _ _ _ _) as [r im2].
    cbn in H2. destruct (r =? 0); [|done]. exact (zero_image_passes self im2 (proj2 H2)). }
  destruct (im_exit_started im =? 0); [|by apply Hb].
  destruct (spz_module_begin_exit _ _) as [r m]. destruct (r =? 0) eqn:Er; cbn [negb]; [|rewrite Er; exact Hp].
  pose proof (remove_passes (im_hooks im) (im_calls im) Hp) as H. cbn [im_hooks im_calls].
  change (im_hooks (im <| im_world := _ |>)) with (im_hooks im). change (im_calls (im <| im_world := _ |>)) with (im_calls im).
  destruct (spz_hooks_remove _ _) as [hooks calls]. destruct H as (hooks' & Hh & H). cbn in Hh, H. subst hooks. by apply Hb.
Qed.

(** Whatever happens to the image, every call the module makes reaches the framework:
    the checks in front of it never drop an unwrapping, which would leave a hook behind. *)
Theorem every_hook_call_reaches_framework self im :
  rtc (lifecycle self) boot im -> framework_calls (im_calls im) = im_calls im.
Proof.
  intros H. assert (image_passes im) as [_ Hp]; [|by apply framework_calls_all].
  remember boot as im0 eqn:E. assert (image_passes im0) as Hp by (subst; split; [apply zero_targets_ok|constructor]).
  clear E. induction H as [|x y z Hstep _ IH]; [done|]. apply IH.
  destruct Hstep as [ld args im1 r im2 _ _ E|be others copy args out outlen im1 r b im2 E|s im1 r im2 E|im1 w w' _].
  - pose proof (init_passes ld args im1 Hp) as Hi. by rewrite E in Hi.
  - apply control_phase in E as [-> |(w & w' & _ & ->)]; done.
  - pose proof (exit_passes self s im1 Hp) as Hi. by rewrite E in Hi.
  - done.
Qed.
