(* ===== verification/MainEntry.v ===== *)
(** * The arguments of a load and the answers to control calls (kpm/platform/kpatch/main.c)

    Which arguments select which profile, which version texts are numbers, and what
    reaches the caller of a control call. *)

From stdpp Require Import relations.
From S2P Require Import Prelude Crc32 Abi Ring DeviceProfiles Profile Task Debug DebugEncode DebugSpec Arm64.
From S2P Require Import Command CommandNumbers Maps Text Async Runtime RuntimeSpec Control ControlSpec MapsSpec Render.
From S2P Require Import KpatchMaps Platform Transport TransportSpec Hooks Main MainSpec.

(** ** Arguments *)

Lemma id_bytes id : forallb id_byte id = true <-> Forall (fun b => id_byte b = true) id.
Proof. rewrite forallb_forall, Forall_forall. by setoid_rewrite list_elem_of_In. Qed.

(** The two cases of an argument that is given. *)
Lemma given_argument (a b : list Z) (P Q : Prop) :
  a <> [] -> ((Some a = None \/ Some a = Some []) /\ P) \/ (Some a = Some b /\ Q) <-> a = b /\ Q.
Proof. intros Ha. split; [intros [[[E|E] _]|[E HQ]]; simplify_eq; auto|]. intros [-> HQ]. auto. Qed.

(** Without arguments the default profile is loaded, otherwise the one named behind
    [profile=] in at most 128 bytes of letters, digits and [._:-]. *)
Theorem profile_argument_names args id :
  spz_profile_argument args = inr id <->
  ((args = None \/ args = Some []) /\ id = SPZ_DEFAULT_DEVICE_PROFILE_ID) \/
  (args = Some (profile_prefix ++ id) /\ id <> [] /\ Forall (fun b => id_byte b = true) id /\
   (length profile_prefix + length id <= 128)%nat).
Proof.
  unfold spz_profile_argument. destruct args as [[|b args]|].
  - split; [intros [= <-]; left; auto|]. intros [[_ ->]|[E _]]; [done|discriminate E].
  - set (a := b :: args). rewrite given_argument by done.
    destruct (Nat.ltb_spec 128 (length a)) as [Hl|Hl].
    { split; [done|]. intros (-> & _ & _ & Hlen). rewrite length_app in Hl. lia. }
    destruct (Nat.leb_spec (length a) (length profile_prefix)) as [Hp|Hp]; cbn [orb].
    { split; [done|]. intros (-> & Hid & _). rewrite length_app in Hp. destruct id; [done|cbn in Hp; lia]. }
    case_bool_decide as Hpre; cbn [negb].
    2: { split; [done|]. intros (-> & _). by rewrite take_app_length in Hpre. }
    assert (a = profile_prefix ++ drop (length profile_prefix) a) as Ha by (rewrite <- Hpre at 1; by rewrite take_drop).
    set (rest := drop (length profile_prefix) a) in *. clearbody rest a. subst a. rewrite length_app in *.
    destruct (forallb id_byte rest) eqn:Hf; cbn [negb].
    + rewrite id_bytes in Hf. split.
      * intros [= <-]. split_and!; [done|intros ->; cbn in *; lia|done|lia].
      * intros [E%app_inv_head _]. by subst.
    + split; [done|]. intros (E%app_inv_head & _ & Hall & _). subst. apply id_bytes in Hall. congruence.
  - split; [intros [= <-]; left; auto|]. by intros [[_ ->]|[[=] _]].
Qed.

(** One more hexadecimal digit. *)
Lemma hex_shift parsed digit :
  0 <= parsed < 2 ^ 28 -> 0 <= digit < 16 -> Z.lor (u32 (Z.shiftl parsed 4)) digit = parsed * 16 + digit.
Proof.
  intros Hp Hd. rewrite Z.shiftl_mul_pow2 by lia. replace (u32 (parsed * 2 ^ 4)) with (parsed * 2 ^ 4) by zlia.
  pose proof (Z.add_lor_land (parsed * 2 ^ 4) digit) as Hsum. assert (Z.land (parsed * 2 ^ 4) digit = 0); [|lia].
  apply Z.bits_inj'. intros k Hk.
  rewrite Z.land_spec, Z.bits_0. destruct (Z.lt_ge_cases k 4).
  - by rewrite Z.mul_pow2_bits_low.
  - destruct (decide (digit = 0)) as [->|]; [by rewrite Z.bits_0, andb_false_r|].
    rewrite (Z.bits_above_log2 digit k), andb_false_r; [done|lia|]. apply Z.log2_lt_pow2; [lia|].
    apply (Z.lt_le_trans _ (2 ^ 4)); [lia|]. apply Z.pow_le_mono_r; lia.
Qed.

Lemma hex_u32_loop_spec places text parsed :
  (places <= 8)%nat -> 0 <= parsed < 16 ^ (8 - Z.of_nat places) ->
  match hex_u32_loop places text parsed with
  | inr (value, rest) => exists digits, text = digits ++ rest /\ is_hexadecimal digits /\
      value = number_from hex_digit 16 parsed digits /\ (length digits <= places)%nat /\
      ((length digits < places)%nat -> rest = [])
  | inl result => result = - EINVAL /\ exists b, b ∈ text /\ ~ is_digit hex_digit b
  end.
Proof.
  revert text parsed. induction places as [|places IH]; intros text parsed Hle Hp.
  { cbn. exists []. split_and!; [done|constructor|done|done|cbn; lia]. }
  destruct text as [|b text]; cbn [hex_u32_loop]; [exists []; split_and!; [done|constructor|done|cbn; lia|done]|].
  destruct (hex_digit b) as [d|] eqn:Hb.
  2: { split; [done|]. exists b. split; [by left|]. cbn. rewrite Hb. by intros []. }
  pose proof (digit_range b d Hb) as Hd.
  assert (parsed < 2 ^ 28) as Hsmall.
  { eapply Z.lt_le_trans; [apply Hp|]. change (2 ^ 28) with (16 ^ 7). apply Z.pow_le_mono_r; lia. }
  rewrite hex_shift by lia. specialize (IH text (parsed * 16 + d) ltac:(lia)).
  replace (8 - Z.of_nat places) with (Z.succ (8 - Z.of_nat (S places))) in IH by lia. rewrite Z.pow_succ_r in IH by lia.
  specialize (IH ltac:(lia)). destruct (hex_u32_loop places text _) as [r|[v rest]].
  - destruct IH as (-> & b' & Hin & Hb'). split; [done|]. exists b'. split; [by right|done].
  - destruct IH as (digits & -> & Hhex & -> & Hlen & Hrest). exists (b :: digits).
    split_and!; [done|constructor; [|done]; cbn; eauto|cbn; by rewrite Hb|cbn; lia|cbn; intros; apply Hrest; lia].
Qed.

(** A version text is the number of its one to eight hexadecimal digits, or refused. *)
Theorem hex_u32_number text value :
  spz_hex_u32 (Some text) = inr value <->
  is_hexadecimal text /\ (0 < length text <= 8)%nat /\ value = hex_number text.
Proof.
  unfold spz_hex_u32. destruct text as [|b text]; [split; [done|]; intros (_ & H & _); cbn in H; lia|].
  set (t := b :: text). pose proof (hex_u32_loop_spec 8 t 0 ltac:(lia) ltac:(done)) as Hs.
  assert (0 < length t)%nat as Hpos by (cbn; lia). clearbody t. destruct (hex_u32_loop 8 t 0) as [r|[v rest]].
  - destruct Hs as (-> & b' & Hin & Hb'). split; [done|]. intros (Hall & _). rewrite Forall_forall in Hall. by destruct Hb'; apply Hall.
  - destruct Hs as (digits & -> & Hhex & -> & Hlen & Hrest). case_bool_decide as Hr.
    + split; [done|]. intros (_ & [_ Hl] & _). rewrite length_app in Hl. destruct (decide (length digits < 8)%nat); [tauto|].
      destruct rest; [done|]. cbn in Hl. lia.
    + destruct (decide (rest = [])) as [->|]; [|done]. rewrite app_nil_r in *. split; [intros [= <-]; auto|]. intros (_ & _ & ->). done.
Qed.

(** ** Answers *)

(** What the caller of a control call gets for an answer. *)
Definition delivered (copy_to_user : list Z -> Z) (outlen : Z) (line : list Z) (im : image) : Z * option (list Z) * image :=
  let bytes := line ++ [0] in
  if (Z.of_nat (length bytes) <=? outlen) && (Z.of_nat (length bytes) <=? SPZ_CONTROL_RESPONSE_MAX)
  then (if copy_to_user bytes =? Z.of_nat (length bytes) then 0 else - EFAULT, Some bytes, im)
  else (- ENOSPC, None, im).

(** C28: A control call of a loaded module that finds the gate open runs its line once;
    one that finds another command inside changes nothing and is answered EBUSY. A
    line that is too long is refused by the parser, not cut. The caller gets the
    whole answer with its terminator when that fits the caller's buffer and the
    response buffer, and nothing otherwise; the result is 0 exactly when all of it
    was copied. The fields of the answer are copied behind the gate, from the
    scratch buffer that all control calls share, as it is by then: they are the
    fields of this command provided what [others] did since left the front of the
    buffer alone. Hooks and workers do ([hooks_balance_gate], [execute_scratch]);
    another command admitted in between does not ([overlapping_call_garbles]). *)
Theorem control_delivers backend others copy_to_user args outlen im w :
  im_world im = Some w -> im_initialized im <> 0 -> 0 < outlen ->
  let long := (SPZ_MAX_COMMAND <? length args)%nat in
  let command := (if long then take SPZ_MAX_COMMAND args else args) ++ [0] in
  let n := if long then (SPZ_MAX_COMMAND + 1)%nat else length args in
  let '(status, w1, extra) :=
    if mo_control_busy (wd_module w) =? 0 then control_run backend w command n else (- EBUSY, w, new_text 0) in
  let w2 := others w1 in
  let fields := take (length (tx_data extra)) (mo_control_scratch (wd_module w2)) in
  spz_kpm_control backend others copy_to_user (Some args) true outlen im =
    delivered copy_to_user outlen (answer status fields) (im <| im_world := Some w2 |>) /\
  (status = 0 -> fields = take (length (tx_data extra)) (mo_control_scratch (wd_module w1)) -> fields = tx_data extra).
Proof.
  intros Hw Hinit Hout long command n. unfold spz_kpm_control. rewrite Hw, (eqb_ne (im_initialized im) 0) by done.
  rewrite (proj2 (Z.leb_gt outlen 0)) by done. cbn [orb negb]. fold long. fold command. fold n.
  pose proof (control_response backend others w command n SPZ_CONTROL_RESPONSE_MAX ltac:(done)) as Hr.
  pose proof (control_run_scratch backend w command n) as Hs. unfold control_admit in Hr.
  assert (let '(status, w1, extra) := if mo_control_busy (wd_module w) =? 0 then control_run backend w command n else (- EBUSY, w, new_text 0) in
    tx_length extra = Z.of_nat (length (tx_data extra)) /\
    (status = 0 -> take (length (tx_data extra)) (mo_control_scratch (wd_module w1)) = tx_data extra)) as Hextra.
  { destruct (mo_control_busy (wd_module w) =? 0); [|done]. destruct (control_run backend w command n) as [[status w1] extra].
    destruct Hs as (_ & Hl & _ & Hd). split; [done|]. intros _. by rewrite Hl, Nat2Z.id in Hd. }
  clear Hs. destruct (mo_control_busy (wd_module w) =? 0); cbn [negb] in Hr;
    (destruct (control_run backend w command n) as [[status w1] extra] || idtac);
    destruct Hextra as [Hl Hd]; (split; [|intros H0 ->; by apply Hd]).
  all: rewrite Hl, Nat2Z.id in Hr; cbv zeta in Hr |- *; rewrite Hr.
  all: match goal with |- context [answer ?st ?f] => set (line := answer st f) end; unfold delivered;
    rewrite length_app; cbn [length].
  all: destruct (Z.ltb_spec (Z.of_nat (length line)) SPZ_CONTROL_RESPONSE_MAX) as [Hfit|Hover].
  all: try (rewrite (proj2 (Z.leb_gt _ SPZ_CONTROL_RESPONSE_MAX)) by lia; by rewrite andb_false_r).
  all: rewrite (proj2 (Z.ltb_ge (Z.of_nat (length line)) 0)) by lia.
  all: rewrite (proj2 (Z.ltb_ge SPZ_CONTROL_RESPONSE_MAX _)), (proj2 (Z.leb_le (Z.of_nat (length line + 1)) SPZ_CONTROL_RESPONSE_MAX)) by lia.
  all: rewrite orb_false_r, andb_true_r; replace (Z.of_nat (length line + 1)) with (Z.of_nat (length line) + 1) by lia.
  all: destruct (Z.ltb_spec outlen (Z.of_nat (length line) + 1)) as [Ho|Ho];
    [by rewrite (proj2 (Z.leb_gt _ _)) by lia|by rewrite (proj2 (Z.leb_le _ _)) by lia].
Qed.

(** ** A loaded module answers *)

Definition demo_queue : spz_async_backend (world machine) :=
  {| ab_queue := Some (fun w => (0, w)); ab_execute := Some (fun _ w _ _ => (0, w)) |}.

Definition demo_image : image := (spz_kpm_init demo_loader None boot).2.

(** [others] happens while the answer is made. *)
Definition demo_answer (others : world machine -> world machine) (line : list Z) (outlen : Z) : Z * option (list Z) :=
  (spz_kpm_control demo_queue others (fun bytes => Z.of_nat (length bytes)) (Some line) true outlen demo_image).1.

Example demo_poll : demo_answer id (str "poll after=0") 4096 = (0, Some (str "status=0 version=1 empty=1" ++ [0])).
Proof. vm_compute. reflexivity. Qed.

Example demo_short_buffer : demo_answer id (str "poll after=0") 8 = (- ENOSPC, None).
Proof. vm_compute. reflexivity. Qed.

(** A second call is admitted as soon as the first has opened the gate, while the
    first has not copied its fields yet: the first call reports success with the
    beginning of the answer to the second. *)
Definition demo_second_call (w : world machine) : world machine :=
  (control_run demo_queue w (str "profile" ++ [0]) 7).1.2.

Lemma overlapping_call_garbles :
  demo_answer demo_second_call (str "poll after=0") 4096 = (0, Some (str "status=0 version=1 profile" ++ [0])).
Proof. vm_compute. reflexivity. Qed.

Lemma demo_image_loaded :
  (negb (im_initialized demo_image =? 0) &&
   match im_world demo_image with
   | Some w => (mo_control_busy (wd_module w) =? 0) && ((control_run demo_queue w (str "poll after=0" ++ [0]) 12).1.1 =? 0)
   | None => false end) = true.
Proof. vm_compute. reflexivity. Qed.

(** Nothing happens in between: the fields are those of the command. *)
Lemma control_delivers_witness :
  exists w, im_world demo_image = Some w /\
  let '(status, w1, extra) := control_run demo_queue w (str "poll after=0" ++ [0]) 12 in
  spz_kpm_control demo_queue id (fun bytes => Z.of_nat (length bytes)) (Some (str "poll after=0")) true 4096 demo_image =
    delivered (fun bytes => Z.of_nat (length bytes)) 4096 (answer 0 (tx_data extra)) (demo_image <| im_world := Some w1 |>).
Proof.
  generalize demo_image_loaded. generalize demo_image. intros im. destruct (im_world im) as [w|] eqn:E;
    [|by rewrite andb_false_r]. rewrite !andb_true_iff, negb_true_iff, Z.eqb_neq. intros (Hinit & Hbusy & Hst). exists w. split; [reflexivity|].
  pose proof (control_delivers demo_queue id (fun bytes => Z.of_nat (length bytes)) (str "poll after=0") 4096 im w E Hinit eq_refl) as H.
  cbv zeta in H. rewrite Hbusy in H.
  change (if (SPZ_MAX_COMMAND <? length (str "poll after=0"))%nat then take SPZ_MAX_COMMAND (str "poll after=0") else str "poll after=0")
    with (str "poll after=0") in H.
  change (if (SPZ_MAX_COMMAND <? length (str "poll after=0"))%nat then (SPZ_MAX_COMMAND + 1)%nat else length (str "poll after=0"))
    with 12%nat in H.
  destruct (control_run demo_queue w (str "poll after=0" ++ [0]) 12) as [[status w1] extra]. apply Z.eqb_eq in Hst. cbn [fst] in Hst. subst status.
  destruct H as [-> H]. unfold id in *. rewrite (H eq_refl eq_refl). reflexivity.
Defined.
