(* ===== verification/Trace.v ===== *)
(** * Data of the tracing programs (src/types.h, src/maps.h, src/common/consts.h)

    The programs attached to system calls and user functions: their constants, the
    structures they share with user space and the maps they keep. The model is of
    the arm64 build. An element of an array map is always there, so that those maps
    are plain members; a hash map is a finite map with its capacity. *)

From stdpp Require Import gmap.
From S2P Require Import Prelude.

(** ** Constants *)

Definition TASK_COMM_LEN : nat := 16.
Definition MAX_LOOP_COUNT : Z := 32.
Definition MAX_STRCMP_LEN : Z := 256.
Definition STRARR_MAGIC_LEN : Z := 4294901760.
Definition _TIF_32BIT : Z := 4194304.
Definition PTR_SIZE : nat := 8.
Definition MAX_STRING_SIZE : Z := 16384.
Definition MAX_BYTES_ARR_SIZE : Z := 4096.
Definition ARGS_BUF_SIZE : Z := 32000.

(** The module decides how many operations a program may have. *)
Inductive trace_module := MODULE_STACK | MODULE_SYSCALL.

Definition MAX_OP_COUNT (m : trace_module) : nat :=
  match m with MODULE_STACK => 64 | MODULE_SYSCALL => 256 end.

(** The ranges of [common_list]. *)
Definition SYS_WHITELIST_START : Z := 1024.
Definition SYS_BLACKLIST_START : Z := SYS_WHITELIST_START + 1024.
Definition UID_WHITELIST_START : Z := SYS_BLACKLIST_START + 1024.
Definition UID_BLACKLIST_START : Z := UID_WHITELIST_START + 1024.
Definition PID_WHITELIST_START : Z := UID_BLACKLIST_START + 1024.
Definition PID_BLACKLIST_START : Z := PID_WHITELIST_START + 1024.
Definition TID_WHITELIST_START : Z := PID_BLACKLIST_START + 1024.
Definition TID_BLACKLIST_START : Z := TID_WHITELIST_START + 1024.

Definition THREAD_NAME_WHITELIST : Z := 1.
Definition THREAD_NAME_BLACKLIST : Z := 2.
Definition TRACE_COMMON : Z := 0.

Definition GROUP_ROOT : Z := 2.
Definition GROUP_SYSTEM : Z := 4.
Definition GROUP_SHELL : Z := 8.
Definition GROUP_APP : Z := 16.
Definition GROUP_ISO : Z := 32.

Definition EQUAL_FILTER : Z := 1.
Definition GREATER_FILTER : Z := 2.
Definition LESS_FILTER : Z := 3.
Definition WHITELIST_FILTER : Z := 4.
Definition BLACKLIST_FILTER : Z := 5.

Definition SYSCALL_ENTER : Z := 456.
Definition SYSCALL_EXIT : Z := 457.
Definition UPROBE_ENTER : Z := 458.

Definition REG_ARM64_MAX : Z := 33.

(** ** Operations *)

Inductive op_code_e :=
| OP_SKIP | OP_RESET_CTX | OP_SET_REG_INDEX | OP_SET_READ_LEN | OP_SET_READ_LEN_REG_VALUE
| OP_SET_READ_LEN_POINTER_VALUE | OP_SET_READ_COUNT | OP_ADD_OFFSET | OP_SUB_OFFSET | OP_MOVE_REG_VALUE
| OP_MOVE_POINTER_VALUE | OP_MOVE_TMP_VALUE | OP_SET_TMP_VALUE | OP_FOR_BREAK | OP_SET_BREAK_COUNT
| OP_SET_BREAK_COUNT_REG_VALUE | OP_SET_BREAK_COUNT_POINTER_VALUE | OP_SAVE_ADDR | OP_ADD_REG | OP_SUB_REG
| OP_READ_REG | OP_SAVE_REG | OP_READ_POINTER | OP_SAVE_POINTER | OP_SAVE_STRUCT | OP_FILTER_VALUE
| OP_FILTER_BUFFER | OP_FILTER_STRING | OP_SAVE_STRING | OP_SAVE_PTR_STRING | OP_READ_STD_STRING
| OP_READ_IL2CPP_STRING | OP_SAVE_STRING16 | OP_SAVE_PTR_STRING16.

#[export] Instance op_code_e_eq_dec : EqDecision op_code_e.
Proof. solve_decision. Defined.

Definition op_codes : list op_code_e :=
  [OP_SKIP; OP_RESET_CTX; OP_SET_REG_INDEX; OP_SET_READ_LEN; OP_SET_READ_LEN_REG_VALUE;
   OP_SET_READ_LEN_POINTER_VALUE; OP_SET_READ_COUNT; OP_ADD_OFFSET; OP_SUB_OFFSET; OP_MOVE_REG_VALUE;
   OP_MOVE_POINTER_VALUE; OP_MOVE_TMP_VALUE; OP_SET_TMP_VALUE; OP_FOR_BREAK; OP_SET_BREAK_COUNT;
   OP_SET_BREAK_COUNT_REG_VALUE; OP_SET_BREAK_COUNT_POINTER_VALUE; OP_SAVE_ADDR; OP_ADD_REG; OP_SUB_REG;
   OP_READ_REG; OP_SAVE_REG; OP_READ_POINTER; OP_SAVE_POINTER; OP_SAVE_STRUCT; OP_FILTER_VALUE;
   OP_FILTER_BUFFER; OP_FILTER_STRING; OP_SAVE_STRING; OP_SAVE_PTR_STRING; OP_READ_STD_STRING;
   OP_READ_IL2CPP_STRING; OP_SAVE_STRING16; OP_SAVE_PTR_STRING16].

(** The enumeration starts at 233; other numbers are no operation. *)
Definition op_code_of (value : Z) : option op_code_e :=
  if value <? 233 then None else op_codes !! Z.to_nat (value - 233).

Definition op_value (code : op_code_e) : Z := 233 + Z.of_nat (default 0%nat (fst <$> list_find (eq code) op_codes)).

Lemma op_code_of_value code : op_code_of (op_value code) = Some code.
Proof. by destruct code. Qed.

(** ** Structures *)

Record op_ctx := {
  ox_save_index : Z;
  ox_reg_index : Z;
  ox_loop_count : Z;
  ox_break_count : Z;
  ox_apply_filter : Z;
  ox_skip_flag : Z;
  ox_match_whitelist : Z;
  ox_match_blacklist : Z;
  ox_loop_index : Z;
  ox_op_key_index : Z;
  ox_op_code : Z;
  ox_post_code : Z;
  ox_str_len : Z;
  ox_read_len : Z;
  ox_read_addr : Z;
  ox_reg_value : Z;
  ox_pointer_value : Z;
  ox_tmp_value : Z;
  ox_reg_0 : Z;
}.

#[export] Instance op_ctx_shape : Shape op_ctx :=
  shape! Build_op_ctx < ox_save_index ; ox_reg_index ; ox_loop_count ; ox_break_count ; ox_apply_filter ;
    ox_skip_flag ; ox_match_whitelist ; ox_match_blacklist ; ox_loop_index ; ox_op_key_index ; ox_op_code ;
    ox_post_code ; ox_str_len ; ox_read_len ; ox_read_addr ; ox_reg_value ; ox_pointer_value ; ox_tmp_value ; ox_reg_0 >.

Record op_config := {
  oc_code : Z;
  oc_pre_code : Z;
  oc_post_code : Z;
  oc_value : Z;
}.

Record point_args := {
  pa_enter_key : Z;
  pa_signal : Z;
  pa_op_count : Z;
  pa_op_key_list : list Z;
}.

Record arg_filter := {
  af_filter_type : Z;
  af_str_val : list Z;
  af_str_len : Z;
  af_num_val : Z;
}.

Record common_filter := {
  cf_is_32bit : Z;
  cf_trace_mode : Z;
  cf_trace_uid_group : Z;
  cf_signal : Z;
  cf_tsignal : Z;
}.

Record config_entry := {
  ce_stackplz_pid : Z;
  ce_thread_whitelist : Z;
}.

(** The 31 registers, the stack pointer and the program counter. *)
Record ctx_regs := {
  cr_regs : list Z;
  cr_sp : Z;
  cr_pc : Z;
  cr_flag : Z;
}.

#[export] Instance ctx_regs_shape : Shape ctx_regs := shape! Build_ctx_regs < cr_regs ; cr_sp ; cr_pc ; cr_flag >.

Definition zero_ctx_regs : ctx_regs := {| cr_regs := replicate 31 0; cr_sp := 0; cr_pc := 0; cr_flag := 0 |}.

(** The words of the structure, as [regs[i]] reads them: the two indices behind the
    array are the stack pointer and the program counter. *)
Definition regs_words (r : ctx_regs) : list Z := cr_regs r ++ [cr_sp r; cr_pc r].

Record event_context := {
  ec_ts : Z;
  ec_eventid : Z;
  ec_host_tid : Z;
  ec_host_pid : Z;
  ec_tid : Z;
  ec_pid : Z;
  ec_uid : Z;
  ec_comm : list Z;
  ec_argnum : Z;
}.

#[export] Instance event_context_shape : Shape event_context :=
  shape! Build_event_context < ec_ts ; ec_eventid ; ec_host_tid ; ec_host_pid ; ec_tid ; ec_pid ; ec_uid ; ec_comm ; ec_argnum >.

Record event_data := {
  ed_context : event_context;
  ed_args : list Z;
  ed_buf_off : Z;
}.

#[export] Instance event_data_shape : Shape event_data := shape! Build_event_data < ed_context ; ed_args ; ed_buf_off >.

(** [sizeof(event_context_t)]: the members and seven bytes of padding. *)
Definition event_context_size : Z := 56.
Definition MAX_EVENT_SIZE : Z := event_context_size + ARGS_BUF_SIZE.

Definition context_bytes (c : event_context) : list Z :=
  le_bytes 8 (ec_ts c) ++ le_bytes 4 (ec_eventid c) ++ le_bytes 4 (ec_host_tid c) ++ le_bytes 4 (ec_host_pid c)
  ++ le_bytes 4 (ec_tid c) ++ le_bytes 4 (ec_pid c) ++ le_bytes 4 (ec_uid c) ++ ec_comm c ++ [ec_argnum c]
  ++ replicate 7 0.

(** ** Maps

    The maps all CPUs share. [str_buf_map] is the one that forgets old entries; a
    program only uses the entry it just made. *)
Record trace_maps := {
  tm_ctx_regs : gmap Z ctx_regs;
  tm_child_parent : gmap Z Z;
  tm_common_filter : option common_filter;
  tm_common_list : gmap Z Z;
  tm_thread_filter : gmap (list Z) Z;
  tm_arg_filter : gmap Z arg_filter;
  tm_str_buf : gmap (list Z) Z;
  tm_op_list : gmap Z op_config;
  tm_uprobe_point_args : gmap Z point_args;
  tm_sysenter_point_args : gmap Z point_args;
  tm_sysexit_point_args : gmap Z point_args;
  tm_base_config : config_entry;
}.

#[export] Instance trace_maps_shape : Shape trace_maps :=
  shape! Build_trace_maps < tm_ctx_regs ; tm_child_parent ; tm_common_filter ; tm_common_list ; tm_thread_filter ;
    tm_arg_filter ; tm_str_buf ; tm_op_list ; tm_uprobe_point_args ; tm_sysenter_point_args ; tm_sysexit_point_args ;
    tm_base_config >.

(** The maps with one copy per CPU. *)
Record cpu_maps := {
  cm_event : event_data;
  cm_op_ctx : op_ctx * op_ctx;
}.

#[export] Instance cpu_maps_shape : Shape cpu_maps := shape! Build_cpu_maps < cm_event ; cm_op_ctx >.

(** [bpf_map_update_elem] with BPF_ANY: a new key is refused in a full map. *)
Definition map_update {K A : Type} `{Countable K} (max_entries : nat) (k : K) (v : A) (m : gmap K A) : gmap K A :=
  match m !! k with
  | Some _ => <[k := v]> m
  | None => if (size m <? max_entries)%nat then <[k := v]> m else m
  end.

Definition ctx_regs_entries : nat := 1024.
Definition child_parent_entries : nat := 512.
Definition str_buf_entries : nat := 256.

Lemma map_update_lookup {K A} `{Countable K} n (k : K) (v : A) m :
  map_update n k v m !! k = Some v \/ (m !! k = None /\ map_update n k v m = m).
Proof.
  unfold map_update. destruct (m !! k) eqn:E; [left; apply lookup_insert_eq|].
  destruct (_ <? _)%nat; [left; apply lookup_insert_eq|by right].
Qed.

Lemma map_update_ne {K A} `{Countable K} n (k k' : K) (v : A) m :
  k' <> k -> map_update n k v m !! k' = m !! k'.
Proof.
  intros Hk. unfold map_update. destruct (m !! k); [by apply lookup_insert_ne|].
  destruct (_ <? _)%nat; [by apply lookup_insert_ne|done].
Qed.

(** ** Reading memory

    What the helpers answer: the result and what the destination holds afterwards.
    [bpf_probe_read], [bpf_probe_read_user] and [bpf_probe_read_str]. *)
Record memory := {
  me_read : Z -> nat -> Z * list Z;
  me_read_user : Z -> nat -> Z * list Z;
  me_read_str : Z -> nat -> Z * list Z;
}.

(** The contract of the helpers: they fill the destination and nothing else;
    a string read answers an error or the length
    including the NUL, which fits. *)
Class Memory (m : memory) := {
  mem_read_length : forall a n, length (me_read m a n).2 = n;
  mem_read_user_length : forall a n, length (me_read_user m a n).2 = n;
  mem_read_user_bytes : forall a n, is_bytes (me_read_user m a n).2;
  mem_read_str_length : forall a n, length (me_read_str m a n).2 = n;
  mem_read_str_result : forall a n, (0 < n)%nat -> (me_read_str m a n).1 <= Z.of_nat n;
}.

(** Where a program copies from: its own variable, or an address. *)
Definition source : Type := nat -> Z * list Z.

Definition own (bytes : list Z) : source := fun n => (0, take n bytes).

Definition user_u64 (m : memory) (address : Z) : Z := le_value (me_read_user m address 8).2.
