(* ===== verification/TraceBuffer.v ===== *)
(** * The event buffer of the tracing programs (src/common/buffer.h)

    Arguments are appended to a buffer of fixed size. An access outside the buffer
    is [None]; the first theorem is that there is none. The buffer is a sequence of
    records: a tag and a value of fixed size, or a tag, a length and as many bytes.
    Arrays of texts are in TraceArrays.v. *)

From stdpp Require Import gmap.
From S2P Require Import Prelude Trace.

(** [sizeof(struct sockaddr_un)]. *)
Definition MAX_ELEMENT_SIZE : Z := 110.

(** A store of bytes at an offset of the array. *)
Definition store (args : list Z) (offset : Z) (bytes : list Z) : option (list Z) :=
  if (0 <=? offset) && (Z.to_nat offset + length bytes <=? length args)%nat then Some (write_at args offset bytes)
  else None.

Definition store_in (ev : event_data) (offset : Z) (bytes : list Z) : option event_data :=
  args ← store (ed_args ev) offset bytes; Some (ev <| ed_args := args |>).

(** A record was completed: the offset moves by [length] and the count goes up. *)
Definition advance (ev : event_data) (length : Z) : event_data :=
  ev <| ed_buf_off ::= fun off => u32 (off + length) |>
     <| ed_context ::= fun c => c <| ec_argnum ::= fun n => u8 (n + 1) |> |>.

Definition save_to_submit_buf (ev : event_data) (ptr : source) (size index : Z) : option (Z * event_data) :=
  let off := ed_buf_off ev in
  if size =? 0 then Some (0, ev)
  else if ARGS_BUF_SIZE - 1 <? off then Some (0, ev)
  else
    ev ← store_in ev off [index];
    if ARGS_BUF_SIZE - (MAX_ELEMENT_SIZE + 1) <? off then Some (0, ev)
    else
      let '(result, bytes) := ptr (Z.to_nat size) in
      ev ← store_in ev (off + 1) bytes;
      if result =? 0 then Some (1, advance ev (size + 1)) else Some (0, ev).

Definition save_bytes_to_buf (ev : event_data) (ptr : source) (size index : Z) : option (Z * event_data) :=
  let off := ed_buf_off ev in
  if ARGS_BUF_SIZE - 1 <? off then Some (0, ev)
  else
    ev ← store_in ev off [index];
    if ARGS_BUF_SIZE - (4 + 1) <? off then Some (0, ev)
    else
      ev ← store_in ev (off + 1) (le_bytes 4 size);
      if ARGS_BUF_SIZE - (MAX_BYTES_ARR_SIZE + 1 + 4) <? off then Some (0, ev)
      else if 0 <? size then
        let size := if negb (size =? MAX_BYTES_ARR_SIZE) then Z.land size (MAX_BYTES_ARR_SIZE - 1) else size in
        let '(result, bytes) := ptr (Z.to_nat size) in
        ev ← store_in ev (off + 1 + 4) bytes;
        if result =? 0 then Some (1, advance ev (size + 1 + 4)) else Some (0, ev)
      else Some (1, advance ev (size + 1 + 4)).

Definition save_str_to_buf (ev : event_data) (ptr : source) (index : Z) : option (Z * event_data) :=
  let off := ed_buf_off ev in
  if ARGS_BUF_SIZE - 1 <? off then Some (0, ev)
  else
    ev ← store_in ev off [index];
    if ARGS_BUF_SIZE - (MAX_STRING_SIZE + 1 + 4) <? off then Some (0, ev)
    else
      let '(sz, bytes) := ptr (Z.to_nat MAX_STRING_SIZE) in
      ev ← store_in ev (off + 1 + 4) bytes;
      if 0 <=? sz then
        ev ← store_in ev (off + 1) (le_bytes 4 sz);
        Some (1, advance ev (sz + 4 + 1))
      else Some (0, ev).

Definition save_utf16_to_buf (ev : event_data) (ptr : source) (index : Z) : option (Z * event_data) :=
  save_bytes_to_buf ev ptr 512 index.

(** The bytes handed to user space. *)
Definition events_perf_submit (ev : event_data) (id : Z) : event_data * list Z :=
  let ev := ev <| ed_context ::= fun c => c <| ec_eventid := id |> |> in
  let size := u32 (event_context_size + ed_buf_off ev) in
  let size := if size <? MAX_EVENT_SIZE then size else MAX_EVENT_SIZE in
  (ev, take (Z.to_nat size) (context_bytes (ed_context ev) ++ ed_args ev)).

(** ** Specification: records *)

Inductive trace_record :=
| Fixed (index : Z) (value : list Z)
| Sized (index size : Z) (bytes : list Z).

Definition record_index (r : trace_record) : Z :=
  match r with Fixed index _ | Sized index _ _ => index end.

Definition encode_record (r : trace_record) : list Z :=
  match r with
  | Fixed index value => index :: value
  | Sized index size bytes => index :: le_bytes 4 size ++ bytes
  end.

Definition encode_records (rs : list trace_record) : list Z := concat (encode_record <$> rs).

(** The reader knows from the operations which kind of record comes next. A length
    of [STRARR_MAGIC_LEN] ends an array of strings and has no bytes. *)
Inductive record_kind := Fixed_of (size : nat) | Sized_kind.

Definition kind_of (r : trace_record) : record_kind :=
  match r with Fixed _ value => Fixed_of (length value) | Sized _ _ _ => Sized_kind end.

Definition payload_length (size : Z) : Z := if size =? STRARR_MAGIC_LEN then 0 else size.

Fixpoint decode_records (kinds : list record_kind) (bytes : list Z) : option (list trace_record) :=
  match kinds, bytes with
  | [], _ => Some []
  | Fixed_of n :: kinds, index :: bytes =>
      if (length bytes <? n)%nat then None
      else rs ← decode_records kinds (drop n bytes); Some (Fixed index (take n bytes) :: rs)
  | Sized_kind :: kinds, index :: bytes =>
      let size := le_value (take 4 bytes) in
      let n := Z.to_nat (payload_length size) in
      if (length bytes <? 4 + n)%nat then None
      else rs ← decode_records kinds (drop (4 + n) bytes); Some (Sized index size (take n (drop 4 bytes)) :: rs)
  | _, _ => None
  end.

(** The buffer holds exactly these records. *)
Record holds (ev : event_data) (rs : list trace_record) : Prop := {
  ho_length : length (ed_args ev) = Z.to_nat ARGS_BUF_SIZE;
  ho_off : 0 <= ed_buf_off ev <= ARGS_BUF_SIZE;
  ho_bytes : take (Z.to_nat (ed_buf_off ev)) (ed_args ev) = encode_records rs;
  ho_count : ec_argnum (ed_context ev) = u8 (Z.of_nat (length rs));
}.

(** ** Lemmas *)

Lemma take_write_at (l : list Z) (o : nat) (v : list Z) k :
  (o <= length l)%nat ->
  take (o + length v + k) (write_at l (Z.of_nat o) v) = take o l ++ v ++ take k (drop (o + length v) l).
Proof.
  intros Ho. unfold write_at. rewrite Nat2Z.id.
  rewrite take_app_ge by (rewrite length_take; lia). rewrite length_take, Nat.min_l by lia.
  replace (o + length v + k - o)%nat with (length v + k)%nat by lia.
  rewrite take_app_ge by lia. by replace (length v + k - length v)%nat with k by lia.
Qed.

Lemma take_write_at_end (l : list Z) (o : nat) (v : list Z) :
  (o <= length l)%nat -> take (o + length v) (write_at l (Z.of_nat o) v) = take o l ++ v.
Proof. intros Ho. pose proof (take_write_at l o v 0 Ho) as H. by rewrite Nat.add_0_r, take_0, app_nil_r in H. Qed.

Lemma take_write_at_before (l : list Z) (o n : nat) (v : list Z) :
  (n <= o <= length l)%nat -> take n (write_at l (Z.of_nat o) v) = take n l.
Proof.
  intros Ho. unfold write_at. rewrite Nat2Z.id, take_app_le by (rewrite length_take; lia).
  rewrite take_take. f_equal. lia.
Qed.

Lemma drop_write_at (l : list Z) (o : nat) (v : list Z) :
  (o <= length l)%nat -> drop o (write_at l (Z.of_nat o) v) = v ++ drop (o + length v) l.
Proof.
  intros Ho. unfold write_at. rewrite Nat2Z.id, drop_app_ge by (rewrite length_take; lia).
  by rewrite length_take, Nat.min_l, Nat.sub_diag by lia.
Qed.

(** A store that lies inside the array. *)
Lemma store_in_ok ev offset bytes :
  0 <= offset -> (Z.to_nat offset + length bytes <= length (ed_args ev))%nat ->
  store_in ev offset bytes = Some (ev <| ed_args := write_at (ed_args ev) offset bytes |>).
Proof.
  intros Ho Hl. unfold store_in, store. rewrite (proj2 (Z.leb_le 0 offset)), (proj2 (Nat.leb_le _ _)) by lia. done.
Qed.

Lemma holds_store ev rs offset bytes :
  holds ev rs -> ed_buf_off ev <= offset -> offset + Z.of_nat (length bytes) <= ARGS_BUF_SIZE ->
  store_in ev offset bytes = Some (ev <| ed_args := write_at (ed_args ev) offset bytes |>) /\
  holds (ev <| ed_args := write_at (ed_args ev) offset bytes |>) rs.
Proof.
  intros [Hl Ho Hb Hc] Hge Hle. split; [apply store_in_ok; [|rewrite Hl]; lia|]. split; try done.
  - cbn. rewrite length_write_at; [done|rewrite Hl; lia].
  - change (take (Z.to_nat (ed_buf_off ev)) (write_at (ed_args ev) offset bytes) = encode_records rs).
    rewrite <- (Z2Nat.id offset) by lia. rewrite take_write_at_before; [done|rewrite Hl; lia].
Qed.

Lemma encode_records_snoc rs r : encode_records (rs ++ [r]) = encode_records rs ++ encode_record r.
Proof. unfold encode_records. rewrite fmap_app, concat_app. simpl. by rewrite app_nil_r. Qed.

(** The bytes behind the offset became a record. *)
Lemma holds_advance ev ev' rs r n :
  holds ev rs -> ed_context ev' = ed_context ev -> ed_buf_off ev' = ed_buf_off ev ->
  length (ed_args ev') = length (ed_args ev) -> n = Z.of_nat (length (encode_record r)) ->
  ed_buf_off ev + n <= ARGS_BUF_SIZE ->
  take (Z.to_nat (ed_buf_off ev + n)) (ed_args ev') = take (Z.to_nat (ed_buf_off ev)) (ed_args ev) ++ encode_record r ->
  holds (advance ev' n) (rs ++ [r]).
Proof.
  intros [Hl Ho Hb Hc] Hctx Hoff Hlen -> Hle Htake. unfold ARGS_BUF_SIZE in *.
  assert (u32 (ed_buf_off ev' + Z.of_nat (length (encode_record r))) = ed_buf_off ev + Z.of_nat (length (encode_record r)))
    as Hu by zlia.
  split.
  - cbn. by rewrite Hlen.
  - cbn. rewrite Hu. unfold ARGS_BUF_SIZE. lia.
  - cbn. by rewrite Hu, Htake, encode_records_snoc, Hb.
  - cbn. rewrite Hctx, Hc, length_app. cbn. zlia.
Qed.

(** What a save does: it appends the record, or leaves the records as they were. *)
Definition saved (rs : list trace_record) (r : trace_record) (out : option (Z * event_data)) : Prop :=
  exists result ev', out = Some (result, ev') /\
    ((result = 1 /\ holds ev' (rs ++ [r])) \/ (result = 0 /\ holds ev' rs)).

Lemma saved_not rs r ev' : holds ev' rs -> saved rs r (Some (0, ev')).
Proof. intros H. exists 0, ev'. split; [done|]. by right. Qed.

Lemma saved_done rs r ev' : holds ev' (rs ++ [r]) -> saved rs r (Some (1, ev')).
Proof. intros H. exists 1, ev'. split; [done|]. by left. Qed.

#[export] Hint Resolve saved_not saved_done : spz.

Lemma save_to_submit_saved ev rs ptr size index :
  holds ev rs -> 0 < size <= MAX_ELEMENT_SIZE -> length (ptr (Z.to_nat size)).2 = Z.to_nat size ->
  saved rs (Fixed index (ptr (Z.to_nat size)).2) (save_to_submit_buf ev ptr size index).
Proof.
  intros Hh Hs Hp. pose proof Hh as [Hl Ho _ _]. unfold save_to_submit_buf. cbv zeta.
  rewrite (eqb_ne size 0) by lia. unfold ARGS_BUF_SIZE, MAX_ELEMENT_SIZE in *.
  destruct (Z.ltb_spec (32000 - 1) (ed_buf_off ev)); [auto with spz|].
  destruct (holds_store ev rs (ed_buf_off ev) [index] Hh) as [-> Hh1]; [lia|cbn; unfold ARGS_BUF_SIZE; lia|].
  cbn [mbind option_bind]. set (ev1 := ev <| ed_args := _ |>) in *.
  destruct (Z.ltb_spec (32000 - (110 + 1)) (ed_buf_off ev)); [auto with spz|].
  destruct (ptr (Z.to_nat size)) as [result bytes]. cbn in Hp.
  destruct (holds_store ev1 rs (ed_buf_off ev + 1) bytes Hh1) as [-> Hh2]; [cbn; lia|unfold ARGS_BUF_SIZE; lia|].
  cbn [mbind option_bind]. set (ev2 := ev1 <| ed_args := _ |>) in *.
  destruct (result =? 0); [|auto with spz]. apply saved_done.
  apply (holds_advance ev); try done.
  - cbn. rewrite !length_write_at; rewrite ?length_write_at; cbn; rewrite ?Hl; lia.
  - cbn. lia.
  - unfold ARGS_BUF_SIZE. lia.
  - change (ed_args ev2) with (write_at (write_at (ed_args ev) (ed_buf_off ev) [index]) (ed_buf_off ev + 1) bytes).
    set (o := Z.to_nat (ed_buf_off ev)). replace (ed_buf_off ev) with (Z.of_nat o) in * by lia.
    replace (Z.to_nat (Z.of_nat o + (size + 1))) with (o + 1 + length bytes)%nat by lia.
    replace (Z.of_nat o + 1) with (Z.of_nat (o + 1)) by lia. cbn [snd].
    rewrite take_write_at_end by (rewrite length_write_at; rewrite ?Hl; cbn; lia).
    pose proof (take_write_at_end (ed_args ev) o [index] ltac:(lia)) as H1. cbn [length] in H1. rewrite H1, <- app_assoc. done.
Qed.

(** The tag and the length are in place behind the offset. *)
Lemma header_written ev rs index size :
  holds ev rs -> ed_buf_off ev + 5 <= ARGS_BUF_SIZE ->
  exists ev1 ev2, store_in ev (ed_buf_off ev) [index] = Some ev1 /\ holds ev1 rs /\
    store_in ev1 (ed_buf_off ev + 1) (le_bytes 4 size) = Some ev2 /\ holds ev2 rs /\
    ed_context ev2 = ed_context ev /\ ed_buf_off ev2 = ed_buf_off ev /\
    take (Z.to_nat (ed_buf_off ev + 5)) (ed_args ev2) =
      take (Z.to_nat (ed_buf_off ev)) (ed_args ev) ++ index :: le_bytes 4 size.
Proof.
  intros Hh Hoff. pose proof Hh as [Hl Ho _ _].
  destruct (holds_store ev rs (ed_buf_off ev) [index] Hh) as [H1 Hh1]; [lia|cbn; lia|].
  destruct (holds_store _ rs (ed_buf_off ev + 1) (le_bytes 4 size) Hh1) as [H2 Hh2];
    [cbn; lia|rewrite length_le_bytes; lia|].
  eexists _, _. split_and!; [exact H1|exact Hh1|exact H2|exact Hh2|done|done|].
  cbn [ed_args field_update].
  change (take (Z.to_nat (ed_buf_off ev + 5))
    (write_at (write_at (ed_args ev) (ed_buf_off ev) [index]) (ed_buf_off ev + 1) (le_bytes 4 size)) =
    take (Z.to_nat (ed_buf_off ev)) (ed_args ev) ++ index :: le_bytes 4 size).
  unfold ARGS_BUF_SIZE in *.
  set (o := Z.to_nat (ed_buf_off ev)). replace (ed_buf_off ev) with (Z.of_nat o) in * by lia.
  replace (Z.to_nat (Z.of_nat o + 5)) with (o + 1 + length (le_bytes 4 size))%nat by (rewrite length_le_bytes; lia).
  replace (Z.of_nat o + 1) with (Z.of_nat (o + 1)) by lia.
  rewrite take_write_at_end by (rewrite length_write_at; rewrite ?Hl; cbn; lia).
  pose proof (take_write_at_end (ed_args ev) o [index] ltac:(lia)) as H3. cbn [length] in H3.
  by rewrite H3, <- app_assoc.
Qed.

(** The bytes [save_bytes_to_buf] reads for a given length. *)
Definition read_length (size : Z) : Z :=
  if negb (size =? MAX_BYTES_ARR_SIZE) then Z.land size (MAX_BYTES_ARR_SIZE - 1) else size.

Lemma read_length_bounds size : 0 <= size -> 0 <= read_length size <= MAX_BYTES_ARR_SIZE.
Proof.
  intros Hs. unfold read_length, MAX_BYTES_ARR_SIZE. destruct (size =? 4096) eqn:E; cbn [negb]; [lia|].
  change (4096 - 1) with (Z.ones 12). rewrite Z.land_ones by lia. zlia.
Qed.

Lemma read_length_small size : 0 <= size <= MAX_BYTES_ARR_SIZE -> read_length size = size.
Proof.
  unfold read_length, MAX_BYTES_ARR_SIZE. intros Hs. destruct (size =? 4096) eqn:E; cbn [negb]; [done|].
  change (4096 - 1) with (Z.ones 12). rewrite Z.land_ones by lia. apply Z.mod_small. lia.
Qed.

(** The bytes of the record: none are read for the length 0. *)
Definition bytes_record (ptr : source) (size index : Z) : trace_record :=
  Sized index size (if 0 <? size then (ptr (Z.to_nat (read_length size))).2 else []).

Lemma save_bytes_saved ev rs ptr size index :
  holds ev rs -> 0 <= size -> (forall n, length (ptr n).2 = n) ->
  saved rs (bytes_record ptr size index) (save_bytes_to_buf ev ptr size index).
Proof.
  intros Hh Hs Hp. pose proof Hh as [Hl Ho _ _]. unfold save_bytes_to_buf. cbv zeta.
  unfold ARGS_BUF_SIZE, MAX_BYTES_ARR_SIZE in *.
  destruct (Z.ltb_spec (32000 - 1) (ed_buf_off ev)); [auto with spz|].
  destruct (Z.ltb_spec (32000 - (4 + 1)) (ed_buf_off ev)).
  { destruct (holds_store ev rs (ed_buf_off ev) [index] Hh) as [-> Hh1]; [lia|cbn; unfold ARGS_BUF_SIZE; lia|].
    cbn [mbind option_bind]. auto with spz. }
  destruct (header_written ev rs index size Hh) as (ev1 & ev2 & H1 & Hh1 & H2 & Hh2 & Hc & Hb & Ht);
    [unfold ARGS_BUF_SIZE; lia|].
  rewrite H1. cbn [mbind option_bind]. rewrite H2. cbn [mbind option_bind].
  destruct (Z.ltb_spec (32000 - (4096 + 1 + 4)) (ed_buf_off ev)); [auto with spz|].
  unfold bytes_record. destruct (Z.ltb_spec 0 size).
  - change (if negb (size =? 4096) then Z.land size (4096 - 1) else size) with (read_length size).
    pose proof (read_length_bounds size Hs) as Hr. unfold MAX_BYTES_ARR_SIZE in Hr. set (n := read_length size) in *.
    specialize (Hp (Z.to_nat n)). destruct (ptr (Z.to_nat n)) as [result bytes]. cbn [snd] in *.
    destruct (holds_store ev2 rs (ed_buf_off ev + 1 + 4) bytes Hh2) as [-> Hh3]; [lia|unfold ARGS_BUF_SIZE; lia|].
    cbn [mbind option_bind]. set (ev3 := ev2 <| ed_args := _ |>) in *.
    destruct (result =? 0); [|auto with spz]. apply saved_done. pose proof (ho_length _ _ Hh2) as Hl2. unfold ARGS_BUF_SIZE in Hl2.
    apply (holds_advance ev); try done.
    + cbn. rewrite length_write_at; [congruence|rewrite Hl2; lia].
    + cbn. rewrite length_app, length_le_bytes. lia.
    + unfold ARGS_BUF_SIZE. lia.
    + change (ed_args ev3) with (write_at (ed_args ev2) (ed_buf_off ev + 1 + 4) bytes). revert Ht.
      set (o := Z.to_nat (ed_buf_off ev)). replace (ed_buf_off ev) with (Z.of_nat o) in * by lia. intros Ht.
      replace (Z.to_nat (Z.of_nat o + (n + 1 + 4))) with (o + 5 + length bytes)%nat by lia.
      replace (Z.of_nat o + 1 + 4) with (Z.of_nat (o + 5)) by lia.
      rewrite take_write_at_end by (rewrite Hl2; lia).
      replace (Z.to_nat (Z.of_nat o + 5)) with (o + 5)%nat in Ht by lia. rewrite Ht, <- app_assoc. done.
  - assert (size = 0) as -> by lia. apply saved_done.
    apply (holds_advance ev); [done|done|done|by rewrite (ho_length _ _ Hh2), Hl|done|unfold ARGS_BUF_SIZE; lia|].
    change (0 + 1 + 4) with 5. rewrite Ht. cbn [encode_record]. by rewrite app_nil_r.
Qed.

Lemma save_str_saved ev rs ptr index :
  holds ev rs -> (forall n, length (ptr n).2 = n) -> (ptr (Z.to_nat MAX_STRING_SIZE)).1 <= MAX_STRING_SIZE ->
  let '(sz, bytes) := ptr (Z.to_nat MAX_STRING_SIZE) in
  saved rs (Sized index sz (take (Z.to_nat sz) bytes)) (save_str_to_buf ev ptr index).
Proof.
  intros Hh Hp Hsz. pose proof Hh as [Hl Ho _ _]. unfold save_str_to_buf. cbv zeta.
  specialize (Hp (Z.to_nat MAX_STRING_SIZE)). destruct (ptr (Z.to_nat MAX_STRING_SIZE)) as [sz bytes]. cbn [fst snd] in *.
  unfold ARGS_BUF_SIZE, MAX_STRING_SIZE in *.
  destruct (Z.ltb_spec (32000 - 1) (ed_buf_off ev)); [auto with spz|].
  destruct (holds_store ev rs (ed_buf_off ev) [index] Hh) as [-> Hh1]; [lia|cbn; unfold ARGS_BUF_SIZE; lia|].
  cbn [mbind option_bind]. set (ev1 := ev <| ed_args := _ |>) in *.
  destruct (Z.ltb_spec (32000 - (16384 + 1 + 4)) (ed_buf_off ev)); [auto with spz|].
  destruct (holds_store ev1 rs (ed_buf_off ev + 1 + 4) bytes Hh1) as [-> Hh2]; [cbn; lia|unfold ARGS_BUF_SIZE; lia|].
  cbn [mbind option_bind]. set (ev2 := ev1 <| ed_args := _ |>) in *.
  destruct (Z.leb_spec 0 sz); [|auto with spz].
  destruct (holds_store ev2 rs (ed_buf_off ev + 1) (le_bytes 4 sz) Hh2) as [-> Hh3];
    [cbn; lia|rewrite length_le_bytes; unfold ARGS_BUF_SIZE; lia|].
  cbn [mbind option_bind]. set (ev3 := ev2 <| ed_args := _ |>) in *. apply saved_done.
  pose proof (ho_length _ _ Hh1) as Hl1. pose proof (ho_length _ _ Hh2) as Hl2. unfold ARGS_BUF_SIZE in Hl1, Hl2.
  apply (holds_advance ev); try done.
  - rewrite (ho_length _ _ Hh3). by rewrite Hl.
  - cbn. rewrite length_app, length_le_bytes, length_take. lia.
  - unfold ARGS_BUF_SIZE. lia.
  - change (ed_args ev3) with (write_at (ed_args ev2) (ed_buf_off ev + 1) (le_bytes 4 sz)).
    set (o := Z.to_nat (ed_buf_off ev)).
    replace (Z.to_nat (ed_buf_off ev + (sz + 4 + 1))) with (o + 1 + length (le_bytes 4 sz) + Z.to_nat sz)%nat
      by (rewrite length_le_bytes; lia).
    replace (ed_buf_off ev + 1) with (Z.of_nat (o + 1)) by lia.
    rewrite take_write_at by (rewrite Hl2; lia). rewrite length_le_bytes.
    change (ed_args ev2) with (write_at (ed_args ev1) (ed_buf_off ev + 1 + 4) bytes).
    replace (ed_buf_off ev + 1 + 4) with (Z.of_nat (o + 1 + 4)) by lia.
    rewrite take_write_at_before, drop_write_at by (rewrite Hl1; lia).
    change (ed_args ev1) with (write_at (ed_args ev) (ed_buf_off ev) [index]).
    replace (ed_buf_off ev) with (Z.of_nat o) by lia.
    pose proof (take_write_at_end (ed_args ev) o [index] ltac:(rewrite Hl; lia)) as H4. cbn [length] in H4. rewrite H4.
    rewrite take_app_le by lia. cbn [encode_record]. by rewrite <- app_assoc.
Qed.

(** ** Reading the records back *)

(** The length a record announces is the one of its bytes. *)
Definition well_sized (r : trace_record) : Prop :=
  match r with
  | Fixed _ _ => True
  | Sized _ size bytes => is_u32 size /\ Z.of_nat (length bytes) = payload_length size
  end.

Lemma decode_encode_records rs rest :
  Forall well_sized rs -> decode_records (kind_of <$> rs) (encode_records rs ++ rest) = Some rs.
Proof.
  unfold encode_records. induction 1 as [|r rs Hr _ IH]; [done|]. cbn [fmap list_fmap concat].
  rewrite <- app_assoc. destruct r as [index value|index size bytes].
  - cbn [kind_of encode_record decode_records app].
    rewrite (proj2 (Nat.ltb_ge _ _)) by (rewrite length_app; lia).
    rewrite drop_app_length, IH. cbn. by rewrite take_app_length.
  - destruct Hr as [Hu Hlen]. cbn [kind_of encode_record decode_records app]. cbv zeta. rewrite <- app_assoc.
    assert (take 4 (le_bytes 4 size ++ bytes ++ concat (encode_record <$> rs) ++ rest) = le_bytes 4 size) as ->
      by apply (take_app_length (le_bytes 4 size)).
    rewrite le_value_le_bytes. change (2 ^ (8 * Z.of_nat 4)) with 4294967296. rewrite Z.mod_small by lia.
    rewrite <- Hlen, Nat2Z.id.
    rewrite (proj2 (Nat.ltb_ge _ _)) by (rewrite !length_app, length_le_bytes; lia).
    rewrite <- drop_drop.
    assert (drop 4 (le_bytes 4 size ++ bytes ++ concat (encode_record <$> rs) ++ rest) =
            bytes ++ concat (encode_record <$> rs) ++ rest) as -> by apply (drop_app_length (le_bytes 4 size)).
    rewrite drop_app_length, IH. cbn. by rewrite take_app_length.
Qed.

Lemma bytes_record_sized ptr size index :
  0 <= size <= MAX_BYTES_ARR_SIZE \/ size = STRARR_MAGIC_LEN -> (forall n, length (ptr n).2 = n) ->
  well_sized (bytes_record ptr size index).
Proof.
  intros Hs Hp. cbn. unfold payload_length, STRARR_MAGIC_LEN, MAX_BYTES_ARR_SIZE in *. split; [lia|].
  destruct Hs as [Hs| ->].
  - rewrite (eqb_ne size) by lia. destruct (Z.ltb_spec 0 size); [|cbn; lia].
    rewrite Hp, read_length_small; [lia|]. unfold MAX_BYTES_ARR_SIZE. lia.
  - cbn [Z.ltb Z.compare]. by rewrite Hp.
Qed.
