(* ===== verification/TraceArrays.v ===== *)
(** * Arrays of texts in the event buffer ([save_str_arr_to_buf] of src/common/buffer.h)

    A tag, the number of texts, and each text behind its length. The function of the
    header that no program calls so far. *)

From stdpp Require Import gmap.
From S2P Require Import Prelude Trace TraceBuffer.

Definition MAX_STR_ARR_ELEM : nat := 128.

Section arrays.
(** [argp i] is the pointer read from [ptr[i]], 0 when it cannot be read; [text a] reads
    a text of the user at [a], and [ellipsis] reads the constant at the end in the same way. *)
Context (argp : nat -> Z) (text : Z -> source) (ellipsis : source).

(** One text; whether it was saved. *)
Definition save_element (ev : event_data) (ptr : source) : option (bool * event_data) :=
  let off := ed_buf_off ev in
  if ARGS_BUF_SIZE - MAX_STRING_SIZE - 4 <? off then Some (false, ev)
  else
    let '(sz, bytes) := ptr (Z.to_nat MAX_STRING_SIZE) in
    ev ← store_in ev (off + 4) bytes;
    if 0 <? sz then
      if ARGS_BUF_SIZE - 4 <? off then Some (false, ev)
      else
        ev ← store_in ev off (le_bytes 4 sz);
        Some (true, ev <| ed_buf_off := u32 (off + (sz + 4)) |>)
    else Some (false, ev).

(** The loop over [n] more pointers from [i] on; whether it came to its end. *)
Fixpoint save_elements (n i : nat) (elem_num : Z) (ev : event_data) : option (bool * Z * event_data) :=
  match n with
  | O => Some (true, elem_num, ev)
  | S n =>
      if argp i =? 0 then Some (false, elem_num, ev)
      else
        '(saved, ev) ← save_element ev (text (argp i));
        if saved : bool then save_elements n (S i) (u8 (elem_num + 1)) ev else Some (false, elem_num, ev)
  end.

(** Behind the last pointer that is looked at. *)
Definition save_ellipsis (ended : bool) (elem_num : Z) (ev : event_data) : option (Z * event_data) :=
  if ended then
    '(saved, ev) ← save_element ev ellipsis;
    Some (if saved : bool then u8 (elem_num + 1) else elem_num, ev)
  else Some (elem_num, ev).

Definition save_str_arr_to_buf (ev : event_data) (index : Z) : option (Z * event_data) :=
  let off := ed_buf_off ev in
  if ARGS_BUF_SIZE - 1 <? off then Some (0, ev)
  else
    ev ← store_in ev off [index];
    let orig_off := u32 (off + 1) in
    let ev := ev <| ed_buf_off := u32 (off + 2) |> in
    '(ended, elem_num, ev) ← save_elements MAX_STR_ARR_ELEM 0 0 ev;
    '(elem_num, ev) ← save_ellipsis ended elem_num ev;
    if ARGS_BUF_SIZE - 1 <? orig_off then Some (0, ev)
    else
      ev ← store_in ev orig_off [elem_num];
      Some (1, ev <| ed_context ::= fun c => c <| ec_argnum ::= fun n => u8 (n + 1) |> |>).

(** ** What it saves *)

Definition text_of (ptr : source) : list Z :=
  let '(sz, bytes) := ptr (Z.to_nat MAX_STRING_SIZE) in take (Z.to_nat sz) bytes.

Definition element (t : list Z) : list Z := le_bytes 4 (Z.of_nat (length t)) ++ t.
Definition elements (ts : list (list Z)) : list Z := concat (element <$> ts).
Definition array_record (index : Z) (ts : list (list Z)) : list Z :=
  index :: Z.of_nat (length ts) :: elements ts.

(** The contract of the helper that reads texts. *)
Definition reads_text (ptr : source) : Prop :=
  forall n, length (ptr n).2 = n /\ (ptr n).1 <= Z.of_nat n.

(** The reader of an array: the tag, the number, and as many texts. *)
Fixpoint decode_elements (n : nat) (bytes : list Z) : option (list (list Z)) :=
  match n with
  | O => Some []
  | S n =>
      let size := Z.to_nat (le_value (take 4 bytes)) in
      if (length bytes <? 4 + size)%nat then None
      else ts ← decode_elements n (drop (4 + size) bytes); Some (take size (drop 4 bytes) :: ts)
  end.
Definition decode_array (bytes : list Z) : option (Z * list (list Z)) :=
  match bytes with
  | index :: n :: bytes => ts ← decode_elements (Z.to_nat n) bytes; Some (index, ts)
  | _ => None
  end.

(** The buffer up to the offset. *)
Record fills (ev : event_data) (P : list Z) : Prop := {
  fi_length : length (ed_args ev) = Z.to_nat ARGS_BUF_SIZE;
  fi_off : ed_buf_off ev = Z.of_nat (length P);
  fi_bytes : take (length P) (ed_args ev) = P;
}.

Lemma fills_room ev P : fills ev P -> ed_buf_off ev <= ARGS_BUF_SIZE.
Proof.
  intros [Hl Ho Hb]. apply (f_equal length) in Hb. rewrite length_take, Hl in Hb. unfold ARGS_BUF_SIZE in *. lia.
Qed.

(** A text is saved, or the buffer is as full as before. *)
Lemma save_element_fills ev P ptr :
  fills ev P -> reads_text ptr ->
  exists saved ev', save_element ev ptr = Some (saved, ev') /\ ed_context ev' = ed_context ev /\
    if saved : bool then fills ev' (P ++ element (text_of ptr)) /\ text_of ptr <> []
    else fills ev' P /\ (ARGS_BUF_SIZE - MAX_STRING_SIZE - 4 < ed_buf_off ev \/ (ptr (Z.to_nat MAX_STRING_SIZE)).1 <= 0).
Proof.
  intros Hf Hp. pose proof Hf as [Hl Ho Hb]. destruct (Hp (Z.to_nat MAX_STRING_SIZE)) as [Hlen Hsz].
  unfold save_element, text_of, ARGS_BUF_SIZE, MAX_STRING_SIZE in *. cbv zeta.
  destruct (Z.ltb_spec (32000 - 16384 - 4) (ed_buf_off ev)); [exists false, ev; auto|].
  destruct (ptr (Z.to_nat 16384)) as [sz bytes]. cbn [fst snd] in *.
  rewrite store_in_ok by lia. cbn [mbind option_bind]. set (ev1 := ev <| ed_args := _ |>).
  assert (length (ed_args ev1) = Z.to_nat 32000) as Hl1 by (cbn; rewrite length_write_at; [done|lia]).
  assert (take (length P) (ed_args ev1) = P) as Hb1.
  { cbn. rewrite <- (Z2Nat.id (ed_buf_off ev + 4)) by lia. rewrite take_write_at_before by lia. done. }
  destruct (Z.ltb_spec 0 sz).
  2: { exists false, ev1. split; [done|]. split; [done|]. split; [by split|auto]. }
  rewrite (proj2 (Z.ltb_ge _ _)) by lia. rewrite store_in_ok by (rewrite ?length_le_bytes; lia). cbn [mbind option_bind].
  eexists true, _. split; [done|]. split; [done|].
  assert (length (take (Z.to_nat sz) bytes) = Z.to_nat sz) as Htl by (rewrite length_take; lia).
  split; [|intros E; apply (f_equal length) in E; rewrite Htl in E; cbn in E; lia].
  unfold element. rewrite Htl, Z2Nat.id by lia.
  assert (length (P ++ le_bytes 4 sz ++ take (Z.to_nat sz) bytes) = length P + length (le_bytes 4 sz) + Z.to_nat sz)%nat as Hlen2
    by (rewrite !length_app, length_le_bytes; lia).
  split.
  - change (length (write_at (ed_args ev1) (ed_buf_off ev) (le_bytes 4 sz)) = Z.to_nat 32000).
    rewrite length_write_at by (rewrite length_le_bytes; lia). exact Hl1.
  - cbn. rewrite Hlen2, length_le_bytes. zlia.
  - rewrite Hlen2. cbn [ed_args field_update].
    change (take (length P + length (le_bytes 4 sz) + Z.to_nat sz) (write_at (ed_args ev1) (ed_buf_off ev) (le_bytes 4 sz)) =
      P ++ le_bytes 4 sz ++ take (Z.to_nat sz) bytes).
    rewrite Ho, take_write_at, Hb1, length_le_bytes by lia. change (ed_args ev1) with (write_at (ed_args ev) (ed_buf_off ev + 4) bytes).
    replace (ed_buf_off ev + 4) with (Z.of_nat (length P + 4)) by lia.
    rewrite drop_write_at by lia. f_equal. f_equal. by rewrite take_app_le by lia.
Qed.

(** The texts of the first [k] pointers. *)
Definition texts (k i : nat) : list (list Z) := (fun j => text_of (text (argp j))) <$> seq i k.

(** Why the loop stopped before the pointer [i]. *)
Definition stops (i : nat) (off : Z) : Prop :=
  argp i = 0 \/ ARGS_BUF_SIZE - MAX_STRING_SIZE - 4 < off \/ (text (argp i) (Z.to_nat MAX_STRING_SIZE)).1 <= 0.

Lemma elements_app ts us : elements (ts ++ us) = elements ts ++ elements us.
Proof. unfold elements. by rewrite fmap_app, concat_app. Qed.

Lemma save_elements_fills n i num ev P :
  (forall a, reads_text (text a)) -> fills ev P -> 0 <= num -> num + Z.of_nat n < 256 ->
  exists ended k ev', save_elements n i num ev = Some (ended, num + Z.of_nat k, ev') /\ ed_context ev' = ed_context ev /\
    fills ev' (P ++ elements (texts k i)) /\ (k <= n)%nat /\
    if ended : bool then k = n else stops (i + k) (ed_buf_off ev').
Proof.
  intros Ht. revert i num ev P. induction n as [|n IH]; intros i num ev P Hf Hnum Hlt; cbn [save_elements].
  { exists true, 0%nat, ev. rewrite app_nil_r. split_and!; auto. do 3 f_equal. lia. }
  destruct (Z.eqb_spec (argp i) 0) as [E|E].
  { exists false, 0%nat, ev. rewrite app_nil_r, Nat.add_0_r. split_and!; auto with lia; [do 3 f_equal; lia|by left]. }
  destruct (save_element_fills ev P (text (argp i)) Hf (Ht _)) as (saved & ev1 & -> & Hc & Hs). cbn [mbind option_bind].
  destruct saved.
  - destruct Hs as [Hf1 _]. replace (u8 (num + 1)) with (num + 1) by zlia.
    destruct (IH (S i) (num + 1) ev1 _ Hf1) as (ended & k & ev2 & -> & Hc2 & Hf2 & Hk & Hend); [lia|lia|].
    exists ended, (S k), ev2. split_and!; [do 3 f_equal; lia|congruence| |lia|].
    + by rewrite <- app_assoc in Hf2.
    + destruct ended; [lia|]. by replace (i + S k)%nat with (S i + k)%nat by lia.
  - destruct Hs as [Hf1 Hw]. exists false, 0%nat, ev1. rewrite app_nil_r, Nat.add_0_r. split_and!; auto with lia.
    + do 3 f_equal. lia.
    + right. destruct Hw as [Hw|Hw]; [left|by right]. destruct Hf, Hf1. lia.
Qed.

(** The tag is in place, and room for the number behind it. *)
Lemma array_begun ev rs index :
  holds ev rs -> ed_buf_off ev < ARGS_BUF_SIZE - 1 ->
  exists ev1 x, store_in ev (ed_buf_off ev) [index] = Some ev1 /\ ed_context ev1 = ed_context ev /\
    fills (ev1 <| ed_buf_off := u32 (ed_buf_off ev + 2) |>) (encode_records rs ++ [index; x]).
Proof.
  intros Hh Hoff. pose proof Hh as [Hl Ho Hb _]. unfold ARGS_BUF_SIZE in *.
  destruct (holds_store ev rs (ed_buf_off ev) [index] Hh) as [H1 Hh1]; [lia|cbn; unfold ARGS_BUF_SIZE; lia|].
  set (ev1 := ev <| ed_args := _ |>) in *. pose proof (ho_length _ _ Hh1) as Hl1. unfold ARGS_BUF_SIZE in Hl1.
  set (o := Z.to_nat (ed_buf_off ev)) in *.
  assert (length (encode_records rs) = o) as Hlen by (rewrite <- Hb, length_take, Hl; lia).
  destruct (lookup_lt_is_Some_2 (ed_args ev) (o + 1)) as [x Hx]; [rewrite Hl; lia|].
  exists ev1, x. split_and!; [done..|]. split; [done|cbn; rewrite length_app; cbn; zlia|].
  rewrite length_app, Hlen. change (ed_args (ev1 <| ed_buf_off := _ |>)) with (write_at (ed_args ev) (ed_buf_off ev) [index]).
  replace (ed_buf_off ev) with (Z.of_nat o) by lia. change (o + length [index; x])%nat with (o + (length [index] + 1))%nat.
  rewrite Nat.add_assoc, take_write_at by (rewrite Hl; lia). rewrite Hb. f_equal. cbn [app length]. f_equal.
  rewrite (drop_S _ x) by done. done.
Qed.

(** The number is put in its place. *)
Lemma fills_count ev A B x n :
  fills ev (A ++ x :: B) ->
  exists ev', store_in ev (Z.of_nat (length A)) [n] = Some ev' /\ ed_context ev' = ed_context ev /\ fills ev' (A ++ n :: B).
Proof.
  intros Hf. pose proof (fills_room _ _ Hf) as Hr. destruct Hf as [Hl Ho Hb]. rewrite length_app in *. cbn in Ho, Hb.
  rewrite store_in_ok by (cbn; rewrite ?Hl; lia). eexists. split; [done|]. split; [done|].
  split; cbn -[write_at].
  - rewrite length_write_at; [done|cbn; rewrite Hl; lia].
  - rewrite length_app. cbn. lia.
  - rewrite length_app. cbn [length]. replace (length A + S (length B))%nat with (length A + length [n] + length B)%nat by (cbn; lia).
    rewrite take_write_at by (rewrite Hl; lia). cbn [length app]. apply (f_equal (take (length A))) in Hb as HA.
    rewrite take_take, take_app_length, Nat.min_l in HA by lia. rewrite HA. do 2 f_equal.
    rewrite take_drop_commute. replace (length A + 1 + length B)%nat with (length A + S (length B))%nat by lia.
    rewrite Hb, <- drop_drop, drop_app_length. done.
Qed.

Lemma save_ellipsis_fills ended k ev P :
  reads_text ellipsis -> (k <= MAX_STR_ARR_ELEM)%nat -> fills ev (P ++ elements (texts k 0)) ->
  exists extra ev', save_ellipsis ended (Z.of_nat k) ev = Some (Z.of_nat (length (texts k 0 ++ extra)), ev') /\
    ed_context ev' = ed_context ev /\ fills ev' (P ++ elements (texts k 0 ++ extra)) /\
    (extra = [] \/ ended = true /\ extra = [text_of ellipsis]).
Proof.
  intros He Hk Hf. assert (length (texts k 0) = k) as Hl by (unfold texts; by rewrite length_fmap, length_seq).
  unfold save_ellipsis. destruct ended.
  - destruct (save_element_fills ev _ ellipsis Hf He) as ([] & ev' & -> & Hc & Hs); cbn [mbind option_bind].
    + exists [text_of ellipsis], ev'. rewrite length_app, Hl, elements_app. destruct Hs as [Hs _].
      split_and!; [|done| |by right].
      * do 2 f_equal. unfold MAX_STR_ARR_ELEM in Hk. cbn. zlia.
      * rewrite <- app_assoc in Hs. unfold elements at 2. cbn. by rewrite app_nil_r.
    + exists [], ev'. rewrite app_nil_r, Hl. destruct Hs as [Hs _]. auto.
  - exists [], ev. rewrite app_nil_r, Hl. auto.
Qed.

(** An array of texts is appended to the records: the texts in order, up to the first
    pointer that is null, cannot be read or has no room. *)
Theorem save_str_arr_saved ev rs index :
  holds ev rs -> (forall a, reads_text (text a)) -> reads_text ellipsis -> ed_buf_off ev < ARGS_BUF_SIZE - 1 ->
  exists ev' k extra, save_str_arr_to_buf ev index = Some (1, ev') /\
    fills ev' (encode_records rs ++ array_record index (texts k 0 ++ extra)) /\
    ec_argnum (ed_context ev') = u8 (Z.of_nat (length rs) + 1) /\
    (extra = [] \/ k = MAX_STR_ARR_ELEM /\ extra = [text_of ellipsis]) /\
    (k <= MAX_STR_ARR_ELEM)%nat /\ ((k < MAX_STR_ARR_ELEM)%nat -> exists off, stops k off).
Proof.
  intros Hh Ht He Hoff. unfold save_str_arr_to_buf. cbv zeta. rewrite (proj2 (Z.ltb_ge _ _)) by lia.
  destruct (array_begun ev rs index Hh Hoff) as (ev1 & x & -> & Hc1 & Hf1). cbn [mbind option_bind].
  destruct (save_elements_fills MAX_STR_ARR_ELEM 0 0 _ _ Ht Hf1) as (ended & k & ev2 & -> & Hc2 & Hf2 & Hk & Hend); [done..|].
  cbn [mbind option_bind]. rewrite Z.add_0_l.
  destruct (save_ellipsis_fills ended k ev2 _ He Hk Hf2) as (extra & ev3 & -> & Hc3 & Hf3 & Hx). cbn [mbind option_bind].
  pose proof Hh as [Hl Ho Hb Hcount]. unfold ARGS_BUF_SIZE in *.
  assert (Z.of_nat (length (encode_records rs)) = ed_buf_off ev) as Hlen by (rewrite <- Hb, length_take, Hl; lia).
  rewrite (proj2 (Z.ltb_ge _ _)) by zlia.
  replace (u32 (ed_buf_off ev + 1)) with (Z.of_nat (length (encode_records rs ++ [index]))) by (rewrite length_app; cbn; zlia).
  change (encode_records rs ++ [index; x]) with (encode_records rs ++ [index] ++ [x]) in Hf3. rewrite !app_assoc, <- (app_assoc _ [x]) in Hf3.
  destruct (fills_count ev3 _ _ x (Z.of_nat (length (texts k 0 ++ extra))) Hf3) as (ev4 & -> & Hc4 & Hf4). cbn [mbind option_bind].
  eexists _, k, extra. split; [done|]. split_and!; [| | |done|].
  - rewrite <- app_assoc in Hf4. destruct Hf4. by split.
  - cbn. rewrite Hc4, Hc3, Hc2. change (ed_context (ev1 <| ed_buf_off := _ |>)) with (ed_context ev1). rewrite Hc1, Hcount. zlia.
  - destruct Hx as [-> | [-> ->]]; [by left|by right].
  - intros Hlt. destruct ended; [lia|]. by exists (ed_buf_off ev2).
Qed.

(** With one byte left the function answers that nothing was saved, and leaves the offset
    behind the end of the buffer. *)
Lemma array_at_end ev rs index :
  holds ev rs -> ed_buf_off ev = ARGS_BUF_SIZE - 1 ->
  exists ev', save_str_arr_to_buf ev index = Some (0, ev') /\ ed_buf_off ev' = ARGS_BUF_SIZE + 1.
Proof.
  intros Hh Hoff. unfold save_str_arr_to_buf. cbv zeta. rewrite (proj2 (Z.ltb_ge _ _)) by lia.
  destruct (holds_store ev rs (ed_buf_off ev) [index] Hh) as [-> _]; [lia|cbn; lia|]. cbn [mbind option_bind].
  unfold MAX_STR_ARR_ELEM, save_elements. rewrite Hoff. destruct (argp 0 =? 0); [by eexists|].
  unfold save_element. by eexists.
Qed.

(** ** Reading an array back *)

Lemma decode_elements_encode ts rest :
  Forall (fun t => Z.of_nat (length t) < 4294967296) ts -> decode_elements (length ts) (elements ts ++ rest) = Some ts.
Proof.
  unfold elements. induction 1 as [|t ts Ht _ IH]; [done|]. cbn [fmap list_fmap concat length decode_elements]. cbv zeta.
  rewrite <- app_assoc. set (R := concat (element <$> ts) ++ rest) in *.
  unfold element. rewrite <- app_assoc. set (l4 := le_bytes 4 (Z.of_nat (length t))).
  assert (take 4 (l4 ++ t ++ R) = l4) as -> by apply (take_app_length l4).
  assert (drop 4 (l4 ++ t ++ R) = t ++ R) as Hd by apply (drop_app_length l4).
  assert (le_value l4 = Z.of_nat (length t)) as ->.
  { unfold l4. rewrite le_value_le_bytes. change (2 ^ (8 * Z.of_nat 4)) with 4294967296. apply Z.mod_small. lia. }
  rewrite Nat2Z.id, (proj2 (Nat.ltb_ge _ _)) by (unfold l4; rewrite !length_app, length_le_bytes; lia).
  rewrite <- drop_drop, Hd, drop_app_length, take_app_length, IH. done.
Qed.

Lemma decode_array_record index ts rest :
  Forall (fun t => Z.of_nat (length t) < 4294967296) ts ->
  decode_array (array_record index ts ++ rest) = Some (index, ts).
Proof. intros Ht. cbn. by rewrite Nat2Z.id, decode_elements_encode. Qed.

End arrays.
