(* ===== verification/TraceOps.v ===== *)
(** * The operations that read arguments (src/utils.h, src/common/buffer.h)

    User space describes how to read the arguments of a call by a list of
    operations; [read_args] runs them, one [switch] case each, and appends what they
    save to the event. [None] is an access outside an array. *)

From stdpp Require Import gmap.
From S2P Require Import Prelude Trace TraceBuffer.

Record run := {
  rn_event : event_data;
  rn_ctx : op_ctx;
  rn_maps : trace_maps;
}.

#[export] Instance run_shape : Shape run := shape! Build_run < rn_event ; rn_ctx ; rn_maps >.

(** ** Comparing a string through a map

    The text read becomes a key of 256 bytes; the wanted text is put into the map
    under its own key for as long as the lookup takes. [make_str_buf] gives every
    thread a buffer of its own. *)

Definition strcmp_value (m : memory) (ctx : op_ctx) (filter : arg_filter) : list Z :=
  let read_str_len := if MAX_STRCMP_LEN <? af_str_len filter then MAX_STRCMP_LEN else af_str_len filter in
  write_at (replicate (Z.to_nat MAX_STRCMP_LEN) 0) 0 (me_read m (ox_read_addr ctx) (Z.to_nat read_str_len)).2.

Definition strcmp_insert (filter : arg_filter) (maps : trace_maps) : trace_maps :=
  let read_str_len := if MAX_STRCMP_LEN <? af_str_len filter then MAX_STRCMP_LEN else af_str_len filter in
  maps <| tm_str_buf ::= map_update str_buf_entries (af_str_val filter) read_str_len |>.

Definition strcmp_lookup (value : list Z) (maps : trace_maps) : Z :=
  match tm_str_buf maps !! value with Some _ => 1 | None => 0 end.

Definition strcmp_delete (filter : arg_filter) (maps : trace_maps) : trace_maps :=
  maps <| tm_str_buf ::= delete (af_str_val filter) |>.

Definition strcmp_by_map (m : memory) (maps : trace_maps) (ctx : op_ctx) (filter : arg_filter) : Z * trace_maps :=
  if ox_str_len ctx <? af_str_len filter then (0, maps)
  else
    let maps := strcmp_insert filter maps in
    (strcmp_lookup (strcmp_value m ctx filter) maps, strcmp_delete filter maps).

(** ** One operation *)

(** Addresses carry a tag in their upper bits. *)
Definition untag (address : Z) : Z := Z.land address 281474976710655.

Section read_args.
Context (tmod : trace_module) (m : memory) (args : point_args) (regs : ctx_regs).
Implicit Types (op : op_config) (st : run).

(** The outcome of an operation: the loop goes on, or the function returns. *)
Definition next (f : op_ctx -> op_ctx) st : option (run + run) := Some (inl (st <| rn_ctx ::= f |>)).
Definition leave st : option (run + run) := Some (inr st).

Definition next_index (ctx : op_ctx) : op_ctx := ctx <| ox_save_index ::= fun i => u8 (i + 1) |>.

(** A save of a variable of the program, whatever it answers, and the next tag. *)
Definition save_value (bytes : list Z) st : option run :=
  '(_, ev) ← save_to_submit_buf (rn_event st) (own bytes) (Z.of_nat (length bytes)) (ox_save_index (rn_ctx st));
  Some (st <| rn_event := ev |> <| rn_ctx ::= next_index |>).

Definition save_u64 (value : Z) st : option (run + run) :=
  st ← save_value (le_bytes 8 value) st; Some (inl st).

(** Bytes from an address, or an empty record when they cannot be read. *)
Definition save_struct (address length : Z) st : option run :=
  let index := ox_save_index (rn_ctx st) in
  '(status, ev) ← save_bytes_to_buf (rn_event st) (me_read m address) length index;
  if status =? 0 then
    '(_, ev) ← save_bytes_to_buf ev (me_read m 0) 0 index;
    Some (st <| rn_event := ev |> <| rn_ctx ::= next_index |>)
  else Some (st <| rn_event := ev |> <| rn_ctx ::= next_index |>).

(** A text: [save] is one of the two ways to save it. *)
Definition save_text (save : event_data -> Z -> option (Z * event_data)) st : option run :=
  let index := ox_save_index (rn_ctx st) in
  let old_off := ed_buf_off (rn_event st) in
  '(status, ev) ← save (rn_event st) index;
  if status =? 0 then
    '(_, ev) ← save_bytes_to_buf ev (me_read m 0) 0 index;
    Some (st <| rn_event := ev |> <| rn_ctx ::= next_index |>)
  else
    Some (st <| rn_event := ev |>
             <| rn_ctx ::= fun ctx => next_index (ctx <| ox_str_len := u32 (ed_buf_off ev - (old_off + 4 + 1)) |>) |>).

(** The pointer, then the text behind it; a pointer that leads nowhere ends the array. *)
Definition save_ptr_text (save : event_data -> Z -> Z -> option (Z * event_data)) st : option run :=
  let ptr := user_u64 m (untag (ox_read_addr (rn_ctx st))) in
  st ← save_value (le_bytes 8 ptr) st;
  let index := ox_save_index (rn_ctx st) in
  '(status, ev) ← save (rn_event st) (untag ptr) index;
  if status =? 0 then
    '(_, ev) ← save_bytes_to_buf ev (me_read m 0) STRARR_MAGIC_LEN index;
    Some (st <| rn_event := ev |>
             <| rn_ctx ::= fun ctx => next_index (ctx <| ox_loop_count := ox_break_count ctx |>) |>)
  else Some (st <| rn_event := ev |> <| rn_ctx ::= next_index |>).

Definition limit_break (value : Z) (ctx : op_ctx) : op_ctx :=
  ctx <| ox_break_count := if value <? MAX_LOOP_COUNT then value else MAX_LOOP_COUNT |>.

Definition limit_read_len (value : Z) (ctx : op_ctx) : op_ctx :=
  if value <? ox_read_len ctx then ctx <| ox_read_len := value |> else ctx.

Definition for_break (ctx : op_ctx) : op_ctx :=
  let ctx := if ox_loop_count ctx =? 0 then ctx <| ox_loop_index := ox_op_key_index ctx |> else ctx in
  if ox_break_count ctx <=? ox_loop_count ctx
  then ctx <| ox_loop_count := 0 |> <| ox_break_count := 0 |> <| ox_loop_index := 0 |>
  else ctx <| ox_loop_count ::= fun n => u8 (n + 1) |> <| ox_op_key_index := ox_loop_index ctx |>.

(** The numeric filters; a match puts the call on the blacklist. *)
Definition filter_value (filter : arg_filter) (ctx : op_ctx) : op_ctx :=
  let num := af_num_val filter in
  let value := ox_reg_value ctx in
  let hit :=
    if af_filter_type filter =? EQUAL_FILTER then negb (num =? value)
    else if af_filter_type filter =? GREATER_FILTER then num <=? value
    else if af_filter_type filter =? LESS_FILTER then value <=? num
    else false in
  if hit then ctx <| ox_match_blacklist := 1 |> else ctx.

(** The shift count is taken modulo 64, as the machine does. *)
Definition filter_buffer (filter : arg_filter) (ctx : op_ctx) : op_ctx :=
  if af_filter_type filter =? WHITELIST_FILTER then
    let ctx := ctx <| ox_apply_filter := 1 |> in
    let ptr := user_u64 m (untag (ox_read_addr ctx)) in
    if af_num_val filter =? Z.land ptr (Z.shiftr UINT64_MAX (Z.land (af_str_len filter) 63))
    then ctx <| ox_match_whitelist := 1 |> else ctx
  else ctx.

Definition filter_string (filter : arg_filter) st : run :=
  let '(is_match, maps) := strcmp_by_map m (rn_maps st) (rn_ctx st) filter in
  let st := st <| rn_maps := maps |> in
  if af_filter_type filter =? WHITELIST_FILTER then
    st <| rn_ctx ::= fun ctx =>
            let ctx := ctx <| ox_apply_filter := 1 |> in
            if negb (is_match =? 0) then ctx <| ox_match_whitelist := 1 |> else ctx |>
  else if (af_filter_type filter =? BLACKLIST_FILTER) && negb (is_match =? 0)
  then st <| rn_ctx ::= fun ctx => ctx <| ox_match_blacklist := 1 |> |>
  else st.

(** The text of a std::string: inside the object when it is short. *)
Definition std_string_address (address : Z) : Z :=
  let ptr := untag address in
  let value := le_value (me_read_user m ptr 1).2 in
  if Z.land value 1 =? 0 then u64 (ptr + 1) else user_u64 m (u64 (ptr + Z.of_nat PTR_SIZE * 2)).

Definition is_pre op (code : op_code_e) : bool := oc_pre_code op =? op_value code.

Definition exec_op op (code : op_code_e) st : option (run + run) :=
  let ctx := rn_ctx st in
  match code with
  | OP_RESET_CTX =>
      next (fun ctx => ctx <| ox_break_count := 0 |> <| ox_reg_index := 0 |> <| ox_read_addr := 0 |>
                           <| ox_read_len := 0 |> <| ox_reg_value := 0 |> <| ox_pointer_value := 0 |>) st
  | OP_SET_REG_INDEX => next (fun ctx => ctx <| ox_reg_index := u8 (oc_value op) |>) st
  | OP_SET_READ_LEN => next (fun ctx => ctx <| ox_read_len := u32 (oc_value op) |>) st
  | OP_SET_READ_LEN_REG_VALUE => next (limit_read_len (ox_reg_value ctx)) st
  | OP_SET_READ_LEN_POINTER_VALUE => next (limit_read_len (ox_pointer_value ctx)) st
  | OP_SET_READ_COUNT => next (fun ctx => ctx <| ox_read_len ::= fun n => u32 (n * oc_value op) |>) st
  | OP_ADD_OFFSET => next (fun ctx => ctx <| ox_read_addr ::= fun a => u64 (a + oc_value op) |>) st
  | OP_SUB_OFFSET => next (fun ctx => ctx <| ox_read_addr ::= fun a => u64 (a - oc_value op) |>) st
  | OP_MOVE_REG_VALUE => next (fun ctx => ctx <| ox_read_addr := ox_reg_value ctx |>) st
  | OP_MOVE_POINTER_VALUE => next (fun ctx => ctx <| ox_read_addr := ox_pointer_value ctx |>) st
  | OP_MOVE_TMP_VALUE => next (fun ctx => ctx <| ox_read_addr := ox_tmp_value ctx |>) st
  | OP_SET_TMP_VALUE => next (fun ctx => ctx <| ox_tmp_value := ox_read_addr ctx |>) st
  | OP_FOR_BREAK => next for_break st
  | OP_SET_BREAK_COUNT => next (limit_break (oc_value op)) st
  | OP_SET_BREAK_COUNT_REG_VALUE => next (limit_break (ox_reg_value ctx)) st
  | OP_SET_BREAK_COUNT_POINTER_VALUE => next (limit_break (ox_pointer_value ctx)) st
  | OP_SAVE_ADDR => save_u64 (ox_read_addr ctx) st
  | OP_ADD_REG => next (fun ctx => ctx <| ox_read_addr ::= fun a => u64 (a + ox_reg_value ctx) |>) st
  | OP_SUB_REG => next (fun ctx => ctx <| ox_read_addr ::= fun a => u64 (a - ox_reg_value ctx) |>) st
  | OP_READ_REG =>
      let st := if is_pre op OP_SET_REG_INDEX then st <| rn_ctx ::= fun ctx => ctx <| ox_reg_index := u8 (oc_value op) |> |>
                else st in
      let index := ox_reg_index (rn_ctx st) in
      if REG_ARM64_MAX <=? index then leave st
      else if index =? 0 then next (fun ctx => ctx <| ox_reg_value := ox_reg_0 ctx |>) st
      else value ← regs_words regs !! Z.to_nat index; next (fun ctx => ctx <| ox_reg_value := value |>) st
  | OP_SAVE_REG => save_u64 (ox_reg_value ctx) st
  | OP_READ_POINTER =>
      let address :=
        if is_pre op OP_ADD_OFFSET then u64 (ox_read_addr ctx + oc_value op)
        else if is_pre op OP_SUB_OFFSET then u64 (ox_read_addr ctx - oc_value op)
        else ox_read_addr ctx in
      next (fun ctx => ctx <| ox_pointer_value := user_u64 m address |>) st
  | OP_SAVE_POINTER => save_u64 (ox_pointer_value ctx) st
  | OP_SAVE_STRUCT =>
      let address := untag (ox_read_addr ctx) in
      let length := if is_pre op OP_SET_READ_COUNT then u32 (ox_read_len ctx * oc_value op) else ox_read_len ctx in
      let length := if MAX_BYTES_ARR_SIZE <? length then MAX_BYTES_ARR_SIZE else length in
      st ← save_struct address length (st <| rn_ctx := ctx <| ox_read_addr := address |> <| ox_read_len := length |> |>);
      Some (inl st)
  | OP_FILTER_VALUE =>
      match tm_arg_filter (rn_maps st) !! oc_value op with
      | None => leave st
      | Some filter => next (filter_value filter) st
      end
  | OP_FILTER_BUFFER =>
      match tm_arg_filter (rn_maps st) !! oc_value op with
      | None => leave st
      | Some filter => next (filter_buffer filter) st
      end
  | OP_FILTER_STRING =>
      match tm_arg_filter (rn_maps st) !! oc_value op with
      | None => leave st
      | Some filter => Some (inl (filter_string filter st))
      end
  | OP_SAVE_STRING =>
      let address := untag (ox_read_addr ctx) in
      st ← save_text (fun ev => save_str_to_buf ev (me_read_str m address)) (st <| rn_ctx := ctx <| ox_read_addr := address |> |>);
      Some (inl st)
  | OP_SAVE_PTR_STRING =>
      st ← save_ptr_text (fun ev ptr => save_str_to_buf ev (me_read_str m ptr)) st; Some (inl st)
  | OP_SAVE_STRING16 =>
      let address := untag (ox_read_addr ctx) in
      st ← save_text (fun ev => save_utf16_to_buf ev (me_read m address)) (st <| rn_ctx := ctx <| ox_read_addr := address |> |>);
      Some (inl st)
  | OP_SAVE_PTR_STRING16 =>
      st ← save_ptr_text (fun ev ptr => save_utf16_to_buf ev (me_read m ptr)) st; Some (inl st)
  | OP_READ_STD_STRING => next (fun ctx => ctx <| ox_read_addr ::= std_string_address |>) st
  | OP_READ_IL2CPP_STRING => next (fun ctx => ctx <| ox_read_addr ::= fun a => u64 (a + 20) |>) st
  | OP_SKIP => next id st
  end.

(** ** The loop *)

(** The tail of the function: the call is skipped when it is on the blacklist, or
    when there is a whitelist and it is not on it. *)
Definition read_args_end st : run :=
  let ctx := rn_ctx st in
  if ox_match_blacklist ctx =? 1 then st <| rn_ctx := ctx <| ox_skip_flag := 1 |> |>
  else if (ox_apply_filter ctx =? 1) && (ox_match_whitelist ctx =? 0)
  then st <| rn_ctx := ctx <| ox_skip_flag := 1 |> |> else st.

(** The next operation of the list; [inr] when the function returns. *)
Definition fetch_next st : option (op_config * run + run) :=
  let ctx := rn_ctx st in
  if Z.of_nat (MAX_OP_COUNT tmod) <=? ox_op_key_index ctx then Some (inr st)
  else
    op_key ← pa_op_key_list args !! Z.to_nat (ox_op_key_index ctx);
    match tm_op_list (rn_maps st) !! op_key with
    | None => Some (inr st)
    | Some op =>
        Some (inl (op, st <| rn_ctx := ctx <| ox_op_code := oc_code op |> <| ox_post_code := oc_post_code op |>
                                         <| ox_op_key_index ::= fun i => u32 (i + 1) |> |>))
    end.

(** The second half of the operation at hand, or the next one. *)
Definition fetch_op (op : option op_config) st : option (op_config * run + run) :=
  let ctx := rn_ctx st in
  match op with
  | Some op =>
      if negb (ox_post_code ctx =? op_value OP_SKIP)
      then Some (inl (op, st <| rn_ctx := ctx <| ox_op_code := ox_post_code ctx |> <| ox_post_code := op_value OP_SKIP |> |>))
      else fetch_next st
  | None => fetch_next st
  end.

(** An operation by its number; other numbers do nothing. *)
Definition exec_code op st : option (run + run) :=
  match op_code_of (ox_op_code (rn_ctx st)) with
  | Some code => exec_op op code st
  | None => next id st
  end.

Fixpoint read_args_loop (remaining : nat) (op : option op_config) st : option run :=
  match remaining with
  | O => Some (read_args_end st)
  | S remaining =>
      fetched ← fetch_op op st;
      match fetched with
      | inr st => Some st
      | inl (op, st) =>
          if ox_op_code (rn_ctx st) =? op_value OP_SKIP then Some (read_args_end st)
          else
            done ← exec_code op st;
            match done with
            | inr st => Some st
            | inl st =>
                if ox_match_blacklist (rn_ctx st) =? 1 then Some (read_args_end st)
                else read_args_loop remaining (Some op) st
            end
      end
  end.

Definition read_args st : option run :=
  read_args_loop (MAX_OP_COUNT tmod) (tm_op_list (rn_maps st) !! 0) st.
End read_args.
