(* ===== verification/TraceSpec.v ===== *)
(** * What reading arguments guarantees

    Whatever operations user space configured and whatever memory holds: the run
    ends, stays inside its arrays, and appends well-formed records with ascending
    tags. *)

From stdpp Require Import gmap.
From S2P Require Import Prelude Trace TraceBuffer TraceOps.

(** ** Tags *)

(** Records tagged in order with numbers from [n] below [k], modulo 256; a number
    whose save failed is left out. *)
Inductive tagged : Z -> Z -> list trace_record -> Prop :=
| tagged_nil n k : n <= k -> tagged n k []
| tagged_cons n j k r rs : n <= j -> record_index r = u8 j -> tagged (j + 1) k rs -> tagged n k (r :: rs).

Lemma tagged_le n k rs : tagged n k rs -> n <= k.
Proof. induction 1; lia. Qed.

Lemma tagged_weaken n n' k rs : n' <= n -> tagged n k rs -> tagged n' k rs.
Proof. intros Hn H. destruct H as [n k H|n j k r rs H ? ?]; [constructor; lia|apply (tagged_cons n' j); auto; lia]. Qed.

Lemma tagged_app n j k rs1 rs2 : tagged n j rs1 -> tagged j k rs2 -> tagged n k (rs1 ++ rs2).
Proof.
  induction 1 as [n j Hn|n i j r rs Hn Hr _ IH]; intros H2; cbn; [by eapply tagged_weaken|].
  apply (tagged_cons n i); auto.
Qed.

Lemma tagged_one n r : record_index r = u8 n -> tagged n (n + 1) [r].
Proof. intros H. apply (tagged_cons n n); [lia|done|]. constructor. lia. Qed.

#[export] Hint Resolve tagged_one tagged_app : spz.

(** ** States of a run *)

Record ctx_typed (ctx : op_ctx) : Prop := {
  ct_key : 0 <= ox_op_key_index ctx;
  ct_loop : 0 <= ox_loop_index ctx;
  ct_reg : 0 <= ox_reg_index ctx;
  ct_len : 0 <= ox_read_len ctx;
  ct_reg_value : 0 <= ox_reg_value ctx;
  ct_pointer : 0 <= ox_pointer_value ctx;
  ct_reg_0 : 0 <= ox_reg_0 ctx;
}.

(** The buffer holds [rs], and the next tag is [n]. *)
Record good (rs : list trace_record) (n : Z) (st : run) : Prop := {
  go_holds : holds (rn_event st) rs;
  go_ctx : ctx_typed (rn_ctx st);
  go_index : ox_save_index (rn_ctx st) = u8 n;
}.

(** A part of a run: it appends records. *)
Definition extends (rs : list trace_record) (n : Z) (st' : run) : Prop :=
  exists k new, good (rs ++ new) k st' /\ tagged n k new /\ Forall well_sized new.

Lemma extends_refl rs n st : good rs n st -> extends rs n st.
Proof. intros H. exists n, []. rewrite app_nil_r. split_and!; [done|constructor; lia|done]. Qed.

Lemma extends_trans rs n st' (P : run -> Prop) :
  extends rs n st' -> (forall rs' n', good rs' n' st' -> exists st'', P st'' /\ extends rs' n' st'') ->
  exists st'', P st'' /\ extends rs n st''.
Proof.
  intros (k & new & Hg & Ht & Hw) H. destruct (H _ _ Hg) as (st'' & HP & k' & new' & Hg' & Ht' & Hw').
  exists st''. split; [done|]. exists k', (new ++ new'). rewrite app_assoc. split_and!; [done|by eapply tagged_app|].
  by apply Forall_app.
Qed.

(** What an operation may do. *)
Definition steps (rs : list trace_record) (n : Z) (out : option (run + run)) : Prop :=
  exists st', (out = Some (inl st') \/ out = Some (inr st')) /\ extends rs n st'.

Lemma steps_leave rs n st : good rs n st -> steps rs n (leave st).
Proof. intros H. exists st. split; [by right|by apply extends_refl]. Qed.

Lemma steps_next rs n st f :
  good rs n st -> ctx_typed (f (rn_ctx st)) -> ox_save_index (f (rn_ctx st)) = ox_save_index (rn_ctx st) ->
  steps rs n (next f st).
Proof.
  intros [Hh Hc Hi] Hf Hs. exists (st <| rn_ctx ::= f |>). split; [by left|].
  apply extends_refl. split; [done|done|]. cbn. by rewrite Hs, Hi.
Qed.

Lemma next_index_typed ctx : ctx_typed ctx -> ctx_typed (next_index ctx).
Proof. by intros []. Qed.

(** The event after a save and the context with the next tag. *)
Lemma good_saved rs n st ev ctx new :
  holds ev (rs ++ new) -> ctx_typed ctx -> ox_save_index ctx = u8 n -> tagged n (n + 1) new -> Forall well_sized new ->
  extends rs n (st <| rn_event := ev |> <| rn_ctx := next_index ctx |>).
Proof.
  intros Hh Hc Hi Ht Hw. exists (n + 1), new. split_and!; [|done|done]. split; [done|by apply next_index_typed|].
  cbn. rewrite Hi. zlia.
Qed.

Section spec.
Context (tmod : trace_module) (m : memory) `{!Memory m}.

Lemma user_u64_nonneg address : 0 <= user_u64 m address.
Proof. unfold user_u64. pose proof (le_value_bounded _ (mem_read_user_bytes address 8)). lia. Qed.

Lemma save_value_good rs n st bytes :
  good rs n st -> 0 < Z.of_nat (length bytes) <= MAX_ELEMENT_SIZE ->
  exists st', save_value bytes st = Some st' /\ extends rs n st'.
Proof.
  intros [Hh Hc Hi] Hl. unfold save_value.
  destruct (save_to_submit_saved (rn_event st) rs (own bytes) (Z.of_nat (length bytes)) (ox_save_index (rn_ctx st)) Hh Hl)
    as (r & ev & -> & H). { cbn. rewrite length_take. lia. }
  cbn [mbind option_bind]. eexists. split; [done|].
  destruct H as [[_ H]|[_ H]].
  - eapply (good_saved rs n st ev (rn_ctx st)); eauto; [apply tagged_one; by rewrite <- Hi|by repeat constructor].
  - eapply (good_saved rs n st ev (rn_ctx st) []); eauto; [by rewrite app_nil_r|constructor; lia].
Qed.

Lemma save_u64_steps rs n st value : good rs n st -> steps rs n (save_u64 value st).
Proof.
  intros Hg. unfold save_u64. destruct (save_value_good rs n st (le_bytes 8 value) Hg) as (st' & -> & H).
  - rewrite length_le_bytes. unfold MAX_ELEMENT_SIZE. lia.
  - exists st'. split; [by left|done].
Qed.

(** A record of the given length, or an empty one in its place. *)
Lemma save_bytes_cases ev rs ptr size index :
  holds ev rs -> (forall k, length (ptr k).2 = k) -> 0 <= size <= MAX_BYTES_ARR_SIZE \/ size = STRARR_MAGIC_LEN ->
  exists r ev' new, save_bytes_to_buf ev ptr size index = Some (r, ev') /\ holds ev' (rs ++ new) /\
    Forall well_sized new /\ (forall n, index = u8 n -> tagged n (n + 1) new) /\
    (r = 0 /\ new = [] \/ r = 1).
Proof.
  intros Hh Hp Hs. assert (0 <= size) by (unfold STRARR_MAGIC_LEN in *; lia).
  destruct (save_bytes_saved ev rs ptr size index Hh ltac:(done) Hp) as (r & ev' & -> & H').
  pose proof (bytes_record_sized ptr size index Hs Hp) as Hw.
  destruct H' as [[-> H']|[-> H']].
  - exists 1, ev', [bytes_record ptr size index]. split_and!; auto. intros n Hn. by apply tagged_one.
  - exists 0, ev', []. rewrite app_nil_r. split_and!; auto. intros n _. constructor. lia.
Qed.

(** The empty record that stands in for a failed save. *)
Lemma save_fallback rs n st ev size (f : op_ctx -> op_ctx) :
  holds ev rs -> (forall ctx, ctx_typed ctx -> ctx_typed (f ctx)) ->
  (forall ctx, ox_save_index (f ctx) = ox_save_index ctx) -> ctx_typed (rn_ctx st) -> ox_save_index (rn_ctx st) = u8 n ->
  size = 0 \/ size = STRARR_MAGIC_LEN ->
  exists st', ('(_, ev) ← save_bytes_to_buf ev (me_read m 0) size (ox_save_index (rn_ctx st));
               Some (st <| rn_event := ev |> <| rn_ctx ::= fun ctx => next_index (f ctx) |>)) = Some st' /\ extends rs n st'.
Proof.
  intros Hh Hf Hfi Hc Hi Hs.
  destruct (save_bytes_cases ev rs (me_read m 0) size (ox_save_index (rn_ctx st)) Hh) as (r & ev' & new & -> & H & Hw & Ht & _).
  { apply mem_read_length. } { unfold MAX_BYTES_ARR_SIZE. lia. }
  cbn [mbind option_bind]. eexists. split; [done|].
  apply (good_saved rs n st ev' (f (rn_ctx st)) new); auto. by rewrite Hfi.
Qed.

Lemma save_struct_good rs n st address len :
  good rs n st -> 0 <= len <= MAX_BYTES_ARR_SIZE ->
  exists st', save_struct m address len st = Some st' /\ extends rs n st'.
Proof.
  intros [Hh Hc Hi] Hl. unfold save_struct.
  destruct (save_bytes_cases (rn_event st) rs (me_read m address) len (ox_save_index (rn_ctx st)) Hh)
    as (r & ev & new & -> & H & Hw & Ht & [[-> ->]| ->]); [apply mem_read_length|by left|..]; cbn [mbind option_bind Z.eqb].
  - rewrite app_nil_r in H. apply (save_fallback rs n st ev 0 id); auto.
  - eexists. split; [done|]. apply (good_saved rs n st ev (rn_ctx st) new); auto.
Qed.

(** What a way of saving a text must give. *)
Definition text_saver (save : event_data -> Z -> option (Z * event_data)) : Prop :=
  forall ev rs index, holds ev rs ->
    exists r ev' new, save ev index = Some (r, ev') /\ holds ev' (rs ++ new) /\ Forall well_sized new /\
      (forall n, index = u8 n -> tagged n (n + 1) new) /\ (r = 0 /\ new = [] \/ r = 1).

Lemma str_saver address : text_saver (fun ev => save_str_to_buf ev (me_read_str m address)).
Proof.
  intros ev rs index Hh.
  pose proof (save_str_saved ev rs (me_read_str m address) index Hh (mem_read_str_length address)) as H.
  pose proof (mem_read_str_result address (Z.to_nat MAX_STRING_SIZE) ltac:(unfold MAX_STRING_SIZE; lia)) as Hr.
  pose proof (mem_read_str_length address (Z.to_nat MAX_STRING_SIZE)) as Hlen.
  destruct (me_read_str m address (Z.to_nat MAX_STRING_SIZE)) as [sz bytes] eqn:E. cbn [fst snd] in *.
  unfold MAX_STRING_SIZE in *. specialize (H ltac:(lia)). destruct (Z.leb_spec 0 sz) as [Hsz|Hsz].
  - destruct H as (r & ev' & -> & [[-> H]|[-> H]]).
    + exists 1, ev', [Sized index sz (take (Z.to_nat sz) bytes)]. split_and!; auto.
      * constructor; [|done]. cbn. unfold payload_length, STRARR_MAGIC_LEN. rewrite length_take.
        rewrite eqb_ne by lia. lia.
      * intros n Hn. by apply tagged_one.
    + exists 0, ev', []. rewrite app_nil_r. split_and!; auto. intros n _. constructor. lia.
  - assert (forall ev' r', save_str_to_buf ev (me_read_str m address) index = Some (r', ev') -> r' = 0) as Hno.
    { intros ev' r'. unfold save_str_to_buf, MAX_STRING_SIZE. cbv zeta. destruct (_ <? _); [congruence|].
      destruct (store_in ev _ _) as [ev1|]; [|done]. cbn [mbind option_bind]. destruct (_ <? _); [congruence|].
      rewrite E. destruct (store_in ev1 _ _) as [ev2|]; [|done]. cbn [mbind option_bind].
      rewrite (proj2 (Z.leb_gt 0 sz)) by lia. congruence. }
    destruct H as (r & ev' & Es & H). pose proof (Hno _ _ Es) as ->. destruct H as [[? _]|[_ H]]; [done|].
    exists 0, ev', []. rewrite app_nil_r. split_and!; auto. intros n _. constructor. lia.
Qed.

Lemma utf16_saver address : text_saver (fun ev => save_utf16_to_buf ev (me_read m address)).
Proof.
  intros ev rs index Hh. apply save_bytes_cases; [done|apply mem_read_length|]. unfold MAX_BYTES_ARR_SIZE. lia.
Qed.

Lemma save_text_good rs n st save :
  good rs n st -> text_saver save -> exists st', save_text m save st = Some st' /\ extends rs n st'.
Proof.
  intros [Hh Hc Hi] Hs. unfold save_text. cbv zeta.
  destruct (Hs (rn_event st) rs (ox_save_index (rn_ctx st)) Hh) as (r & ev & new & -> & H & Hw & Ht & [[-> ->]| ->]);
    cbn [mbind option_bind Z.eqb].
  - rewrite app_nil_r in H. apply (save_fallback rs n st ev 0 id); auto.
  - eexists. split; [done|].
    apply (good_saved rs n st ev ((rn_ctx st) <| ox_str_len := u32 (ed_buf_off ev - (ed_buf_off (rn_event st) + 4 + 1)) |>) new);
      auto. by destruct Hc.
Qed.

Lemma save_ptr_text_good rs n st save :
  good rs n st -> (forall address, text_saver (fun ev => save ev address)) ->
  exists st', save_ptr_text m save st = Some st' /\ extends rs n st'.
Proof.
  intros Hg Hs. unfold save_ptr_text. cbv zeta. set (ptr := user_u64 m _).
  destruct (save_value_good rs n st (le_bytes 8 ptr) Hg) as (st1 & -> & H1).
  { rewrite length_le_bytes. unfold MAX_ELEMENT_SIZE. lia. }
  cbn [mbind option_bind]. apply (extends_trans rs n st1 (fun st' => _ = Some st') H1).
  intros rs' n' [Hh Hc Hi].
  destruct (Hs (untag ptr) (rn_event st1) rs' (ox_save_index (rn_ctx st1)) Hh) as (r & ev & new & -> & H & Hw & Ht & [[-> ->]| ->]);
    cbn [mbind option_bind Z.eqb].
  - rewrite app_nil_r in H.
    apply (save_fallback rs' n' st1 ev STRARR_MAGIC_LEN (fun ctx => ctx <| ox_loop_count := ox_break_count ctx |>)); auto.
    by intros ctx [].
  - eexists. split; [done|]. apply (good_saved rs' n' st1 ev (rn_ctx st1) new); auto.
Qed.

(** ** The operations *)

Context (args : point_args) (regs : ctx_regs).
Hypothesis Hargs : length (pa_op_key_list args) = MAX_OP_COUNT tmod.
Hypothesis Hregs : length (cr_regs regs) = 31%nat.
Hypothesis Hwords : Forall (fun w => 0 <= w) (regs_words regs).

Lemma regs_word index :
  0 <= index < REG_ARM64_MAX -> exists value, regs_words regs !! Z.to_nat index = Some value /\ 0 <= value.
Proof.
  intros Hi. unfold REG_ARM64_MAX in Hi.
  destruct (lookup_lt_is_Some_2 (regs_words regs) (Z.to_nat index)) as [value Hv].
  { unfold regs_words. rewrite length_app, Hregs. cbn. lia. }
  exists value. split; [done|]. by eapply Forall_lookup_1 in Hwords; [|exact Hv].
Qed.

(** A change of the context alone. *)
Ltac next_op Hg :=
  apply steps_next; [exact Hg| |done];
  let Hc := fresh in pose proof (go_ctx _ _ _ Hg) as Hc; destruct Hc; split; cbn; try done; try zlia; try apply user_u64_nonneg.

Lemma limit_read_len_typed value ctx : 0 <= value -> ctx_typed ctx -> ctx_typed (limit_read_len value ctx).
Proof. intros Hv []. unfold limit_read_len. destruct (_ <? _); split; cbn; lia. Qed.

Lemma for_break_typed ctx : ctx_typed ctx -> ctx_typed (for_break ctx) /\ ox_save_index (for_break ctx) = ox_save_index ctx.
Proof.
  intros []. unfold for_break. destruct (ox_loop_count ctx =? 0); destruct (_ <=? _); split; try split; cbn; try lia; done.
Qed.

Lemma filter_typed rs n st ctx' : good rs n st -> ctx_typed ctx' -> ox_save_index ctx' = ox_save_index (rn_ctx st) ->
  extends rs n (st <| rn_ctx := ctx' |>).
Proof. intros [Hh Hc Hi] Ht Hs. apply extends_refl. split; [done|done|]. cbn. congruence. Qed.

Lemma filter_string_extends rs n st filter : good rs n st -> extends rs n (filter_string m filter st).
Proof.
  intros Hg. pose proof Hg as [Hh Hc Hi]. unfold filter_string. destruct (strcmp_by_map _ _ _ _) as [r maps].
  apply extends_refl. destruct (af_filter_type filter =? WHITELIST_FILTER).
  - split; [done| |]; cbn; destruct (negb _); cbn; first [done|by destruct Hc|idtac].
  - destruct (_ && _); split; cbn; first [done|by destruct Hc|idtac].
Qed.

Lemma exec_op_steps rs n op code st : good rs n st -> steps rs n (exec_op m regs op code st).
Proof.
  intros Hg. pose proof Hg as [Hh Hc Hi].
  destruct code; cbn [exec_op]; cbv zeta; try solve [next_op Hg]; try solve [by apply save_u64_steps];
    try solve [destruct (tm_arg_filter _ !! _) as [filter|]; [|by apply steps_leave];
               apply steps_next; [done| |];
               unfold filter_value, filter_buffer; repeat (destruct (_ : bool)); cbn; try done; by destruct Hc].
  - apply steps_next; [done| |]; [apply limit_read_len_typed; [apply Hc|done]|]. unfold limit_read_len. by destruct (_ <? _).
  - apply steps_next; [done| |]; [apply limit_read_len_typed; [apply Hc|done]|]. unfold limit_read_len. by destruct (_ <? _).
  - apply steps_next; [done| |]; by apply for_break_typed.
  - set (st1 := if is_pre op OP_SET_REG_INDEX then _ else st).
    assert (good rs n st1) as Hg1.
    { unfold st1. destruct (is_pre _ _); [|done]. split; [done| |done]. destruct Hc; split; cbn; try done. zlia. }
    destruct (Z.leb_spec REG_ARM64_MAX (ox_reg_index (rn_ctx st1))) as [|Hlt]; [by apply steps_leave|].
    pose proof (go_ctx _ _ _ Hg1) as Hc1.
    destruct (ox_reg_index (rn_ctx st1) =? 0).
    + apply steps_next; [done| |done]. destruct Hc1; by split.
    + destruct (regs_word (ox_reg_index (rn_ctx st1))) as (value & -> & Hv); [destruct Hc1; lia|]. cbn [mbind option_bind].
      apply steps_next; [done| |done]. destruct Hc1; by split.
  - set (len := if is_pre op OP_SET_READ_COUNT then _ else _).
    set (address := untag _). set (len' := if MAX_BYTES_ARR_SIZE <? len then _ else _).
    assert (0 <= len' <= MAX_BYTES_ARR_SIZE) as Hlen.
    { unfold len', MAX_BYTES_ARR_SIZE. destruct (Z.ltb_spec 4096 len); [lia|]. split; [|lia].
      unfold len. destruct (is_pre _ _); [zlia|apply Hc]. }
    set (st1 := st <| rn_ctx := _ |>). assert (good rs n st1) as Hg1.
    { split; [done| |done]. destruct Hc; split; cbn; try done. lia. }
    destruct (save_struct_good rs n st1 address len' Hg1 Hlen) as (st' & -> & H). exists st'. split; [by left|done].
  - destruct (tm_arg_filter _ !! _) as [filter|]; [|by apply steps_leave].
    eexists. split; [by left|]. by apply filter_string_extends.
  - set (st1 := st <| rn_ctx := _ |>). assert (good rs n st1) as Hg1 by (split; [done|by destruct Hc|done]).
    destruct (save_text_good rs n st1 _ Hg1 (str_saver (untag (ox_read_addr (rn_ctx st))))) as (st' & -> & H).
    exists st'. split; [by left|done].
  - destruct (save_ptr_text_good rs n st _ Hg str_saver) as (st' & -> & H). exists st'. split; [by left|done].
  - set (st1 := st <| rn_ctx := _ |>). assert (good rs n st1) as Hg1 by (split; [done|by destruct Hc|done]).
    destruct (save_text_good rs n st1 _ Hg1 (utf16_saver (untag (ox_read_addr (rn_ctx st))))) as (st' & -> & H).
    exists st'. split; [by left|done].
  - destruct (save_ptr_text_good rs n st _ Hg utf16_saver) as (st' & -> & H). exists st'. split; [by left|done].
Qed.

(** ** The loop *)

Lemma fetch_next_good rs n st :
  good rs n st ->
  (exists op st', fetch_next tmod args st = Some (inl (op, st')) /\ good rs n st') \/ fetch_next tmod args st = Some (inr st).
Proof.
  intros [Hh Hc Hi]. unfold fetch_next. cbv zeta.
  destruct (Z.leb_spec (Z.of_nat (MAX_OP_COUNT tmod)) (ox_op_key_index (rn_ctx st))) as [|Hlt]; [by right|].
  pose proof Hc as [Hk _ _ _ _ _ _].
  destruct (lookup_lt_is_Some_2 (pa_op_key_list args) (Z.to_nat (ox_op_key_index (rn_ctx st)))) as [key ->]; [rewrite Hargs; lia|].
  cbn [mbind option_bind]. destruct (tm_op_list (rn_maps st) !! key) as [op|]; [|by right].
  left. eexists _, _. split; [done|]. split; [done| |done]. destruct Hc; split; cbn; try done. zlia.
Qed.

Lemma fetch_op_good rs n op st :
  good rs n st ->
  (exists op' st', fetch_op tmod args op st = Some (inl (op', st')) /\ good rs n st') \/
  fetch_op tmod args op st = Some (inr st).
Proof.
  intros Hg. unfold fetch_op. cbv zeta. destruct op as [op|]; [|by apply fetch_next_good].
  destruct (negb _); [|by apply fetch_next_good].
  left. eexists _, _. split; [done|]. destruct Hg as [Hh Hc Hi]. split; [done|by destruct Hc|done].
Qed.

Lemma read_args_end_good rs n st : good rs n st -> good rs n (read_args_end st).
Proof.
  intros [Hh Hc Hi]. unfold read_args_end. cbv zeta.
  destruct (_ =? 1); [|destruct (_ && _)]; (split; [done|by destruct Hc|done]).
Qed.

Lemma read_args_loop_good remaining op rs n st :
  good rs n st -> exists st', read_args_loop tmod m args regs remaining op st = Some st' /\ extends rs n st'.
Proof.
  revert op rs n st. induction remaining as [|remaining IH]; intros op rs n st Hg; cbn [read_args_loop].
  { eexists. split; [done|]. apply extends_refl. by apply read_args_end_good. }
  destruct (fetch_op_good rs n op st Hg) as [(op' & st1 & -> & Hg1)| ->]; cbn [mbind option_bind].
  2:{ eexists. split; [done|]. by apply extends_refl. }
  destruct (ox_op_code (rn_ctx st1) =? op_value OP_SKIP).
  { eexists. split; [done|]. apply extends_refl. by apply read_args_end_good. }
  assert (steps rs n (exec_code m regs op' st1)) as (st2 & Hout & Hext).
  { unfold exec_code. destruct (op_code_of _) as [code|]; [by apply exec_op_steps|].
    apply steps_next; [done|apply Hg1|done]. }
  destruct Hout as [-> | ->]; cbn [mbind option_bind]; [|by exists st2].
  apply (extends_trans rs n st2 (fun st' => _ = Some st') Hext). intros rs' n' Hg2.
  destruct (ox_match_blacklist (rn_ctx st2) =? 1); [|by apply IH].
  eexists. split; [done|]. apply extends_refl. by apply read_args_end_good.
Qed.
End spec.

(** ** What is submitted *)

Lemma length_context_bytes c : length (ec_comm c) = TASK_COMM_LEN -> length (context_bytes c) = Z.to_nat event_context_size.
Proof. intros H. unfold context_bytes. rewrite !length_app, !length_le_bytes, H. done. Qed.

Lemma submit_records ev id rs :
  holds ev rs -> length (ec_comm (ed_context ev)) = TASK_COMM_LEN ->
  (events_perf_submit ev id).2 = context_bytes ((ed_context ev) <| ec_eventid := id |>) ++ encode_records rs.
Proof.
  intros [Hl Ho Hb _] Hc. unfold events_perf_submit. cbv zeta. set (ev1 := ev <| ed_context ::= _ |>).
  change (ed_buf_off ev1) with (ed_buf_off ev). change (ed_args ev1) with (ed_args ev).
  change (ed_context ev1) with ((ed_context ev) <| ec_eventid := id |>). cbn [snd].
  set (c := (ed_context ev) <| ec_eventid := id |>). pose proof (length_context_bytes c Hc) as Hlc.
  unfold MAX_EVENT_SIZE, event_context_size, ARGS_BUF_SIZE in *.
  assert (u32 (56 + ed_buf_off ev) = 56 + ed_buf_off ev) as -> by zlia.
  assert ((if 56 + ed_buf_off ev <? 56 + 32000 then 56 + ed_buf_off ev else 56 + 32000) = 56 + ed_buf_off ev) as ->
    by (destruct (Z.ltb_spec (56 + ed_buf_off ev) (56 + 32000)); lia).
  rewrite take_app_ge by (rewrite Hlc; lia). f_equal. rewrite <- Hb. f_equal. rewrite Hlc. lia.
Qed.

(** ** Properties *)

(** C7: reading arguments always ends, inside its arrays, with a readable event.
    Whatever list of operations user space configured, loops included, whatever
    memory holds and whatever the context still held from an earlier call, the run
    ends without an access outside the buffer, the register set or the operation
    list; it only appends complete records, tagged in ascending order from the next
    tag on; and the bytes then submitted are the context and exactly these records,
    from which a reader who knows their kinds gets every record back. *)
Theorem read_args_records tmod m args regs st rs n id :
  Memory m -> length (pa_op_key_list args) = MAX_OP_COUNT tmod ->
  length (cr_regs regs) = 31%nat -> Forall (fun w => 0 <= w) (regs_words regs) ->
  holds (rn_event st) rs -> Forall well_sized rs -> ctx_typed (rn_ctx st) -> ox_save_index (rn_ctx st) = u8 n ->
  exists st' new k, read_args tmod m args regs st = Some st' /\ holds (rn_event st') (rs ++ new) /\
    tagged n k new /\ ox_save_index (rn_ctx st') = u8 k /\
    decode_records (kind_of <$> (rs ++ new)) (ed_args (rn_event st')) = Some (rs ++ new) /\
    (length (ec_comm (ed_context (rn_event st'))) = TASK_COMM_LEN ->
     exists header, length header = Z.to_nat event_context_size /\
       (events_perf_submit (rn_event st') id).2 = header ++ encode_records (rs ++ new)).
Proof.
  intros Hm Hargs Hregs Hwords Hh Hw Hc Hi. unfold read_args.
  destruct (read_args_loop_good tmod m args regs Hargs Hregs Hwords (MAX_OP_COUNT tmod) (tm_op_list (rn_maps st) !! 0)
    rs n st) as (st' & E & k & new & [Hh' _ Hi'] & Ht & Hw'); [by split|].
  exists st', new, k. split_and!; [done|done|done|done| |].
  - rewrite <- (take_drop (Z.to_nat (ed_buf_off (rn_event st'))) (ed_args (rn_event st'))), (ho_bytes _ _ Hh').
    apply decode_encode_records. by apply Forall_app.
  - intros Hcomm. eexists. split; [|by apply submit_records]. by apply length_context_bytes.
Qed.
