(* ===== verification/TraceLoop.v ===== *)
(** * Loops and comparisons of the argument operations

    How often the body between two [OP_FOR_BREAK] runs, also for the shipped loop over
    an array of texts, which ends itself, and what comparing a text through a shared
    map decides. *)

From stdpp Require Import gmap.
From S2P Require Import Prelude Trace TraceBuffer TraceOps TraceSpec.

(** ** Loops *)

(** The run after an operation was fetched. *)
Definition fetched (op : op_config) (st : run) : run :=
  st <| rn_ctx ::= fun ctx => ctx <| ox_op_code := oc_code op |> <| ox_post_code := oc_post_code op |>
                                  <| ox_op_key_index ::= fun i => u32 (i + 1) |> |>.

(** The same after it changed the context by [f]. *)
Definition after_op (f : op_ctx -> op_ctx) (op : op_config) (st : run) : run :=
  st <| rn_ctx ::= fun ctx => f (ctx <| ox_op_code := oc_code op |> <| ox_post_code := oc_post_code op |>
                                     <| ox_op_key_index ::= fun i => u32 (i + 1) |>) |>.

Abbreviation after_break := (after_op for_break).

Section loop.
Context (tmod : trace_module) (m : memory) (args : point_args) (regs : ctx_regs).

(** Where the loop stands: the key index, the two counts and the start. *)
Definition at_loop (key count break start : Z) (st : run) : Prop :=
  ox_op_key_index (rn_ctx st) = key /\ ox_loop_count (rn_ctx st) = count /\
  ox_break_count (rn_ctx st) = break /\ ox_loop_index (rn_ctx st) = start.

(** Nothing is pending and the call is not on the blacklist. *)
Definition settled (st : run) : Prop :=
  ox_post_code (rn_ctx st) = op_value OP_SKIP /\ ox_match_blacklist (rn_ctx st) <> 1.

(** The next [OP_FOR_BREAK] leaves the loop. *)
Definition ends (st : run) : Prop := ox_break_count (rn_ctx st) <= ox_loop_count (rn_ctx st).

(** A body of [len] rounds from [start] to [stop], with the effect [body], on runs of
    which [inv] holds: it falls through, and it either leaves the counts of the loop
    alone or ends the loop, as a pointer that leads nowhere does. *)
Record loop_body (start stop : Z) (len : nat) (body : run -> run) (inv : run -> Prop) (ops : gmap Z op_config) : Prop := {
  lb_run : forall op st rest count break index, inv st -> at_loop start count break index st -> settled st ->
    tm_op_list (rn_maps st) = ops ->
    exists op', read_args_loop tmod m args regs (len + rest) (Some op) st =
                read_args_loop tmod m args regs rest (Some op') (body st);
  lb_at : forall st count break index, inv st -> at_loop start count break index st -> settled st ->
    tm_op_list (rn_maps st) = ops ->
    inv (body st) /\ settled (body st) /\ tm_op_list (rn_maps (body st)) = ops /\
    exists count', at_loop stop count' break index (body st) /\ (count' = count \/ break <= count');
  lb_break : forall op st, inv st -> inv (after_break op st);
}.

(** An operation of one half at a position of the list. *)
Record op_at (key : Z) (op : op_config) (ops : gmap Z op_config) : Prop := {
  oa_range : 0 <= key < Z.of_nat (MAX_OP_COUNT tmod);
  oa_op : exists op_key, pa_op_key_list args !! Z.to_nat key = Some op_key /\ ops !! op_key = Some op;
  oa_post : oc_post_code op = op_value OP_SKIP;
}.

Definition break_at (key : Z) (op : op_config) (ops : gmap Z op_config) : Prop :=
  op_at key op ops /\ oc_code op = op_value OP_FOR_BREAK.

(** One round of the interpreter at such an operation. *)
Lemma op_round key op code ops rest opx st st2 :
  op_at key op ops -> oc_code op = op_value code -> code <> OP_SKIP ->
  exec_op m regs op code (fetched op st) = Some (inl st2) -> settled st2 ->
  settled st -> tm_op_list (rn_maps st) = ops -> ox_op_key_index (rn_ctx st) = key ->
  read_args_loop tmod m args regs (S rest) opx st = read_args_loop tmod m args regs rest (Some op) st2.
Proof.
  intros [Hr (op_key & Hk & Ho) Hp] Hc Hne Hexec [_ Hb2] [Hs Hb] Hops Hkey. cbn [read_args_loop].
  assert (fetch_op tmod args opx st = fetch_next tmod args st) as ->.
  { unfold fetch_op. destruct opx as [opx|]; [|done]. by rewrite Hs, Z.eqb_refl. }
  unfold fetch_next. cbv zeta. rewrite Hkey, (proj2 (Z.leb_gt _ _)), Hk by lia. cbn [mbind option_bind].
  rewrite Hops, Ho. cbn [mbind option_bind]. set (st1 := st <| rn_ctx := _ |>).
  assert (st1 = fetched op st) as Hst1 by (unfold st1, fetched; rewrite Hkey || idtac; by destruct st).
  change (ox_op_code (rn_ctx st1)) with (oc_code op). rewrite Hc.
  assert ((op_value code =? op_value OP_SKIP) = false) as -> by (by destruct code). cbn iota.
  unfold exec_code. change (ox_op_code (rn_ctx st1)) with (oc_code op). rewrite Hc, op_code_of_value, Hst1, Hexec.
  cbn [mbind option_bind]. by rewrite eqb_ne by done.
Qed.

Lemma next_round key op code f ops rest opx st :
  op_at key op ops -> oc_code op = op_value code -> code <> OP_SKIP ->
  (forall st, exec_op m regs op code st = next f st) ->
  (forall ctx, ox_match_blacklist (f ctx) = ox_match_blacklist ctx /\ ox_post_code (f ctx) = ox_post_code ctx) ->
  settled st -> tm_op_list (rn_maps st) = ops -> ox_op_key_index (rn_ctx st) = key ->
  read_args_loop tmod m args regs (S rest) opx st = read_args_loop tmod m args regs rest (Some op) (after_op f op st) /\
  settled (after_op f op st).
Proof.
  intros Hat Hc Hne Hexec Hf Hs Hops Hkey.
  assert (settled (after_op f op st)) as Hset.
  { destruct Hs as [Hs Hb], Hat as [_ _ Hp]. unfold after_op. split; cbn [rn_ctx field_update].
    - etransitivity; [apply Hf|]. exact Hp.
    - intros E. apply Hb. rewrite <- E. symmetry. etransitivity; [apply Hf|done]. }
  split; [|done]. by eapply op_round; try apply Hexec.
Qed.

Lemma for_break_fields ctx :
  let key := if ox_loop_count ctx =? 0 then ox_op_key_index ctx else ox_loop_index ctx in
  let over := ox_break_count ctx <=? ox_loop_count ctx in
  ox_op_key_index (for_break ctx) = (if over then ox_op_key_index ctx else key) /\
  ox_loop_count (for_break ctx) = (if over then 0 else u8 (ox_loop_count ctx + 1)) /\
  ox_break_count (for_break ctx) = (if over then 0 else ox_break_count ctx) /\
  ox_loop_index (for_break ctx) = (if over then 0 else key).
Proof.
  cbv zeta. unfold for_break. cbv zeta. destruct (ox_loop_count ctx =? 0) eqn:E; cbn; rewrite ?E;
    destruct (ox_break_count ctx <=? ox_loop_count ctx); done.
Qed.

(** The same for the run behind an [OP_FOR_BREAK] fetched at [key]. *)
Lemma after_break_at op st key count break index :
  at_loop key count break index st ->
  let start := if count =? 0 then u32 (key + 1) else index in
  at_loop (if break <=? count then u32 (key + 1) else start) (if break <=? count then 0 else u8 (count + 1))
    (if break <=? count then 0 else break) (if break <=? count then 0 else start) (after_break op st).
Proof.
  intros (Hk & Hc & Hb & Hi). cbv zeta. unfold at_loop, after_op. cbn [rn_ctx field_update].
  set (ctx := (rn_ctx st) <| ox_op_code := _ |> <| ox_post_code := _ |> <| ox_op_key_index ::= _ |>).
  assert (ox_op_key_index ctx = u32 (key + 1) /\ ox_loop_count ctx = count /\ ox_break_count ctx = break /\ ox_loop_index ctx = index)
    as (E1 & E2 & E3 & E4) by (split_and!; try done; unfold ctx; cbn; by rewrite Hk).
  destruct (for_break_fields ctx) as (F1 & F2 & F3 & F4). rewrite E1, E2, E3, E4 in *. by split_and!.
Qed.

Lemma for_break_flags ctx :
  ox_match_blacklist (for_break ctx) = ox_match_blacklist ctx /\ ox_post_code (for_break ctx) = ox_post_code ctx.
Proof. unfold for_break. destruct (_ =? 0); destruct (_ <=? _); done. Qed.

Lemma break_round key op ops rest opx st :
  break_at key op ops -> settled st -> tm_op_list (rn_maps st) = ops -> ox_op_key_index (rn_ctx st) = key ->
  read_args_loop tmod m args regs (S rest) opx st = read_args_loop tmod m args regs rest (Some op) (after_break op st) /\
  settled (after_break op st) /\ rn_maps (after_break op st) = rn_maps st.
Proof.
  intros [Hat Hc] Hs Hops Hk.
  destruct (next_round key op OP_FOR_BREAK for_break ops rest opx st) as [H1 H2]; try done. apply for_break_flags.
Qed.

Lemma after_break_next key op ops st count break start :
  break_at key op ops -> at_loop key count break start st -> 0 < count < break -> break <= MAX_LOOP_COUNT ->
  at_loop start (count + 1) break start (after_break op st).
Proof.
  intros _ Hat Hlt Hmax. pose proof (after_break_at op st _ _ _ _ Hat) as H. cbv zeta in H.
  rewrite (proj2 (Z.leb_gt break count)), (eqb_ne count 0) in H by lia.
  assert (u8 (count + 1) = count + 1) as E by (unfold MAX_LOOP_COUNT in *; zlia). by rewrite E in H.
Qed.

Lemma after_break_last key op ops st count break start :
  break_at key op ops -> at_loop key count break start st -> break <= count ->
  at_loop (key + 1) 0 0 0 (after_break op st).
Proof.
  intros [[Hr _ _] _] Hat Hlt. pose proof (after_break_at op st _ _ _ _ Hat) as H. cbv zeta in H.
  rewrite (proj2 (Z.leb_le break count)) in H by lia.
  assert (u32 (key + 1) = key + 1) as E by (destruct tmod; cbn in Hr; zlia). by rewrite E in H.
Qed.

(** A pass: the body and the [OP_FOR_BREAK] behind it. *)
Definition pass (body : run -> run) (op : op_config) (st : run) : run := after_break op (body st).

(** [k] more passes lead out of the loop: each but the last leaves the counts as they
    are, and the last one has reached the count or ends the loop itself. *)
Definition leaves_after (k : nat) (body : run -> run) (op : op_config) (st : run) (count break : Z) : Prop :=
  (forall i, (S i < k)%nat -> ~ ends (body (Nat.iter i (pass body op) st))) /\
  (forall i, (i < k)%nat -> ox_loop_count (rn_ctx (Nat.iter i (pass body op) st)) = count + Z.of_nat i) /\
  let last := Nat.iter (Nat.pred k) (pass body op) st in
  ends (body last) /\ ox_break_count (rn_ctx (body last)) = break.

Lemma passes_run left start stop len body inv op2 ops rest opx st count break :
  loop_body start stop len body inv ops -> break_at stop op2 ops -> inv st ->
  at_loop start count break start st -> settled st -> tm_op_list (rn_maps st) = ops ->
  0 < count -> break <= MAX_LOOP_COUNT -> count + Z.of_nat left = break ->
  exists k opx', (1 <= k <= S left)%nat /\
    read_args_loop tmod m args regs (k * S len + rest) (Some opx) st =
    read_args_loop tmod m args regs rest (Some opx') (Nat.iter k (pass body op2) st) /\
    at_loop (stop + 1) 0 0 0 (Nat.iter k (pass body op2) st) /\ leaves_after k body op2 st count break.
Proof.
  intros Hbody Hop2. revert opx st count. induction left as [|left IH]; intros opx st count Hinv Hat Hset Hops Hc Hmax Hsum.
  all: pose proof (fun rest => lb_run _ _ _ _ _ _ Hbody opx st rest count break start Hinv Hat Hset Hops) as Hrun.
  all: destruct (lb_at _ _ _ _ _ _ Hbody st count break start Hinv Hat Hset Hops) as (Hinv' & Hset' & Hops' & count' & Hat' & Hcount).
  all: pose proof (fun rest opx => break_round stop op2 ops rest opx (body st) Hop2 Hset' Hops' ltac:(apply Hat')) as Hround.
  all: pose proof Hat as (_ & Hlc & Hbc & _); pose proof Hat' as (_ & Hlc' & Hbc' & _).
  all: destruct (Z.le_gt_cases break count') as [Hend|Hgo]; [clear IH || idtac|].
  1,3: exists 1%nat; destruct (Hrun (S rest)) as [op' Hr]; exists op2;
    replace (1 * S len + rest)%nat with (len + S rest)%nat by lia; rewrite Hr, (proj1 (Hround rest (Some op')));
    (split_and!; [lia|lia|done|by apply (after_break_last stop op2 ops (body st) count' break start)|]);
    (unfold leaves_after; cbv zeta; split_and!; [lia|intros i Hi; replace i with 0%nat by lia; cbn; lia|cbn; unfold ends; by rewrite Hlc', Hbc'|done]).
  - lia.
  - destruct Hcount as [-> |?]; [|lia].
    pose proof (after_break_next stop op2 ops (body st) count break start Hop2 Hat' ltac:(lia) Hmax) as Hat2.
    destruct (Hround 0%nat None) as (_ & Hset2 & Hmaps2).
    destruct (IH op2 (pass body op2 st) (count + 1)) as (k & opx' & Hk & Hrest & Hend & Hfirst & Hcounts & Hlast & Hbreak);
      [by apply (lb_break _ _ _ _ _ _ Hbody)|done|done|unfold pass; by rewrite Hmaps2|lia|lia|lia|].
    exists (S k), opx'. rewrite Nat.iter_succ_r.
    replace (S k * S len + rest)%nat with (len + S (k * S len + rest))%nat by lia.
    destruct (Hrun (S (k * S len + rest))) as [op' Hr]. rewrite Hr, (proj1 (Hround _ (Some op'))).
    split_and!; [lia|lia|exact Hrest|exact Hend|].
    unfold leaves_after. cbv zeta. split_and!.
    + intros [|i] Hi; [cbn; unfold ends; rewrite Hlc', Hbc'; lia|]. rewrite Nat.iter_succ_r. apply Hfirst. lia.
    + intros [|i] Hi; [cbn; lia|]. rewrite Nat.iter_succ_r, Hcounts by lia. lia.
    + destruct k as [|k]; [lia|]. cbn [Nat.pred] in *. by rewrite Nat.iter_succ_r.
    + destruct k as [|k]; [lia|]. cbn [Nat.pred] in *. by rewrite Nat.iter_succ_r.
Qed.
End loop.

(** C30: a loop runs its body up to its count, but at least once. Let the interpreter
    stand at the first [OP_FOR_BREAK] with the count set, and let the body fall
    through and either leave the counts of the loop alone or end the loop, as saving a
    text through a pointer does that leads nowhere. Then there is a number of passes,
    from 1 up to the count (and 1 when the count is 0), such that, with enough rounds
    left for them, the interpreter is the one behind the second [OP_FOR_BREAK], outside
    the loop, after that many passes through the body. No pass before the last ends the
    loop, and there are fewer than the count only when the last one ended the loop
    itself: a body that never does runs exactly as often as the count says. *)
Theorem loop_body_runs tmod m args regs start stop len body inv op1 op2 ops opx st count :
  loop_body tmod m args regs start stop len body inv ops ->
  break_at tmod args (start - 1) op1 ops -> break_at tmod args stop op2 ops -> inv st ->
  at_loop (start - 1) 0 count (ox_loop_index (rn_ctx st)) st -> settled st -> tm_op_list (rn_maps st) = ops ->
  0 <= count <= MAX_LOOP_COUNT ->
  let st1 := after_break op1 st in
  exists passes, (1 <= passes)%nat /\ Z.of_nat passes <= Z.max 1 count /\
    let st2 := Nat.iter passes (pass body op2) st1 in
    (forall rest, exists opx', read_args_loop tmod m args regs (1 + passes * S len + rest) opx st =
       read_args_loop tmod m args regs rest (Some opx') st2) /\
    at_loop (stop + 1) 0 0 0 st2 /\
    (forall i, (S i < passes)%nat -> ~ ends (body (Nat.iter i (pass body op2) st1))) /\
    let last := Nat.iter (Nat.pred passes) (pass body op2) st1 in
    ends (body last) /\
    (Z.of_nat passes < Z.max 1 count -> ox_loop_count (rn_ctx last) < ox_loop_count (rn_ctx (body last))).
Proof.
  intros Hbody H1 H2 Hinv Hat Hset Hops Hcount st1. pose proof Hat as (Hk & _ & _ & _).
  pose proof (after_break_at op1 st _ _ _ _ Hat) as Hat1. cbv zeta in Hat1. cbn [Z.eqb] in Hat1. fold st1 in Hat1.
  pose proof (fun rest => break_round tmod m args regs (start - 1) op1 ops rest opx st H1 Hset Hops Hk) as Hround1.
  fold st1 in Hround1. destruct (Hround1 0%nat) as (_ & Hset1 & Hmaps1).
  assert (inv st1) as Hinv1 by (by apply (lb_break _ _ _ _ _ _ _ _ _ _ Hbody)).
  assert (u32 (start - 1 + 1) = start) as Hstart
    by (pose proof (oa_range _ _ _ _ _ (proj1 H1)) as Hr; destruct tmod; cbn in Hr; zlia).
  rewrite Hstart in Hat1. destruct (Z.eq_dec count 0) as [->|Hne].
  - change (0 <=? 0) with true in Hat1. cbn iota in Hat1. exists 1%nat. cbv zeta. cbn [Nat.pred Nat.iter nat_rect].
    destruct (lb_at _ _ _ _ _ _ _ _ _ _ Hbody st1 0 0 0 Hinv1 Hat1 Hset1 ltac:(by rewrite Hmaps1))
      as (Hinv2 & Hset2 & Hops2 & count' & Hat2 & Hcount').
    assert (0 <= count') by (destruct Hcount'; lia).
    split_and!; [lia|lia| |by apply (after_break_last tmod args stop op2 ops _ count' 0 0)|lia
      |destruct Hat2 as (_ & E1 & E2 & _); unfold ends; by rewrite E1, E2|lia].
    intros rest. destruct (lb_run _ _ _ _ _ _ _ _ _ _ Hbody op1 st1 (S rest) 0 0 0 Hinv1 Hat1 Hset1 ltac:(by rewrite Hmaps1))
      as [op' Hrun].
    destruct (break_round tmod m args regs stop op2 ops rest (Some op') _ H2 Hset2 Hops2 ltac:(apply Hat2)) as (Hround2 & _ & _).
    exists op2. replace (1 + 1 * S len + rest)%nat with (S (len + S rest)) by lia.
    by rewrite (proj1 (Hround1 _)), Hrun, Hround2.
  - rewrite (proj2 (Z.leb_gt count 0)) in Hat1 by lia. change (u8 (0 + 1)) with 1 in Hat1.
    pose proof (fun rest => passes_run tmod m args regs (Z.to_nat (count - 1)) start stop len body inv op2 ops rest op1 st1 1 count
      Hbody H2 Hinv1 Hat1 Hset1 ltac:(by rewrite Hmaps1) ltac:(lia) ltac:(lia) ltac:(lia)) as Hp.
    destruct (Hp 0%nat) as (k & _ & Hkr & _ & Hend & Hfirst & Hcounts & Hlast & Hbreak). exists k. cbv zeta.
    split_and!; [lia|lia| |exact Hend|exact Hfirst|exact Hlast|].
    + intros rest. destruct (Hp rest) as (k' & opx' & Hkr' & Hrun & _ & Hfirst' & _ & Hlast' & _).
      assert (k' = k) as ->.
      { destruct (lt_eq_lt_dec k k') as [[Hlt| ->]|Hlt]; [|done|].
        - destruct (Hfirst' (Nat.pred k)); [lia|done].
        - destruct (Hfirst (Nat.pred k')); [lia|done]. }
      exists opx'. change (1 + k * S len + rest)%nat with (S (k * S len + rest)). by rewrite (proj1 (Hround1 _)).
    + intros Hlt. set (last := Nat.iter (Nat.pred k) _ _) in *. unfold ends in Hlast.
      assert (ox_loop_count (rn_ctx last) = Z.of_nat k) as -> by (unfold last; rewrite Hcounts by lia; lia).
      assert (ox_break_count (rn_ctx (body last)) = count) as <- by exact Hbreak. lia.
Qed.

(** ** The loop over an array of texts *)

(** Saving a text through a pointer changes the event and the next tag, and it either
    keeps the count of the loop or sets it to where the loop ends. *)
Lemma save_ptr_text_frame m save st st' :
  save_ptr_text m save st = Some st' ->
  rn_maps st' = rn_maps st /\
  exists index count, rn_ctx st' = (rn_ctx st) <| ox_save_index := index |> <| ox_loop_count := count |> /\
    (count = ox_loop_count (rn_ctx st) \/ count = ox_break_count (rn_ctx st)).
Proof.
  unfold save_ptr_text. cbv zeta. unfold save_value. destruct (save_to_submit_buf _ _ _ _) as [[r ev]|]; [|done].
  cbn [mbind option_bind]. destruct (save _ _ _) as [[status ev2]|]; [|done]. cbn [mbind option_bind].
  destruct (status =? 0).
  - destruct (save_bytes_to_buf _ _ _ _) as [[r3 ev3]|]; [|done]. cbn [mbind option_bind]. intros [= <-].
    split; [done|]. exists (u8 (u8 (ox_save_index (rn_ctx st) + 1) + 1)), (ox_break_count (rn_ctx st)). split; [|by right].
    by destruct st as [e c mp], c.
  - intros [= <-]. split; [done|]. exists (u8 (u8 (ox_save_index (rn_ctx st) + 1) + 1)), (ox_loop_count (rn_ctx st)).
    split; [|by left]. by destruct st as [e c mp], c.
Qed.

(** A run with a well-formed event. *)
Definition recording (st : run) : Prop := exists rs n, good rs n st.

Lemma after_op_recording f op st :
  (forall ctx, ctx_typed ctx -> ctx_typed (f ctx) /\ ox_save_index (f ctx) = ox_save_index ctx) ->
  recording st -> recording (after_op f op st).
Proof.
  intros Hf (rs & n & [Hh Hc Hi]). exists rs, n. unfold after_op.
  set (ctx := (rn_ctx st) <| ox_op_code := oc_code op |> <| ox_post_code := oc_post_code op |> <| ox_op_key_index ::= fun i => u32 (i + 1) |>).
  assert (ctx_typed ctx) as Hctx by (destruct Hc; unfold ctx; split; cbn; try done; zlia).
  destruct (Hf ctx Hctx) as [H1 H2]. split; [done|exact H1|]. etransitivity; [exact H2|exact Hi].
Qed.

Lemma fetched_recording op st : recording st -> recording (fetched op st).
Proof. intros H. apply (after_op_recording id op st) in H; [exact H|]. by intros. Qed.

Lemma for_break_records ctx : ctx_typed ctx -> ctx_typed (for_break ctx) /\ ox_save_index (for_break ctx) = ox_save_index ctx.
Proof. intros []. unfold for_break. destruct (_ =? 0), (_ <=? _); by repeat split. Qed.

Section string_array.
Context (tmod : trace_module) (m : memory) `{!Memory m} (args : point_args) (regs : ctx_regs).

Definition string_saver (ev : event_data) (ptr : Z) : Z -> option (Z * event_data) :=
  save_str_to_buf ev (me_read_str m ptr).

Definition step_offset (op : op_config) (ctx : op_ctx) : op_ctx := ctx <| ox_read_addr ::= fun a => u64 (a + oc_value op) |>.

(** What one pass of user/argtype/argtype_complex.go's string array does: the text
    behind the pointer, then the next pointer. *)
Definition string_array_step (op1 op2 : op_config) (st : run) : run :=
  match save_ptr_text m string_saver (fetched op1 st) with
  | Some st' => after_op (step_offset op2) op2 st'
  | None => st
  end.

Lemma string_array_saves op st :
  recording st -> exists st', save_ptr_text m string_saver (fetched op st) = Some st' /\ recording st'.
Proof.
  intros H%(fetched_recording op). destruct H as (rs & n & Hg).
  destruct (save_ptr_text_good m rs n (fetched op st) string_saver Hg) as (st' & Hst & k & new & Hg' & _);
    [intros address; by apply str_saver|]. exists st'. split; [done|]. by exists (rs ++ new), k.
Qed.

Lemma string_array_body start op1 op2 ops :
  op_at tmod args start op1 ops -> oc_code op1 = op_value OP_SAVE_PTR_STRING ->
  op_at tmod args (start + 1) op2 ops -> oc_code op2 = op_value OP_ADD_OFFSET ->
  loop_body tmod m args regs start (start + 2) 2 (string_array_step op1 op2) recording ops.
Proof.
  intros H1 Hc1 H2 Hc2.
  assert (u32 (start + 1) = start + 1 /\ u32 (start + 1 + 1) = start + 2) as [E1 E2]
    by (pose proof (oa_range _ _ _ _ _ H1); pose proof (oa_range _ _ _ _ _ H2); destruct tmod; cbn in *; split; zlia).
  (* The run between the two operations. *)
  assert (forall st count break index, recording st -> at_loop start count break index st -> settled st ->
    tm_op_list (rn_maps st) = ops ->
    exists st', save_ptr_text m string_saver (fetched op1 st) = Some st' /\ recording st' /\ settled st' /\
      tm_op_list (rn_maps st') = ops /\
      exists count', at_loop (start + 1) count' break index st' /\ (count' = count \/ break <= count')) as Hmid.
  { intros st count break index Hst (Hk & Hlc & Hbc & Hli) [_ Hbl] Hops.
    destruct (string_array_saves op1 st Hst) as (st' & Hsave & Hrec). exists st'.
    destruct (save_ptr_text_frame m string_saver _ _ Hsave) as (Hmaps & i & count' & Hctx & Hcount).
    split_and!; [done|done| |by rewrite Hmaps|exists count'].
    - split; rewrite Hctx; [exact (oa_post _ _ _ _ _ H1)|exact Hbl].
    - change (ox_loop_count (rn_ctx (fetched op1 st))) with (ox_loop_count (rn_ctx st)) in Hcount.
      change (ox_break_count (rn_ctx (fetched op1 st))) with (ox_break_count (rn_ctx st)) in Hcount.
      split; [|lia]. split_and!; rewrite Hctx; [|done|done|done].
      change (u32 (ox_op_key_index (rn_ctx st) + 1) = start + 1). by rewrite Hk. }
  assert (forall st rest opx, settled st -> tm_op_list (rn_maps st) = ops -> ox_op_key_index (rn_ctx st) = start + 1 ->
    read_args_loop tmod m args regs (S rest) opx st = read_args_loop tmod m args regs rest (Some op2) (after_op (step_offset op2) op2 st) /\
    settled (after_op (step_offset op2) op2 st)) as Hstep.
  { intros st rest opx. by apply (next_round tmod m args regs (start + 1) op2 OP_ADD_OFFSET (step_offset op2) ops rest opx st). }
  split.
  - intros op st rest count break index Hst Hat Hset Hops.
    destruct (Hmid st count break index Hst Hat Hset Hops) as (st' & Hsave & Hrec & Hset' & Hops' & count' & Hat' & _).
    exists op2. unfold string_array_step. rewrite Hsave. change (2 + rest)%nat with (S (S rest)).
    rewrite <- (proj1 (Hstep st' rest (Some op1) Hset' Hops' ltac:(apply Hat'))).
    eapply (op_round tmod m args regs start op1 OP_SAVE_PTR_STRING ops); try done; [|apply Hat].
    cbn [exec_op]. change (fun ev ptr => save_str_to_buf ev (me_read_str m ptr)) with string_saver. by rewrite Hsave.
  - intros st count break index Hst Hat Hset Hops.
    destruct (Hmid st count break index Hst Hat Hset Hops) as (st' & Hsave & Hrec & Hset' & Hops' & count' & Hat' & Hcount).
    unfold string_array_step. rewrite Hsave. destruct Hat' as (Hk & Hlc & Hbc & Hli).
    split_and!; [apply after_op_recording; [by intros ctx []|done]|apply (Hstep st' 0%nat None Hset' Hops' Hk)|done|].
    exists count'. split; [|done]. split_and!; [|done|done|done].
    change (u32 (ox_op_key_index (rn_ctx st') + 1) = start + 2). by rewrite Hk.
  - intros op st. apply after_op_recording, for_break_records.
Qed.
End string_array.

(** ** A loop of steps of eight bytes *)

Definition plain_op (code : op_code_e) (value : Z) : op_config :=
  {| oc_code := op_value code; oc_pre_code := op_value OP_SKIP; oc_post_code := op_value OP_SKIP; oc_value := value |}.

Definition demo_ops : gmap Z op_config :=
  {[ 0 := plain_op OP_SKIP 0; 1 := plain_op OP_FOR_BREAK 0; 2 := plain_op OP_ADD_OFFSET 8 ]}.

Definition demo_args : point_args :=
  {| pa_enter_key := 0; pa_signal := 0; pa_op_count := 4; pa_op_key_list := [1; 2; 1] ++ replicate 253 0 |}.

Definition demo_memory : memory :=
  {| me_read := fun _ n => (0, replicate n 0); me_read_user := fun _ n => (0, replicate n 0);
     me_read_str := fun _ n => (0, replicate n 0) |}.

Definition zero_op_ctx : op_ctx :=
  {| ox_save_index := 0; ox_reg_index := 0; ox_loop_count := 0; ox_break_count := 0; ox_apply_filter := 0;
     ox_skip_flag := 0; ox_match_whitelist := 0; ox_match_blacklist := 0; ox_loop_index := 0; ox_op_key_index := 0;
     ox_op_code := 0; ox_post_code := 0; ox_str_len := 0; ox_read_len := 0; ox_read_addr := 0; ox_reg_value := 0;
     ox_pointer_value := 0; ox_tmp_value := 0; ox_reg_0 := 0 |}.

Definition empty_maps : trace_maps :=
  {| tm_ctx_regs := ∅; tm_child_parent := ∅; tm_common_filter := None; tm_common_list := ∅; tm_thread_filter := ∅;
     tm_arg_filter := ∅; tm_str_buf := ∅; tm_op_list := ∅; tm_uprobe_point_args := ∅; tm_sysenter_point_args := ∅;
     tm_sysexit_point_args := ∅; tm_base_config := {| ce_stackplz_pid := 1; ce_thread_whitelist := 0 |} |}.

Definition empty_event : event_data :=
  {| ed_context := {| ec_ts := 0; ec_eventid := 0; ec_host_tid := 0; ec_host_pid := 0; ec_tid := 0; ec_pid := 0;
                      ec_uid := 0; ec_comm := replicate 16 0; ec_argnum := 0 |};
     ed_args := replicate (Z.to_nat ARGS_BUF_SIZE) 0; ed_buf_off := 0 |}.

Definition demo_run (count : Z) : run :=
  {| rn_event := empty_event;
     rn_ctx := zero_op_ctx <| ox_post_code := op_value OP_SKIP |> <| ox_break_count := count |> <| ox_read_addr := 4096 |>;
     rn_maps := empty_maps <| tm_op_list := demo_ops |> |}.

Definition demo_step : run -> run :=
  after_op (fun ctx => ctx <| ox_read_addr ::= fun a => u64 (a + 8) |>) (plain_op OP_ADD_OFFSET 8).

Lemma demo_body : loop_body MODULE_SYSCALL demo_memory demo_args zero_ctx_regs 1 2 1 demo_step (fun _ => True) demo_ops.
Proof.
  assert (op_at MODULE_SYSCALL demo_args 1 (plain_op OP_ADD_OFFSET 8) demo_ops) as Hop.
  { split; [cbn; lia|by exists 2|done]. }
  split; [| |done].
  - intros op st rest count break index _ (Hk & _) Hs Hops.
    destruct (next_round MODULE_SYSCALL demo_memory demo_args zero_ctx_regs 1 _ OP_ADD_OFFSET
      (fun ctx => ctx <| ox_read_addr ::= fun a => u64 (a + 8) |>) demo_ops rest (Some op) st Hop) as [H _]; try done.
    by eexists.
  - intros st count break index _ (Hk & Hc & Hb & Hi) [Hp Hbl] Hops.
    split_and!; [done|done|done|exists count; split; [split_and!|by left]]; try done. cbn. by rewrite Hk.
Qed.

Lemma demo_breaks : break_at MODULE_SYSCALL demo_args 0 (plain_op OP_FOR_BREAK 0) demo_ops /\
  break_at MODULE_SYSCALL demo_args 2 (plain_op OP_FOR_BREAK 0) demo_ops.
Proof. split; (split; [split; [cbn; lia|by exists 1|done]|done]). Qed.

(** Memory that reads as one text at every address from 4096 on. *)
Definition demo_text : list Z := str "hello" ++ [0].

Definition text_memory : memory :=
  {| me_read := fun a n => if a <? 4096 then (- EFAULT, replicate n 0) else (0, take n (demo_text ++ replicate n 0));
     me_read_user := fun _ n => (0, replicate n 0);
     me_read_str := fun a n =>
       if a <? 4096 then (- EFAULT, replicate n 0) else (Z.min 6 (Z.of_nat n), take n (demo_text ++ replicate n 0)) |}.

Lemma demo_bytes_length n : length (take n (demo_text ++ replicate n 0)) = n.
Proof. rewrite length_take, length_app, length_replicate. lia. Qed.

#[export] Instance text_memory_ok : Memory text_memory.
Proof.
  split; intros a n; cbn [me_read me_read_user me_read_str text_memory snd].
  - destruct (a <? 4096); [apply length_replicate|apply demo_bytes_length].
  - apply length_replicate.
  - apply Forall_replicate. lia.
  - destruct (a <? 4096); [apply length_replicate|apply demo_bytes_length].
  - intros Hn. destruct (a <? 4096); cbn [fst]; unfold EFAULT; lia.
Qed.

(** The texts behind an array of two pointers at 4096 and nothing behind it. *)
Definition array_memory : memory :=
  {| me_read := me_read demo_memory;
     me_read_user := fun a n => (0, take n (le_bytes 8 (if a <? 4112 then 8192 else 0) ++ replicate n 0));
     me_read_str := me_read_str text_memory |}.

#[export] Instance array_memory_ok : Memory array_memory.
Proof.
  pose proof text_memory_ok as [_ _ _ H4 H5].
  split; intros a n; [apply length_replicate| | |apply H4|apply H5]; cbn [me_read_user array_memory snd].
  - rewrite length_take, length_app, length_replicate. lia.
  - apply Forall_take, Forall_app. split; [apply le_bytes_bytes|apply Forall_replicate; lia].
Qed.

(** The operations the command registers for an array of texts. *)
Definition array_ops : gmap Z op_config :=
  {[ 0 := plain_op OP_SKIP 0; 1 := plain_op OP_SET_BREAK_COUNT 32; 2 := plain_op OP_FOR_BREAK 0;
     3 := plain_op OP_SAVE_PTR_STRING 0; 4 := plain_op OP_ADD_OFFSET 8 ]}.

Definition array_args : point_args :=
  {| pa_enter_key := 0; pa_signal := 0; pa_op_count := 6; pa_op_key_list := [1; 2; 3; 4; 2] ++ replicate 251 0 |}.

Definition array_run : run :=
  {| rn_event := empty_event;
     rn_ctx := zero_op_ctx <| ox_post_code := op_value OP_SKIP |> <| ox_break_count := 32 |> <| ox_read_addr := 4096 |>
                           <| ox_op_key_index := 1 |>;
     rn_maps := empty_maps <| tm_op_list := array_ops |> |}.

Lemma empty_event_holds : holds empty_event [].
Proof. split; [apply length_replicate|cbn; unfold ARGS_BUF_SIZE; lia|done|done]. Qed.

Lemma array_breaks : break_at MODULE_SYSCALL array_args (2 - 1) (plain_op OP_FOR_BREAK 0) array_ops /\
  break_at MODULE_SYSCALL array_args 4 (plain_op OP_FOR_BREAK 0) array_ops.
Proof. split; (split; [split; [cbn; lia|by exists 2|done]|done]). Qed.

Lemma array_body :
  loop_body MODULE_SYSCALL array_memory array_args zero_ctx_regs 2 4 2
    (string_array_step array_memory (plain_op OP_SAVE_PTR_STRING 0) (plain_op OP_ADD_OFFSET 8)) recording array_ops.
Proof.
  apply (string_array_body MODULE_SYSCALL array_memory array_args zero_ctx_regs 2); [|done| |done].
  - split; [cbn; lia|by exists 3|done].
  - split; [cbn; lia|by exists 4|done].
Qed.

Lemma array_recording : recording array_run.
Proof.
  exists [], 0.
  split; [apply empty_event_holds|by split|done].
Qed.

(** This body leaves the counts alone, so the number of passes is the count: three
    move the address by 24 bytes, none asked for still move it by 8. The array of texts
    ends its loop itself: of the 32 passes it asks for it makes three, the third of
    which finds no pointer. *)
Lemma loop_body_runs_witness :
  (exists op st, read_args_loop MODULE_SYSCALL demo_memory demo_args zero_ctx_regs 256 None (demo_run 3) =
     read_args_loop MODULE_SYSCALL demo_memory demo_args zero_ctx_regs 249 (Some op) st /\
     ox_read_addr (rn_ctx st) = 4096 + 24) /\
  (exists op st, read_args_loop MODULE_SYSCALL demo_memory demo_args zero_ctx_regs 256 None (demo_run 0) =
     read_args_loop MODULE_SYSCALL demo_memory demo_args zero_ctx_regs 253 (Some op) st /\
     ox_read_addr (rn_ctx st) = 4096 + 8) /\
  (exists op st, read_args_loop MODULE_SYSCALL array_memory array_args zero_ctx_regs 256 None array_run =
     read_args_loop MODULE_SYSCALL array_memory array_args zero_ctx_regs 246 (Some op) st /\
     ox_op_key_index (rn_ctx st) = 5 /\ ec_argnum (ed_context (rn_event st)) = 6).
Proof.
  destruct demo_breaks as [H1 H2]. split_and!.
  - destruct (loop_body_runs MODULE_SYSCALL demo_memory demo_args zero_ctx_regs 1 2 1 demo_step _ _ _ demo_ops None
      (demo_run 3) 3 demo_body H1 H2 I ltac:(split_and!; reflexivity) ltac:(split; [reflexivity|discriminate]) eq_refl
      ltac:(unfold MAX_LOOP_COUNT; lia)) as (passes & Hp & Hmax & Hrun & _ & _ & _ & Hall).
    assert (passes = 3%nat) as ->.
    { destruct (Z.lt_ge_cases (Z.of_nat passes) (Z.max 1 3)) as [Hlt|Hge]; [|lia].
      specialize (Hall Hlt). unfold demo_step, after_op in Hall. cbn [rn_ctx field_update ox_loop_count] in Hall. lia. }
    destruct (Hrun 249%nat) as [op H]. exists op. eexists. split; [exact H|reflexivity].
  - destruct (loop_body_runs MODULE_SYSCALL demo_memory demo_args zero_ctx_regs 1 2 1 demo_step _ _ _ demo_ops None
      (demo_run 0) 0 demo_body H1 H2 I ltac:(split_and!; reflexivity) ltac:(split; [reflexivity|discriminate]) eq_refl
      ltac:(unfold MAX_LOOP_COUNT; lia)) as (passes & Hp & Hmax & Hrun & _).
    assert (passes = 1%nat) as -> by lia.
    destruct (Hrun 253%nat) as [op H]. exists op. eexists. split; [exact H|reflexivity].
  - destruct (loop_body_runs MODULE_SYSCALL array_memory array_args zero_ctx_regs 2 4 2
      (string_array_step array_memory (plain_op OP_SAVE_PTR_STRING 0) (plain_op OP_ADD_OFFSET 8)) _ _ _ array_ops None array_run 32
      array_body (proj1 array_breaks) (proj2 array_breaks) array_recording
      ltac:(split_and!; reflexivity) ltac:(split; [reflexivity|discriminate]) eq_refl
      ltac:(unfold MAX_LOOP_COUNT; lia)) as (passes & Hp & Hmax & Hrun & _ & Hfirst & Hlast & _).
    assert (passes = 3%nat) as ->.
    { destruct passes as [|[|[|[|passes]]]]; [lia| | |done|].
      - exfalso. vm_compute in Hlast. by apply Hlast.
      - exfalso. vm_compute in Hlast. by apply Hlast.
      - destruct (Hfirst 2%nat); [lia|]. vm_compute. discriminate. }
    destruct (Hrun 246%nat) as [op H]. exists op. eexists. split; [exact H|]. split; vm_compute; reflexivity.
Defined.

(** ** Comparing a text *)

Lemma write_at_front (n : nat) bytes :
  (length bytes <= n)%nat -> write_at (replicate n 0) 0 bytes = bytes ++ replicate (n - length bytes) 0.
Proof. intros H. unfold write_at. cbn [Z.to_nat take app]. by rewrite Nat.add_0_l, drop_replicate. Qed.

(** The map with nothing in it but the text of the filter. *)
Lemma inserted_alone maps (filter : arg_filter) (len : Z) :
  tm_str_buf maps = ∅ ->
  tm_str_buf (maps <| tm_str_buf ::= map_update str_buf_entries (af_str_val filter) len |>) = {[ af_str_val filter := len ]}.
Proof.
  intros Hempty. change (map_update str_buf_entries (af_str_val filter) len (tm_str_buf maps) = {[ af_str_val filter := len ]}).
  rewrite Hempty. unfold map_update. by rewrite lookup_empty, map_size_empty.
Qed.

(** The comparison through the map decides whether the text at the address
    starts with the text of the filter. With no other comparison in progress, it
    answers 1 exactly when the text saved before is long enough and its first bytes
    are those of the filter, and it leaves the maps as they were. *)
Theorem strcmp_compares m maps ctx filter :
  Memory m -> length (af_str_val filter) = 256%nat -> 0 <= af_str_len filter <= 256 ->
  drop (Z.to_nat (af_str_len filter)) (af_str_val filter) = replicate (256 - Z.to_nat (af_str_len filter)) 0 ->
  tm_str_buf maps = ∅ ->
  let len := Z.to_nat (af_str_len filter) in
  strcmp_by_map m maps ctx filter =
    (if (af_str_len filter <=? ox_str_len ctx)
        && bool_decide ((me_read m (ox_read_addr ctx) len).2 = take len (af_str_val filter)) then 1 else 0, maps).
Proof.
  intros Hm Hlen Hl Hpad Hempty len. unfold strcmp_by_map.
  destruct (Z.ltb_spec (ox_str_len ctx) (af_str_len filter)); [by rewrite (proj2 (Z.leb_gt _ _)) by lia|].
  rewrite (proj2 (Z.leb_le _ _)) by lia. cbv zeta. cbn [andb]. f_equal.
  - unfold strcmp_lookup, strcmp_insert, strcmp_value. cbv zeta. unfold MAX_STRCMP_LEN.
    rewrite (proj2 (Z.ltb_ge 256 (af_str_len filter))) by lia. fold len.
    rewrite inserted_alone by done.
    pose proof (mem_read_length (ox_read_addr ctx) len) as Hb. set (bytes := (me_read m (ox_read_addr ctx) len).2) in *.
    change (Z.to_nat 256) with 256%nat. rewrite write_at_front by lia.
    assert (bytes ++ replicate (256 - length bytes) 0 = af_str_val filter <-> bytes = take len (af_str_val filter)) as Hiff.
    { rewrite <- (take_drop len (af_str_val filter)) at 1. unfold len at 2. rewrite Hpad, Hb. fold len. split.
      - intros E. apply app_inj_1 in E as [E _]; [done|]. rewrite Hb, length_take. lia.
      - by intros ->. }
    case_bool_decide as Hd.
    + rewrite (proj2 Hiff Hd). by rewrite lookup_singleton_eq.
    + rewrite lookup_singleton_ne; [done|]. intros E. apply Hd, Hiff. by rewrite E.
  - unfold strcmp_delete, strcmp_insert. cbv zeta. set (l := if _ <? _ then _ else _).
    pose proof (inserted_alone maps filter l Hempty) as H1.
    assert (maps <| tm_str_buf ::= map_update str_buf_entries (af_str_val filter) l |> <| tm_str_buf ::= delete (af_str_val filter) |>
      = maps <| tm_str_buf := delete (af_str_val filter)
          (tm_str_buf (maps <| tm_str_buf ::= map_update str_buf_entries (af_str_val filter) l |>)) |>) as -> by done.
    rewrite H1, delete_singleton_eq. destruct maps. cbn in Hempty. by subst.
Qed.

(** Two comparisons at once disturb each other, since the map is shared by all
    CPUs. With the same filter, the one that finishes first takes the key away: the
    other, which inserted it as well, no longer finds its text. With two filters,
    a text that is only the other one's counts as a match. *)
Lemma strcmp_races maps (f g : arg_filter) :
  strcmp_lookup (af_str_val f) (strcmp_delete f (strcmp_insert f (strcmp_insert f maps))) = 0 /\
  (tm_str_buf maps = ∅ -> af_str_val f <> af_str_val g ->
   strcmp_lookup (af_str_val g) (strcmp_insert f (strcmp_insert g maps)) = 1).
Proof.
  split.
  - unfold strcmp_lookup, strcmp_delete.
    match goal with |- context [tm_str_buf (?mm <| tm_str_buf ::= ?h |>) !! _] =>
      change (tm_str_buf (mm <| tm_str_buf ::= h |>)) with (h (tm_str_buf mm)) end.
    by rewrite lookup_delete_eq.
  - intros Hempty Hne. unfold strcmp_lookup, strcmp_insert. cbv zeta.
    match goal with |- context [tm_str_buf (?mm <| tm_str_buf ::= ?h |>) !! _] =>
      change (tm_str_buf (mm <| tm_str_buf ::= h |>)) with (h (tm_str_buf mm)) end.
    rewrite map_update_ne by done. rewrite inserted_alone by done. by rewrite lookup_singleton_eq.
Qed.

(** ** Numeric filters *)

(** The condition a filter names, as the configuration documents it: a call that
    does not satisfy it is to be skipped. *)
Definition satisfies (filter_type num value : Z) : Prop :=
  if filter_type =? EQUAL_FILTER then value = num
  else if filter_type =? GREATER_FILTER then num < value
  else if filter_type =? LESS_FILTER then value < num
  else True.

(** An equality filter skips exactly the calls that do not satisfy it; the two
    order filters skip every call that satisfies them and keep those on the other
    side. *)
Lemma numeric_filters filter ctx :
  ox_match_blacklist ctx = 0 ->
  let value := ox_reg_value ctx in
  let skipped := ox_match_blacklist (filter_value filter ctx) = 1 in
  (af_filter_type filter = EQUAL_FILTER -> (skipped <-> ~ satisfies EQUAL_FILTER (af_num_val filter) value)) /\
  (af_filter_type filter = GREATER_FILTER -> satisfies GREATER_FILTER (af_num_val filter) value -> skipped) /\
  (af_filter_type filter = GREATER_FILTER -> value < af_num_val filter -> ~ skipped) /\
  (af_filter_type filter = LESS_FILTER -> satisfies LESS_FILTER (af_num_val filter) value -> skipped) /\
  (af_filter_type filter = LESS_FILTER -> af_num_val filter < value -> ~ skipped).
Proof.
  intros H0. cbv zeta. unfold filter_value, satisfies. cbv zeta.
  split_and!; intros Ht; rewrite Ht; cbn [Z.eqb EQUAL_FILTER GREATER_FILTER LESS_FILTER Pos.eqb].
  - destruct (Z.eqb_spec (af_num_val filter) (ox_reg_value ctx)) as [E|E]; cbn; rewrite ?H0; [|by split; [|done]; intros _ ?; apply E].
    split; [done|]. intros Hn. by destruct Hn.
  - intros Hs. change (GREATER_FILTER =? EQUAL_FILTER) with false in *. change (GREATER_FILTER =? GREATER_FILTER) with true in *.
    cbn iota in *. by rewrite (proj2 (Z.leb_le _ _)) by lia.
  - intros Hs. change (GREATER_FILTER =? EQUAL_FILTER) with false in *. change (GREATER_FILTER =? GREATER_FILTER) with true in *.
    cbn iota in *. rewrite (proj2 (Z.leb_gt _ _)) by lia. by rewrite H0.
  - intros Hs. change (LESS_FILTER =? EQUAL_FILTER) with false in *. change (LESS_FILTER =? GREATER_FILTER) with false in *.
    change (LESS_FILTER =? LESS_FILTER) with true in *. cbn iota in *. by rewrite (proj2 (Z.leb_le _ _)) by lia.
  - intros Hs. change (LESS_FILTER =? EQUAL_FILTER) with false in *. change (LESS_FILTER =? GREATER_FILTER) with false in *.
    change (LESS_FILTER =? LESS_FILTER) with true in *. cbn iota in *. rewrite (proj2 (Z.leb_gt _ _)) by lia. by rewrite H0.
Qed.

(** ** Concrete runs *)

Definition demo_filter : arg_filter :=
  {| af_filter_type := WHITELIST_FILTER; af_str_val := str "hell" ++ replicate 252 0; af_str_len := 4; af_num_val := 0 |}.

(** The text of six bytes begins with the four of the filter. *)
Lemma strcmp_compares_witness :
  strcmp_by_map text_memory empty_maps (zero_op_ctx <| ox_read_addr := 4096 |> <| ox_str_len := 6 |>) demo_filter =
  (1, empty_maps).
Proof.
  pose proof (strcmp_compares text_memory empty_maps (zero_op_ctx <| ox_read_addr := 4096 |> <| ox_str_len := 6 |>)
    demo_filter _ eq_refl ltac:(cbn; lia) eq_refl eq_refl) as H.
  exact H.
Defined.

(** A register saved, taken as an address, and the text behind it saved. *)
Definition read_ops : gmap Z op_config :=
  {[ 0 := plain_op OP_SKIP 0;
     1 := {| oc_code := op_value OP_READ_REG; oc_pre_code := op_value OP_SET_REG_INDEX;
             oc_post_code := op_value OP_SAVE_REG; oc_value := 1 |};
     2 := plain_op OP_MOVE_REG_VALUE 0; 3 := plain_op OP_SAVE_STRING 0 ]}.

Definition read_demo_args : point_args :=
  {| pa_enter_key := 0; pa_signal := 0; pa_op_count := 4; pa_op_key_list := [1; 2; 3] ++ replicate 253 0 |}.

Definition read_demo_regs : ctx_regs := {| cr_regs := [0; 8192] ++ replicate 29 0; cr_sp := 0; cr_pc := 0; cr_flag := 0 |}.

Definition read_demo_run : run :=
  {| rn_event := empty_event; rn_ctx := zero_op_ctx <| ox_save_index := 4 |>;
     rn_maps := empty_maps <| tm_op_list := read_ops |> |}.

Lemma read_demo_words : Forall (fun w => 0 <= w) (regs_words read_demo_regs).
Proof. unfold regs_words. cbn. repeat (constructor; [lia|]). constructor. Qed.

Lemma read_args_records_witness :
  exists st' new k, read_args MODULE_SYSCALL text_memory read_demo_args read_demo_regs read_demo_run = Some st' /\
    holds (rn_event st') new /\ tagged 4 k new /\
    decode_records (kind_of <$> new) (ed_args (rn_event st')) = Some new.
Proof.
  destruct (read_args_records MODULE_SYSCALL text_memory read_demo_args read_demo_regs read_demo_run [] 4 SYSCALL_ENTER _
    eq_refl eq_refl read_demo_words empty_event_holds ltac:(constructor)
    ltac:(split; cbn; lia) eq_refl) as (st' & new & k & H1 & H2 & H3 & _ & H4 & _).
  exists st', new, k. split; [exact H1|]. split; [exact H2|]. split; [exact H3|exact H4].
Defined.

(** The run above, evaluated: the register under tag 4, the text under tag 5. *)
Example read_demo_bytes :
  (st ← read_args MODULE_SYSCALL text_memory read_demo_args read_demo_regs read_demo_run;
   Some (take 22 (ed_args (rn_event st)), ed_buf_off (rn_event st), ec_argnum (ed_context (rn_event st)))) =
  Some (encode_records [Fixed 4 (le_bytes 8 8192); Sized 5 6 demo_text] ++ [0; 0], 20, 2).
Proof. vm_compute. reflexivity. Qed.
