(* ===== verification/TraceFilter.v ===== *)
(** * Which calls are traced (src/common/task.h, context.h, filtering.h)

    What a probe learns about the current task, and the decision whether the task
    is traced. The decision is compared with the lists a user configures. *)

From stdpp Require Import gmap.
From S2P Require Import Prelude Trace.

(** ** What the kernel answers *)

(** The members read through [READ_KERN]: a task's thread pid and group leader, a
    pid's level and its number at a level. *)
Record kernel_tasks := {
  kt_thread_pid : Z -> Z;
  kt_group_leader : Z -> Z;
  kt_level : Z -> Z;
  kt_number : Z -> Z -> Z;
}.

Definition get_task_pid_vnr (k : kernel_tasks) (task : Z) : Z :=
  let pid := kt_thread_pid k task in
  u32 (kt_number k pid (u32 (kt_level k pid))).

Definition get_task_ns_pid (k : kernel_tasks) (task : Z) : Z := get_task_pid_vnr k task.

Definition get_task_ns_tgid (k : kernel_tasks) (task : Z) : Z := get_task_pid_vnr k (kt_group_leader k task).

Record pt_regs := {
  pt_regs_words : list Z;
  pt_sp : Z;
  pt_pc : Z;
  pt_syscallno : Z;
}.

(** One call of a probe: the current task, the answers of the helpers, the
    registers the probe was given, and memory. *)
Record probe := {
  pb_task : Z;
  pb_flags : Z;
  pb_tasks : kernel_tasks;
  pb_pid_tgid : Z;
  pb_uid_gid : Z;
  pb_comm : Z * list Z;
  pb_time : Z;
  pb_regs : pt_regs;
  pb_memory : memory;
}.

(** ** The context *)

Definition init_context (pb : probe) (task : Z) (context : event_context) : Z * event_context :=
  let id := pb_pid_tgid pb in
  let '(ret, comm) := pb_comm pb in
  let context := context <| ec_host_tid := u32 id |> <| ec_host_pid := u32 (Z.shiftr id 32) |>
                   <| ec_tid := get_task_ns_pid (pb_tasks pb) task |> <| ec_pid := get_task_ns_tgid (pb_tasks pb) task |>
                   <| ec_uid := u32 (pb_uid_gid pb) |> <| ec_comm := comm |> in
  if ret <? 0 then (-1, context) else (0, context <| ec_ts := pb_time pb |> <| ec_argnum := 0 |>).

(** 0 when the probe gives up. *)
Definition init_program_data (pb : probe) (event : event_data) : Z * event_data :=
  let '(ret, context) := init_context pb (pb_task pb) (ed_context event) in
  let event := event <| ed_context := context |> in
  if ret <? 0 then (0, event) else (1, event <| ed_buf_off := 0 |>).

(** ** The decision *)

Definition listed (maps : trace_maps) (key : Z) : bool :=
  match tm_common_list maps !! u32 key with Some _ => true | None => false end.

(** The part behind the lists: the groups of user ids. *)
Definition in_group (groups group : Z) : bool := Z.land groups group =? group.

Definition should_trace_group (filter : common_filter) (uid : Z) : Z :=
  let groups := cf_trace_uid_group filter in
  if in_group groups GROUP_ROOT && (uid =? 0) then 1
  else if in_group groups GROUP_SYSTEM && (uid =? 1000) then 1
  else if in_group groups GROUP_SHELL && (uid =? 2000) then 1
  else if in_group groups GROUP_APP && (10000 <=? uid) && (uid <=? 19999) then 1
  else if in_group groups GROUP_ISO && (99000 <=? uid) && (uid <=? 99999) then 1
  else 0.

Definition should_trace_ids (maps : trace_maps) (context : event_context) : Z :=
  if listed maps (TID_BLACKLIST_START + ec_tid context) then 0
  else if listed maps (TID_WHITELIST_START + ec_tid context) then 1
  else if listed maps (PID_BLACKLIST_START + ec_pid context) then 0
  else if listed maps (PID_WHITELIST_START + ec_pid context) then 1
  else if match tm_child_parent maps !! ec_pid context with Some _ => true | None => false end then 1
  else if listed maps (UID_BLACKLIST_START + ec_uid context) then 0
  else if listed maps (UID_WHITELIST_START + ec_uid context) then 1
  else match tm_common_filter maps with None => 0 | Some filter => should_trace_group filter (ec_uid context) end.

Definition should_trace (maps : trace_maps) (context : event_context) : Z :=
  let config := tm_base_config maps in
  if ce_stackplz_pid config =? ec_pid context then 0
  else
    let thread_name_flag := tm_thread_filter maps !! ec_comm context in
    match thread_name_flag with
    | None => if ce_thread_whitelist config =? 1 then 0 else should_trace_ids maps context
    | Some flag =>
        if flag =? THREAD_NAME_BLACKLIST then 0
        else if flag =? THREAD_NAME_WHITELIST then 1
        else should_trace_ids maps context
    end.

(** ** Specification: the lists a user configures *)

Record policy := {
  po_own_pid : Z;
  po_only_named : bool;
  po_names : gmap (list Z) Z;
  po_tid_black : list Z;
  po_tid_white : list Z;
  po_pid_black : list Z;
  po_pid_white : list Z;
  po_uid_black : list Z;
  po_uid_white : list Z;
  po_sys_black : list Z;
  po_sys_white : list Z;
  po_children : list Z;
  po_filter : option common_filter;
}.

#[export] Instance policy_shape : Shape policy :=
  shape! Build_policy < po_own_pid ; po_only_named ; po_names ; po_tid_black ; po_tid_white ; po_pid_black ; po_pid_white ;
    po_uid_black ; po_uid_white ; po_sys_black ; po_sys_white ; po_children ; po_filter >.

(** The task is identified by name, thread, process and user; the first rule that
    names it decides. *)
Definition traced (po : policy) (name : list Z) (tid pid uid : Z) : bool :=
  if decide (pid = po_own_pid po) then false
  else
    match po_names po !! name with
    | None => if po_only_named po then false else
        if decide (tid ∈ po_tid_black po) then false
        else if decide (tid ∈ po_tid_white po) then true
        else if decide (pid ∈ po_pid_black po) then false
        else if decide (pid ∈ po_pid_white po) then true
        else if decide (pid ∈ po_children po) then true
        else if decide (uid ∈ po_uid_black po) then false
        else if decide (uid ∈ po_uid_white po) then true
        else match po_filter po with None => false | Some f => negb (should_trace_group f uid =? 0) end
    | Some flag => bool_decide (flag = THREAD_NAME_WHITELIST)
    end.

(** The keys under which the lists go into the one map: each shifted to its range. *)
Definition list_keys (po : policy) : list Z :=
  (Z.add SYS_WHITELIST_START <$> po_sys_white po) ++ (Z.add SYS_BLACKLIST_START <$> po_sys_black po) ++
  (Z.add UID_WHITELIST_START <$> po_uid_white po) ++ (Z.add UID_BLACKLIST_START <$> po_uid_black po) ++
  (Z.add PID_WHITELIST_START <$> po_pid_white po) ++ (Z.add PID_BLACKLIST_START <$> po_pid_black po) ++
  (Z.add TID_WHITELIST_START <$> po_tid_white po) ++ (Z.add TID_BLACKLIST_START <$> po_tid_black po).

(** The maps as user space fills them in. *)
Record configured (po : policy) (maps : trace_maps) : Prop := {
  cf_config : tm_base_config maps = {| ce_stackplz_pid := po_own_pid po; ce_thread_whitelist := if po_only_named po then 1 else 0 |};
  cf_names : tm_thread_filter maps = po_names po;
  cf_flags : forall name flag, po_names po !! name = Some flag -> flag = THREAD_NAME_WHITELIST \/ flag = THREAD_NAME_BLACKLIST;
  cf_list : forall key, is_Some (tm_common_list maps !! key) <-> key ∈ list_keys po;
  cf_children : forall pid, is_Some (tm_child_parent maps !! pid) <-> pid ∈ po_children po;
  cf_filter : tm_common_filter maps = po_filter po;
}.

(** Every number of the lists lies in the range it was given. *)
Definition ids_in_range (po : policy) : Prop :=
  Forall (fun id => 0 <= id < 1024)
    (po_sys_white po ++ po_sys_black po ++ po_uid_white po ++ po_uid_black po ++ po_pid_white po ++ po_pid_black po ++
     po_tid_white po ++ po_tid_black po).

Section policy.
Context (po : policy) (maps : trace_maps).
Hypothesis Hconf : configured po maps.

Lemma listed_key key : is_u32 key -> listed maps key = bool_decide (key ∈ list_keys po).
Proof.
  intros Hk. unfold listed. assert (u32 key = key) as -> by zlia.
  pose proof (cf_list _ _ Hconf key) as H. case_bool_decide as Hd.
  - apply H in Hd as [v ->]. done.
  - destruct (tm_common_list maps !! key); [|done]. destruct Hd. by apply H.
Qed.

Lemma child_listed pid :
  match tm_child_parent maps !! pid with Some _ => true | None => false end = bool_decide (pid ∈ po_children po).
Proof.
  pose proof (cf_children _ _ Hconf pid) as H. case_bool_decide as Hd.
  - apply H in Hd as [v ->]. done.
  - destruct (tm_child_parent maps !! pid); [|done]. destruct Hd. by apply H.
Qed.
End policy.

Lemma elem_of_shifted start key (l : list Z) : key ∈ (Z.add start <$> l) <-> key - start ∈ l.
Proof.
  rewrite list_elem_of_fmap. split.
  - intros (x & -> & Hx). by replace (start + x - start) with x by lia.
  - intros H. exists (key - start). split; [lia|done].
Qed.

(** With the numbers in their ranges, a key belongs to one list only. *)
Lemma list_keys_split po :
  ids_in_range po -> forall id, 0 <= id < 1024 ->
  (TID_BLACKLIST_START + id ∈ list_keys po <-> id ∈ po_tid_black po) /\
  (TID_WHITELIST_START + id ∈ list_keys po <-> id ∈ po_tid_white po) /\
  (PID_BLACKLIST_START + id ∈ list_keys po <-> id ∈ po_pid_black po) /\
  (PID_WHITELIST_START + id ∈ list_keys po <-> id ∈ po_pid_white po) /\
  (UID_BLACKLIST_START + id ∈ list_keys po <-> id ∈ po_uid_black po) /\
  (UID_WHITELIST_START + id ∈ list_keys po <-> id ∈ po_uid_white po).
Proof.
  unfold ids_in_range. rewrite !Forall_app, !Forall_forall. intros (H1 & H2 & H3 & H4 & H5 & H6 & H7 & H8) id Hid.
  unfold list_keys. rewrite !elem_of_app, !elem_of_shifted.
  unfold TID_BLACKLIST_START, TID_WHITELIST_START, PID_BLACKLIST_START, PID_WHITELIST_START, UID_BLACKLIST_START,
    UID_WHITELIST_START, SYS_BLACKLIST_START, SYS_WHITELIST_START.
  split_and!; (split;
    [intros [H|[H|[H|[H|[H|[H|[H|H]]]]]]];
       solve [exfalso; first [apply H1 in H|apply H2 in H|apply H3 in H|apply H4 in H|apply H5 in H|apply H6 in H|apply H7 in H|apply H8 in H]; lia
             |match type of H with ?k ∈ _ => replace k with id in H by lia; exact H end]
    |intros H;
       repeat first [solve [left; match goal with |- ?k ∈ _ => replace k with id by lia; exact H end]
                    |solve [match goal with |- ?k ∈ _ => replace k with id by lia; exact H end]
                    |right]]).
Qed.

(** ** Properties *)

(** C26: the probes trace what the user's lists say. When the maps are filled in
    from the lists and every number lies in the 1024 its list was given, and so do
    those of the task, the decision of the probe is the one of the lists: the first
    that names the task decides, black before white, thread before process before
    user; and the tracer itself is never traced. *)
Theorem should_trace_follows_policy po maps context :
  configured po maps -> ids_in_range po ->
  0 <= ec_tid context < 1024 -> 0 <= ec_pid context < 1024 -> 0 <= ec_uid context < 1024 ->
  should_trace maps context =
    if traced po (ec_comm context) (ec_tid context) (ec_pid context) (ec_uid context) then 1 else 0.
Proof.
  intros Hconf Hrange Ht Hp Hu.
  assert (should_trace_ids maps context =
    if decide (ec_tid context ∈ po_tid_black po) then 0 else if decide (ec_tid context ∈ po_tid_white po) then 1
    else if decide (ec_pid context ∈ po_pid_black po) then 0 else if decide (ec_pid context ∈ po_pid_white po) then 1
    else if decide (ec_pid context ∈ po_children po) then 1
    else if decide (ec_uid context ∈ po_uid_black po) then 0 else if decide (ec_uid context ∈ po_uid_white po) then 1
    else match po_filter po with None => 0 | Some f => should_trace_group f (ec_uid context) end) as Hids.
  { unfold should_trace_ids. rewrite !(listed_key po maps Hconf)
      by (unfold TID_BLACKLIST_START, TID_WHITELIST_START, PID_BLACKLIST_START, PID_WHITELIST_START, UID_BLACKLIST_START,
            UID_WHITELIST_START, SYS_BLACKLIST_START, SYS_WHITELIST_START; lia).
    rewrite (child_listed po maps Hconf), (cf_filter _ _ Hconf).
    destruct (list_keys_split po Hrange (ec_tid context) Ht) as (T1 & T2 & _).
    destruct (list_keys_split po Hrange (ec_pid context) Hp) as (_ & _ & P1 & P2 & _).
    destruct (list_keys_split po Hrange (ec_uid context) Hu) as (_ & _ & _ & _ & U1 & U2).
    rewrite (bool_decide_ext _ _ T1), (bool_decide_ext _ _ T2), (bool_decide_ext _ _ P1), (bool_decide_ext _ _ P2),
      (bool_decide_ext _ _ U1), (bool_decide_ext _ _ U2).
    by repeat (case_bool_decide; [by rewrite decide_True by done|rewrite decide_False by done]). }
  unfold should_trace, traced. cbv zeta. rewrite (cf_config _ _ Hconf), (cf_names _ _ Hconf), Hids.
  cbn [ce_stackplz_pid ce_thread_whitelist].
  destruct (decide (ec_pid context = po_own_pid po)) as [E|E]; [by rewrite E, Z.eqb_refl|].
  rewrite eqb_ne by done. destruct (po_names po !! ec_comm context) as [flag|] eqn:Ename.
  - destruct (cf_flags _ _ Hconf _ _ Ename) as [-> | ->]; done.
  - destruct (po_only_named po); [done|]. change (0 =? 1) with false. cbn iota.
    repeat case_decide; try done. destruct (po_filter po) as [f|]; [|done].
    unfold should_trace_group. cbv zeta. repeat (destruct (_ && _); [done|]). done.
Qed.

(** Numbers beyond the range run into the next lists. A user id put on the
    whitelist, and nothing else configured, also decides about processes and threads
    whose number is smaller by a multiple of 1024: one process of that very user is
    taken for blacklisted and is not traced, and a process of another user is
    traced. *)
Lemma lists_overlap maps uid context :
  10000 <= uid <= 4294967295 - 1024 * 8 ->
  (forall key, is_Some (tm_common_list maps !! key) <-> key = UID_WHITELIST_START + uid) ->
  tm_base_config maps = {| ce_stackplz_pid := 0; ce_thread_whitelist := 0 |} -> tm_thread_filter maps = ∅ ->
  tm_child_parent maps = ∅ -> tm_common_filter maps = None ->
  ec_tid context = 0 ->
  (ec_pid context = uid - 1024 * 3 -> ec_uid context = uid -> should_trace maps context = 0) /\
  (ec_pid context = uid - 1024 * 2 -> ec_uid context <> uid -> should_trace maps context = 1).
Proof.
  intros Hu Hlist Hconf Hnames Hchild Hfilter Htid.
  assert (forall key, is_u32 key -> listed maps key = bool_decide (key = UID_WHITELIST_START + uid)) as Hl.
  { intros key Hk. unfold listed. assert (u32 key = key) as -> by zlia. pose proof (Hlist key) as H. case_bool_decide as Hd.
    - apply H in Hd as [v ->]. done.
    - destruct (tm_common_list maps !! key); [|done]. destruct Hd. by apply H. }
  unfold should_trace, should_trace_ids. cbv zeta. rewrite Hconf, Hnames, lookup_empty. cbn [ce_stackplz_pid ce_thread_whitelist].
  change (0 =? 1) with false. cbn iota. rewrite Htid.
  unfold TID_BLACKLIST_START, TID_WHITELIST_START, PID_BLACKLIST_START, PID_WHITELIST_START, UID_BLACKLIST_START,
    UID_WHITELIST_START, SYS_BLACKLIST_START, SYS_WHITELIST_START in *.
  split; intros Hp Huid; rewrite Hp, eqb_ne by lia.
  - rewrite (Hl (1024 + 1024 + 1024 + 1024 + 1024 + 1024 + 1024 + 1024 + 0)), (Hl (1024 + 1024 + 1024 + 1024 + 1024 + 1024 + 1024 + 0)) by lia.
    rewrite !bool_decide_eq_false_2 by lia. rewrite Hl, bool_decide_eq_true_2 by lia. done.
  - rewrite (Hl (1024 + 1024 + 1024 + 1024 + 1024 + 1024 + 1024 + 1024 + 0)), (Hl (1024 + 1024 + 1024 + 1024 + 1024 + 1024 + 1024 + 0)) by lia.
    rewrite !bool_decide_eq_false_2 by lia.
    rewrite (Hl (1024 + 1024 + 1024 + 1024 + 1024 + 1024 + (uid - 1024 * 2))), bool_decide_eq_false_2 by lia.
    rewrite Hl, bool_decide_eq_true_2 by lia. done.
Qed.

(** A process on the whitelist, whose threads are not on the blacklist. *)
Definition demo_policy : policy :=
  {| po_own_pid := 900; po_only_named := false; po_names := ∅; po_tid_black := [77]; po_tid_white := []; po_pid_black := [];
     po_pid_white := [500]; po_uid_black := []; po_uid_white := []; po_sys_black := []; po_sys_white := [];
     po_children := []; po_filter := None |}.

Definition demo_maps : trace_maps :=
  {| tm_ctx_regs := ∅; tm_child_parent := ∅; tm_common_filter := None;
     tm_common_list := {[ PID_WHITELIST_START + 500 := 1; TID_BLACKLIST_START + 77 := 1 ]}; tm_thread_filter := ∅;
     tm_arg_filter := ∅; tm_str_buf := ∅; tm_op_list := ∅; tm_uprobe_point_args := ∅; tm_sysenter_point_args := ∅;
     tm_sysexit_point_args := ∅; tm_base_config := {| ce_stackplz_pid := 900; ce_thread_whitelist := 0 |} |}.

Definition demo_context (tid : Z) : event_context :=
  {| ec_ts := 0; ec_eventid := 0; ec_host_tid := tid; ec_host_pid := 500; ec_tid := tid; ec_pid := 500; ec_uid := 10;
     ec_comm := replicate 16 0; ec_argnum := 0 |}.

Lemma demo_configured : configured demo_policy demo_maps.
Proof.
  split; try done.
  - intros key. cbn [tm_common_list demo_maps]. unfold list_keys. cbn [demo_policy po_sys_white po_sys_black po_uid_white
      po_uid_black po_pid_white po_pid_black po_tid_white po_tid_black fmap list_fmap app].
    rewrite !elem_of_cons, elem_of_nil. split.
    + intros Hs. destruct (decide (key = PID_WHITELIST_START + 500)); [by left|].
      destruct (decide (key = TID_BLACKLIST_START + 77)); [by right; left|].
      rewrite lookup_insert_ne, lookup_singleton_ne in Hs by done. by destruct Hs.
    + intros [->|[->|[]]]; by eexists.
  - intros pid. cbn. rewrite lookup_empty, elem_of_nil. split; [by intros []|done].
Qed.

Lemma should_trace_follows_policy_witness :
  should_trace demo_maps (demo_context 600) = 1 /\ should_trace demo_maps (demo_context 77) = 0.
Proof.
  assert (ids_in_range demo_policy) as Hr by (unfold ids_in_range; cbn; repeat (constructor; [lia|]); constructor).
  split; rewrite (should_trace_follows_policy demo_policy demo_maps _ demo_configured Hr); cbn; try lia; reflexivity.
Defined.
