(* ===== verification/TraceProbes.v ===== *)
(** * The probes (src/syscall.c, src/stack.c, src/common/arguments.h)

    The programs at the entry and exit of system calls, at user functions and at
    the creation of processes. [None] is an access outside an array. *)

From stdpp Require Import gmap relations.
From S2P Require Import Prelude Trace TraceBuffer TraceOps TraceFilter.

(** ** Registers kept between entry and exit *)

Definition regs_key (event_id pid_tgid : Z) : Z := Z.lor (Z.shiftl (u32 event_id) 32) (u32 pid_tgid).

Definition save_regs (pb : probe) (regs : ctx_regs) (event_id : Z) (maps : trace_maps) : trace_maps :=
  maps <| tm_ctx_regs ::= map_update ctx_regs_entries (regs_key event_id (pb_pid_tgid pb)) regs |>.

Definition load_regs (pb : probe) (event_id : Z) (maps : trace_maps) : option ctx_regs :=
  tm_ctx_regs maps !! regs_key event_id (pb_pid_tgid pb).

Definition del_regs (pb : probe) (event_id : Z) (maps : trace_maps) : trace_maps :=
  maps <| tm_ctx_regs ::= delete (regs_key event_id (pb_pid_tgid pb)) |>.

(** ** Creation of a process *)

(** [parent] and [child] are the tasks of the tracepoint. *)
Definition sched_process_fork (pb : probe) (parent child : Z) (maps : trace_maps) (cpu : cpu_maps) : trace_maps * cpu_maps :=
  let '(ok, event) := init_program_data pb (cm_event cpu) in
  let cpu := cpu <| cm_event := event |> in
  if ok =? 0 then (maps, cpu)
  else
    let parent_ns_pid := get_task_ns_pid (pb_tasks pb) parent in
    let child_ns_pid := get_task_ns_pid (pb_tasks pb) child in
    match tm_child_parent maps !! parent_ns_pid with
    | None => (maps, cpu)
    | Some pid =>
        if pid =? parent_ns_pid
        then (maps <| tm_child_parent ::= map_update child_parent_entries child_ns_pid parent_ns_pid |>, cpu)
        else (maps, cpu)
    end.

(** ** What a probe does to the outside *)

Inductive action :=
| Submit (id : Z) (bytes : list Z)
| SendSignal (signal : Z)
| SendSignalThread (signal : Z).

Definition signals (filter : common_filter) (args : point_args) : list action :=
  (if 0 <? cf_signal filter then [SendSignal (cf_signal filter)] else []) ++
  (if 0 <? cf_tsignal filter then [SendSignalThread (cf_tsignal filter)] else []) ++
  (if 0 <? pa_signal args then [SendSignalThread (pa_signal args)] else []).

(** The actions, the shared maps and those of the CPU. *)
Definition outcome : Type := (list action * trace_maps * cpu_maps)%type.

(** ** Shared steps *)

(** [memset(op_ctx, 0, sizeof(op_ctx))] with the size of the pointer: the eight
    members of one byte. *)
Definition clear_op_ctx (ctx : op_ctx) : op_ctx :=
  ctx <| ox_save_index := 0 |> <| ox_reg_index := 0 |> <| ox_loop_count := 0 |> <| ox_break_count := 0 |>
      <| ox_apply_filter := 0 |> <| ox_skip_flag := 0 |> <| ox_match_whitelist := 0 |> <| ox_match_blacklist := 0 |>.

Definition prepare_op_ctx (ctx : op_ctx) (reg_0 save_index : Z) : op_ctx :=
  (clear_op_ctx ctx) <| ox_reg_0 := reg_0 |> <| ox_save_index := save_index |> <| ox_op_key_index := 0 |>.

Definition is_32bit_task (pb : probe) : bool := negb (Z.land (pb_flags pb) _TIF_32BIT =? 0).

(** The registers of the interrupted task. *)
Definition saved_registers (regs : pt_regs) : ctx_regs :=
  {| cr_regs := take 31 (pt_regs_words regs); cr_sp := pt_sp regs; cr_pc := pt_pc regs; cr_flag := 0 |}.

(** A variable of the program under a tag; the answer is not looked at. *)
Definition save_variable (bytes : list Z) (index : Z) (event : event_data) : option event_data :=
  '(_, event) ← save_to_submit_buf event (own bytes) (Z.of_nat (length bytes)) index; Some event.

(** The number of the point, then the return address, the stack and the program counter. *)
Definition save_origin (number : Z) (filter : common_filter) (regs : pt_regs) (event : event_data) : option event_data :=
  let words := pt_regs_words regs in
  event ← save_variable (le_bytes 4 number) 0 event;
  let '(lr, sp) := if negb (cf_is_32bit filter =? 0) then (words !!! 14%nat, words !!! 13%nat) else (words !!! 30%nat, pt_sp regs) in
  event ← save_variable (le_bytes 8 lr) 1 event;
  event ← save_variable (le_bytes 8 sp) 2 event;
  save_variable (le_bytes 8 (pt_pc regs)) 3 event.

(** The lists of system calls; [true] when the call is not to be traced. *)
Definition sysno_filtered (maps : trace_maps) (filter : common_filter) (sysno : Z) : bool :=
  ((cf_trace_mode filter =? TRACE_COMMON) && negb (listed maps (sysno + SYS_WHITELIST_START)))
  || listed maps (sysno + SYS_BLACKLIST_START).

(** A probe on a task that is traced: the event, or [None] when it stops there. *)
Definition probe_begin (pb : probe) (maps : trace_maps) (cpu : cpu_maps) : bool * cpu_maps :=
  let '(ok, event) := init_program_data pb (cm_event cpu) in
  let cpu := cpu <| cm_event := event |> in
  (negb (ok =? 0) && negb (should_trace maps (ed_context event) =? 0), cpu).

(** ** System calls *)

(** Behind the filters: the registers are kept and the arguments are read. *)
Definition sys_enter_read (pb : probe) (sysno : Z) (args : point_args) (filter : common_filter) (maps : trace_maps)
    (cpu : cpu_maps) : option outcome :=
  let regs := saved_registers (pb_regs pb) in
  let maps := save_regs pb regs SYSCALL_ENTER maps in
  event ← save_origin sysno filter (pb_regs pb) (cm_event cpu);
  let ctx := prepare_op_ctx (fst (cm_op_ctx cpu)) (cr_regs regs !!! 0%nat) 4 in
  st ← read_args MODULE_SYSCALL (pb_memory pb) args regs {| rn_event := event; rn_ctx := ctx; rn_maps := maps |};
  let maps := rn_maps st in
  let '(event, bytes) := events_perf_submit (rn_event st) SYSCALL_ENTER in
  if negb (ox_skip_flag (rn_ctx st) =? 0) then
    let cpu := cpu <| cm_event := rn_event st |> <| cm_op_ctx := ((rn_ctx st) <| ox_skip_flag := 0 |>, snd (cm_op_ctx cpu)) |> in
    Some ([], save_regs pb (regs <| cr_flag := 1 |>) SYSCALL_ENTER maps, cpu)
  else
    let cpu := cpu <| cm_event := event |> <| cm_op_ctx := (rn_ctx st, snd (cm_op_ctx cpu)) |> in
    Some (Submit SYSCALL_ENTER bytes :: signals filter args, maps, cpu).

Definition raw_syscalls_sys_enter (pb : probe) (maps : trace_maps) (cpu : cpu_maps) : option outcome :=
  if (pb_task pb =? 0) || is_32bit_task pb then Some ([], maps, cpu)
  else
    let '(go, cpu) := probe_begin pb maps cpu in
    if negb go then Some ([], maps, cpu)
    else
      let sysno := u32 (pt_syscallno (pb_regs pb)) in
      match tm_sysenter_point_args maps !! sysno, tm_common_filter maps with
      | Some args, Some filter =>
          if sysno_filtered maps filter sysno then Some ([], maps, cpu)
          else sys_enter_read pb sysno args filter maps cpu
      | _, _ => Some ([], maps, cpu)
      end.

(** Behind the filters of the exit: the arguments and the result are read. *)
Definition sys_exit_read (pb : probe) (sysno : Z) (args : point_args) (regs : ctx_regs) (maps : trace_maps)
    (cpu : cpu_maps) : option outcome :=
  event ← save_variable (le_bytes 4 sysno) 0 (cm_event cpu);
  let ctx := prepare_op_ctx (snd (cm_op_ctx cpu)) (cr_regs regs !!! 0%nat) 1 in
  st ← read_args MODULE_SYSCALL (pb_memory pb) args regs {| rn_event := event; rn_ctx := ctx; rn_maps := maps |};
  if negb (ox_skip_flag (rn_ctx st) =? 0) then
    Some ([], rn_maps st, cpu <| cm_event := rn_event st |>
                              <| cm_op_ctx := (fst (cm_op_ctx cpu), (rn_ctx st) <| ox_skip_flag := 0 |>) |>)
  else
    event ← save_variable (le_bytes 8 (pt_regs_words (pb_regs pb) !!! 0%nat)) (ox_save_index (rn_ctx st)) (rn_event st);
    let '(event, bytes) := events_perf_submit event SYSCALL_EXIT in
    Some ([Submit SYSCALL_EXIT bytes], rn_maps st,
          cpu <| cm_event := event |> <| cm_op_ctx := (fst (cm_op_ctx cpu), rn_ctx st) |>).

Definition raw_syscalls_sys_exit (pb : probe) (maps : trace_maps) (cpu : cpu_maps) : option outcome :=
  if (pb_task pb =? 0) || is_32bit_task pb then Some ([], maps, cpu)
  else
    let '(go, cpu) := probe_begin pb maps cpu in
    if negb go then Some ([], maps, cpu)
    else
      let sysno := u32 (pt_syscallno (pb_regs pb)) in
      match tm_sysexit_point_args maps !! sysno, tm_common_filter maps with
      | Some args, Some filter =>
          match load_regs pb SYSCALL_ENTER maps with
          | None => Some ([], maps, cpu)
          | Some regs =>
              let maps := del_regs pb SYSCALL_ENTER maps in
              if cr_flag regs =? 1 then Some ([], maps, cpu)
              else if sysno_filtered maps filter sysno then Some ([], maps, cpu)
              else sys_exit_read pb sysno args regs maps cpu
          end
      | _, _ => Some ([], maps, cpu)
      end.

(** ** User functions *)

(** The registers with which a function was entered: kept, loaded or the present
    ones; [None] when there are none to load. *)
Definition stack_regs (pb : probe) (point_key : Z) (args : point_args) (maps : trace_maps) : option (ctx_regs * trace_maps) :=
  let regs := saved_registers (pb_regs pb) in
  if pa_enter_key args =? 0 then Some (regs, maps)
  else if pa_enter_key args =? u32 (point_key + 1) then Some (regs, save_regs pb regs (UPROBE_ENTER + point_key + 1) maps)
  else
    match load_regs pb (UPROBE_ENTER + pa_enter_key args) maps with
    | None => None
    | Some regs => Some (regs, del_regs pb (UPROBE_ENTER + pa_enter_key args) maps)
    end.

Definition stack_read (pb : probe) (point_key : Z) (args : point_args) (filter : common_filter) (regs : ctx_regs)
    (maps : trace_maps) (cpu : cpu_maps) : option outcome :=
  event ← save_origin point_key filter (pb_regs pb) (cm_event cpu);
  let ctx := prepare_op_ctx (fst (cm_op_ctx cpu)) (cr_regs regs !!! 0%nat) 4 in
  st ← read_args MODULE_STACK (pb_memory pb) args regs {| rn_event := event; rn_ctx := ctx; rn_maps := maps |};
  let '(event, bytes) := events_perf_submit (rn_event st) UPROBE_ENTER in
  if negb (ox_skip_flag (rn_ctx st) =? 0) then
    Some ([], rn_maps st, cpu <| cm_event := rn_event st |>
                              <| cm_op_ctx := ((rn_ctx st) <| ox_skip_flag := 0 |>, snd (cm_op_ctx cpu)) |>)
  else
    Some (Submit UPROBE_ENTER bytes :: signals filter args, rn_maps st,
          cpu <| cm_event := event |> <| cm_op_ctx := (rn_ctx st, snd (cm_op_ctx cpu)) |>).

Definition probe_stack_warp (pb : probe) (point_key : Z) (maps : trace_maps) (cpu : cpu_maps) : option outcome :=
  let '(go, cpu) := probe_begin pb maps cpu in
  if negb go then Some ([], maps, cpu)
  else
    match tm_uprobe_point_args maps !! point_key, tm_common_filter maps with
    | Some args, Some filter =>
        match stack_regs pb point_key args maps with
        | None => Some ([], maps, cpu)
        | Some (regs, maps) => stack_read pb point_key args filter regs maps cpu
        end
    | _, _ => Some ([], maps, cpu)
    end.

(** The programs attached to user functions, one for each point a configuration may have. *)
Definition stack_points : list Z := [0; 1; 2; 3; 4; 5].

Definition probe_stack (name : Z) (pb : probe) (maps : trace_maps) (cpu : cpu_maps) : option outcome :=
  let point_key := u32 name in
  probe_stack_warp pb point_key maps cpu.
