(* ===== verification/TraceProbesSpec.v ===== *)
(** * What the probes guarantee

    Every call of a probe ends with its data in order and submits well-formed
    events; and an exit event is only submitted for an entry that was. *)

From stdpp Require Import gmap relations.
From S2P Require Import Prelude Trace TraceBuffer TraceOps TraceSpec TraceLoop TraceFilter TraceProbes.

(** ** Data in order *)

Definition regs_typed (regs : ctx_regs) : Prop :=
  length (cr_regs regs) = 31%nat /\ Forall (fun w => 0 <= w) (regs_words regs).

Record maps_typed (maps : trace_maps) : Prop := {
  mt_regs : map_Forall (fun _ => regs_typed) (tm_ctx_regs maps);
  mt_enter : map_Forall (fun _ args => length (pa_op_key_list args) = MAX_OP_COUNT MODULE_SYSCALL) (tm_sysenter_point_args maps);
  mt_exit : map_Forall (fun _ args => length (pa_op_key_list args) = MAX_OP_COUNT MODULE_SYSCALL) (tm_sysexit_point_args maps);
  mt_uprobe : map_Forall (fun _ args => length (pa_op_key_list args) = MAX_OP_COUNT MODULE_STACK) (tm_uprobe_point_args maps);
}.

Record cpu_typed (cpu : cpu_maps) : Prop := {
  cp_args : length (ed_args (cm_event cpu)) = Z.to_nat ARGS_BUF_SIZE;
  cp_ctx : ctx_typed (fst (cm_op_ctx cpu)) /\ ctx_typed (snd (cm_op_ctx cpu));
}.

(** What a probe is given. *)
Record probe_typed (pb : probe) : Prop := {
  pt_memory : Memory (pb_memory pb);
  pt_words : length (pt_regs_words (pb_regs pb)) = 31%nat;
  pt_nonneg : Forall (fun w => 0 <= w) (pt_regs_words (pb_regs pb) ++ [pt_sp (pb_regs pb); pt_pc (pb_regs pb)]);
  pt_comm : length (snd (pb_comm pb)) = TASK_COMM_LEN;
}.

(** An event as user space gets it: the context and records, the first of them
    [first], the others tagged from [n] on. *)
Definition well_formed_event (first : list trace_record) (n : Z) (bytes : list Z) : Prop :=
  exists header rs k, length header = Z.to_nat event_context_size /\ bytes = header ++ encode_records (first ++ rs) /\
    tagged n k rs /\ Forall well_sized rs.

(** ** Lemmas *)

Lemma saved_registers_typed pb : probe_typed pb -> regs_typed (saved_registers (pb_regs pb)).
Proof.
  intros [_ Hw Hn _]. unfold saved_registers, regs_typed, regs_words. cbn. rewrite take_ge by (rewrite Hw; lia). done.
Qed.

Lemma regs_word_nonneg regs n : regs_typed regs -> (n < 31)%nat -> 0 <= cr_regs regs !!! n.
Proof.
  intros [Hl Hf] Hn. apply Forall_app in Hf as [Hf _]. rewrite Forall_forall in Hf. apply Hf.
  apply list_elem_of_lookup_total_2. lia.
Qed.

Lemma prepare_op_ctx_typed ctx reg_0 index : ctx_typed ctx -> 0 <= reg_0 -> ctx_typed (prepare_op_ctx ctx reg_0 index).
Proof. intros [] Hr. by split. Qed.

Lemma skip_typed ctx : ctx_typed ctx -> ctx_typed (ctx <| ox_skip_flag := 0 |>).
Proof. by intros []. Qed.

Lemma holds_length ev rs : holds ev rs -> ed_buf_off ev = Z.of_nat (length (encode_records rs)).
Proof.
  intros [Hl Ho Hb _]. rewrite <- Hb, length_take, Hl. unfold ARGS_BUF_SIZE in *. lia.
Qed.

(** With room left, a variable of the program is always saved. *)
Lemma save_variable_ok ev rs bytes index :
  holds ev rs -> Z.of_nat (length (encode_records rs)) <= ARGS_BUF_SIZE - (MAX_ELEMENT_SIZE + 1) ->
  0 < Z.of_nat (length bytes) <= MAX_ELEMENT_SIZE ->
  exists ev', save_variable bytes index ev = Some ev' /\ holds ev' (rs ++ [Fixed index bytes]) /\
    ec_comm (ed_context ev') = ec_comm (ed_context ev).
Proof.
  intros Hh Hroom Hlen. pose proof (holds_length _ _ Hh) as Hoff. rewrite <- Hoff in Hroom.
  destruct (save_to_submit_saved ev rs (own bytes) (Z.of_nat (length bytes)) index Hh Hlen) as (r & ev' & E & H).
  { cbn. rewrite length_take. lia. }
  unfold save_variable. rewrite E. cbn [mbind option_bind].
  assert (r = 1 /\ ec_comm (ed_context ev') = ec_comm (ed_context ev)) as [-> Hcomm].
  { revert E. unfold save_to_submit_buf, ARGS_BUF_SIZE, MAX_ELEMENT_SIZE in *. cbv zeta. rewrite (eqb_ne (Z.of_nat _) 0) by lia.
    rewrite (proj2 (Z.ltb_ge _ _)) by lia. unfold store_in. destruct (store (ed_args ev) _ _) as [a1|]; [|done]. cbn [mbind option_bind].
    rewrite (proj2 (Z.ltb_ge _ _)) by lia. cbn [own]. destruct (store _ _ _) as [a2|]; [|done]. cbn [mbind option_bind Z.eqb].
    by intros [= <- <-]. }
  exists ev'. destruct H as [[_ H]|[? _]]; [|done]. split_and!; [done| |done].
  cbn [own snd] in H. by rewrite Nat2Z.id, take_ge in H by lia.
Qed.

(** The four records every entry event begins with. *)
Definition origin_records (number : Z) (filter : common_filter) (regs : pt_regs) : list trace_record :=
  let words := pt_regs_words regs in
  let '(lr, sp) := if negb (cf_is_32bit filter =? 0) then (words !!! 14%nat, words !!! 13%nat) else (words !!! 30%nat, pt_sp regs) in
  [Fixed 0 (le_bytes 4 number); Fixed 1 (le_bytes 8 lr); Fixed 2 (le_bytes 8 sp); Fixed 3 (le_bytes 8 (pt_pc regs))].

(** The buffer is almost empty. *)
Ltac room := unfold encode_records, ARGS_BUF_SIZE, MAX_ELEMENT_SIZE; cbn;
  repeat progress (rewrite ?length_app, ?length_le_bytes; cbn [length]); lia.

Lemma save_origin_ok ev number filter regs :
  holds ev [] ->
  exists ev', save_origin number filter regs ev = Some ev' /\ holds ev' (origin_records number filter regs) /\
    ec_comm (ed_context ev') = ec_comm (ed_context ev).
Proof.
  intros Hh. unfold save_origin, origin_records. cbv zeta.
  assert (forall n v, 0 < n -> n <= 8 -> 0 < Z.of_nat (length (le_bytes (Z.to_nat n) v)) <= MAX_ELEMENT_SIZE) as Hl
    by (intros; rewrite length_le_bytes; unfold MAX_ELEMENT_SIZE; lia).
  destruct (save_variable_ok ev [] (le_bytes 4 number) 0 Hh) as (ev1 & -> & Hh1 & Hc1);
    [room|apply (Hl 4); lia|]. cbn [mbind option_bind app] in *.
  destruct (if negb (cf_is_32bit filter =? 0) then _ else _) as [lr sp].
  destruct (save_variable_ok ev1 _ (le_bytes 8 lr) 1 Hh1) as (ev2 & -> & Hh2 & Hc2);
    [room|apply (Hl 8); lia|]. cbn [mbind option_bind app] in *.
  destruct (save_variable_ok ev2 _ (le_bytes 8 sp) 2 Hh2) as (ev3 & -> & Hh3 & Hc3);
    [room|apply (Hl 8); lia|]. cbn [mbind option_bind app] in *.
  destruct (save_variable_ok ev3 _ (le_bytes 8 (pt_pc regs)) 3 Hh3) as (ev4 & -> & Hh4 & Hc4);
    [room|apply (Hl 8); lia|]. cbn [mbind option_bind app] in *.
  exists ev4. split_and!; [done|done|congruence].
Qed.

(** The probe begins with an empty buffer. *)
Lemma probe_begin_holds pb maps cpu :
  probe_typed pb -> cpu_typed cpu ->
  let '(go, cpu') := probe_begin pb maps cpu in
  cpu_typed cpu' /\ (go = true -> holds (cm_event cpu') [] /\ length (ec_comm (ed_context (cm_event cpu'))) = TASK_COMM_LEN).
Proof.
  intros [_ _ _ Hcomm] [Ha Hc]. unfold probe_begin, init_program_data, init_context. cbv zeta.
  destruct (pb_comm pb) as [ret comm]. cbn in Hcomm. destruct (ret <? 0) eqn:E; cbn iota.
  - change (-1 <? 0) with true. cbn iota. split; [by split|]. by intros [=].
  - change (0 <? 0) with false. cbn iota. split; [by split|]. intros _. split; [|done].
    split; [done|cbn; unfold ARGS_BUF_SIZE; lia|done|done].
Qed.

(** ** What reading arguments leaves alone *)

Record same_frame (st st' : run) : Prop := {
  sf_comm : ec_comm (ed_context (rn_event st')) = ec_comm (ed_context (rn_event st));
  sf_regs : tm_ctx_regs (rn_maps st') = tm_ctx_regs (rn_maps st);
  sf_enter : tm_sysenter_point_args (rn_maps st') = tm_sysenter_point_args (rn_maps st);
  sf_exit : tm_sysexit_point_args (rn_maps st') = tm_sysexit_point_args (rn_maps st);
  sf_uprobe : tm_uprobe_point_args (rn_maps st') = tm_uprobe_point_args (rn_maps st);
}.

#[export] Instance same_frame_refl : Reflexive same_frame.
Proof. by intros st. Qed.

#[export] Instance same_frame_trans : Transitive same_frame.
Proof. intros st1 st2 st3 [] []. split; congruence. Qed.

(** A save leaves the name of the task. *)
Definition keeps_comm (ev : event_data) (out : option (Z * event_data)) : Prop :=
  forall r ev', out = Some (r, ev') -> ec_comm (ed_context ev') = ec_comm (ed_context ev).

Lemma store_in_comm ev offset bytes ev' :
  store_in ev offset bytes = Some ev' -> ec_comm (ed_context ev') = ec_comm (ed_context ev).
Proof. unfold store_in. destruct (store _ _ _); [|done]. cbn. by intros [= <-]. Qed.

(** Follow the stores of a save to its end. *)
Ltac follow_stores :=
  repeat match goal with
  | |- context [store_in ?e ?o ?b] =>
      let E := fresh "E" in destruct (store_in e o b) eqn:E; cbn [mbind option_bind]; [apply store_in_comm in E|done]
  | |- context [if ?b then _ else _] => destruct b
  | |- context [let '(_, _) := ?p in _] => destruct p
  end; intros [= <- <-]; cbn; congruence.

Lemma save_to_submit_comm ev ptr size index : keeps_comm ev (save_to_submit_buf ev ptr size index).
Proof. intros r ev'. unfold save_to_submit_buf. cbv zeta. follow_stores. Qed.

Lemma save_bytes_comm ev ptr size index : keeps_comm ev (save_bytes_to_buf ev ptr size index).
Proof. intros r ev'. unfold save_bytes_to_buf. cbv zeta. follow_stores. Qed.

Lemma save_str_comm ev ptr index : keeps_comm ev (save_str_to_buf ev ptr index).
Proof. intros r ev'. unfold save_str_to_buf. cbv zeta. follow_stores. Qed.

(** An outcome of a part of a run. *)
Definition framed (st : run) (out : option run) : Prop := forall st', out = Some st' -> same_frame st st'.

Lemma framed_event st ev' ctx' :
  ec_comm (ed_context ev') = ec_comm (ed_context (rn_event st)) -> same_frame st (st <| rn_event := ev' |> <| rn_ctx ::= ctx' |>).
Proof. by split. Qed.

Lemma save_value_framed bytes st : framed st (save_value bytes st).
Proof.
  intros st'. unfold save_value. destruct (save_to_submit_buf _ _ _ _) as [[r ev]|] eqn:E; [|done].
  cbn [mbind option_bind]. intros [= <-]. apply framed_event. by eapply save_to_submit_comm.
Qed.

Lemma save_struct_framed m address len st : framed st (save_struct m address len st).
Proof.
  intros st'. unfold save_struct. destruct (save_bytes_to_buf _ _ _ _) as [[r ev]|] eqn:E; [|done]. cbn [mbind option_bind].
  apply save_bytes_comm in E. destruct (r =? 0).
  - destruct (save_bytes_to_buf ev _ _ _) as [[r2 ev2]|] eqn:E2; [|done]. cbn [mbind option_bind]. apply save_bytes_comm in E2.
    intros [= <-]. apply framed_event. congruence.
  - intros [= <-]. by apply framed_event.
Qed.

Lemma save_text_framed m save st :
  (forall ev index, keeps_comm ev (save ev index)) -> framed st (save_text m save st).
Proof.
  intros Hs st'. unfold save_text. cbv zeta. destruct (save _ _) as [[r ev]|] eqn:E; [|done]. cbn [mbind option_bind].
  apply Hs in E. destruct (r =? 0).
  - destruct (save_bytes_to_buf ev _ _ _) as [[r2 ev2]|] eqn:E2; [|done]. cbn [mbind option_bind]. apply save_bytes_comm in E2.
    intros [= <-]. apply framed_event. congruence.
  - intros [= <-]. by apply framed_event.
Qed.

Lemma save_ptr_text_framed m save st :
  (forall ev ptr index, keeps_comm ev (save ev ptr index)) -> framed st (save_ptr_text m save st).
Proof.
  intros Hs st'. unfold save_ptr_text. cbv zeta. destruct (save_value _ st) as [st1|] eqn:E1; [|done]. cbn [mbind option_bind].
  apply save_value_framed in E1. destruct (save _ _ _) as [[r ev]|] eqn:E; [|done]. cbn [mbind option_bind].
  apply Hs in E. destruct (r =? 0).
  - destruct (save_bytes_to_buf ev _ _ _) as [[r2 ev2]|] eqn:E2; [|done]. cbn [mbind option_bind]. apply save_bytes_comm in E2.
    intros [= <-]. etransitivity; [exact E1|]. apply framed_event. congruence.
  - intros [= <-]. etransitivity; [exact E1|]. by apply framed_event.
Qed.

Lemma filter_string_framed m filter st : same_frame st (filter_string m filter st).
Proof.
  unfold filter_string, strcmp_by_map. destruct (_ <? _).
  - destruct (_ =? _); [|destruct (_ && _)]; by split.
  - cbv zeta. destruct (_ =? WHITELIST_FILTER); [|destruct (_ && _)]; by split.
Qed.

Lemma exec_op_framed m regs op code st out :
  exec_op m regs op code st = Some out -> same_frame st (match out with inl st' | inr st' => st' end).
Proof.
  assert (forall f, Some out = next f st -> same_frame st (match out with inl st' | inr st' => st' end)) as Hnext
    by (intros f [= ->]; by split).
  assert (forall v, save_u64 v st = Some out -> same_frame st (match out with inl st' | inr st' => st' end)) as Hsave.
  { intros v. unfold save_u64. destruct (save_value _ st) as [st1|] eqn:E; [|done]. cbn. intros [= <-]. by apply save_value_framed in E. }
  destruct code; cbn [exec_op]; cbv zeta; intros H; try solve [by apply (Hnext _ (eq_sym H))]; try solve [by eapply Hsave];
    try solve [destruct (tm_arg_filter _ !! _) as [filter|]; [|by injection H as <-];
               first [by apply (Hnext _ (eq_sym H))|injection H as <-; apply filter_string_framed]].
  - set (st1 := if is_pre op OP_SET_REG_INDEX then _ else st) in H.
    assert (same_frame st st1) as Hst1 by (unfold st1; destruct (is_pre _ _); by split).
    destruct (REG_ARM64_MAX <=? _); [by injection H as <-|].
    destruct (ox_reg_index (rn_ctx st1) =? 0); [injection H as <-; etransitivity; [exact Hst1|by split]|].
    destruct (regs_words regs !! _) as [v|]; [|done]. cbn in H. injection H as <-. etransitivity; [exact Hst1|by split].
  - destruct (save_struct _ _ _ _) as [st2|] eqn:E; [|done]. cbn in H. injection H as <-. apply save_struct_framed in E.
    etransitivity; [|exact E]. by split.
  - destruct (save_text _ _ _) as [st2|] eqn:E; [|done]. cbn in H. injection H as <-. apply save_text_framed in E.
    + etransitivity; [|exact E]. by split.
    + intros. apply save_str_comm.
  - destruct (save_ptr_text _ _ _) as [st2|] eqn:E; [|done]. cbn in H. injection H as <-. apply save_ptr_text_framed in E; [done|].
    intros. apply save_str_comm.
  - destruct (save_text _ _ _) as [st2|] eqn:E; [|done]. cbn in H. injection H as <-. apply save_text_framed in E.
    + etransitivity; [|exact E]. by split.
    + intros. apply save_bytes_comm.
  - destruct (save_ptr_text _ _ _) as [st2|] eqn:E; [|done]. cbn in H. injection H as <-. apply save_ptr_text_framed in E; [done|].
    intros. apply save_bytes_comm.
Qed.

Lemma fetch_op_framed tmod args op st out :
  fetch_op tmod args op st = Some out -> same_frame st (match out with inl (_, st') => st' | inr st' => st' end).
Proof.
  assert (fetch_next tmod args st = Some out -> same_frame st (match out with inl (_, st') => st' | inr st' => st' end)) as Hnext.
  { unfold fetch_next. cbv zeta. destruct (_ <=? _); [by intros [= <-]|].
    destruct (pa_op_key_list args !! _) as [key|]; [|done]. cbn. destruct (tm_op_list _ !! key); by intros [= <-]. }
  unfold fetch_op. cbv zeta. destruct op as [op|]; [|done]. destruct (negb _); [|done]. by intros [= <-].
Qed.

Lemma read_args_framed tmod m args regs st : framed st (read_args tmod m args regs st).
Proof.
  unfold read_args. generalize (MAX_OP_COUNT tmod) (tm_op_list (rn_maps st) !! 0). intros remaining op st'. revert op st.
  assert (forall st, same_frame st (read_args_end st)) as Hend
    by (intros st; unfold read_args_end; cbv zeta; destruct (_ =? 1); [|destruct (_ && _)]; by split).
  induction remaining as [|remaining IH]; intros op st; cbn [read_args_loop]; [intros [= <-]; apply Hend|].
  destruct (fetch_op tmod args op st) as [[[op' st1]|st1]|] eqn:Ef; [| |done]; cbn [mbind option_bind]; apply fetch_op_framed in Ef.
  2:{ by intros [= <-]. }
  destruct (_ =? op_value OP_SKIP); [intros [= <-]; etransitivity; [exact Ef|apply Hend]|].
  destruct (exec_code m regs op' st1) as [out|] eqn:Ex; [|done]. cbn [mbind option_bind].
  assert (same_frame st1 (match out with inl st' | inr st' => st' end)) as Hx.
  { unfold exec_code in Ex. destruct (op_code_of _) as [code|]; [by eapply exec_op_framed|].
    unfold next in Ex. injection Ex as <-. by split. }
  destruct out as [st2|st2]; [|intros [= <-]; by etransitivity].
  destruct (_ =? 1); [intros [= <-]; do 2 (etransitivity; [eassumption|]); apply Hend|].
  intros H. do 2 (etransitivity; [eassumption|]). by eapply IH.
Qed.

(** ** One call of a probe *)

Lemma maps_typed_frame maps maps' :
  maps_typed maps -> tm_ctx_regs maps' = tm_ctx_regs maps ->
  tm_sysenter_point_args maps' = tm_sysenter_point_args maps -> tm_sysexit_point_args maps' = tm_sysexit_point_args maps ->
  tm_uprobe_point_args maps' = tm_uprobe_point_args maps -> maps_typed maps'.
Proof. intros [H1 H2 H3 H4] E1 E2 E3 E4. split; [by rewrite E1|by rewrite E2|by rewrite E3|by rewrite E4]. Qed.

Lemma save_regs_typed pb regs id maps : maps_typed maps -> regs_typed regs -> maps_typed (save_regs pb regs id maps).
Proof.
  intros [H1 H2 H3 H4] Hr. split; try done. cbn. unfold map_update.
  destruct (tm_ctx_regs maps !! _); [by apply map_Forall_insert_2|].
  destruct (_ <? _)%nat; [by apply map_Forall_insert_2|done].
Qed.

Lemma del_regs_typed pb id maps : maps_typed maps -> maps_typed (del_regs pb id maps).
Proof. intros [H1 H2 H3 H4]. split; try done. cbn. by apply map_Forall_delete. Qed.

(** A run of the operations as a probe makes it. *)
Lemma read_args_probe tmod pb args regs event ctx maps rs n :
  probe_typed pb -> length (pa_op_key_list args) = MAX_OP_COUNT tmod -> regs_typed regs ->
  holds event rs -> length (ec_comm (ed_context event)) = TASK_COMM_LEN -> ctx_typed ctx -> ox_save_index ctx = u8 n ->
  maps_typed maps ->
  exists st new k,
    read_args tmod (pb_memory pb) args regs {| rn_event := event; rn_ctx := ctx; rn_maps := maps |} = Some st /\
    good (rs ++ new) k st /\ tagged n k new /\ Forall well_sized new /\
    length (ec_comm (ed_context (rn_event st))) = TASK_COMM_LEN /\ maps_typed (rn_maps st).
Proof.
  intros [Hm _ _ _] Hargs [Hregs Hwords] Hh Hcomm Hc Hi Hmaps. set (st0 := {| rn_event := event |}).
  destruct (read_args_loop_good tmod (pb_memory pb) args regs Hargs Hregs Hwords (MAX_OP_COUNT tmod)
    (tm_op_list (rn_maps st0) !! 0) rs n st0) as (st & E & k & new & Hg & Ht & Hw); [by split|].
  exists st, new, k. destruct (read_args_framed tmod (pb_memory pb) args regs st0 st E) as [F1 F2 F3 F4 F5].
  split_and!; [done|done|done|done|by rewrite F1|]. by apply (maps_typed_frame maps).
Qed.

(** An outcome: data in order, and every event submitted satisfies [P]. *)
Definition fine (out : option outcome) (P : Z -> list Z -> Prop) : Prop :=
  exists actions maps cpu, out = Some (actions, maps, cpu) /\ maps_typed maps /\ cpu_typed cpu /\
    forall id bytes, Submit id bytes ∈ actions -> P id bytes.

Lemma fine_nothing maps cpu P : maps_typed maps -> cpu_typed cpu -> fine (Some ([], maps, cpu)) P.
Proof. intros Hm Hc. exists [], maps, cpu. split_and!; [done|done|done|]. by intros id bytes H%elem_of_nil. Qed.

Lemma signals_submit filter args id bytes : Submit id bytes ∉ signals filter args.
Proof.
  unfold signals. rewrite !elem_of_app. intros [H|[H|H]]; destruct (0 <? _); apply list_elem_of_singleton in H || apply elem_of_nil in H; done.
Qed.

Lemma submit_well_formed ev id first new n k :
  holds ev (first ++ new) -> length (ec_comm (ed_context ev)) = TASK_COMM_LEN -> tagged n k new -> Forall well_sized new ->
  well_formed_event first n (events_perf_submit ev id).2.
Proof.
  intros Hh Hc Ht Hw. eexists _, new, k. split_and!; [|by apply submit_records|done|done]. by apply length_context_bytes.
Qed.

Lemma cpu_typed_run cpu event ctx0 ctx1 rs :
  holds event rs -> ctx_typed ctx0 -> ctx_typed ctx1 -> cpu_typed (cpu <| cm_event := event |> <| cm_op_ctx := (ctx0, ctx1) |>).
Proof. intros [Hl _ _ _] H0 H1. by split. Qed.

Lemma submit_holds ev id rs : holds ev rs -> holds (events_perf_submit ev id).1 rs.
Proof. intros [H1 H2 H3 H4]. by split. Qed.

(** The part shared by the entry of a system call and of a function. *)
Lemma entry_read tmod pb number args filter regs maps cpu :
  probe_typed pb -> maps_typed maps -> cpu_typed cpu -> regs_typed regs -> holds (cm_event cpu) [] ->
  length (ec_comm (ed_context (cm_event cpu))) = TASK_COMM_LEN -> length (pa_op_key_list args) = MAX_OP_COUNT tmod ->
  exists event st new k,
    save_origin number filter (pb_regs pb) (cm_event cpu) = Some event /\
    read_args tmod (pb_memory pb) args regs
      {| rn_event := event; rn_ctx := prepare_op_ctx (fst (cm_op_ctx cpu)) (cr_regs regs !!! 0%nat) 4; rn_maps := maps |} = Some st /\
    holds (rn_event st) (origin_records number filter (pb_regs pb) ++ new) /\ ctx_typed (rn_ctx st) /\ maps_typed (rn_maps st) /\
    length (ec_comm (ed_context (rn_event st))) = TASK_COMM_LEN /\ tagged 4 k new /\ Forall well_sized new.
Proof.
  intros Hpb Hmaps [_ [Hc _]] Hregs Hh Hcomm Hargs.
  destruct (save_origin_ok (cm_event cpu) number filter (pb_regs pb) Hh) as (event & -> & Hh1 & Hc1).
  destruct (read_args_probe tmod pb args regs event (prepare_op_ctx (fst (cm_op_ctx cpu)) (cr_regs regs !!! 0%nat) 4) maps
    (origin_records number filter (pb_regs pb)) 4) as (st & new & k & E & [Hg1 Hg2 _] & Ht & Hw & Hcm & Hmt); try done.
  - by rewrite Hc1.
  - apply prepare_op_ctx_typed; [done|]. apply regs_word_nonneg; [done|lia].
  - by exists event, st, new, k.
Qed.

Lemma sys_enter_read_fine pb sysno args filter maps cpu :
  probe_typed pb -> maps_typed maps -> cpu_typed cpu -> holds (cm_event cpu) [] ->
  length (ec_comm (ed_context (cm_event cpu))) = TASK_COMM_LEN ->
  length (pa_op_key_list args) = MAX_OP_COUNT MODULE_SYSCALL ->
  fine (sys_enter_read pb sysno args filter maps cpu)
    (fun id bytes => id = SYSCALL_ENTER /\ well_formed_event (origin_records sysno filter (pb_regs pb)) 4 bytes).
Proof.
  intros Hpb Hmaps Hcpu Hh Hcomm Hargs. unfold sys_enter_read. cbv zeta.
  pose proof (saved_registers_typed pb Hpb) as Hregs.
  pose proof (save_regs_typed pb _ SYSCALL_ENTER maps Hmaps Hregs) as Hmaps1.
  destruct (entry_read MODULE_SYSCALL pb sysno args filter _ _ cpu Hpb Hmaps1 Hcpu Hregs Hh Hcomm Hargs)
    as (event & st & new & k & -> & Hread & Hh1 & Hc1 & Hm1 & Hcm & Ht & Hw). cbn [mbind option_bind].
  rewrite Hread. cbn [mbind option_bind].
  pose proof (submit_well_formed (rn_event st) SYSCALL_ENTER _ _ _ _ Hh1 Hcm Ht Hw) as Hwf.
  pose proof (submit_holds (rn_event st) SYSCALL_ENTER _ Hh1) as Hh2.
  destruct (events_perf_submit (rn_event st) SYSCALL_ENTER) as [event' bytes]. cbn [fst snd] in *.
  destruct (negb _).
  - apply fine_nothing; [apply save_regs_typed; [done|by destruct Hregs]|].
    eapply cpu_typed_run; [done|by apply skip_typed|apply Hcpu].
  - eexists _, _, _. split_and!; [done|done|eapply cpu_typed_run; [done|done|apply Hcpu]|].
    intros id bs [H|H]%elem_of_cons; [by injection H as -> ->|]. by destruct (signals_submit _ _ _ _ H).
Qed.

Lemma stack_read_fine pb point_key args filter regs maps cpu :
  probe_typed pb -> maps_typed maps -> cpu_typed cpu -> regs_typed regs -> holds (cm_event cpu) [] ->
  length (ec_comm (ed_context (cm_event cpu))) = TASK_COMM_LEN ->
  length (pa_op_key_list args) = MAX_OP_COUNT MODULE_STACK ->
  fine (stack_read pb point_key args filter regs maps cpu)
    (fun id bytes => id = UPROBE_ENTER /\ well_formed_event (origin_records point_key filter (pb_regs pb)) 4 bytes).
Proof.
  intros Hpb Hmaps Hcpu Hregs Hh Hcomm Hargs. unfold stack_read. cbv zeta.
  destruct (entry_read MODULE_STACK pb point_key args filter regs maps cpu Hpb Hmaps Hcpu Hregs Hh Hcomm Hargs)
    as (event & st & new & k & -> & Hread & Hh1 & Hc1 & Hm1 & Hcm & Ht & Hw). cbn [mbind option_bind].
  rewrite Hread. cbn [mbind option_bind].
  pose proof (submit_well_formed (rn_event st) UPROBE_ENTER _ _ _ _ Hh1 Hcm Ht Hw) as Hwf.
  pose proof (submit_holds (rn_event st) UPROBE_ENTER _ Hh1) as Hh2.
  destruct (events_perf_submit (rn_event st) UPROBE_ENTER) as [event' bytes]. cbn [fst snd] in *.
  destruct (negb _).
  - apply fine_nothing; [done|]. eapply cpu_typed_run; [done|by apply skip_typed|apply Hcpu].
  - eexists _, _, _. split_and!; [done|done|eapply cpu_typed_run; [done|done|apply Hcpu]|].
    intros id bs [H|H]%elem_of_cons; [by injection H as -> ->|]. by destruct (signals_submit _ _ _ _ H).
Qed.

Lemma sys_exit_read_fine pb sysno args regs maps cpu :
  probe_typed pb -> maps_typed maps -> cpu_typed cpu -> regs_typed regs -> holds (cm_event cpu) [] ->
  length (ec_comm (ed_context (cm_event cpu))) = TASK_COMM_LEN ->
  length (pa_op_key_list args) = MAX_OP_COUNT MODULE_SYSCALL ->
  fine (sys_exit_read pb sysno args regs maps cpu)
    (fun id bytes => id = SYSCALL_EXIT /\ well_formed_event [Fixed 0 (le_bytes 4 sysno)] 1 bytes).
Proof.
  intros Hpb Hmaps [Hca [Hc0 Hc1]] Hregs Hh Hcomm Hargs. unfold sys_exit_read. cbv zeta.
  destruct (save_variable_ok (cm_event cpu) [] (le_bytes 4 sysno) 0 Hh) as (ev1 & -> & Hh1 & Hcm1);
    [room|rewrite length_le_bytes; unfold MAX_ELEMENT_SIZE; lia|]. cbn [mbind option_bind app] in *.
  destruct (read_args_probe MODULE_SYSCALL pb args regs ev1 (prepare_op_ctx (snd (cm_op_ctx cpu)) (cr_regs regs !!! 0%nat) 1) maps
    [Fixed 0 (le_bytes 4 sysno)] 1) as (st & new & k & -> & [Hg1 Hg2 Hgi] & Ht & Hw & Hcm & Hmt); try done.
  { by rewrite Hcm1. } { apply prepare_op_ctx_typed; [done|]. apply regs_word_nonneg; [done|lia]. }
  cbn [mbind option_bind]. destruct (negb _).
  { apply fine_nothing; [done|]. eapply cpu_typed_run; [done|done|by apply skip_typed]. }
  set (ret := le_bytes 8 _). unfold save_variable.
  destruct (save_to_submit_saved (rn_event st) _ (own ret) (Z.of_nat (length ret)) (ox_save_index (rn_ctx st)) Hg1)
    as (r & ev2 & E & Hs).
  { unfold ret. rewrite length_le_bytes. unfold MAX_ELEMENT_SIZE. lia. } { cbn. rewrite length_take. lia. }
  rewrite E. cbn [mbind option_bind]. apply save_to_submit_comm in E.
  assert (exists new' k', holds ev2 ([Fixed 0 (le_bytes 4 sysno)] ++ new') /\ tagged 1 k' new' /\ Forall well_sized new')
    as (new' & k' & Hh2 & Ht2 & Hw2).
  { destruct Hs as [[_ Hs]|[_ Hs]]; [|by exists new, k].
    eexists (new ++ [_]), (k + 1). rewrite app_assoc. split_and!; [exact Hs| |apply Forall_app; by repeat constructor].
    eapply tagged_app; [done|]. by apply tagged_one. }
  pose proof (submit_well_formed ev2 SYSCALL_EXIT _ _ _ _ Hh2 ltac:(by rewrite E) Ht2 Hw2) as Hwf.
  pose proof (submit_holds ev2 SYSCALL_EXIT _ Hh2) as Hh3.
  destruct (events_perf_submit ev2 SYSCALL_EXIT) as [event' bytes]. cbn [fst snd] in *.
  eexists _, _, _. split_and!; [done|done|by eapply cpu_typed_run|].
  intros id bs [= -> ->]%list_elem_of_singleton. done.
Qed.

(** ** Properties *)

(** C9: every call of a probe ends with its data in order and submits only
    well-formed events. Whatever the task is, whatever the maps configure and
    whatever memory holds, the three probes make no access outside an array and
    leave maps of the right shape; and an event they submit is the context followed
    by complete records: for an entry the number, the return address, the stack and
    the program counter and then the arguments under ascending tags from 4 on, for
    the exit of a system call its number and then arguments and result from 1 on. *)
Theorem probes_well_formed pb maps cpu :
  probe_typed pb -> maps_typed maps -> cpu_typed cpu ->
  let sysno := u32 (pt_syscallno (pb_regs pb)) in
  fine (raw_syscalls_sys_enter pb maps cpu)
    (fun id bytes => id = SYSCALL_ENTER /\ exists filter, tm_common_filter maps = Some filter /\
       well_formed_event (origin_records sysno filter (pb_regs pb)) 4 bytes) /\
  fine (raw_syscalls_sys_exit pb maps cpu)
    (fun id bytes => id = SYSCALL_EXIT /\ well_formed_event [Fixed 0 (le_bytes 4 sysno)] 1 bytes) /\
  (forall point_key, fine (probe_stack_warp pb point_key maps cpu)
    (fun id bytes => id = UPROBE_ENTER /\ exists filter, tm_common_filter maps = Some filter /\
       well_formed_event (origin_records point_key filter (pb_regs pb)) 4 bytes)).
Proof.
  intros Hpb Hmaps Hcpu sysno. pose proof (probe_begin_holds pb maps cpu Hpb Hcpu) as Hbegin.
  unfold raw_syscalls_sys_enter, raw_syscalls_sys_exit, probe_stack_warp. fold sysno.
  destruct (probe_begin pb maps cpu) as [go cpu1]. destruct Hbegin as [Hcpu1 Hgo]. split_and!.
  - destruct (_ || _); [by apply fine_nothing|]. destruct go; cbn [negb]; [|by apply fine_nothing].
    destruct (Hgo eq_refl) as [Hh Hcomm]. destruct (tm_sysenter_point_args maps !! sysno) as [args|] eqn:Ea; [|by apply fine_nothing].
    destruct (tm_common_filter maps) as [filter|]; [|by apply fine_nothing].
    destruct (sysno_filtered _ _ _); [by apply fine_nothing|].
    destruct (sys_enter_read_fine pb sysno args filter maps cpu1 Hpb Hmaps Hcpu1 Hh Hcomm (mt_enter _ Hmaps _ _ Ea))
      as (acts & maps' & cpu' & E & H1 & H2 & H3).
    exists acts, maps', cpu'. split_and!; [done|done|done|]. intros id bytes [-> ?]%H3. split; [done|]. by exists filter.
  - destruct (_ || _); [by apply fine_nothing|]. destruct go; cbn [negb]; [|by apply fine_nothing].
    destruct (Hgo eq_refl) as [Hh Hcomm]. destruct (tm_sysexit_point_args maps !! sysno) as [args|] eqn:Ea; [|by apply fine_nothing].
    destruct (tm_common_filter maps) as [filter|]; [|by apply fine_nothing].
    destruct (load_regs pb SYSCALL_ENTER maps) as [regs|] eqn:El; [|by apply fine_nothing].
    pose proof (del_regs_typed pb SYSCALL_ENTER maps Hmaps) as Hmaps1. cbv zeta.
    destruct (cr_flag regs =? 1); [by apply fine_nothing|]. destruct (sysno_filtered _ _ _); [by apply fine_nothing|].
    apply sys_exit_read_fine; try done; [exact (mt_regs _ Hmaps _ _ El)|exact (mt_exit _ Hmaps _ _ Ea)].
  - intros point_key. destruct go; cbn [negb]; [|by apply fine_nothing]. destruct (Hgo eq_refl) as [Hh Hcomm].
    destruct (tm_uprobe_point_args maps !! point_key) as [args|] eqn:Ea; [|by apply fine_nothing].
    destruct (tm_common_filter maps) as [filter|]; [|by apply fine_nothing].
    destruct (stack_regs pb point_key args maps) as [[regs maps1]|] eqn:Er; [|by apply fine_nothing].
    assert (regs_typed regs /\ maps_typed maps1) as [Hregs Hmaps1].
    { unfold stack_regs in Er. cbv zeta in Er. pose proof (saved_registers_typed pb Hpb) as Hs.
      destruct (_ =? 0); [by injection Er as <- <-|].
      destruct (_ =? _); [injection Er as <- <-; split; [done|by apply save_regs_typed]|].
      destruct (load_regs pb _ maps) as [regs'|] eqn:El; [|done]. injection Er as <- <-.
      split; [exact (mt_regs _ Hmaps _ _ El)|by apply del_regs_typed]. }
    destruct (stack_read_fine pb point_key args filter regs maps1 cpu1 Hpb Hmaps1 Hcpu1 Hregs Hh Hcomm (mt_uprobe _ Hmaps _ _ Ea))
      as (acts & maps' & cpu' & E & H1 & H2 & H3).
    exists acts, maps', cpu'. split_and!; [done|done|done|]. intros id bytes [-> ?]%H3. split; [done|]. by exists filter.
Qed.

(** ** Entries and exits *)

(** The thread and the kind of every event submitted. *)
Definition logged (pb : probe) (acts : list action) : list (Z * Z) :=
  flat_map (fun a => match a with Submit id _ => [(u32 (pb_pid_tgid pb), id)] | _ => [] end) acts.

(** The probes of the system-call module, in any order, on any thread and CPU. The
    log is what threads submitted, the latest first; the CPUs' maps are not looked
    at across calls. *)
Inductive sys_step : trace_maps * list (Z * Z) -> trace_maps * list (Z * Z) -> Prop :=
| step_enter pb maps cpu log acts maps' cpu' :
    raw_syscalls_sys_enter pb maps cpu = Some (acts, maps', cpu') ->
    sys_step (maps, log) (maps', logged pb acts ++ log)
| step_exit pb maps cpu log acts maps' cpu' :
    raw_syscalls_sys_exit pb maps cpu = Some (acts, maps', cpu') ->
    sys_step (maps, log) (maps', logged pb acts ++ log)
| step_fork pb parent child maps cpu log maps' cpu' :
    sched_process_fork pb parent child maps cpu = (maps', cpu') -> sys_step (maps, log) (maps', log).

(** How many events of a kind a thread submitted. *)
Definition submitted (tid id : Z) (log : list (Z * Z)) : nat := length (filter (fun e => e = (tid, id)) log).

(** An entry of the thread is open: submitted, and not exited. *)
Definition open_entry (tid : Z) (maps : trace_maps) : nat :=
  match tm_ctx_regs maps !! regs_key SYSCALL_ENTER tid with
  | Some regs => if cr_flag regs =? 1 then 0 else 1
  | None => 0
  end.

Definition paired (maps : trace_maps) (log : list (Z * Z)) : Prop :=
  forall tid, is_u32 tid -> (submitted tid SYSCALL_EXIT log + open_entry tid maps <= submitted tid SYSCALL_ENTER log)%nat.

(** The keys of two threads are different, and only the low half counts. *)
Lemma regs_key_value id tid : 0 <= id < 4294967296 -> regs_key id tid = id * 4294967296 + u32 tid.
Proof.
  intros Hid. unfold regs_key. assert (u32 id = id) as -> by zlia. rewrite Z.shiftl_mul_pow2 by lia.
  change (2 ^ 32) with 4294967296. assert (Z.land (id * 4294967296) (u32 tid) = 0) as Hl.
  { apply Z.bits_inj'. intros n Hn. rewrite Z.land_spec, Z.bits_0. destruct (Z.lt_ge_cases n 32).
    - change 4294967296 with (2 ^ 32). rewrite Z.mul_pow2_bits_low by done. done.
    - rewrite (testbit_high 32 (u32 tid)) by zlia. by rewrite andb_false_r. }
  by rewrite <- Z.add_lor_land, Hl, Z.add_0_r.
Qed.

Lemma regs_key_ne tid tid' : is_u32 tid -> u32 tid' <> tid -> regs_key SYSCALL_ENTER tid <> regs_key SYSCALL_ENTER tid'.
Proof. intros Ht Hne. rewrite !regs_key_value by (unfold SYSCALL_ENTER; lia). unfold SYSCALL_ENTER. zlia. Qed.

Lemma regs_key_low tid tid' : is_u32 tid -> u32 tid' = tid -> regs_key SYSCALL_ENTER tid' = regs_key SYSCALL_ENTER tid.
Proof. intros Ht <-. rewrite !regs_key_value by (unfold SYSCALL_ENTER; lia). unfold SYSCALL_ENTER. zlia. Qed.

(** A change at another thread's key is not seen. *)
Lemma open_entry_ext tid maps maps' :
  tm_ctx_regs maps' !! regs_key SYSCALL_ENTER tid = tm_ctx_regs maps !! regs_key SYSCALL_ENTER tid ->
  open_entry tid maps' = open_entry tid maps.
Proof. unfold open_entry. by intros ->. Qed.

Lemma paired_same maps maps' log : paired maps log -> tm_ctx_regs maps' = tm_ctx_regs maps -> paired maps' log.
Proof. intros H E tid Ht. rewrite (open_entry_ext tid maps maps'); [by apply H|]. by rewrite E. Qed.

Lemma logged_signals pb filter args : logged pb (signals filter args) = [].
Proof. unfold signals. by destruct (0 <? cf_signal filter), (0 <? cf_tsignal filter), (0 <? pa_signal args). Qed.

Lemma sys_enter_cases pb maps cpu acts maps' cpu' :
  raw_syscalls_sys_enter pb maps cpu = Some (acts, maps', cpu') ->
  (logged pb acts = [] /\ tm_ctx_regs maps' = tm_ctx_regs maps) \/
  (exists regs, cr_flag regs = 0 /\
     let once := map_update ctx_regs_entries (regs_key SYSCALL_ENTER (pb_pid_tgid pb)) regs (tm_ctx_regs maps) in
     (logged pb acts = [(u32 (pb_pid_tgid pb), SYSCALL_ENTER)] /\ tm_ctx_regs maps' = once) \/
     (logged pb acts = [] /\ tm_ctx_regs maps' =
        map_update ctx_regs_entries (regs_key SYSCALL_ENTER (pb_pid_tgid pb)) (regs <| cr_flag := 1 |>) once)).
Proof.
  unfold raw_syscalls_sys_enter. destruct (_ || _); [intros [= <- <- _]; by left|].
  destruct (probe_begin pb maps cpu) as [go cpu1]. destruct (negb go); [intros [= <- <- _]; by left|]. cbv zeta.
  destruct (tm_sysenter_point_args maps !! _) as [args|]; [|intros [= <- <- _]; by left].
  destruct (tm_common_filter maps) as [filter|]; [|intros [= <- <- _]; by left].
  destruct (sysno_filtered _ _ _); [intros [= <- <- _]; by left|]. unfold sys_enter_read. cbv zeta.
  destruct (save_origin _ _ _ _) as [event|]; [|done]. cbn [mbind option_bind].
  set (regs := saved_registers (pb_regs pb)). set (st0 := {| rn_event := event |}).
  destruct (read_args _ _ _ _ st0) as [st|] eqn:E; [|done]. cbn [mbind option_bind]. apply read_args_framed in E as [_ Hregs _ _ _].
  change (tm_ctx_regs (rn_maps st0)) with
    (map_update ctx_regs_entries (regs_key SYSCALL_ENTER (pb_pid_tgid pb)) regs (tm_ctx_regs maps)) in Hregs.
  destruct (events_perf_submit _ _) as [event' bytes]. destruct (negb _); intros [= <- <- _]; right; exists regs; (split; [done|]).
  - right. split; [done|]. cbn. by rewrite Hregs.
  - left. split; [|done]. change ((u32 (pb_pid_tgid pb), SYSCALL_ENTER) :: logged pb (signals filter args) = [(u32 (pb_pid_tgid pb), SYSCALL_ENTER)]).
    by rewrite logged_signals.
Qed.

Lemma sys_exit_cases pb maps cpu acts maps' cpu' :
  raw_syscalls_sys_exit pb maps cpu = Some (acts, maps', cpu') ->
  (logged pb acts = [] /\ tm_ctx_regs maps' = tm_ctx_regs maps) \/
  (exists regs, tm_ctx_regs maps !! regs_key SYSCALL_ENTER (pb_pid_tgid pb) = Some regs /\
     tm_ctx_regs maps' = delete (regs_key SYSCALL_ENTER (pb_pid_tgid pb)) (tm_ctx_regs maps) /\
     (logged pb acts = [] \/ (cr_flag regs <> 1 /\ logged pb acts = [(u32 (pb_pid_tgid pb), SYSCALL_EXIT)]))).
Proof.
  unfold raw_syscalls_sys_exit. destruct (_ || _); [intros [= <- <- _]; by left|].
  destruct (probe_begin pb maps cpu) as [go cpu1]. destruct (negb go); [intros [= <- <- _]; by left|]. cbv zeta.
  destruct (tm_sysexit_point_args maps !! _) as [args|]; [|intros [= <- <- _]; by left].
  destruct (tm_common_filter maps) as [filter|]; [|intros [= <- <- _]; by left].
  destruct (load_regs pb SYSCALL_ENTER maps) as [regs|] eqn:El; [|intros [= <- <- _]; by left].
  intros H. right. exists regs. split; [exact El|]. revert H.
  destruct (Z.eqb_spec (cr_flag regs) 1) as [|Hf]; [intros [= <- <- _]; split; [done|by left]|].
  destruct (sysno_filtered _ _ _); [intros [= <- <- _]; split; [done|by left]|]. unfold sys_exit_read. cbv zeta.
  destruct (save_variable _ _ _) as [event|]; [|done]. cbn [mbind option_bind]. set (st0 := {| rn_event := event |}).
  destruct (read_args _ _ _ _ st0) as [st|] eqn:E; [|done]. cbn [mbind option_bind]. apply read_args_framed in E as [_ Hregs _ _ _].
  change (tm_ctx_regs (rn_maps st0)) with (delete (regs_key SYSCALL_ENTER (pb_pid_tgid pb)) (tm_ctx_regs maps)) in Hregs.
  destruct (negb _); [intros [= <- <- _]; split; [done|by left]|].
  destruct (save_variable _ _ _) as [event2|]; [|done]. cbn [mbind option_bind].
  destruct (events_perf_submit _ _) as [event' bytes]. intros [= <- <- _]. split; [done|]. by right.
Qed.

Lemma submitted_cons tid id e log :
  submitted tid id (e :: log) = ((if decide (e = (tid, id)) then 1 else 0) + submitted tid id log)%nat.
Proof. unfold submitted. rewrite filter_cons. by case_decide. Qed.

(** The entry of a thread after its registers were kept, once or twice. *)
Lemma open_after_update tid maps maps' regs :
  tm_ctx_regs maps' = map_update ctx_regs_entries (regs_key SYSCALL_ENTER tid) regs (tm_ctx_regs maps) ->
  (open_entry tid maps' <= (if Z.eqb (cr_flag regs) 1 then 0 else 1))%nat.
Proof.
  intros E. unfold open_entry. rewrite E.
  destruct (map_update_lookup ctx_regs_entries (regs_key SYSCALL_ENTER tid) regs (tm_ctx_regs maps)) as [-> |[Hn ->]].
  - destruct (_ =? 1); lia.
  - rewrite Hn. destruct (_ =? 1); lia.
Qed.

Lemma sys_step_paired maps log maps' log' : paired maps log -> sys_step (maps, log) (maps', log') -> paired maps' log'.
Proof.
  intros Hp Hstep. inversion Hstep as [pb m0 cpu l0 acts m1 cpu' E|pb m0 cpu l0 acts m1 cpu' E|pb pa ch m0 cpu l0 m1 cpu' E]; subst.
  - apply sys_enter_cases in E as [[-> E]|(regs & Hflag & [[-> E]|[-> E]])]; [by eapply paired_same| |];
      intros tid Ht; specialize (Hp tid Ht); cbn [app]; rewrite ?submitted_cons.
    + destruct (decide (u32 (pb_pid_tgid pb) = tid)) as [Htid|Htid].
      * rewrite (regs_key_low tid _ Ht Htid) in E. apply open_after_update in E. rewrite Hflag in E. cbn in E.
        rewrite decide_False by (intros [=]). rewrite decide_True by congruence. lia.
      * rewrite !decide_False by (intros [=]; congruence). cbn. rewrite (open_entry_ext tid maps maps'); [exact Hp|].
        rewrite E. apply map_update_ne. by apply regs_key_ne.
    + destruct (decide (u32 (pb_pid_tgid pb) = tid)) as [Htid|Htid].
      * rewrite (regs_key_low tid _ Ht Htid) in E.
        set (once := map_update _ _ regs _) in E. set (mid := maps <| tm_ctx_regs := once |>).
        apply (open_after_update tid mid) in E. cbn in E. lia.
      * rewrite (open_entry_ext tid maps maps'); [exact Hp|]. rewrite E, !map_update_ne by (by apply regs_key_ne). done.
  - apply sys_exit_cases in E as [[-> E]|(regs & El & E & Hcases)]; [by eapply paired_same|].
    intros tid Ht. specialize (Hp tid Ht). destruct (decide (u32 (pb_pid_tgid pb) = tid)) as [Htid|Htid].
    + rewrite (regs_key_low tid _ Ht Htid) in E, El.
      assert (open_entry tid maps' = 0%nat) as -> by (unfold open_entry; by rewrite E, lookup_delete_eq).
      destruct Hcases as [-> |[Hflag ->]]; cbn [app]; [lia|].
      unfold open_entry in Hp. rewrite El, eqb_ne in Hp by done.
      rewrite !submitted_cons. rewrite decide_True by congruence. rewrite decide_False by (intros [=]). lia.
    + rewrite (open_entry_ext tid maps maps').
      * destruct Hcases as [-> |[_ ->]]; cbn [app]; [lia|]. rewrite !submitted_cons, !decide_False by (intros [=]; congruence). lia.
      * rewrite E. apply lookup_delete_ne. intros Ek. by apply (regs_key_ne tid (pb_pid_tgid pb) Ht Htid).
  - eapply paired_same; [exact Hp|]. revert E. unfold sched_process_fork. destruct (init_program_data _ _) as [ok event].
    destruct (ok =? 0); [by intros [= <- _]|]. cbv zeta. destruct (tm_child_parent maps !! _) as [pid|]; [|by intros [= <- _]].
    destruct (_ =? _); by intros [= <- _].
Qed.

(** C14: an exit event is only submitted for an entry event. From maps in which no
    entry is open, in any order of entries, exits and forks on any threads and CPUs,
    and even when the map of registers is full, no thread has submitted more exit
    events than entry events, and one less while its entry is still open; an entry
    that the filters of the arguments skipped has no exit event. *)
Theorem exits_follow_entries maps maps' log :
  (forall tid, is_u32 tid -> open_entry tid maps = 0%nat) -> rtc sys_step (maps, []) (maps', log) ->
  forall tid, is_u32 tid ->
    (submitted tid SYSCALL_EXIT log + open_entry tid maps' <= submitted tid SYSCALL_ENTER log)%nat.
Proof.
  intros H0 Hsteps. assert (paired maps []) as Hp by (intros tid Ht; by rewrite (H0 tid Ht)).
  remember (maps, []) as s eqn:Es. remember (maps', log) as s' eqn:Es'.
  revert maps maps' log Es Es' H0 Hp. assert (forall s s', rtc sys_step s s' -> paired s.1 s.2 -> paired s'.1 s'.2) as Hall.
  { clear. induction 1 as [s|[m l] [m1 l1] s' Hstep _ IH]; [done|]. intros Hp. apply IH. by eapply sys_step_paired. }
  intros maps maps' log -> -> _ Hp. exact (Hall _ _ Hsteps Hp).
Qed.

(** ** A traced call *)

(** A system call of root whose second argument is a text; the exit reads nothing. *)
Definition probe_maps : trace_maps :=
  empty_maps <| tm_op_list := read_ops |> <| tm_sysenter_point_args := {[ 63 := read_demo_args ]} |>
    <| tm_sysexit_point_args := {[ 63 := {| pa_enter_key := 0; pa_signal := 0; pa_op_count := 0; pa_op_key_list := replicate 256 0 |} ]} |>
    <| tm_common_filter := Some {| cf_is_32bit := 0; cf_trace_mode := 1; cf_trace_uid_group := GROUP_ROOT; cf_signal := 0; cf_tsignal := 0 |} |>.

Definition demo_probe_of (sysno : Z) : probe :=
  {| pb_task := 1; pb_flags := 0;
     pb_tasks := {| kt_thread_pid := fun _ => 2; kt_group_leader := fun _ => 1; kt_level := fun _ => 0; kt_number := fun _ _ => 300 |};
     pb_pid_tgid := 300; pb_uid_gid := 0; pb_comm := (0, replicate 16 0); pb_time := 5;
     pb_regs := {| pt_regs_words := cr_regs read_demo_regs; pt_sp := 0; pt_pc := 0; pt_syscallno := sysno |};
     pb_memory := text_memory |}.

Definition demo_probe : probe := demo_probe_of 63.

Definition demo_cpu : cpu_maps := {| cm_event := empty_event; cm_op_ctx := (zero_op_ctx, zero_op_ctx) |}.

Lemma demo_probe_typed : probe_typed demo_probe.
Proof. split; [exact text_memory_ok|done|exact read_demo_words|done]. Qed.

Lemma demo_maps_typed : maps_typed probe_maps.
Proof. split; cbn; intros i x H; [by rewrite lookup_empty in H|..|by rewrite lookup_empty in H]; apply lookup_singleton_Some in H as [_ <-]; done. Qed.

Lemma demo_cpu_typed : cpu_typed demo_cpu.
Proof. split; [apply length_replicate|]. split; by split; cbn. Qed.

Lemma probes_well_formed_witness :
  fine (raw_syscalls_sys_enter demo_probe probe_maps demo_cpu)
    (fun id bytes => id = SYSCALL_ENTER /\ exists filter, tm_common_filter probe_maps = Some filter /\
       well_formed_event (origin_records 63 filter (pb_regs demo_probe)) 4 bytes).
Proof.
  destruct (probes_well_formed demo_probe probe_maps demo_cpu demo_probe_typed demo_maps_typed demo_cpu_typed) as [H _].
  exact H.
Defined.

Lemma demo_call_log :
  match raw_syscalls_sys_enter demo_probe probe_maps demo_cpu with
  | Some (acts, maps, cpu) =>
      match raw_syscalls_sys_exit demo_probe maps cpu with
      | Some (acts', _, _) => logged demo_probe acts' ++ logged demo_probe acts
      | None => []
      end
  | None => []
  end = [(300, SYSCALL_EXIT); (300, SYSCALL_ENTER)].
Proof. vm_compute. reflexivity. Qed.

Lemma demo_call_steps :
  exists maps', rtc sys_step (probe_maps, []) (maps', [(300, SYSCALL_EXIT); (300, SYSCALL_ENTER)]).
Proof.
  generalize demo_call_log.
  destruct (raw_syscalls_sys_enter demo_probe probe_maps demo_cpu) as [[[acts maps] cpu]|] eqn:E1; [|done].
  destruct (raw_syscalls_sys_exit demo_probe maps cpu) as [[[acts' maps'] cpu']|] eqn:E2; [|done]. intros Hlog.
  exists maps'. eapply rtc_l; [exact (step_enter _ _ _ _ _ _ _ E1)|]. eapply rtc_l; [exact (step_exit _ _ _ _ _ _ _ E2)|].
  rewrite app_nil_r, Hlog. reflexivity.
Qed.

Lemma exits_follow_entries_witness :
  let log := [(300, SYSCALL_EXIT); (300, SYSCALL_ENTER)] in
  exists maps', (submitted 300 SYSCALL_EXIT log + open_entry 300 maps' <= submitted 300 SYSCALL_ENTER log)%nat.
Proof.
  intros log. destruct demo_call_steps as [maps' Hsteps]. exists maps'.
  apply (exits_follow_entries probe_maps maps' log); [|exact Hsteps|lia].
  intros tid _. reflexivity.
Defined.

(** ** A context that was not cleared *)

(** The context of the operations keeps the second half of an operation that the
    last call did not get to, since only its first eight bytes are cleared. Here a
    call with a long list runs out of rounds between the two halves: the next call
    on that CPU, of another kind, starts with the save left pending and submits an
    event with one record more, the register of the call before, than on a CPU with
    a fresh context. *)
Definition long_maps : trace_maps :=
  probe_maps <| tm_sysenter_point_args ::=
    <[64 := {| pa_enter_key := 0; pa_signal := 0; pa_op_count := 256; pa_op_key_list := replicate 256 1 |}]> |>.

Definition submitted_length (out : option outcome) : option nat :=
  match out with Some (Submit _ bytes :: _, _, _) => Some (length bytes) | _ => None end.

Lemma stale_context_changes_event :
  let long_call := demo_probe_of 64 in
  submitted_length (raw_syscalls_sys_enter demo_probe long_maps demo_cpu) = Some 108%nat /\
  match raw_syscalls_sys_enter long_call long_maps demo_cpu with
  | Some (_, maps, cpu) => submitted_length (raw_syscalls_sys_enter demo_probe maps cpu) = Some 117%nat
  | None => False
  end.
Proof. split; vm_compute; reflexivity. Qed.
