(* ===== verification/LoadSo.v ===== *)
(** * The stack unwinder (user/event/load_so.c)

    The client opens a library and calls two of its functions through pointers kept in
    global variables. The dynamic linker and the library are parameters that answer
    from the calls made so far, which are recorded. *)

From S2P Require Import Prelude.
From Stdlib Require Import String.

(** ** The dynamic linker (dlfcn.h) *)

Inductive dl_event :=
| Opened (path : string) (handle : Z)
| Open_failed (path : string)
| Found (handle : Z) (name : string) (address : Z)
| Not_found (handle : Z) (name : string)
| Closed (handle : Z)
| Invoked (name : string) (address : Z) (arguments : list Z)
| Freed (address : Z).

(** [dl_error]: [dlerror] has a message to report, which it does once. *)
Record dl_state := {
  dl_trace : list dl_event;
  dl_error : bool;
}.

#[export] Instance dl_state_shape : Shape dl_state := shape! Build_dl_state < dl_trace ; dl_error >.

(** The global variables; 0 is the null pointer. *)
Record unwinder := {
  g_handle : Z;
  g_fptr : Z;
  g_fptrv2 : Z;
}.

#[export] Instance unwinder_shape : Shape unwinder := shape! Build_unwinder < g_handle ; g_fptr ; g_fptrv2 >.

Section loader.
(** The handle of an opened library or 0; the address of a symbol, which may be 0, when
    the library has it; what a function of the library returns. *)
Context (open_answer : list dl_event -> string -> Z).
Context (symbol_answer : list dl_event -> Z -> string -> option Z).
Context (function_answer : list dl_event -> Z -> list Z -> Z).

Definition note (e : dl_event) (d : dl_state) : dl_state := d <| dl_trace ::= (fun t => t ++ [e])%list |>.

Definition dlopen (path : string) (d : dl_state) : Z * dl_state :=
  let handle := open_answer (dl_trace d) path in
  if handle =? 0 then (0, note (Open_failed path) d <| dl_error := true |>) else (handle, note (Opened path handle) d).

Definition dlsym (handle : Z) (name : string) (d : dl_state) : Z * dl_state :=
  match symbol_answer (dl_trace d) handle name with
  | Some address => (address, note (Found handle name address) d)
  | None => (0, note (Not_found handle name) d <| dl_error := true |>)
  end.

Definition dlerror (d : dl_state) : bool * dl_state := (dl_error d, d <| dl_error := false |>).

Definition dlclose (handle : Z) (d : dl_state) : dl_state := note (Closed handle) d.

(** ** Operations *)

(** [snprintf] into [full_path[256]]. *)
Definition full_path (dl_path : string) : string := substring 0 255 (dl_path ++ "/" ++ "libstackplz.so").

Definition init_stack_unwinder (dl_path : string) (g : unwinder) (d : dl_state) : Z * unwinder * dl_state :=
  if negb (g_handle g =? 0) then (0, g, d)
  else
    let '(handle, d) := dlopen (full_path dl_path) d in
    let g := g <| g_handle := handle |> in
    if g_handle g =? 0 then
      let '(_, d) := dlerror d in (-1, g, d)
    else
      let '(_, d) := dlerror d in
      let '(fptr, d) := dlsym (g_handle g) "StackPlz" d in
      let g := g <| g_fptr := fptr |> in
      let '(dlsym_error, d) := dlerror d in
      if dlsym_error : bool then
        let d := dlclose (g_handle g) d in
        (-1, g <| g_handle := 0 |>, d)
      else
        let '(_, d) := dlerror d in
        let '(fptrv2, d) := dlsym (g_handle g) "StackPlzV2" d in
        let g := g <| g_fptrv2 := fptrv2 |> in
        let '(dlsym_error, d) := dlerror d in
        if dlsym_error : bool then
          let d := dlclose (g_handle g) d in
          (-1, g <| g_handle := 0 |> <| g_fptr := 0 |>, d)
        else (0, g, d).

Definition close_stack_unwinder (g : unwinder) (d : dl_state) : unwinder * dl_state :=
  if negb (g_handle g =? 0) then
    let d := dlclose (g_handle g) d in
    (g <| g_handle := 0 |> <| g_fptr := 0 |> <| g_fptrv2 := 0 |>, d)
  else (g, d).

Definition invoke (name : string) (address : Z) (arguments : list Z) (d : dl_state) : Z * dl_state :=
  (function_answer (dl_trace d) address arguments, note (Invoked name address arguments) d).

Definition get_stack (map_buffer opt regs_buf stack_buf : Z) (g : unwinder) (d : dl_state) : Z * dl_state :=
  if g_fptr g =? 0 then (0, d) else invoke "StackPlz" (g_fptr g) [map_buffer; opt; regs_buf; stack_buf] d.

Definition get_stackv2 (pid opt regs_buf stack_buf : Z) (g : unwinder) (d : dl_state) : Z * dl_state :=
  if g_fptrv2 g =? 0 then (0, d) else invoke "StackPlzV2" (g_fptrv2 g) [pid; opt; regs_buf; stack_buf] d.

Definition free_stack_str (str : Z) (d : dl_state) : dl_state :=
  if negb (str =? 0) then note (Freed str) d else d.

(** ** Any sequence of calls *)

Inductive loader_call :=
| Init (dl_path : string)
| Close
| Get_stack (map_buffer opt regs_buf stack_buf : Z)
| Get_stackv2 (pid opt regs_buf stack_buf : Z)
| Free (str : Z).

(** The result of a call, 0 where it has none. *)
Definition loader_step (c : loader_call) (s : unwinder * dl_state) : Z * (unwinder * dl_state) :=
  let '(g, d) := s in
  match c with
  | Init dl_path => let '(r, g, d) := init_stack_unwinder dl_path g d in (r, (g, d))
  | Close => let '(g, d) := close_stack_unwinder g d in (0, (g, d))
  | Get_stack map_buffer opt regs_buf stack_buf =>
      let '(r, d) := get_stack map_buffer opt regs_buf stack_buf g d in (r, (g, d))
  | Get_stackv2 pid opt regs_buf stack_buf =>
      let '(r, d) := get_stackv2 pid opt regs_buf stack_buf g d in (r, (g, d))
  | Free str => (0, (g, free_stack_str str d))
  end.

Definition loader_start : unwinder * dl_state :=
  ({| g_handle := 0; g_fptr := 0; g_fptrv2 := 0 |}, {| dl_trace := []; dl_error := false |}).

Definition loader_run (calls : list loader_call) : unwinder * dl_state :=
  foldl (fun s c => (loader_step c s).2) loader_start calls.

(** ** What the record promises *)

(** The library that is open after a record, with the symbols found in it. *)
Definition library_step (l : option (Z * list (string * Z))) (e : dl_event) : option (Z * list (string * Z)) :=
  match e, l with
  | Opened _ handle, _ => Some (handle, [])
  | Found _ name address, Some (handle, symbols) => Some (handle, (name, address) :: symbols)
  | Closed _, _ => None
  | _, _ => l
  end.
Definition library (t : list dl_event) : option (Z * list (string * Z)) := foldl library_step None t.
#[local] Arguments library : simpl never.

(** A library is opened when none is open, looked into and closed when it is open, and
    a function is called at an address found in the library that is open. *)
Definition event_ok (t : list dl_event) (e : dl_event) : Prop :=
  match e with
  | Opened _ handle => library t = None /\ handle <> 0
  | Open_failed _ => library t = None
  | Found handle _ _ | Not_found handle _ | Closed handle => exists symbols, library t = Some (handle, symbols)
  | Invoked name address _ =>
      address <> 0 /\ exists handle symbols, library t = Some (handle, symbols) /\ (name, address) ∈ symbols
  | Freed address => address <> 0
  end.

Definition trace_ok (t : list dl_event) : Prop := forall t1 e t2, t = (t1 ++ e :: t2)%list -> event_ok t1 e.

(** The global variables describe the open library. *)
Definition globals_ok (g : unwinder) (t : list dl_event) : Prop :=
  match library t with
  | None => g_handle g = 0 /\ g_fptr g = 0 /\ g_fptrv2 g = 0
  | Some (handle, symbols) =>
      g_handle g = handle /\ handle <> 0 /\ ("StackPlz"%string, g_fptr g) ∈ symbols /\ ("StackPlzV2"%string, g_fptrv2 g) ∈ symbols
  end.

(** ** Proofs *)

Lemma library_snoc t e : library (t ++ [e]) = library_step (library t) e.
Proof. unfold library. by rewrite foldl_app. Qed.

Lemma trace_ok_snoc t e : trace_ok t -> event_ok t e -> trace_ok (t ++ [e]).
Proof.
  intros Ht He t1 e1 t2 E. destruct t2 as [|e2 t2 _] using rev_ind.
  - by apply app_inj_tail in E as [-> ->].
  - rewrite app_comm_cons, app_assoc in E. apply app_inj_tail in E as [-> _]. by eapply Ht.
Qed.

Record loader_inv (s : unwinder * dl_state) : Prop := {
  lo_globals : globals_ok s.1 (dl_trace s.2);
  lo_trace : trace_ok (dl_trace s.2);
}.

Lemma loader_inv_closed g d handle symbols :
  library (dl_trace d) = Some (handle, symbols) -> trace_ok (dl_trace d) ->
  g_handle g = 0 -> g_fptr g = 0 -> g_fptrv2 g = 0 -> loader_inv (g, dlclose handle d).
Proof.
  intros Hl Ht H1 H2 H3. split; cbn.
  - unfold globals_ok. by rewrite library_snoc, Hl.
  - apply trace_ok_snoc; [done|]. by exists symbols.
Qed.

(** Opening and looking up two symbols. *)
Lemma loader_init_inv dl_path g d :
  loader_inv (g, d) -> loader_inv ((init_stack_unwinder dl_path g d).1.2, (init_stack_unwinder dl_path g d).2).
Proof.
  intros [Hg Ht]. cbn in Hg, Ht. unfold init_stack_unwinder.
  destruct (Z.eqb_spec (g_handle g) 0) as [E|E]; cbn [negb]; [|by split].
  assert (library (dl_trace d) = None /\ g_fptr g = 0 /\ g_fptrv2 g = 0) as (Hl & Hf & Hf2).
  { unfold globals_ok in Hg. destruct (library _) as [[]|]; naive_solver. }
  unfold dlopen. destruct (Z.eqb_spec (open_answer (dl_trace d) (full_path dl_path)) 0) as [Eo|Eo].
  { split; cbn; [unfold globals_ok; by rewrite library_snoc, Hl|by apply trace_ok_snoc]. }
  set (handle := open_answer _ _) in *. cbn. rewrite (proj2 (Z.eqb_neq _ _)) by done. unfold dlsym. cbn.
  assert (library (dl_trace d ++ [Opened (full_path dl_path) handle]) = Some (handle, [])) as Hl1 by (by rewrite library_snoc).
  assert (trace_ok (dl_trace d ++ [Opened (full_path dl_path) handle])) as Ht1 by (by apply trace_ok_snoc).
  destruct (symbol_answer _ handle "StackPlz") as [a|]; cbn.
  2: { apply (loader_inv_closed _ {| dl_trace := _; dl_error := _ |} _ []); cbn; try done.
       - by rewrite library_snoc, Hl1.
       - apply trace_ok_snoc; [done|by exists []]. }
  assert (library ((dl_trace d ++ [Opened (full_path dl_path) handle]) ++ [Found handle "StackPlz" a]) =
    Some (handle, [("StackPlz"%string, a)])) as Hl2 by (by rewrite library_snoc, Hl1).
  assert (trace_ok ((dl_trace d ++ [Opened (full_path dl_path) handle]) ++ [Found handle "StackPlz" a])) as Ht2
    by (apply trace_ok_snoc; [done|by exists []]).
  destruct (symbol_answer _ handle "StackPlzV2") as [b|]; cbn.
  2: { eapply (loader_inv_closed _ {| dl_trace := _; dl_error := _ |}); cbn; try done.
       - by rewrite library_snoc, Hl2.
       - apply trace_ok_snoc; [done|by eexists]. }
  split; cbn.
  - unfold globals_ok. rewrite library_snoc, Hl2. cbn. split_and!; [done|done|by right; left|by left].
  - apply trace_ok_snoc; [done|by eexists].
Qed.

Lemma invoke_inv name address arguments g d :
  loader_inv (g, d) -> address <> 0 ->
  (forall handle symbols, library (dl_trace d) = Some (handle, symbols) -> (name, address) ∈ symbols) ->
  library (dl_trace d) <> None -> loader_inv (g, (invoke name address arguments d).2).
Proof.
  intros [Hg Ht] Ha Hs Hl. destruct (library (dl_trace d)) as [[handle symbols]|] eqn:E; [|done]. split; cbn.
  - unfold globals_ok in *. cbn in Hg. by rewrite library_snoc, E in *.
  - apply trace_ok_snoc; [done|]. split; [done|]. exists handle, symbols. split; [done|by eapply Hs].
Qed.

Lemma loader_step_inv c s : loader_inv s -> loader_inv (loader_step c s).2.
Proof.
  intros HI. destruct s as [g d], c as [path| |m o r t|p o r t|str]; cbn.
  - pose proof (loader_init_inv path g d HI) as H. by destruct (init_stack_unwinder path g d) as [[r g'] d'].
  - unfold close_stack_unwinder. destruct HI as [Hg Ht]. unfold globals_ok in Hg. cbn in Hg, Ht.
    destruct (Z.eqb_spec (g_handle g) 0) as [E|E]; cbn; [by split|].
    destruct (library (dl_trace d)) as [[handle symbols]|] eqn:El; [|naive_solver]. destruct Hg as (-> & _).
    by eapply loader_inv_closed.
  - unfold get_stack. destruct (Z.eqb_spec (g_fptr g) 0) as [E|E]; cbn; [done|]. apply invoke_inv; try done;
      destruct HI as [Hg _]; unfold globals_ok in Hg; cbn in Hg; [intros ?? El|intros El]; rewrite El in Hg; naive_solver.
  - unfold get_stackv2. destruct (Z.eqb_spec (g_fptrv2 g) 0) as [E|E]; cbn; [done|]. apply invoke_inv; try done;
      destruct HI as [Hg _]; unfold globals_ok in Hg; cbn in Hg; [intros ?? El|intros El]; rewrite El in Hg; naive_solver.
  - unfold free_stack_str. destruct (Z.eqb_spec str 0) as [E|E]; cbn; [done|]. destruct HI as [Hg Ht]. split; cbn.
    + unfold globals_ok in *. by rewrite library_snoc.
    + by apply trace_ok_snoc.
Qed.

(** C38: Over any sequence of initialisations, closings, unwindings and releases, and for
    any answers of the dynamic linker: a library is opened only when none is open and
    closed exactly once, a failed initialisation leaves none open, no function is called
    through a pointer into a library that was closed, at a null address or under another
    name, and a null pointer is not freed; the global variables describe the open library. *)
Theorem unwinder_is_safe calls :
  trace_ok (dl_trace (loader_run calls).2) /\ globals_ok (loader_run calls).1 (dl_trace (loader_run calls).2).
Proof.
  assert (loader_inv (loader_run calls)) as []; [|done]. unfold loader_run.
  induction calls as [|c calls IH] using rev_ind.
  - split; [done|]. intros [] *; discriminate.
  - rewrite foldl_app. by apply loader_step_inv.
Qed.

(** An initialisation answers 0 exactly when it leaves a library open. *)
Lemma init_answer dl_path g d :
  let '(r, g', _) := init_stack_unwinder dl_path g d in
  (r = 0 /\ g_handle g' <> 0) \/ (r = -1 /\ g_handle g' = 0).
Proof.
  unfold init_stack_unwinder. destruct (Z.eqb_spec (g_handle g) 0) as [E|E]; cbn [negb]; [|by left].
  unfold dlopen. destruct (Z.eqb_spec (open_answer (dl_trace d) (full_path dl_path)) 0) as [Eo|Eo]; cbn; [by right|].
  rewrite (proj2 (Z.eqb_neq _ _)) by done. unfold dlsym. cbn.
  destruct (symbol_answer _ _ "StackPlz"); cbn; [|by right]. destruct (symbol_answer _ _ "StackPlzV2"); cbn; [by left|by right].
Qed.

End loader.

(** A linker that always answers: the functions are called while the library is open,
    and not after it was closed. *)
Example loader_demo :
  dl_trace (loader_run (fun _ _ => 7) (fun _ _ name => Some (if String.eqb name "StackPlz" then 100 else 200)) (fun _ _ _ => 5)
    [Get_stack 1 2 3 4; Init "/data"; Get_stack 1 2 3 4; Init "/data"; Get_stackv2 9 2 3 4; Free 5; Close; Get_stackv2 9 2 3 4]).2 =
  [Opened "/data/libstackplz.so" 7; Found 7 "StackPlz" 100; Found 7 "StackPlzV2" 200;
   Invoked "StackPlz" 100 [1; 2; 3; 4]; Invoked "StackPlzV2" 200 [9; 2; 3; 4]; Freed 5; Closed 7].
Proof. reflexivity. Qed.
